(* ===== verification/_CoqProject ===== *)
-Q . S2P
Prelude.v
CppStd.v
Transport.v
HttpMessage.v
H1Codec.v
ChunkedBody.v
H3Codec.v
Config.v
Router.v
Stats.v
UpstreamPool.v
RelaySession.v
RelayTheorems.v
RelayTrace.v
Worker.v
QuicDemux.v
Steering.v
DemuxDemo.v
MiniQuic.v
HeaderSet.v
QuicStream.v
QuicTransport.v
H3Min.v
Exchange.v
QuicSession.v
EngineDestroy.v
QuicEngine.v
QuicPool.v
Backend.v
ProxyCore.v
QuicWorker.v
Server.v
StatsListener.v
Process.v
ProcessTheorems.v
UnitTests.v
