(* ===== verification/Prelude.v ===== *)
(** * ebpf-quic-proxy: a verification library

    A reverse proxy in C++ (src/src): clients speak HTTP/1.1 over TCP or HTTP/3
    over QUIC, backends likewise.  One ingress thread accepts TCP connections
    and demultiplexes QUIC datagrams; [n] workers each run an event loop with
    the client streams handed to them, one relay session per stream, and a
    private pool of backend connections.

    ** The parts and the files that model them

    - [Prelude], [CppStd]: byte strings, error codes, shared tactics, and the
      parts of the C++ standard library the program uses (strings, strtoul,
      to_string, getline, stream extraction), executable.
    - [Transport] (transport/itransport_stream.h, itransport_session.h,
      tcp_transport): the stream interface is the class [TransportStream]; what
      a reader or writer may rely on is [TransportStreamOk].  The TCP transport
      is an instance over an asio socket ([AsioSocket], a parameter).
      [script_stream] is a concrete stream for evaluation.
    - [HttpMessage] (codec/http_message): [HeaderMap], heads, the three body
      sources (class [BodySource], laws [BodySourceOk]), the pump loop.
    - [H1Codec], [ChunkedBody] (codec/h1_codec): parsing over any stream,
      body-source selection, keep-alive, serialisation; the chunked decoder.
    - [H3Codec] (codec/h3_codec): QUIC varints, the literal header block, heads
      to and from header lists, the four codec operations.
    - [Config] (config), [Router] (proxy/router), [Stats] (proxy/stats).
    - [UpstreamPool] (proxy/upstream_pool): each operation returns the new pool
      and the calls it makes ([effect]); [step] interleaves connects,
      completions, releases and connection closes for any number of clients.
    - [RelaySession], [RelayTheorems] (proxy/relay_session): the members are a
      record; the completions in flight are explicit ([pending], one [cont] per
      callback with what it captures), calls to the outside are recorded in
      [log]; [step] lets completions, the idle timer and a server stop happen
      in any order; dereferencing a null stream is [crashed].
    - [RelayTrace], [Worker]: the composition of any number of relays with the
      pool they share.  [RelayTrace] reads off a session's log what it does to
      the pool; [Worker] carries these calls out on the pool and delivers the
      pool's answers, in any order.
    - [QuicDemux] (transport/quic_demux and the connection-id callbacks of
      transport/quic_transport): routing of datagrams to workers, the receive
      loop with start and stop, batched sends.
    - [Steering] (ebpf/quic_steer.bpf.c, ebpf/steer_loader.c): the kernel-side
      steering of datagrams to workers, every packet read checked, and the
      loader that tries a classic filter in its place.
    - [DemuxDemo], [MiniQuic], [H3Min] (examples/): the demultiplexer prototype,
      the miniature engine with its application on an explicit heap, and the
      minimal HTTP/3 server around lsquic.
    - [HeaderSet] (transport/quic_transport, [QuicH3HeaderSet] and the HSI
      callbacks): the buffer lsquic decodes HTTP/3 headers into.
    - [QuicStream] (transport/quic_transport, [QuicTransportStream]): read,
      write queue, header blocks, shutdown, close and reset.
    - [QuicTransport]: that stream driven by lsquic's events, as an instance of
      [TransportStream] that keeps the laws of [TransportStreamOk].
    - [Exchange] (codec/icodec.h with both codecs): the codec interface as a
      record, its two instances and the choice between them; a request and a
      response taken through both.
    - [QuicSession] (transport/quic_transport, [QuicTransportSession] and the
      callbacks of [lsquic_stream_if]): sessions and stream objects on an
      explicit heap, with lsquic's context pointers, self-references and the
      shared pointers others keep; a use of a freed object is [None].
    - [EngineDestroy] (transport/quic_transport): the destructors of the engines,
      for every order in which lsquic may end its streams and connections.
    - [QuicEngine] (transport/quic_transport): Module [Server]
      ([QuicServerEngine]), Module [Client] ([QuicClientEngine]), Module [Tls]
      (the TLS contexts); the tick timer both engines share.
    - [QuicPool]: the pool of [UpstreamPool] and the session objects of
      [QuicSession] run together: the pool's calls are carried out on the
      objects, lsquic's events run the pool's handlers.
    - [Backend]: [Worker] and [QuicPool] in one: the relays, the pool they share
      and the session and stream objects of its client engine.
    - [ProxyCore] (proxy/proxy_core): a worker, with its relays and its weak
      references to them.
    - [QuicWorker]: a worker and its QUIC engine run together: lsquic's
      callbacks start the relays, the relays use and drop their stream objects,
      the shutdown tasks reach both.
    - [Server] (proxy/reverse_proxy_server): the threads as FIFO queues of
      posted tasks, the accept handler, stop and the shutdown sequence, composed
      with the workers and their relays into one transition system; signals,
      the destructor and [main].
    - [StatsListener] (proxy/reverse_proxy_server, [stats_accept_loop]): the
      loopback listener that serves the counters.
    - [Process], [ProcessTheorems] (proxy/reverse_proxy_server and what it owns):
      the whole process.  Its start, given memory and threads, with what can
      fail there: the address, the sockets, the TLS contexts, the engines of the
      workers and of their pools; the server of [Server] with workers that are the workers of [QuicWorker], the
      receive loop of [QuicDemux] and the stats port; the threads, [wait] and the
      destructor.
    - [UnitTests] (tests/): the test cases of the project, each an evaluation of
      the definitions that model the code under test.

    ** What the theorems show

    - Wire formats: heads written by the HTTP/1 codec parse back to themselves
      whatever follows them; the HTTP/3 header lists, the varints and the stats
      page round-trip; a configuration document is loaded as it reads, with the
      defaults for what it leaves out, or refused; QPACK decoding stays in its
      buffer and keeps the wire order; parsing depends only on the bytes, not on
      how they were segmented; a request is forwarded as the head that was parsed
      and the announced bytes, which is what was received when its head has the
      form the serialiser writes.
    - Across protocols: an HTTP/1.1 request reaches an HTTP/3 backend as one
      header block of its end-to-end fields, the body and a FIN; the response of
      an HTTP/3 backend, any header list whose fields fit on lines, reads back at
      an HTTP/1.1 client field by field, with the body behind it.
    - Bodies: the pump terminates and copies exactly the body; a
      [Content-Length] body leaves its connection at the next message; which
      body bytes are lost when they arrive with the headers.
    - Sessions: the phase determines what is in flight; every backend stream is
      released or shut down exactly once; at most one retry, of bodiless
      requests only; with a timeout the idle timer is always armed; counters
      balance; a response is relayed, and what follows it on every branch: the
      next request, the bridge or the end of the client; a session that winds
      down asks for no further request and comes to its end, except for the data
      it still moves; which target a CONNECT or absolute-form request
      reaches.
    - Pool: no connection is shared, idle queues are bounded, every connect is
      answered once (or lost to an exception), the QUIC reuse table is
      sound, round robin is fair within a group.  With the
      engine's objects: a pooled session is alive, a stream goes to the request
      it was opened for, a close is reported under its endpoint.
    - Worker: across all sessions and the pool a backend stream has one user;
      a session that waits for a connection has its callback with the pool; the
      sessions keep the pool's contract, which the pool's model assumes of its
      clients, so that the pool can carry out every call they make; with HTTP/3
      backends this goes down to the objects of the client engine: a relay never
      uses a backend stream object that is gone, and each call on one is carried
      out unless it shuts down a stream lsquic has closed, which passes lsquic a
      null handle.  Messages queued on a QUIC stream leave it in order, each is
      reported once, and while one waits lsquic is asked to call back.
    - QUIC objects: no lsquic callback uses a dangling context pointer, context
      pointers are cleared before lsquic frees a connection, client sessions are
      freed with their connections; GOAWAY and CONNECTION_CLOSE go to exactly
      the live connections; the engines keep ticking at least twice a second and
      keep one receive per socket; a connect delivers a session for the endpoint
      asked for; destroying an engine leaves no connection, no server session
      and no stream object but those relays hold, makes exactly one call for each
      pending completion and close handler, and is therefore defined, when its
      owner's members are gone, only if there is none.  In a worker every client
      stream has its relay and its object, and the drain task reaches every relay
      and every connection.
    - Steering: the kernel program reads only within the packet; were an IPv4
      header in its view, it would select the worker the user-space demultiplexer
      selects for every packet with a generated id; either way it passes none.
    - Ingress and server: datagrams reach the worker that owns the connection;
      sockets are handed to workers in turn, once; shutdown happens in order,
      reaches every relay, and is never held up.
    - Process: it starts completely or not at all; in it the server, each worker
      with its engine and the stats port behave as in their own models, so what
      is proved of these holds of it; no worker is ever stuck on a task or a
      datagram, and the shutdown tasks reach every relay and every live QUIC
      connection; after [stop] it exits, never before the event loops are
      stopped; what its destructor's end of the engines leaves and calls.
    - Deviations, stated as theorems about the code as it is: the chunked
      decoder never decodes, interleaved groups starve an endpoint, callbacks
      after a teardown use a null backend, upstream QUIC sessions are never
      freed, an accept or a datagram received can survive shutdown, the steering
      program passes no packet, a response without framing is relayed on a
      connection that stays open, a client that resets its connection at the
      wrong moment ends the process, relays are called back while the engine of
      a half-destroyed worker ends, and others that are lemmas of their files.

    ** Conventions, bounds and fuel

    Machine integers are [Z] with the wrap-around written where it happens
    ([u8], [u16], [u64], [i32]).  Loops that read a stream take fuel: one more
    than the bytes still to be read is enough, and this is proved (each
    iteration consumes a byte or ends): [pump_body_correct] and
    [parse_request_segmentation] state that the loops return.  Concurrent parts
    are step relations with no bound on the number of clients, connections or
    steps.  Asynchronous calls of codecs
    and transports are modelled as functions of the stream's state; interleaving
    is modelled where sessions, pools, streams and the server meet it.

    ** Parameters

    The asio socket and resolver, lsquic (what it accepts at each call, the
    connection id it finds in a packet), the TOML parser (the document is the
    input), TLS, random numbers, the rendered uptime and the contents of
    uninitialised memory are arguments of the definitions, with their documented
    behaviour as hypotheses where a theorem needs it.

    ** Not modelled

    Socket options, the work of lsquic and BoringSSL themselves (lsquic is the
    events it delivers, in any order its documentation allows), the kernel's part
    of steering, logging and printing, and header declarations that only announce
    what the files above define.  The relays of [Process] complete in any way
    the outside may answer; [Backend] has the relays with the pool and the client
    engine that answer them, for one worker.  A worker of [Process] takes tasks
    and datagrams in any order, more than the one queue of its event loop allows.
    The destructor is modelled up to the end of the engines; what it does to the
    other members is implicit, and the order in which a worker's members go is a
    finding.  In [QuicPool] lsquic reports no null stream, since the callback
    that would receive it dereferences it (transport/quic_transport.cpp,
    [new_stream_cb]); the pool's own handling of a null stream is in
    [UpstreamPool].  The exception that a TCP stream's constructor throws when
    its peer is gone ends the process: [Server] and [Process] have that for the
    clients' sockets; for a backend's connect [UpstreamPool] has the exception
    and the callback that is lost with it, and goes on.  Callbacks are outputs:
    what a callback does is a later step, so a call made from inside one (a write
    from the completion of a write) is not nested in the model.  The store of the
    transport into the local array of [read_line_byte] after its frame is gone is
    not modelled; [ChunkedBody] has that its byte is not the one examined. *)

From Stdlib Require Export ZArith Lia.
From Stdlib Require Export Ascii.
From stdpp Require Export base tactics list strings gmap numbers.

#[global] Set Default Proof Using "Type".

(** ** Byte strings

    A [std::string], a [std::vector<char>] and a byte buffer are all lists of
    8-bit characters here; a literal is written [#"text"]. *)

Abbreviation bytes := (list ascii).

Declare Scope bytes_scope.
Delimit Scope bytes_scope with bytes.

Definition lit (s : string) : bytes := String.list_ascii_of_string s.

Notation "'#' s" := (lit s%string) (at level 1, s constr at level 0, format "'#' s") : bytes_scope.
Open Scope bytes_scope.

Definition CR : ascii := "013"%char.
Definition LF : ascii := "010"%char.
Definition SP : ascii := "032"%char.
Definition HT : ascii := "009"%char.
Definition COLON : ascii := ":"%char.
Definition CRLF : bytes := [CR; LF].

(** ** Machine integers: unsigned values kept in [Z], reduced modulo 2^w. *)

Definition u8  (z : Z) : Z := (z mod 2 ^ 8)%Z.
Definition u16 (z : Z) : Z := (z mod 2 ^ 16)%Z.
Definition u64 (z : Z) : Z := (z mod 2 ^ 64)%Z.
Definition ULONG_MAX : Z := (2 ^ 64 - 1)%Z.

(** Two's complement reading of the low 32 bits: the conversion to [int]. *)
Definition i32 (z : Z) : Z :=
  (let m := z mod 2 ^ 32 in if m <? 2 ^ 31 then m else m - 2 ^ 32)%Z.

(** ** Error codes: the [asio::error] values the sources test or report.
    A completed operation carries [option error_code]; [None] is [{}]. *)

Inductive error_code :=
  | eof
  | invalid_argument
  | not_found
  | host_unreachable
  | operation_not_supported
  | operation_aborted
  | connection_reset
  | message_size
  | not_connected
  | other_error (n : Z).

#[global] Instance error_code_eq_dec : EqDecision error_code.
Proof. solve_decision. Defined.

(** ** Automation *)

Create HintDb proxy discriminated.

(** Case analysis on every [match]/[if] of the goal and the hypotheses, then
    the injectivity and discrimination of constructors. *)
Ltac split_cases := repeat (case_match; simplify_eq/=; try done).

(** Unpack an invariant record: all its conjuncts into the context. *)
Ltac unpack := repeat match goal with
  | H : _ ∧ _ |- _ => destruct H
  | H : ∃ _, _ |- _ => destruct H
  | H : (_, _) = (_, _) |- _ => injection H; clear H; intros
  end; subst.

(** Right-nest every [++] and push it below [::]. *)
Ltac norm_app := repeat first [rewrite <- app_assoc | rewrite <- app_comm_cons].

(** Settle a closed decidable goal by evaluation. *)
Ltac by_eval := apply (bool_decide_unpack _); vm_compute; exact I.

(** ** Generic lemmas on lists and options *)

Section list_lemmas.
Context {A : Type}.
Implicit Types l k : list A.

Lemma take_app_le l k n : n ≤ length l → take n (l ++ k) = take n l.
Proof. intros. by rewrite take_app, (proj2 (Nat.sub_0_le _ _)), take_0, app_nil_r by done. Qed.

Lemma app_eq_take_drop l k m : l ++ k = m → l = take (length l) m ∧ k = drop (length l) m.
Proof. intros <-. by rewrite take_app_length, drop_app_length. Qed.

Lemma length_zero_nil l : length l = 0 → l = [].
Proof. by destruct l. Qed.

Lemma existsb_app_iff (p : A → bool) l k :
  existsb p (l ++ k) = existsb p l || existsb p k.
Proof. induction l as [|a l IH]; simpl; [done|]. by rewrite IH, orb_assoc. Qed.

End list_lemmas.
