(* ===== verification/CppStd.v ===== *)
(** * The parts of the C++ standard library the proxy uses

    [std::string] searching and cutting, the "C"-locale character classes,
    [std::strtoul]/[strtol], [std::to_string], [std::getline] and the
    formatted extractors of [std::istringstream], all as executable functions
    on byte strings, with the lemmas the components need. *)

From S2P Require Import Prelude.

(** ** Characters ("C" locale) *)

Definition code (c : ascii) : Z := Z.of_nat (nat_of_ascii c).

(** [std::tolower] *)
Definition tolower (c : ascii) : ascii :=
  if (65 <=? nat_of_ascii c) && (nat_of_ascii c <=? 90)
  then ascii_of_nat (nat_of_ascii c + 32) else c.

Definition lower_string (s : bytes) : bytes := map tolower s.

(** [std::isspace] *)
Definition is_space (c : ascii) : bool := Ascii.is_space c.

(** Value of a digit in bases up to 36; [None] when it is no digit of [base]. *)
Definition digit_val (base : Z) (c : ascii) : option Z :=
  let n := code c in
  let v := (if (48 <=? n) && (n <=? 57) then Some (n - 48)
            else if (65 <=? n) && (n <=? 90) then Some (n - 55)
            else if (97 <=? n) && (n <=? 122) then Some (n - 87)
            else None)%Z in
  match v with
  | Some d => if (d <? base)%Z then Some d else None
  | None => None
  end.

(** ** [std::string] searching *)

Fixpoint starts_with (p s : bytes) : bool :=
  match p, s with
  | [], _ => true
  | a :: p', b :: s' => bool_decide (a = b) && starts_with p' s'
  | _ :: _, [] => false
  end.

(** [s.find(needle)]; [None] is [npos]. *)
Fixpoint find_sub (needle s : bytes) : option nat :=
  if starts_with needle s then Some 0
  else match s with
       | [] => None
       | _ :: s' => S <$> find_sub needle s'
       end.

(** [s.find(c)] *)
Fixpoint find_char (c : ascii) (s : bytes) : option nat :=
  match s with
  | [] => None
  | x :: s' => if decide (x = c) then Some 0 else S <$> find_char c s'
  end.

(** [s.rfind(c)] *)
Fixpoint rfind_char (c : ascii) (s : bytes) : option nat :=
  match s with
  | [] => None
  | x :: s' => match rfind_char c s' with
               | Some i => Some (S i)
               | None => if decide (x = c) then Some 0 else None
               end
  end.

(** [s.find_first_not_of(set)] *)
Fixpoint find_first_not_of (set s : bytes) : option nat :=
  match s with
  | [] => None
  | x :: s' => if bool_decide (x ∈ set) then S <$> find_first_not_of set s' else Some 0
  end.

(** [s.find(needle) != npos] *)
Definition contains (needle s : bytes) : bool :=
  match find_sub needle s with Some _ => true | None => false end.

(** [if (!line.empty() && line.back() == '\r') line.pop_back();] *)
Definition strip_cr (line : bytes) : bytes :=
  match list.last line with
  | Some c => if decide (c = CR) then removelast line else line
  | None => line
  end.

(** [start = v.find_first_not_of(" \t"); if (start != npos) v = v.substr(start);] *)
Definition trim_leading (v : bytes) : bytes :=
  match find_first_not_of [SP; HT] v with
  | Some i => drop i v
  | None => v
  end.

(** ** [std::getline] over an [istringstream]

    [getline s] is the next line and the remaining input; [None] when no
    character is left (the stream then tests false). *)
Fixpoint getline (s : bytes) : option (bytes * bytes) :=
  match s with
  | [] => None
  | c :: s' =>
      if decide (c = LF) then Some ([], s')
      else match getline s' with
           | Some (l, r) => Some (c :: l, r)
           | None => Some ([c], [])
           end
  end.

(** The lines successive calls of [getline] return. *)
Fixpoint getlines (s : bytes) : list bytes :=
  match s with
  | [] => []
  | c :: s' =>
      if decide (c = LF) then [] :: getlines s'
      else match getlines s' with
           | l :: ls => (c :: l) :: ls
           | [] => [[c]]
           end
  end.

(** ** Formatted extraction *)

Fixpoint drop_while (p : ascii → bool) (s : bytes) : bytes :=
  match s with
  | [] => []
  | c :: s' => if p c then drop_while p s' else s
  end.

Fixpoint take_while (p : ascii → bool) (s : bytes) : bytes :=
  match s with
  | [] => []
  | c :: s' => if p c then c :: take_while p s' else []
  end.

(** [iss >> str]: skip white space, then take up to the next white space.  At
    the end of the input the target keeps its (empty) value. *)
Definition extract_token (s : bytes) : bytes * bytes :=
  let s1 := drop_while is_space s in
  let t := take_while (λ c, negb (is_space c)) s1 in
  (t, drop (length t) s1).

(** Digits of [base] from the front: accumulated value, how many, the rest. *)
Fixpoint scan_digits (base : Z) (s : bytes) (acc : Z) (n : nat) : Z * nat * bytes :=
  match s with
  | [] => (acc, n, [])
  | c :: s' => match digit_val base c with
               | Some d => scan_digits base s' (acc * base + d)%Z (S n)
               | None => (acc, n, s)
               end
  end.

(** An optional sign. *)
Definition scan_sign (s : bytes) : bool * bytes :=
  match s with
  | c :: s' => if decide (c = "-"%char) then (true, s')
               else if decide (c = "+"%char) then (false, s') else (false, s)
  | [] => (false, [])
  end.

(** The optional [0x] of base 16: skipped when a hexadecimal digit follows. *)
Definition skip_0x (base : Z) (s : bytes) : bytes :=
  match s with
  | z :: x :: h :: _ =>
      if bool_decide (base = 16%Z) && bool_decide (z = "0"%char) &&
         bool_decide (x = "x"%char ∨ x = "X"%char) &&
         match digit_val 16 h with Some _ => true | None => false end
      then drop 2 s else s
  | _ => s
  end.

(** [std::strtoul(s, &end, base)]: the value, and whether any digit was
    converted ([end != s]).  Saturates at [ULONG_MAX]; a minus sign negates in
    the unsigned type. *)
Definition strtoul (s : bytes) (base : Z) : Z * bool :=
  let s1 := drop_while is_space s in
  let '(neg, s2) := scan_sign s1 in
  let '(v, n, _) := scan_digits base (skip_0x base s2) 0 0 in
  if decide (n = 0) then (0%Z, false)
  else if (ULONG_MAX <? v)%Z then (ULONG_MAX, true)
  else (if neg then u64 (- v) else v, true).

(** [std::strtol(s, &end, 10)] on a 64-bit [long]; saturating. *)
Definition strtol (s : bytes) : Z :=
  let s1 := drop_while is_space s in
  let '(neg, s2) := scan_sign s1 in
  let '(v, n, _) := scan_digits 10 s2 0 0 in
  let w := (if neg then - v else v)%Z in
  Z.max (- 2 ^ 63) (Z.min (2 ^ 63 - 1) w).

(** [std::stoull(s)]: [None] when it throws ([std::invalid_argument] without
    digits, [std::out_of_range] above [ULLONG_MAX]). *)
Definition stoull (s : bytes) : option Z :=
  let s1 := drop_while is_space s in
  let '(neg, s2) := scan_sign s1 in
  let '(v, n, _) := scan_digits 10 s2 0 0 in
  if decide (n = 0) then None
  else if (ULONG_MAX <? v)%Z then None
  else Some (if neg then u64 (- v) else v).

(** [iss >> i] for an [int]: the stored value, the rest of the input and
    [failbit].  Without digits 0 is stored and the extraction fails; out of
    range the nearest bound is stored and it fails too.  At the end of the
    input nothing is stored ([dflt] stays). *)
Definition extract_int (s : bytes) (dflt : Z) : Z * bytes * bool :=
  match drop_while is_space s with
  | [] => (dflt, [], true)
  | s1 =>
      let '(neg, s2) := scan_sign s1 in
      let '(v, n, r) := scan_digits 10 s2 0 0 in
      let w := (if neg then - v else v)%Z in
      if decide (n = 0) then (0%Z, r, true)
      else if (w <? - 2 ^ 31)%Z then ((- 2 ^ 31)%Z, r, true)
      else if (2 ^ 31 - 1 <? w)%Z then ((2 ^ 31 - 1)%Z, r, true)
      else (w, r, false)
  end.

(** [std::to_string] of an integer: at most 20 digits for 64 bits. *)
Definition digit_char (d : Z) : ascii := ascii_of_nat (Z.to_nat (d + 48)).

Fixpoint dec_digits (fuel : nat) (n : Z) : bytes :=
  match fuel with
  | O => []
  | S f => (if (n <? 10)%Z then [] else dec_digits f (n / 10)%Z) ++ [digit_char (n mod 10)%Z]
  end.

Definition to_string (n : Z) : bytes :=
  if (n <? 0)%Z then "-"%char :: dec_digits 20 (- n) else dec_digits 20 n.

(** A word [iss >> str] reads back whole, and a string of decimal digits. *)
Definition is_token (t : bytes) : bool :=
  match t with [] => false | _ => forallb (λ c, negb (is_space c)) t end.

Definition all_digits (s : bytes) : Prop := Forall (λ c, ∃ d, digit_val 10 c = Some d) s.

(** ** Lemmas: searching *)

Lemma starts_with_app p k : starts_with p (p ++ k) = true.
Proof. induction p; simpl; [done|]. by rewrite bool_decide_true. Qed.

Lemma starts_with_prefix p s : starts_with p s = true ↔ p `prefix_of` s.
Proof.
  split.
  - revert s; induction p as [|a p IH]; intros s; simpl.
    + intros _. apply prefix_nil.
    + destruct s as [|b s]; [done|]. rewrite andb_true_iff, bool_decide_eq_true. intros [-> H].
      by apply prefix_cons, IH.
  - intros [k ->]. apply starts_with_app.
Qed.

(** [find] returns the first position where the needle occurs. *)
Lemma find_sub_Some n s i :
  find_sub n s = Some i →
  (∃ r, s = take i s ++ n ++ r) ∧ i + length n ≤ length s ∧
  ∀ j, j < i → starts_with n (drop j s) = false.
Proof.
  revert i; induction s as [|a s IH]; intros i; simpl.
  - destruct n; simpl; [|done]. intros [= <-]. split_and!; [by exists [] | lia | lia].
  - destruct (starts_with n (a :: s)) eqn:E.
    + intros [= <-]. apply starts_with_prefix in E as [k Hk].
      split_and!; [by exists k | | lia].
      apply (f_equal length) in Hk. rewrite length_app in Hk. simpl in *. lia.
    + intros (j & Hj & ->)%fmap_Some. destruct (IH _ Hj) as ((r & Hr) & Hl & Hmin). simpl.
      split_and!; [by exists r; f_equal | lia |].
      intros [|k] Hk; simpl; [done | apply Hmin; lia].
Qed.

Lemma find_sub_None n s : find_sub n s = None → ∀ j, starts_with n (drop j s) = false.
Proof.
  induction s as [|a s IH]; simpl.
  - destruct n; simpl; [done|]. intros _ [|j]; done.
  - destruct (starts_with n (a :: s)) eqn:E; [done|].
    intros H%fmap_None [|j]; simpl; [done | by apply IH].
Qed.

Lemma find_sub_cons_ne n c s :
  starts_with n (c :: s) = false → find_sub n (c :: s) = S <$> find_sub n s.
Proof. intros E. cbn [find_sub]. by rewrite E. Qed.

Lemma starts_with_app_r n s t : starts_with n s = true → starts_with n (s ++ t) = true.
Proof. rewrite !starts_with_prefix. apply prefix_app_r. Qed.

(** Appending input never moves an occurrence already found. *)
Lemma find_sub_app n s t i : find_sub n s = Some i → find_sub n (s ++ t) = Some i.
Proof.
  revert i; induction s as [|a s IH]; intros i; simpl.
  - destruct n; simpl; [|done]. intros [= <-]. by destruct t.
  - destruct (starts_with n (a :: s)) eqn:E.
    + intros [= <-]. change (a :: s ++ t) with ((a :: s) ++ t).
      by rewrite (starts_with_app_r n (a :: s) t E).
    + intros (j & Hj & ->)%fmap_Some. rewrite (IH _ Hj). simpl.
      destruct (starts_with n (a :: s ++ t)) eqn:E'; [|done].
      exfalso. apply starts_with_prefix in E' as [k Hk].
      destruct (find_sub_Some _ _ _ Hj) as (_ & Hl & _).
      assert (n `prefix_of` (a :: s)) as HP.
      { exists (drop (length n) (a :: s)).
        assert (n = take (length n) (a :: s)) as Hn.
        { rewrite <- (take_app_le (a :: s) t) by (simpl; lia).
          simpl app. rewrite Hk. by rewrite take_app_length. }
        rewrite Hn at 1. by rewrite take_drop. }
      apply starts_with_prefix in HP. congruence.
Qed.

Lemma find_char_app c a b : c ∉ a → find_char c (a ++ c :: b) = Some (length a).
Proof.
  induction a as [|x a IH]; simpl; intros Hc; [by rewrite decide_True|].
  rewrite decide_False by set_solver. rewrite IH by set_solver. done.
Qed.

Lemma find_char_None c s : find_char c s = None ↔ c ∉ s.
Proof.
  induction s as [|x s IH]; simpl; [set_solver|].
  case_decide; [subst; set_solver|]. rewrite fmap_None, IH. set_solver.
Qed.

Lemma find_char_Some c s i :
  find_char c s = Some i → s = take i s ++ (c :: drop (S i) s) ∧ c ∉ take i s ∧ i < length s.
Proof.
  revert i; induction s as [|x s IH]; intros i; simpl; [done|].
  case_decide as Hx; [intros [= <-]; subst; simpl; split_and!; [done|set_solver|lia]|].
  intros (j & Hj & ->)%fmap_Some. destruct (IH _ Hj) as (H1 & H2 & H3). simpl.
  split_and!; [by f_equal | set_solver | lia].
Qed.

Lemma rfind_char_None c s : rfind_char c s = None ↔ c ∉ s.
Proof.
  induction s as [|x s IH]; simpl; [set_solver|].
  destruct (rfind_char c s); [|case_decide]; subst; set_solver.
Qed.

Lemma rfind_char_app c a b : c ∉ b → rfind_char c (a ++ c :: b) = Some (length a).
Proof.
  intros Hb. induction a as [|x a IH]; simpl.
  - rewrite (proj2 (rfind_char_None c b) Hb). by rewrite decide_True.
  - by rewrite IH.
Qed.

Lemma rfind_char_Some c s i :
  rfind_char c s = Some i → s = take i s ++ (c :: drop (S i) s) ∧ c ∉ drop (S i) s ∧ i < length s.
Proof.
  revert i; induction s as [|x s IH]; intros i; simpl; [done|].
  destruct (rfind_char c s) as [j|] eqn:E.
  - intros [= <-]. destruct (IH j eq_refl) as (H1 & H2 & H3). simpl.
    split_and!; [by f_equal | done | lia].
  - case_decide; [|done]. intros [= <-]; subst. simpl.
    apply rfind_char_None in E. split_and!; [by rewrite drop_0 | by rewrite drop_0 | lia].
Qed.

Lemma strip_cr_app l : strip_cr (l ++ [CR]) = l.
Proof. unfold strip_cr. rewrite list.last_snoc, decide_True by done. apply removelast_last. Qed.

(** A value that starts with a visible character survives [": "] framing. *)
Lemma trim_leading_sp c v : c ∉ [SP; HT] → trim_leading (SP :: c :: v) = c :: v.
Proof.
  intros Hc. unfold trim_leading. cbn [find_first_not_of].
  rewrite bool_decide_true by set_solver. by rewrite bool_decide_false.
Qed.

(** ** Lemmas: lines *)

Lemma getlines_getline s :
  getlines s = match getline s with None => [] | Some (l, r) => l :: getlines r end.
Proof.
  induction s as [|c s IH]; simpl; [done|].
  case_decide; [done|]. rewrite IH.
  destruct (getline s) as [[l r]|]; done.
Qed.

Lemma getline_app l r : LF ∉ l → getline (l ++ LF :: r) = Some (l, r).
Proof.
  induction l as [|x l IH]; simpl; intros Hl; [done|].
  rewrite decide_False by set_solver. by rewrite IH by set_solver.
Qed.

Lemma getlines_app l r : LF ∉ l → getlines (l ++ LF :: r) = l :: getlines r.
Proof. intros. by rewrite getlines_getline, getline_app. Qed.

(** ** Lemmas: tokens *)

Lemma take_while_all p s : forallb p s = true → take_while p s = s.
Proof. induction s as [|c s IH]; simpl; [done|]. intros [-> ?]%andb_true_iff. by rewrite IH. Qed.

Lemma take_while_app p s c r : forallb p s = true → p c = false → take_while p (s ++ c :: r) = s.
Proof.
  intros Hs Hc. induction s as [|a s IH]; simpl in *; [by rewrite Hc|].
  apply andb_true_iff in Hs as [-> ?]. by rewrite IH.
Qed.

Lemma drop_while_token t r : is_token t = true → drop_while is_space (t ++ r) = t ++ r.
Proof. destruct t as [|c t]; simpl; [done|]. by intros [->%negb_true_iff _]%andb_true_iff. Qed.

Lemma extract_token_sp t r : is_token t = true → extract_token (t ++ SP :: r) = (t, SP :: r).
Proof.
  intros Ht. unfold extract_token. rewrite drop_while_token by done.
  rewrite take_while_app by (destruct t; done). by rewrite drop_app_length.
Qed.

Lemma extract_token_skip s : extract_token (SP :: s) = extract_token s.
Proof. done. Qed.

Lemma extract_token_end t : is_token t = true → extract_token t = (t, []).
Proof.
  intros Ht. unfold extract_token.
  pose proof (drop_while_token t [] Ht) as Hd. rewrite app_nil_r in Hd. rewrite Hd.
  rewrite take_while_all by (destruct t; done). by rewrite drop_all.
Qed.

(** ** Lemmas: decimal numbers *)

Lemma digit_val_char d : (0 ≤ d < 10)%Z → digit_val 10 (digit_char d) = Some d.
Proof.
  intros Hd. assert (d = 0 ∨ d = 1 ∨ d = 2 ∨ d = 3 ∨ d = 4 ∨ d = 5 ∨ d = 6 ∨ d = 7 ∨ d = 8 ∨ d = 9)%Z
    as HH by lia.
  by repeat destruct HH as [->|HH]; subst.
Qed.

Lemma digit_not_special c d : digit_val 10 c = Some d →
  is_space c = false ∧ c ≠ "-"%char ∧ c ≠ "+"%char ∧ c ≠ CR ∧ c ≠ LF ∧ c ≠ COLON.
Proof. by destruct c as [[] [] [] [] [] [] [] []]. Qed.

Lemma dec_digits_digits fuel n : (0 ≤ n)%Z → all_digits (dec_digits fuel n).
Proof.
  revert n; induction fuel as [|f IH]; intros n Hn; simpl; [constructor|].
  apply Forall_app. split.
  - case_match; [constructor|]. apply IH. apply Z.div_pos; lia.
  - constructor; [|constructor]. eexists. apply digit_val_char. apply Z.mod_pos_bound. lia.
Qed.

Lemma dec_digits_cons fuel n : fuel ≠ 0 → ∃ c s, dec_digits fuel n = c :: s.
Proof.
  destruct fuel as [|f]; [done|]. intros _. simpl.
  destruct (if (n <? 10)%Z then [] else dec_digits f (n / 10)) as [|c s]; eauto.
Qed.

Lemma scan_digits_app s r acc n : all_digits s →
  scan_digits 10 (s ++ r) acc n =
  (let '(v, m, _) := scan_digits 10 s acc n in scan_digits 10 r v m).
Proof.
  intros Hs. revert acc n. induction Hs as [|c s [d Hd] Hs IH]; intros acc n; simpl; [done|].
  by rewrite Hd.
Qed.

Lemma scan_dec_digits fuel n acc k : (0 ≤ n < 10 ^ Z.of_nat fuel)%Z →
  scan_digits 10 (dec_digits fuel n) acc k =
    ((acc * 10 ^ Z.of_nat (length (dec_digits fuel n)) + n)%Z, k + length (dec_digits fuel n), []).
Proof.
  revert n acc k. induction fuel as [|f IH]; intros n acc k Hn.
  { simpl in *. repeat f_equal; lia. }
  rewrite Nat2Z.inj_succ, Z.pow_succ_r in Hn by lia. simpl dec_digits.
  assert (0 ≤ n mod 10 < 10)%Z by (apply Z.mod_pos_bound; lia).
  destruct (Z.ltb_spec n 10).
  - simpl. rewrite digit_val_char by done. rewrite Z.mod_small by lia.
    repeat f_equal; lia.
  - assert (0 ≤ n / 10)%Z by (apply Z.div_pos; lia).
    rewrite scan_digits_app by (by apply dec_digits_digits).
    rewrite IH by (split; [done|]; apply Z.div_lt_upper_bound; lia).
    simpl. rewrite digit_val_char, length_app by done. simpl length.
    rewrite Nat2Z.inj_add, Z.pow_add_r by lia.
    change (10 ^ Z.of_nat 1)%Z with 10%Z. pose proof (Z.div_mod n 10).
    f_equal; f_equal; lia.
Qed.

(** The largest 20-digit budget covers every 64-bit value. *)
Lemma to_string_nonneg n : (0 ≤ n)%Z → to_string n = dec_digits 20 n.
Proof. intros. unfold to_string. by destruct (Z.ltb_spec n 0); [lia|]. Qed.

Lemma to_string_head n : (0 ≤ n)%Z →
  ∃ c s d, to_string n = c :: s ∧ digit_val 10 c = Some d.
Proof.
  intros Hn. rewrite to_string_nonneg by done.
  destruct (dec_digits_cons 20 n) as (c & s & E); [done|].
  pose proof (dec_digits_digits 20 n Hn) as Ha. rewrite E in Ha |- *.
  inversion Ha as [|?? [d Hd] ?]; subst. eauto.
Qed.

Lemma scan_sign_digit c s d : digit_val 10 c = Some d → scan_sign (c :: s) = (false, c :: s).
Proof.
  intros (_ & H1 & H2 & _)%digit_not_special. simpl. by rewrite !decide_False.
Qed.

Lemma skip_ws_digit c s d : digit_val 10 c = Some d → drop_while is_space (c :: s) = c :: s.
Proof. intros (H & _)%digit_not_special. simpl. by rewrite H. Qed.

Lemma scan_to_string n r : (0 ≤ n < 10 ^ 20)%Z →
  scan_digits 10 (to_string n ++ r) 0 0 = scan_digits 10 r n (length (to_string n)).
Proof.
  intros Hn. rewrite to_string_nonneg by lia.
  rewrite scan_digits_app by (apply dec_digits_digits; lia).
  by rewrite scan_dec_digits by (simpl; lia).
Qed.

(** [strtoul] reads back what [to_string] wrote. *)
Lemma strtoul_to_string n : (0 ≤ n ≤ ULONG_MAX)%Z → strtoul (to_string n) 10 = (n, true).
Proof.
  unfold ULONG_MAX. intros Hn.
  destruct (to_string_head n) as (c & s & d & E & Hd); [lia|].
  pose proof (scan_to_string n [] ltac:(lia)) as Hs.
  rewrite app_nil_r in Hs. unfold strtoul. rewrite E in Hs |- *.
  rewrite (skip_ws_digit _ _ _ Hd), (scan_sign_digit _ _ _ Hd).
  replace (skip_0x 10 (c :: s)) with (c :: s) by (by destruct s as [|? [|]]).
  rewrite Hs. simpl. unfold ULONG_MAX. by destruct (Z.ltb_spec (2 ^ 64 - 1) n); [lia|].
Qed.

Lemma strtol_to_string n : (0 ≤ n < 2 ^ 63)%Z → strtol (to_string n) = n.
Proof.
  intros Hn. destruct (to_string_head n) as (c & s & d & E & Hd); [lia|].
  pose proof (scan_to_string n [] ltac:(lia)) as Hs.
  rewrite app_nil_r in Hs. unfold strtol. rewrite E in Hs |- *.
  rewrite (skip_ws_digit _ _ _ Hd), (scan_sign_digit _ _ _ Hd), Hs. simpl. lia.
Qed.

Lemma extract_int_to_string n r dflt : (0 ≤ n < 2 ^ 31)%Z →
  extract_int (SP :: to_string n ++ SP :: r) dflt = (n, SP :: r, false).
Proof.
  intros Hn. destruct (to_string_head n) as (c & s & d & E & Hd); [lia|].
  pose proof (scan_to_string n (SP :: r) ltac:(lia)) as Hs.
  unfold extract_int. rewrite E in Hs |- *.
  change (drop_while is_space (SP :: (c :: s) ++ SP :: r)) with (drop_while is_space (c :: s ++ SP :: r)).
  rewrite (skip_ws_digit _ _ _ Hd). rewrite (scan_sign_digit _ _ _ Hd).
  change (c :: s ++ SP :: r) with ((c :: s) ++ SP :: r). rewrite Hs. simpl.
  repeat (case_match; try lia; try done).
Qed.

(** ** Lemmas: case folding *)

Lemma tolower_idemp c : tolower (tolower c) = tolower c.
Proof. by destruct c as [[] [] [] [] [] [] [] []]. Qed.

Lemma lower_string_idemp s : lower_string (lower_string s) = lower_string s.
Proof. unfold lower_string. rewrite map_map. apply map_ext, tolower_idemp. Qed.

#[export] Hint Resolve tolower_idemp lower_string_idemp starts_with_app : proxy.

(** ** Lemmas: ranges *)

Lemma digit_val_nonneg base c d : digit_val base c = Some d → (0 ≤ d)%Z.
Proof. unfold digit_val. intros. repeat (case_match; simplify_eq); lia. Qed.

Lemma scan_digits_nonneg base s acc n : (0 ≤ base)%Z → (0 ≤ acc)%Z →
  (0 ≤ fst (fst (scan_digits base s acc n)))%Z.
Proof.
  intros Hb. revert acc n. induction s as [|c s IH]; intros acc n Ha; simpl; [done|].
  destruct (digit_val base c) as [d|] eqn:E; [|done].
  apply digit_val_nonneg in E. apply IH. lia.
Qed.

(** The value always fits an [unsigned long]. *)
Lemma strtoul_range s base : (0 ≤ base)%Z → (0 ≤ fst (strtoul s base) ≤ ULONG_MAX)%Z.
Proof.
  intros Hb. unfold strtoul. destruct (scan_sign _) as [neg s2].
  pose proof (scan_digits_nonneg base (skip_0x base s2) 0 0 Hb ltac:(lia)) as Hs.
  destruct (scan_digits _ _ _ _) as [[v n] r]. simpl in Hs. unfold ULONG_MAX, u64 in *.
  case_decide; [simpl; lia|]. destruct (Z.ltb_spec (2 ^ 64 - 1) v); [simpl; lia|].
  destruct neg; simpl; [|lia]. pose proof (Z.mod_pos_bound (- v) (2 ^ 64)). lia.
Qed.

(** What follows the digits is ignored. *)
Definition no_digit (r : bytes) : Prop := match r with [] => True | c :: _ => digit_val 10 c = None end.

Lemma strtoul_to_string_rest n r : (0 ≤ n ≤ ULONG_MAX)%Z → no_digit r → strtoul (to_string n ++ r) 10 = (n, true).
Proof.
  unfold ULONG_MAX. intros Hn Hr. destruct (to_string_head n) as (c & s & d & E & Hd); [lia|].
  pose proof (scan_to_string n r ltac:(lia)) as Hs.
  assert (∀ k, scan_digits 10 r n k = (n, k, r)) as Hrest by (intros k; destruct r as [|c' r]; [done|]; simpl in *; by rewrite Hr).
  rewrite Hrest in Hs. unfold strtoul. rewrite E in Hs |- *. rewrite <- app_comm_cons in *.
  rewrite (skip_ws_digit _ _ _ Hd), (scan_sign_digit _ _ _ Hd).
  replace (skip_0x 10 (c :: s ++ r)) with (c :: s ++ r) by (by destruct (s ++ r) as [|? [|]]).
  rewrite Hs. simpl. unfold ULONG_MAX. by destruct (Z.ltb_spec (2 ^ 64 - 1) n); [lia|].
Qed.

Lemma not_in_to_string a n : (0 ≤ n)%Z → digit_val 10 a = None → a ∉ to_string n.
Proof.
  intros Hn Ha Hin. rewrite to_string_nonneg in Hin by done.
  pose proof (dec_digits_digits 20 n Hn) as Hd. apply list_elem_of_In in Hin.
  unfold all_digits in Hd. rewrite List.Forall_forall in Hd. destruct (Hd _ Hin) as [d Hdv]. congruence.
Qed.
