(* ===== verification/Transport.v ===== *)
(** * Transport interfaces and the TCP transport

    [TransportStream] is the [ITransportStream] interface
    (src/src/transport/itransport_stream.h) seen through its completions: every
    [async_*] call is a function from the stream's state to the arguments its
    callback receives and the next state.  [TransportStreamOk] states what the
    interface promises its clients, and the codecs are proved against it.
    [TcpTransportStream] (src/src/transport/tcp_transport.{h,cpp}) implements
    it over an [asio] socket, which is a parameter ([AsioSocket]). *)

From S2P Require Import Prelude CppStd.

(** The arguments of a [ReadCallback]: [(ec, n)] with the [n] bytes stored. *)
Inductive read_result :=
  | ReadOk (data : bytes)
  | ReadErr (ec : error_code).

(** [enum class TransportProtocol] *)
Inductive TransportProtocol := TCP | QUIC.

#[global] Instance TransportProtocol_eq_dec : EqDecision TransportProtocol.
Proof. solve_decision. Defined.

(** [ITransportStream::HeaderList] *)
Abbreviation HeaderList := (list (bytes * bytes)).

(** [async_take_headers] and [async_send_headers] return a flag and may call
    their callback before they return: both are part of the result. *)
Record header_result (A : Type) := HeaderResult {
  hr_ok : bool;              (** the returned flag *)
  hr_called : option A;      (** the callback's arguments, when it was called *)
}.
Arguments HeaderResult {A} _ _.
Arguments hr_ok {A} _.
Arguments hr_called {A} _.

(** [class ITransportStream] *)
Class TransportStream (S : Type) := {
  stream_read : Z → S → read_result * S;
  stream_write : bytes → S → option error_code * S;
  stream_shutdown : S → option error_code * S;
  stream_take_headers : S → header_result (error_code + HeaderList) * S;
  stream_send_headers : HeaderList → S → header_result (option error_code) * S;
}.

(** What a client of the interface relies on: an ordered, reliable byte
    stream; at most [cap] bytes per read; [n == 0] and the [eof] error mark the
    end of the input; a completed write appends its bytes.  [stream_input] is
    the input still to be delivered, [stream_output] what was written. *)
Class TransportStreamOk (S : Type) `{TransportStream S} := {
  stream_input : S → bytes;
  stream_output : S → bytes;
  stream_read_ok cap s d s' :
    (0 < cap)%Z → stream_read cap s = (ReadOk d, s') →
    stream_input s = d ++ stream_input s' ∧ (Z.of_nat (length d) ≤ cap)%Z ∧
    stream_output s' = stream_output s;
  stream_read_end cap s s' :
    (0 < cap)%Z → stream_read cap s = (ReadOk [], s') → stream_input s = [];
  stream_read_eof cap s s' :
    (0 < cap)%Z → stream_read cap s = (ReadErr eof, s') →
    stream_input s = [] ∧ stream_input s' = [];
  stream_write_ok d s s' :
    stream_write d s = (None, s') →
    stream_output s' = stream_output s ++ d ∧ stream_input s' = stream_input s;
}.

(** The default implementations of the optional HTTP/3 operations. *)
Definition no_take_headers {S} (s : S) : header_result (error_code + HeaderList) * S :=
  (HeaderResult false None, s).
Definition no_send_headers {S} (_ : HeaderList) (s : S) : header_result (option error_code) * S :=
  (HeaderResult false None, s).

(** ** The [asio] socket: a parameter *)

Class AsioSocket (K : Type) := {
  sock_read_some : Z → K → read_result * K;
  sock_write_all : bytes → K → option error_code * K;   (** [asio::async_write] *)
  sock_shutdown_send : K → option error_code * K;
}.

Class AsioSocketOk (K : Type) `{AsioSocket K} := {
  sock_input : K → bytes;
  sock_output : K → bytes;
  sock_read_ok cap k d k' :
    (0 < cap)%Z → sock_read_some cap k = (ReadOk d, k') →
    sock_input k = d ++ sock_input k' ∧ (Z.of_nat (length d) ≤ cap)%Z ∧
    sock_output k' = sock_output k;
  sock_read_end cap k k' :
    (0 < cap)%Z → sock_read_some cap k = (ReadOk [], k') → sock_input k = [];
  sock_read_eof cap k k' :
    (0 < cap)%Z → sock_read_some cap k = (ReadErr eof, k') →
    sock_input k = [] ∧ sock_input k' = [];
  sock_write_ok d k k' :
    sock_write_all d k = (None, k') →
    sock_output k' = sock_output k ++ d ∧ sock_input k' = sock_input k;
}.

(** ** [TcpTransportStream], [TcpTransportSession] *)

Module Tcp.

Record TcpTransportStream (K : Type) := TcpStream {
  socket_ : K;
  id_ : bytes;
}.
Arguments TcpStream {K} _ _.
Arguments socket_ {K} _.
Arguments id_ {K} _.

(** [remote]: the peer's address, as it prints; [remote_endpoint] throws when the
    peer is gone. *)
Definition new_stream {K} (k : K) (remote : option bytes) : option (TcpTransportStream K) :=
  (λ addr, TcpStream k (#"tcp:" ++ addr)) <$> remote.

Definition stream_id {K} (t : TcpTransportStream K) : bytes := id_ t.

Section ops.
Context {K : Type} `{AsioSocket K}.

Definition async_read_some (cap : Z) (t : TcpTransportStream K) :
  read_result * TcpTransportStream K :=
  let '(r, k) := sock_read_some cap (socket_ t) in (r, TcpStream k (id_ t)).

Definition async_write_some (buf : bytes) (t : TcpTransportStream K) :
  option error_code * TcpTransportStream K :=
  let '(ec, k) := sock_write_all buf (socket_ t) in (ec, TcpStream k (id_ t)).

(** A socket the peer already closed is not an error. *)
Definition async_shutdown (t : TcpTransportStream K) :
  option error_code * TcpTransportStream K :=
  let '(ec, k) := sock_shutdown_send (socket_ t) in
  (if decide (ec = Some not_connected) then None else ec, TcpStream k (id_ t)).

#[global] Instance tcp_transport : TransportStream (TcpTransportStream K) := {|
  stream_read := async_read_some;
  stream_write := async_write_some;
  stream_shutdown := async_shutdown;
  stream_take_headers := no_take_headers;
  stream_send_headers := no_send_headers;
|}.

(** The TCP stream keeps the interface's promises when its socket does. *)
#[global, program] Instance tcp_transport_ok `{!AsioSocketOk K} :
  TransportStreamOk (TcpTransportStream K) := {|
  stream_input t := sock_input (socket_ t);
  stream_output t := sock_output (socket_ t);
|}.
Next Obligation.
  intros ? cap [k i] d s' Hc; simpl; unfold async_read_some; simpl.
  destruct (sock_read_some cap k) as [r k'] eqn:E. intros; simplify_eq/=.
  by eapply sock_read_ok.
Qed.
Next Obligation.
  intros ? cap [k i] s' Hc; simpl; unfold async_read_some; simpl.
  destruct (sock_read_some cap k) as [r k'] eqn:E. intros; simplify_eq/=.
  by eapply sock_read_end.
Qed.
Next Obligation.
  intros ? cap [k i] s' Hc; simpl; unfold async_read_some; simpl.
  destruct (sock_read_some cap k) as [r k'] eqn:E. intros; simplify_eq/=.
  by eapply sock_read_eof.
Qed.
Next Obligation.
  intros ? d [k i] s'; simpl; unfold async_write_some; simpl.
  destruct (sock_write_all d k) as [r k'] eqn:E. intros; simplify_eq/=.
  by apply sock_write_ok.
Qed.
End ops.

(** The session owns the connection's only stream; [close] drops it. *)
Record TcpTransportSession (K : Type) := TcpSession {
  stream_ : option (TcpTransportStream K);
  remote_addr_ : bytes;
}.
Arguments TcpSession {K} _ _.
Arguments stream_ {K} _.
Arguments remote_addr_ {K} _.

Definition protocol {K} (_ : TcpTransportSession K) : TransportProtocol := TCP.

Definition new_session {K} (k : K) (remote : option bytes) : option (TcpTransportSession K) :=
  (λ st, TcpSession (Some st) (stream_id st)) <$> new_stream k remote.

Definition remote_addr {K} (s : TcpTransportSession K) : bytes := remote_addr_ s.

(** The streams the registered callback receives: the sole one, at once. *)
Definition set_new_stream_cb {K} (s : TcpTransportSession K) : list (option (TcpTransportStream K)) :=
  [stream_ s].

Definition open_stream {K} (_ : TcpTransportSession K) : option (TcpTransportStream K) := None.

Definition close {K} (s : TcpTransportSession K) : TcpTransportSession K :=
  TcpSession None (remote_addr_ s).
End Tcp.

(** ** A scripted socket, used by the examples

    Received segments in order (an error repeats; the script's end is [eof]),
    the outcomes of the next writes (success when the list is empty). *)
Record script_socket := Script {
  sk_rx : list read_result;
  sk_tx : bytes;
  sk_wr : list (option error_code);
}.

Definition script_read (cap : Z) (k : script_socket) : read_result * script_socket :=
  match sk_rx k with
  | [] => (ReadErr eof, k)
  | ReadErr e :: _ => (ReadErr e, k)
  | ReadOk d :: rx =>
      let n := Z.to_nat cap in
      (ReadOk (take n d),
       Script (match drop n d with
               | [] => match d with [] => ReadOk d :: rx | _ => rx end
               | r => ReadOk r :: rx end) (sk_tx k) (sk_wr k))
  end.

Definition script_write (d : bytes) (k : script_socket) : option error_code * script_socket :=
  match sk_wr k with
  | Some e :: wr => (Some e, Script (sk_rx k) (sk_tx k) wr)
  | None :: wr => (None, Script (sk_rx k) (sk_tx k ++ d) wr)
  | [] => (None, Script (sk_rx k) (sk_tx k ++ d) [])
  end.

#[global] Instance script_asio : AsioSocket script_socket := {|
  sock_read_some := script_read;
  sock_write_all := script_write;
  sock_shutdown_send k := (None, k);
|}.

Fixpoint script_bytes (rx : list read_result) : bytes :=
  match rx with
  | ReadOk (c :: d) :: rx' => (c :: d) ++ script_bytes rx'
  | _ => []
  end.

#[global, program] Instance script_asio_ok : AsioSocketOk script_socket := {|
  sock_input k := script_bytes (sk_rx k);
  sock_output := sk_tx;
|}.
Next Obligation.
  intros cap [[|[d|e] rx] tx wr] r k' Hc; simpl; unfold script_read; simpl; intros; simplify_eq/=.
  split_and!; [|rewrite length_take; lia | done].
  destruct d as [|c d]; [by rewrite drop_nil, take_nil|].
  pose proof (take_drop (Z.to_nat cap) (c :: d)) as Htd.
  destruct (drop (Z.to_nat cap) (c :: d)) as [|c' d'] eqn:E.
  - rewrite app_nil_r in Htd. by rewrite Htd.
  - simpl. change (c' :: d' ++ script_bytes rx) with ((c' :: d') ++ script_bytes rx).
    by rewrite app_assoc, Htd.
Qed.
Next Obligation.
  intros cap [[|[d|e] rx] tx wr] k' Hc; simpl; unfold script_read; simpl; intros; simplify_eq/=.
  destruct d as [|c d]; [done|]. destruct (Z.to_nat cap) eqn:E; simplify_eq/=. lia.
Qed.
Next Obligation.
  intros cap [[|[d|e] rx] tx wr] k' Hc; simpl; unfold script_read; simpl; intros; by simplify_eq/=.
Qed.
Next Obligation.
  intros d [rx tx [|[e|] wr]] k'; simpl; unfold script_write; simpl; intros; by simplify_eq/=.
Qed.

(** The in-memory TCP stream of the examples. *)
Definition script_stream (rx : list read_result) : Tcp.TcpTransportStream script_socket :=
  Tcp.TcpStream (Script rx [] []) #"tcp:test".
