(* ===== verification/HttpMessage.v ===== *)
(** * The protocol-independent HTTP message (src/src/codec/http_message.{h,cpp})

    [HeaderMap], the request and response heads, the status helpers, and the
    body sources: [BodySource] is the interface, [StreamBodySource],
    [BufferBodySource] and [StreamEofBodySource] implement it, and
    [pump_body_to_stream] is proved against the interface alone. *)

From S2P Require Import Prelude CppStd Transport.

(** ** [HeaderMap]: insertion-ordered, case-insensitive keys *)

Module HeaderMap.

(** [std::vector<Entry> entries_] *)
Record t := Map { entries_ : list (bytes * bytes) }.

Definition empty_map : t := Map [].

Definition lower (s : bytes) : bytes := lower_string s.

Definition add (key value : bytes) (h : t) : t := Map (entries_ h ++ [(key, value)]).

(** [erase(remove_if(...))]: keep the entries with another key. *)
Definition remove (key : bytes) (h : t) : t :=
  let lk := lower key in
  Map (List.filter (λ e, negb (bool_decide (lower (fst e) = lk))) (entries_ h)).

Definition set (key value : bytes) (h : t) : t := add key value (remove key h).

Fixpoint get_in (lk : bytes) (es : list (bytes * bytes)) : option bytes :=
  match es with
  | [] => None
  | (k, v) :: es' => if decide (lower k = lk) then Some v else get_in lk es'
  end.

Definition get (key : bytes) (h : t) : option bytes := get_in (lower key) (entries_ h).

Fixpoint get_all_in (lk : bytes) (es : list (bytes * bytes)) : list bytes :=
  match es with
  | [] => []
  | (k, v) :: es' => if decide (lower k = lk) then v :: get_all_in lk es' else get_all_in lk es'
  end.

Definition get_all (key : bytes) (h : t) : list bytes := get_all_in (lower key) (entries_ h).

Definition entries (h : t) : list (bytes * bytes) := entries_ h.

Definition is_empty (h : t) : bool := match entries_ h with [] => true | _ => false end.

Fixpoint to_wire_in (es : list (bytes * bytes)) : bytes :=
  match es with
  | [] => []
  | (k, v) :: es' => k ++ #": " ++ v ++ CRLF ++ to_wire_in es'
  end.

Definition to_wire (h : t) : bytes := to_wire_in (entries_ h).

(** *** Lemmas *)

Lemma get_in_app lk a b :
  get_in lk (a ++ b) = match get_in lk a with Some v => Some v | None => get_in lk b end.
Proof. induction a as [|[k v] a IH]; simpl; [done|]. by case_decide. Qed.

Lemma get_all_in_app lk a b : get_all_in lk (a ++ b) = get_all_in lk a ++ get_all_in lk b.
Proof. induction a as [|[k v] a IH]; simpl; [done|]. case_decide; simpl; by rewrite IH. Qed.

Lemma get_head_all lk es : get_in lk es = head (get_all_in lk es).
Proof. induction es as [|[k v] es IH]; simpl; [done|]. by case_decide. Qed.

Lemma get_all_in_filter lk lk' es :
  get_all_in lk' (List.filter (λ e, negb (bool_decide (lower (fst e) = lk))) es) =
  if decide (lk = lk') then [] else get_all_in lk' es.
Proof.
  induction es as [|[k v] es IH]; simpl; [by case_decide|].
  repeat case_decide; repeat case_bool_decide; simplify_eq/=; rewrite ?decide_True, ?decide_False by done;
    by rewrite ?IH.
Qed.

Lemma get_all_remove k k' h :
  get_all k' (remove k h) = if decide (lower k = lower k') then [] else get_all k' h.
Proof. apply get_all_in_filter. Qed.

Lemma get_all_add k v k' h :
  get_all k' (add k v h) = get_all k' h ++ (if decide (lower k = lower k') then [v] else []).
Proof. unfold get_all, add. simpl. rewrite get_all_in_app. simpl. by case_decide. Qed.

Lemma get_all_set k v k' h :
  get_all k' (set k v h) = if decide (lower k = lower k') then [v] else get_all k' h.
Proof.
  unfold set. rewrite get_all_add, get_all_remove. case_decide; [done|]. by rewrite app_nil_r.
Qed.

Lemma get_get_all k h : get k h = head (get_all k h).
Proof. apply get_head_all. Qed.

Lemma get_set k v k' h : get k' (set k v h) = if decide (lower k = lower k') then Some v else get k' h.
Proof. rewrite !get_get_all, get_all_set. by case_decide. Qed.

Lemma get_add_other k v k' h : lower k ≠ lower k' → get k' (add k v h) = get k' h.
Proof. intros. by rewrite !get_get_all, get_all_add, decide_False, app_nil_r. Qed.

Lemma get_add_present k v k' h w : get k' h = Some w → get k' (add k v h) = Some w.
Proof.
  rewrite !get_get_all, get_all_add. destruct (get_all k' h); by simpl.
Qed.

(** Two maps are equivalent when every key reads the same values, whatever
    the spelling of the stored names and the interleaving of other keys. *)
#[global] Instance map_equiv : Equiv t := λ h1 h2, ∀ k, get_all k h1 = get_all k h2.

#[global] Instance map_equivalence : Equivalence (≡@{t}).
Proof. split; [by intros ?? | by intros ???? | intros ????? k; congruence]. Qed.

#[global] Instance add_proper k v : Proper ((≡) ==> (≡)) (add k v).
Proof. intros h1 h2 Hh k'. by rewrite !get_all_add, Hh. Qed.

#[global] Instance remove_proper k : Proper ((≡) ==> (≡)) (remove k).
Proof. intros h1 h2 Hh k'. by rewrite !get_all_remove, Hh. Qed.

#[global] Instance set_proper k v : Proper ((≡) ==> (≡)) (set k v).
Proof. intros h1 h2 Hh k'. by rewrite !get_all_set, Hh. Qed.

#[global] Instance get_proper k : Proper ((≡) ==> (=)) (get k).
Proof. intros h1 h2 Hh. by rewrite !get_get_all, Hh. Qed.

Lemma get_all_case k k' h : lower k = lower k' → get_all k h = get_all k' h.
Proof. unfold get_all. by intros ->. Qed.

Lemma to_wire_in_app a b : to_wire_in (a ++ b) = to_wire_in a ++ to_wire_in b.
Proof.
  induction a as [|[k v] a IH]; simpl; [done|]. rewrite IH. by norm_app.
Qed.
End HeaderMap.

(** ** Status codes *)

(** [enum class HttpStatus : int] *)
Inductive HttpStatus := OK | BadRequest | NotFound | BadGateway | ServiceUnavailable.

Definition status_value (s : HttpStatus) : Z :=
  match s with
  | OK => 200 | BadRequest => 400 | NotFound => 404 | BadGateway => 502 | ServiceUnavailable => 503
  end%Z.

Definition status_reason (s : HttpStatus) : bytes :=
  match s with
  | OK => #"OK"
  | BadRequest => #"Bad Request"
  | NotFound => #"Not Found"
  | BadGateway => #"Bad Gateway"
  | ServiceUnavailable => #"Service Unavailable"
  end.

Definition make_error_response (status : HttpStatus) (body : bytes) : bytes :=
  #"HTTP/1.1 " ++ to_string (status_value status) ++ #" " ++ status_reason status ++
  CRLF ++ #"Content-Type: text/plain" ++ CRLF ++ #"Content-Length: " ++
  to_string (Z.of_nat (length body)) ++ CRLF ++ CRLF ++ body.

(** ** Heads *)

Record HttpRequestHead := RequestHead {
  method : bytes;
  req_version : bytes;
  path : bytes;
  scheme : bytes;
  authority : bytes;
  absolute_target : bool;
  req_headers : HeaderMap.t;
  req_content_length : option Z;
}.

(** A default-constructed head. *)
Definition empty_request : HttpRequestHead :=
  RequestHead [] #"HTTP/1.1" [] [] [] false HeaderMap.empty_map None.

Record HttpResponseHead := ResponseHead {
  status_code : Z;
  reason : bytes;
  resp_version : bytes;
  resp_headers : HeaderMap.t;
  resp_content_length : option Z;
}.

Definition empty_response : HttpResponseHead :=
  ResponseHead 0 [] #"HTTP/1.1" HeaderMap.empty_map None.

Definition to_h1_head (r : HttpResponseHead) : bytes :=
  #"HTTP/1.1 " ++ to_string (status_code r) ++ #" " ++ reason r ++ CRLF ++
  HeaderMap.to_wire (resp_headers r) ++ CRLF.

(** ** Body sources *)

(** [class BodySource]: [body_read cap] is [async_read_some] with a buffer of
    [cap] bytes; [n == 0] means the body is exhausted. *)
Class BodySource (B : Type) := {
  body_read : Z → B → read_result * B;
  body_content_length : B → option Z;
}.

(** What a well-formed body source promises: the bytes it returns are, in
    order, the bytes it still had to give; it never overruns the buffer; an
    empty read means nothing is left; it stays well formed. *)
Class BodySourceOk (B : Type) `{BodySource B} := {
  body_wf : B → Prop;
  body_rest : B → bytes;
  body_read_ok cap b d b' :
    (0 < cap)%Z → body_wf b → body_read cap b = (ReadOk d, b') →
    body_rest b = d ++ body_rest b' ∧ (Z.of_nat (length d) ≤ cap)%Z ∧ body_wf b';
  body_read_end cap b b' :
    (0 < cap)%Z → body_wf b → body_read cap b = (ReadOk [], b') → body_rest b = [];
}.

(** *** [StreamBodySource]: a byte limit on a stream *)

Record StreamBodySource (S : Type) := StreamBody {
  sbs_stream_ : S;
  sbs_remaining_ : Z;
}.
Arguments StreamBody {S} _ _.
Arguments sbs_stream_ {S} _.
Arguments sbs_remaining_ {S} _.

Definition stream_body_read {S} `{TransportStream S} (cap : Z) (b : StreamBodySource S) :
  read_result * StreamBodySource S :=
  if (sbs_remaining_ b =? 0)%Z then (ReadOk [], b)
  else
    let sub := Z.min cap (sbs_remaining_ b) in
    match stream_read sub (sbs_stream_ b) with
    | (ReadErr ec, s) => (ReadErr ec, StreamBody s (sbs_remaining_ b))
    | (ReadOk d, s) =>
        let n := Z.of_nat (length d) in
        let n' := if (sbs_remaining_ b <? n)%Z then sbs_remaining_ b else n in
        (ReadOk (take (Z.to_nat n') d), StreamBody s (sbs_remaining_ b - n')%Z)
    end.

#[global] Instance stream_body_source {S} `{TransportStream S} : BodySource (StreamBodySource S) := {|
  body_read := stream_body_read;
  body_content_length b := Some (sbs_remaining_ b);
|}.

(** *** [BufferBodySource]: an in-memory buffer *)

Record BufferBodySource := BufferBody {
  bbs_data_ : bytes;
  bbs_read_pos_ : nat;
}.

Definition new_buffer_body (data : bytes) : BufferBodySource := BufferBody data 0.

Definition buffer_body_read (cap : Z) (b : BufferBodySource) : read_result * BufferBodySource :=
  let n := Z.to_nat (Z.min cap (Z.of_nat (length (bbs_data_ b) - bbs_read_pos_ b))) in
  (ReadOk (take n (drop (bbs_read_pos_ b) (bbs_data_ b))),
   BufferBody (bbs_data_ b) (bbs_read_pos_ b + n)).

#[global] Instance buffer_body_source : BodySource BufferBodySource := {|
  body_read := buffer_body_read;
  body_content_length b := Some (Z.of_nat (length (bbs_data_ b)));
|}.

(** *** [StreamEofBodySource]: until the end of the stream *)

Record StreamEofBodySource (S : Type) := StreamEofBody { sebs_stream_ : S }.
Arguments StreamEofBody {S} _.
Arguments sebs_stream_ {S} _.

Definition eof_body_read {S} `{TransportStream S} (cap : Z) (b : StreamEofBodySource S) :
  read_result * StreamEofBodySource S :=
  match stream_read cap (sebs_stream_ b) with
  | (ReadErr ec, s) => (if decide (ec = eof) then ReadOk [] else ReadErr ec, StreamEofBody s)
  | (ReadOk d, s) => (ReadOk d, StreamEofBody s)
  end.

#[global] Instance eof_body_source {S} `{TransportStream S} : BodySource (StreamEofBodySource S) := {|
  body_read := eof_body_read;
  body_content_length _ := None;
|}.

(** ** [pump_body_to_stream]

    Read up to 8192 bytes, write them, repeat until the source is exhausted or
    fails.  The result is the error the callback receives, the destination and
    the source; [None] only when the fuel is spent. *)
Fixpoint pump_body_to_stream {S B} `{TransportStream S} `{BodySource B}
  (fuel : nat) (stream : S) (body : B) : option (option error_code * S * B) :=
  match fuel with
  | O => None
  | Datatypes.S fuel' =>
      match body_read 8192 body with
      | (ReadErr ec, body') => Some (Some ec, stream, body')
      | (ReadOk [], body') => Some (None, stream, body')
      | (ReadOk d, body') =>
          match stream_write d stream with
          | (Some ec, stream') => Some (Some ec, stream', body')
          | (None, stream') => pump_body_to_stream fuel' stream' body'
          end
      end
  end.

(** ** The implementations keep the interface's promises *)

Section stream_body.
Context {S : Type} `{TransportStreamOk S}.

Lemma stream_body_read_ok cap (b : StreamBodySource S) d b' :
  (0 < cap)%Z → (0 ≤ sbs_remaining_ b)%Z → stream_body_read cap b = (ReadOk d, b') →
  (Z.of_nat (length d) ≤ cap)%Z ∧ (Z.of_nat (length d) ≤ sbs_remaining_ b)%Z ∧
  sbs_remaining_ b' = (sbs_remaining_ b - Z.of_nat (length d))%Z ∧
  stream_input (sbs_stream_ b) = d ++ stream_input (sbs_stream_ b').
Proof.
  destruct b as [s r]; unfold stream_body_read; simpl. intros Hc Hr.
  destruct (Z.eqb_spec r 0); [intros [= <- <-]; simpl; split_and!; (done || lia)|].
  destruct (stream_read _ s) as [[d0|e] s'] eqn:E; [|done].
  apply stream_read_ok in E as (Hin & Hlen & _); [|lia].
  destruct (Z.ltb_spec r (Z.of_nat (length d0))); [lia|].
  rewrite Nat2Z.id, firstn_all. intros [= <- <-]; simpl. split_and!; (done || lia).
Qed.

Lemma stream_body_read_end cap (b : StreamBodySource S) b' :
  (0 < cap)%Z → (0 ≤ sbs_remaining_ b)%Z → stream_body_read cap b = (ReadOk [], b') →
  sbs_remaining_ b = 0%Z ∨ stream_input (sbs_stream_ b) = [].
Proof.
  destruct b as [s r]; unfold stream_body_read; simpl. intros Hc Hr.
  destruct (Z.eqb_spec r 0); [by left|]. right.
  destruct (stream_read _ s) as [[d0|e] s'] eqn:E; [|done].
  pose proof E as (_ & Hlen & _)%stream_read_ok; [|lia].
  destruct (Z.ltb_spec r (Z.of_nat (length d0))); [lia|].
  rewrite Nat2Z.id, firstn_all in *. simplify_eq. eapply stream_read_end; [|done]. lia.
Qed.

#[global, program] Instance stream_body_ok : BodySourceOk (StreamBodySource S) := {|
  body_wf b := (0 ≤ sbs_remaining_ b)%Z;
  body_rest b := take (Z.to_nat (sbs_remaining_ b)) (stream_input (sbs_stream_ b));
|}.
Next Obligation.
  intros cap b d b' Hc Hw (Hcap & Hr & Hr' & Hin)%stream_body_read_ok; [|done..].
  rewrite Hin, Hr'. split_and!; [|done|lia].
  rewrite take_app. rewrite (take_ge d) by lia. do 2 f_equal. lia.
Qed.
Next Obligation.
  intros cap b b' Hc Hw [Hr|Hin]%stream_body_read_end; [| |done..].
  - by rewrite Hr, take_0.
  - by rewrite Hin, take_nil.
Qed.
End stream_body.

#[global, program] Instance buffer_body_ok : BodySourceOk BufferBodySource := {|
  body_wf b := bbs_read_pos_ b ≤ length (bbs_data_ b);
  body_rest b := drop (bbs_read_pos_ b) (bbs_data_ b);
|}.
Next Obligation.
  intros cap [dat pos] d b' Hc Hw; simpl in *; unfold buffer_body_read; simpl. intros [= <- <-]; simpl.
  split_and!; [by rewrite <- drop_drop, take_drop | rewrite length_take; lia | lia].
Qed.
Next Obligation.
  intros cap [dat pos] b' Hc Hw; simpl in *; unfold buffer_body_read; simpl. intros [= Hd _].
  apply (f_equal length) in Hd. rewrite length_take, length_drop in Hd. simpl in Hd.
  apply nil_length_inv. rewrite length_drop. lia.
Qed.

#[global, program] Instance eof_body_ok {S} `{TransportStreamOk S} : BodySourceOk (StreamEofBodySource S) := {|
  body_wf _ := True;
  body_rest b := stream_input (sebs_stream_ b);
|}.
Next Obligation.
  intros S ?? cap [s] d b' Hc _; simpl; unfold eof_body_read; simpl.
  destruct (stream_read cap s) as [[d0|e] s'] eqn:E.
  - intros [= <- <-]. by apply stream_read_ok in E as (? & ? & ?).
  - case_decide; [|done]. subst. intros [= <- <-]. apply stream_read_eof in E as [-> Hs']; [|done].
    simpl. rewrite Hs'. split_and!; (done || lia).
Qed.
Next Obligation.
  intros S ?? cap [s] b' Hc _; simpl; unfold eof_body_read; simpl.
  destruct (stream_read cap s) as [[d0|e] s'] eqn:E.
  - intros [= -> <-]. by eapply stream_read_end.
  - case_decide; [|done]. subst. intros _. by apply stream_read_eof in E as [-> _].
Qed.

(** ** Theorems *)

Section pump.
Context {S B : Type} `{TransportStreamOk S} `{BodySourceOk B}.
Implicit Types (s : S) (b : B).

Lemma pump_step_shrinks b d b' :
  body_wf b → body_read 8192 b = (ReadOk d, b') → d ≠ [] →
  length (body_rest b') < length (body_rest b) ∧ body_wf b'.
Proof.
  intros Hw (Hr & _ & Hw')%body_read_ok Hd; [|lia|done]. split; [|done].
  rewrite Hr, length_app. destruct d; [done | simpl; lia].
Qed.

(** Each non-empty read shrinks what is left, so the pump ends. *)
Lemma pump_terminates fuel s b :
  body_wf b → length (body_rest b) < fuel → is_Some (pump_body_to_stream fuel s b).
Proof.
  revert s b. induction fuel as [|f IH]; intros s b Hw Hf; [lia|]. simpl.
  destruct (body_read 8192 b) as [[[|c d]|e] b'] eqn:E; [by eexists| |by eexists].
  destruct (stream_write (c :: d) s) as [[e|] s']; [by eexists|].
  destruct (pump_step_shrinks _ _ _ Hw E) as [Hlt Hw']; [done|]. apply IH; [done | lia].
Qed.

Lemma pump_delivers fuel s b s' b' :
  body_wf b → pump_body_to_stream fuel s b = Some (None, s', b') →
  stream_output s' = stream_output s ++ body_rest b ∧ stream_input s' = stream_input s.
Proof.
  revert s b. induction fuel as [|f IH]; intros s b Hw; simpl; [done|].
  destruct (body_read 8192 b) as [[[|c d]|e] b0] eqn:E; [| |done].
  - intros [= <- <-]. apply body_read_end in E; [|lia|done]. by rewrite E, app_nil_r.
  - destruct (stream_write (c :: d) s) as [[e|] s0] eqn:Ew; [done|]. intros Hp.
    pose proof E as (Hr & _ & Hw')%body_read_ok; [|lia|done].
    apply IH in Hp as [Ho Hi]; [|done]. apply stream_write_ok in Ew as [Hwo Hwi].
    by rewrite Ho, Hwo, Hr, Hi, Hwi, app_assoc.
Qed.
End pump.

Lemma pump_stream_boundary {S T : Type} `{TransportStreamOk S} `{TransportStreamOk T}
  fuel (s : S) (b : StreamBodySource T) s' b' :
  (0 ≤ sbs_remaining_ b)%Z → pump_body_to_stream fuel s b = Some (None, s', b') →
  stream_input (sbs_stream_ b) = body_rest b ++ stream_input (sbs_stream_ b').
Proof.
  revert s b. induction fuel as [|f IH]; intros s b Hw; cbn [pump_body_to_stream]; [done|].
  destruct (body_read 8192 b) as [[[|c d]|e] b0] eqn:E; [| |done].
  - intros [= <- <-]. pose proof E as ->%body_read_end; [|lia|done].
    by apply stream_body_read_ok in E as (_ & _ & _ & ->).
  - destruct (stream_write (c :: d) s) as [[e|] s0] eqn:Ew; [done|]. intros Hp.
    pose proof E as (Hr & _ & Hw')%body_read_ok; [|lia|done].
    apply stream_body_read_ok in E as (_ & _ & _ & Hin); [|lia|done].
    rewrite Hin, Hr, (IH _ _ Hw' Hp). by rewrite app_assoc.
Qed.

(** C33: [pump_body_to_stream] ends for every well-formed body source and every
    stream, and when it reports no error the destination received exactly the
    bytes of the body, in order, and its own unread input is untouched. *)
Theorem pump_body_correct {S B : Type} `{TransportStreamOk S} `{BodySourceOk B}
  (fuel : nat) (s : S) (b : B) (Hwf : body_wf b) (Hfuel : length (body_rest b) < fuel) :
  ∃ ec s' b', pump_body_to_stream fuel s b = Some (ec, s', b') ∧
    (ec = None → stream_output s' = stream_output s ++ body_rest b ∧
                 stream_input s' = stream_input s).
Proof.
  destruct (pump_terminates fuel s b Hwf Hfuel) as [[[ec s'] b'] Hp].
  exists ec, s', b'. split; [done|]. intros ->. by eapply pump_delivers.
Qed.

Lemma pump_body_correct_witness :
  ∃ s' b', pump_body_to_stream 6 (script_stream []) (new_buffer_body #"hello") = Some (None, s', b') ∧
    stream_output s' = #"hello".
Proof.
  destruct (pump_body_correct 6 (script_stream []) (new_buffer_body #"hello")) as (ec & s' & b' & Hp & Hd).
  - simpl. lia.
  - simpl. lia.
  - assert (ec = None) as -> by (vm_compute in Hp; congruence).
    exists s', b'. split; [done|]. destruct (Hd eq_refl) as [Ho _]. by rewrite Ho.
Defined.

(** Relaying a [Content-Length] body leaves the source connection exactly
    at the next message: the [n] body bytes are taken off its input and nothing
    more, so a kept-alive connection stays framed. *)
Theorem stream_body_keeps_framing {S T : Type} `{TransportStreamOk S} `{TransportStreamOk T}
  (fuel : nat) (s s' : S) (t : T) (n : Z) (b' : StreamBodySource T)
  (Hn : (0 ≤ n ≤ Z.of_nat (length (stream_input t)))%Z)
  (Hp : pump_body_to_stream fuel s (StreamBody t n) = Some (None, s', b')) :
  stream_output s' = stream_output s ++ take (Z.to_nat n) (stream_input t) ∧
  stream_input (sbs_stream_ b') = drop (Z.to_nat n) (stream_input t).
Proof.
  split.
  - eapply pump_delivers in Hp as [-> _]; [done | simpl; lia].
  - apply pump_stream_boundary in Hp; simpl in *; [|lia].
    rewrite <- (take_drop (Z.to_nat n) (stream_input t)) in Hp at 1.
    by apply app_inv_head in Hp.
Qed.

Lemma stream_body_keeps_framing_witness :
  ∃ s' b', pump_body_to_stream 9 (script_stream []) (StreamBody (script_stream [ReadOk #"ab"; ReadOk #"cdGET /"]) 4)
      = Some (None, s', b') ∧ stream_input (sbs_stream_ b') = #"GET /".
Proof.
  set (r := pump_body_to_stream 9 _ _). destruct r as [[[[e|] s'] b']|] eqn:E; subst r;
    [vm_compute in E; congruence | | vm_compute in E; congruence].
  exists s', b'. split; [done|].
  apply (stream_body_keeps_framing 9 _ s' (script_stream [ReadOk #"ab"; ReadOk #"cdGET /"]) 4 b') in E as [_ ->];
    [done | simpl; lia].
Defined.

(** [HeaderMap] refines a map from case-folded names to value lists: [add]
    appends, [set] replaces, [remove] clears, [get] is the first value, other
    names are never touched and the spelling of the name never matters. *)
Theorem header_map_refines (h : HeaderMap.t) (k v k' : bytes) :
  HeaderMap.get_all k' (HeaderMap.add k v h) =
    HeaderMap.get_all k' h ++ (if decide (HeaderMap.lower k = HeaderMap.lower k') then [v] else []) ∧
  HeaderMap.get_all k' (HeaderMap.set k v h) =
    (if decide (HeaderMap.lower k = HeaderMap.lower k') then [v] else HeaderMap.get_all k' h) ∧
  HeaderMap.get_all k' (HeaderMap.remove k h) =
    (if decide (HeaderMap.lower k = HeaderMap.lower k') then [] else HeaderMap.get_all k' h) ∧
  HeaderMap.get k' h = head (HeaderMap.get_all k' h) ∧
  HeaderMap.get_all (HeaderMap.lower k') h = HeaderMap.get_all k' h ∧
  (HeaderMap.is_empty h = true ↔ ∀ n, HeaderMap.get_all n h = []).
Proof.
  split_and!.
  - apply HeaderMap.get_all_add.
  - apply HeaderMap.get_all_set.
  - apply HeaderMap.get_all_remove.
  - apply HeaderMap.get_get_all.
  - apply HeaderMap.get_all_case. apply lower_string_idemp.
  - destruct h as [[|[n w] es]]; [done|]. split; [done|]. intros Hn. specialize (Hn n).
    unfold HeaderMap.get_all in Hn. simpl in Hn. by rewrite decide_True in Hn.
Qed.
