(* ===== verification/H1Codec.v ===== *)
(** * The HTTP/1.1 codec (src/src/codec/h1_codec.{h,cpp})

    Request and response parsing over any [TransportStream], the keep-alive
    decision, serialization, and the chunked-body decoder.  The codec itself
    has no state: each operation threads the stream it works on. *)

From S2P Require Import Prelude CppStd Transport HttpMessage.

(** ** Keep-alive decision *)

Definition version_keeps_alive (version : bytes) : bool :=
  negb (starts_with #"HTTP/1.0" version).

Definition header_says_close (hdrs : HeaderMap.t) : bool :=
  match HeaderMap.get #"connection" hdrs with
  | Some c => contains #"close" c
  | None => false
  end.

Definition header_says_keep_alive (hdrs : HeaderMap.t) : bool :=
  match HeaderMap.get #"connection" hdrs with
  | Some c => contains #"keep-alive" c
  | None => false
  end.

Definition compute_keep_alive (hdrs : HeaderMap.t) (version : bytes) : bool :=
  let ka := version_keeps_alive version in
  if header_says_close hdrs then false
  else if header_says_keep_alive hdrs then true
  else ka.

Definition wire_h1_version (v : bytes) : bytes :=
  if starts_with #"HTTP/1." v then v else #"HTTP/1.1".

(** ** Header blocks *)

Definition BLANK_LINE : bytes := [CR; LF; CR; LF].

(** The header loop: a blank line ends it, a line without a colon is skipped. *)
Fixpoint parse_header_lines (lines : list bytes) (h : HeaderMap.t) : HeaderMap.t :=
  match lines with
  | [] => h
  | l :: rest =>
      let line := strip_cr l in
      match line with
      | [] => h
      | _ =>
          match find_char COLON line with
          | None => parse_header_lines rest h
          | Some colon =>
              let key := take colon line in
              let val := trim_leading (drop (S colon) line) in
              parse_header_lines rest (HeaderMap.add key val h)
          end
      end
  end.

(** [content-length], read with [strtoul] in base 10. *)
Definition header_content_length (h : HeaderMap.t) : option Z :=
  (λ cl, fst (strtoul cl 10)) <$> HeaderMap.get #"content-length" h.

(** Scheme, authority and origin-form path of an absolute-form target. *)
Definition split_absolute_target (target : bytes) : option (bytes * bytes * bytes) :=
  match find_sub #"://" target with
  | Some (S _ as pos) =>
      let scheme := take pos target in
      let rest := drop (pos + 3) target in
      let authority := match find_char "/" rest with Some slash => take slash rest | None => rest end in
      let path := match find_char "/" rest with Some slash => drop slash rest | None => #"/" end in
      Some (lower_string scheme, authority, path)
  | _ => None
  end.

(** [parse_header_block]: the error message, or the head and the version. *)
Definition parse_header_block (raw : bytes) : bytes + (HttpRequestHead * bytes) :=
  match getline raw with
  | None | Some ([], _) => inl #"empty request"
  | Some (line0, rest) =>
      let line := strip_cr line0 in
      let '(m, r1) := extract_token line in
      let '(p, r2) := extract_token r1 in
      let '(version, _) := extract_token r2 in
      if decide (m = [] ∨ p = []) then inl (#"bad request line: " ++ line)
      else
        let headers := parse_header_lines (getlines rest) HeaderMap.empty_map in
        let cl := header_content_length headers in
        inr (match split_absolute_target p with
             | Some (sch, auth, pth) =>
                 RequestHead m version pth sch auth true headers cl
             | None =>
                 RequestHead m version p #"http"
                   (default [] (HeaderMap.get #"host" headers)) false headers cl
             end, version)
  end.

(** [parse_response_block] *)
Definition parse_response_block (raw : bytes) : bytes + (HttpResponseHead * bytes) :=
  match getline raw with
  | None | Some ([], _) => inl #"empty response"
  | Some (line0, rest) =>
      let line := strip_cr line0 in
      let '(version, r1) := extract_token line in
      let '(status, r2, failed) := extract_int r1 0 in
      if (status <=? 0)%Z then inl (#"bad status line: " ++ line)
      else
        let rsn := if failed then [] else match getline r2 with Some (l, _) => l | None => [] end in
        let headers := parse_header_lines (getlines rest) HeaderMap.empty_map in
        inr (ResponseHead status (trim_leading rsn) version headers (header_content_length headers),
             version)
  end.

(** ** Body selection

    The body source a parse hands out, next to the stream it may read from. *)
Inductive body_src :=
  | NullBody                     (** [nullptr] *)
  | BufferSrc (data : bytes)     (** [BufferBodySource(data)] *)
  | StreamSrc (remaining : Z)    (** [StreamBodySource(stream, remaining)] *)
  | EofSrc                       (** [StreamEofBodySource(stream)] *)
  | ChunkedSrc.                  (** [ChunkedBodySource(stream)] *)

(** A [Content-Length] body, given the bytes already read past the headers. *)
Definition sized_body (content_length : Z) (body_prefix : bytes) : body_src :=
  match body_prefix with
  | [] => if (0 <? content_length)%Z then StreamSrc content_length else NullBody
  | _ =>
      let prefix_len := Z.min (Z.of_nat (length body_prefix)) content_length in
      let prefix_data := take (Z.to_nat prefix_len) body_prefix in
      let remaining := (content_length - prefix_len)%Z in
      if (remaining =? 0)%Z then BufferSrc prefix_data else StreamSrc remaining
  end.

Definition request_body (head : HttpRequestHead) (body_prefix : bytes) : body_src :=
  match req_content_length head with
  | Some n => sized_body n body_prefix
  | None => NullBody
  end.

(** The source and whether the connection's close delimits it. *)
Definition response_body (head : HttpResponseHead) (body_prefix : bytes) : body_src * bool :=
  if (status_code head ÷ 100 =? 1)%Z || (status_code head =? 204)%Z || (status_code head =? 304)%Z
  then (NullBody, false)
  else
    match HeaderMap.get #"transfer-encoding" (resp_headers head) with
    | Some te =>
        if contains #"chunked" te then (ChunkedSrc, false)
        else match resp_content_length head with
             | Some n => (sized_body n body_prefix, false)
             | None => (EofSrc, true)
             end
    | None =>
        match resp_content_length head with
        | Some n => (sized_body n body_prefix, false)
        | None => (EofSrc, true)
        end
    end.

(** The arguments of a [ParseCallback] / [ResponseCallback]. *)
Inductive parse_result (H : Type) :=
  | ParseErr (ec : error_code)
  | ParseOk (head : H) (body : body_src) (keep_alive : bool).
Arguments ParseErr {H} _.
Arguments ParseOk {H} _ _ _.

(** What happens once the blank line was found: [raw] up to and including it,
    [body_prefix] the rest of the buffer. *)
Definition request_complete (raw body_prefix : bytes) : parse_result HttpRequestHead :=
  match parse_header_block raw with
  | inl _ => ParseErr invalid_argument
  | inr (head, version) =>
      ParseOk head (request_body head body_prefix) (compute_keep_alive (req_headers head) version)
  end.

Definition response_complete (raw body_prefix : bytes) : parse_result HttpResponseHead :=
  match parse_response_block raw with
  | inl _ => ParseErr invalid_argument
  | inr (head, version) =>
      let '(body, close_delimited) := response_body head body_prefix in
      let keep_alive := compute_keep_alive (resp_headers head) version in
      ParseOk head body (if close_delimited then false else keep_alive)
  end.

Section parse.
Context {S : Type} `{TransportStream S}.

(** The loop of [read_header_block] and [read_response_header]: read up to
    4096 bytes, append, look for the blank line. *)
Fixpoint read_block {H} (complete : bytes → bytes → parse_result H)
  (fuel : nat) (stream : S) (buf : bytes) : option (parse_result H * S) :=
  match fuel with
  | O => None
  | Datatypes.S fuel' =>
      match stream_read 4096 stream with
      | (ReadErr ec, stream') => Some (ParseErr ec, stream')
      | (ReadOk [], stream') => Some (ParseErr eof, stream')
      | (ReadOk chunk, stream') =>
          let buf' := buf ++ chunk in
          match find_sub BLANK_LINE buf' with
          | None => read_block complete fuel' stream' buf'
          | Some pos => Some (complete (take (pos + 4) buf') (drop (pos + 4) buf'), stream')
          end
      end
  end.

Definition read_header_block : nat → S → bytes → option (parse_result HttpRequestHead * S) :=
  read_block request_complete.

Definition read_response_header : nat → S → bytes → option (parse_result HttpResponseHead * S) :=
  read_block response_complete.

Definition async_parse_request (fuel : nat) (stream : S) :
  option (parse_result HttpRequestHead * S) := read_header_block fuel stream [].

Definition async_parse_response (fuel : nat) (stream : S) :
  option (parse_result HttpResponseHead * S) := read_response_header fuel stream [].
End parse.

(** ** Serialization *)

Definition request_header_str (head : HttpRequestHead) : bytes :=
  method head ++ #" " ++ path head ++ #" " ++ wire_h1_version (req_version head) ++ CRLF ++
  HeaderMap.to_wire (req_headers head) ++ CRLF.

Definition response_header_str (head : HttpResponseHead) : bytes :=
  wire_h1_version (resp_version head) ++ #" " ++ to_string (status_code head) ++ #" " ++
  reason head ++ CRLF ++ HeaderMap.to_wire (resp_headers head) ++ CRLF.

Section write.
Context {S B : Type} `{TransportStream S} `{BodySource B}.

(** Header first; without an error, then the body if there is one. *)
Definition write_message (fuel : nat) (stream : S) (header_str : bytes) (body : option B) :
  option (option error_code * S * option B) :=
  match stream_write header_str stream with
  | (Some ec, stream') => Some (Some ec, stream', body)
  | (None, stream') =>
      match body with
      | None => Some (None, stream', None)
      | Some b =>
          match pump_body_to_stream fuel stream' b with
          | Some (ec, stream'', b') => Some (ec, stream'', Some b')
          | None => None
          end
      end
  end.

Definition async_write_request (fuel : nat) (stream : S) (head : HttpRequestHead) (body : option B) :=
  write_message fuel stream (request_header_str head) body.

Definition async_write_response (fuel : nat) (stream : S) (head : HttpResponseHead) (body : option B) :=
  write_message fuel stream (response_header_str head) body.
End write.

(** ** Reading the head off a stream *)

Section parse_lemmas.
Context {S : Type} `{TransportStreamOk S} {H1 : Type} (complete : bytes → bytes → parse_result H1).

(** The head depends only on the bytes of the stream, not on how the
    transport cuts them up; what was read past the head is the prefix. *)
Lemma read_block_complete fuel (s s' : S) buf r :
  find_sub BLANK_LINE buf = None →
  read_block complete fuel s buf = Some (r, s') →
  (∃ ec, r = ParseErr ec) ∨
  ∃ pos prefix, find_sub BLANK_LINE (buf ++ stream_input s) = Some pos ∧
    r = complete (take (pos + 4) (buf ++ stream_input s)) prefix ∧
    drop (pos + 4) (buf ++ stream_input s) = prefix ++ stream_input s'.
Proof.
  revert s buf. induction fuel as [|f IH]; intros s buf Hb; simpl; [done|].
  destruct (stream_read 4096 s) as [[[|c d]|e] s0] eqn:E; [naive_solver| |naive_solver].
  pose proof E as (Hin & _ & _)%stream_read_ok; [|lia].
  rewrite Hin, app_assoc.
  destruct (find_sub BLANK_LINE (buf ++ c :: d)) as [pos|] eqn:Ef; [|by apply IH].
  intros [= <- <-]. right. exists pos, (drop (pos + 4) (buf ++ c :: d)).
  pose proof Ef as (_ & Hl & _)%find_sub_Some. change (length BLANK_LINE) with 4 in Hl.
  split_and!; [by apply find_sub_app | by rewrite (take_app_le (buf ++ c :: d)) by lia |].
  by rewrite (drop_app_le (buf ++ c :: d)) by lia.
Qed.

(** Every read consumes input, so a parse ends: with a head or an error. *)
Lemma read_block_terminates fuel (s : S) buf :
  length (stream_input s) < fuel → is_Some (read_block complete fuel s buf).
Proof.
  revert s buf. induction fuel as [|f IH]; intros s buf Hf; [lia|]. simpl.
  destruct (stream_read 4096 s) as [[[|c d]|e] s0] eqn:E; [by eexists| |by eexists].
  apply stream_read_ok in E as (Hin & _ & _); [|lia].
  destruct (find_sub BLANK_LINE _); [by eexists|]. apply IH.
  rewrite Hin, length_app in Hf. simpl in Hf. lia.
Qed.
End parse_lemmas.

(** What a handed-out body source still delivers, the stream being in [s]. *)
Definition src_rest {S} `{TransportStreamOk S} (s : S) (b : body_src) : bytes :=
  match b with
  | NullBody => []
  | BufferSrc d => body_rest (new_buffer_body d)
  | StreamSrc n => body_rest (StreamBody s n)
  | EofSrc => body_rest (StreamEofBody s)
  | ChunkedSrc => []
  end.

Lemma sized_body_rest {S} `{TransportStreamOk S} (s : S) n prefix :
  (0 ≤ n)%Z →
  src_rest s (sized_body n prefix) =
    if decide (prefix = [] ∨ (n ≤ Z.of_nat (length prefix))%Z)
    then take (Z.to_nat n) (prefix ++ stream_input s)
    else take (Z.to_nat n - length prefix) (stream_input s).
Proof.
  intros Hn. unfold sized_body. destruct prefix as [|c p].
  - rewrite decide_True by auto. destruct (Z.ltb_spec 0 n); simpl; [done|].
    by replace n with 0%Z by lia.
  - set (P := c :: p). assert (length P ≠ 0) by done. clearbody P.
    destruct (Z.eqb_spec (n - Z.min (Z.of_nat (length P)) n) 0) as [E|E].
    + rewrite decide_True by (right; lia). simpl. rewrite drop_0.
      replace (Z.min (Z.of_nat (length P)) n) with n by lia. by rewrite take_app_le by lia.
    + rewrite decide_False by (intros [->|?]; [done | lia]). simpl. f_equal. lia.
Qed.

Lemma header_content_length_range h n :
  header_content_length h = Some n → (0 ≤ n ≤ ULONG_MAX)%Z.
Proof. intros (cl & _ & ->)%fmap_Some. by apply strtoul_range. Qed.

Lemma parse_content_length raw head v :
  parse_header_block raw = inr (head, v) →
  req_content_length head = header_content_length (req_headers head).
Proof.
  unfold parse_header_block. intros. repeat (case_match; simplify_eq/=; try done).
Qed.

(** ** Lines and blank lines *)

(** Lines as [to_wire] writes them. *)
Definition wire_lines (ls : list bytes) : bytes := concat (map (λ l, l ++ CRLF) ls).

Definition wire_line (l : bytes) : Prop := l ≠ [] ∧ LF ∉ l.

Lemma find_sub_skip_line l s : LF ∉ l →
  find_sub BLANK_LINE (l ++ CR :: LF :: s) =
  Nat.add (length l) <$> find_sub BLANK_LINE (CR :: LF :: s).
Proof.
  induction l as [|c l IH]; intros Hl; [simpl app; by destruct (find_sub BLANK_LINE _)|].
  rewrite <- app_comm_cons. rewrite find_sub_cons_ne.
  2:{ simpl. apply andb_false_iff. right. destruct l as [|c' l]; [done|]. simpl.
    rewrite bool_decide_false; [done|]. intros <-. set_solver. }
  rewrite IH by set_solver. by destruct (find_sub BLANK_LINE (CR :: LF :: s)).
Qed.

Lemma find_sub_crlf s : starts_with CRLF s = false →
  find_sub BLANK_LINE (CR :: LF :: s) = Nat.add 2 <$> find_sub BLANK_LINE s.
Proof.
  intros Hs. rewrite !find_sub_cons_ne by done. by destruct (find_sub _ _).
Qed.

Lemma wire_line_no_crlf l s : wire_line l → starts_with CRLF (l ++ CR :: s) = false.
Proof.
  intros [Hne Hl]. destruct l as [|c [|c' l]]; [done|..]; simpl; apply andb_false_iff; right; [done|].
  rewrite bool_decide_false; [done|]. intros <-. set_solver.
Qed.

Lemma wire_lines_cons l ls t : wire_lines (l :: ls) ++ t = l ++ CR :: LF :: (wire_lines ls ++ t).
Proof. unfold wire_lines. cbn [map concat]. by rewrite <- !app_assoc. Qed.

(** The blank line of a header block is where the block ends, and nowhere
    before: [pos + 4] is the length of the block. *)
Lemma find_blank_line l ls rest :
  wire_line l → Forall wire_line ls →
  ∃ pos, find_sub BLANK_LINE (wire_lines (l :: ls) ++ CRLF ++ rest) = Some pos ∧
    pos + 4 = length (wire_lines (l :: ls) ++ CRLF).
Proof.
  intros Hl Hls. revert l Hl. induction Hls as [|l' ls Hl' Hls IH]; intros l Hl;
    rewrite !(wire_lines_cons l), (find_sub_skip_line l) by apply Hl.
  - exists (length l). split; [simpl; f_equal; lia|]. rewrite length_app. simpl. lia.
  - destruct (IH l' Hl') as (pos & Hpos & Hlen). rewrite find_sub_crlf, Hpos.
    + exists (length l + (2 + pos)). split; [done|]. rewrite length_app. simpl length. lia.
    + rewrite wire_lines_cons. by apply wire_line_no_crlf.
Qed.

(** ** Header lines round trip *)

(** A field that serializes to one line and back. *)
Definition wf_field (e : bytes * bytes) : Prop :=
  COLON ∉ fst e ∧ LF ∉ fst e ∧ LF ∉ snd e ∧ ∃ c v, snd e = c :: v ∧ c ∉ [SP; HT].

Definition field_line (e : bytes * bytes) : bytes := fst e ++ #": " ++ snd e.

Lemma to_wire_lines es : HeaderMap.to_wire_in es = wire_lines (map field_line es).
Proof.
  induction es as [|[k v] es IH]; [done|]. cbn [HeaderMap.to_wire_in map wire_lines concat].
  rewrite IH. unfold field_line, wire_lines. simpl fst; simpl snd. by rewrite <- !app_assoc.
Qed.

Lemma field_line_wire e : wf_field e → wire_line (field_line e).
Proof.
  destruct e as [k v]. intros (_ & Hk & Hv & _). unfold field_line; simpl in *.
  split; [by destruct k|]. rewrite not_elem_of_app, !not_elem_of_cons. by split_and!.
Qed.

Lemma field_line_parse e h rest : wf_field e →
  parse_header_lines ((field_line e ++ [CR]) :: rest) h =
  parse_header_lines rest (HeaderMap.add (fst e) (snd e) h).
Proof.
  destruct e as [k v]. intros (Hk & _ & _ & c & w & Hv & Hc). simpl in Hk, Hv. subst v.
  cbn [parse_header_lines]. rewrite strip_cr_app.
  change (field_line (k, c :: w)) with (k ++ COLON :: SP :: c :: w).
  rewrite find_char_app, take_app_length by done.
  replace (drop (S (length k)) (k ++ COLON :: SP :: c :: w)) with (SP :: c :: w)
    by (rewrite drop_app_ge, Nat.sub_succ_l, Nat.sub_diag by lia; done).
  rewrite trim_leading_sp by done. by destruct k.
Qed.

(** The header loop reads back the entries [to_wire] wrote, in order. *)
Lemma parse_header_lines_wire es h : Forall wf_field es →
  parse_header_lines (getlines (HeaderMap.to_wire_in es ++ CRLF)) h =
  HeaderMap.Map (HeaderMap.entries_ h ++ es).
Proof.
  intros Hes. rewrite to_wire_lines. revert h.
  induction Hes as [|e es He Hes IH]; intros h.
  - rewrite app_nil_r. by destruct h.
  - cbn [map]. rewrite wire_lines_cons.
    change (field_line e ++ CR :: LF :: (wire_lines (map field_line es) ++ CRLF))
      with (field_line e ++ [CR] ++ LF :: (wire_lines (map field_line es) ++ CRLF)).
    rewrite app_assoc, getlines_app.
    + rewrite field_line_parse, IH by done. unfold HeaderMap.add. simpl. by rewrite <- app_assoc; destruct e.
    + apply field_line_wire in He as [_ He]. rewrite not_elem_of_app. split; [done|]. by rewrite list_elem_of_singleton.
Qed.

Lemma token_no_LF t : is_token t = true → LF ∉ t.
Proof.
  destruct t as [|c t]; [done|]. unfold is_token. intros Ht Hin.
  apply forallb_forall with (x := LF) in Ht; [done|]. by apply list_elem_of_In.
Qed.

(** First line of a message, then its fields. *)
Lemma message_first_line l es rest : LF ∉ l →
  getline (l ++ CRLF ++ HeaderMap.to_wire_in es ++ rest) = Some (l ++ [CR], HeaderMap.to_wire_in es ++ rest).
Proof.
  intros Hl. change (l ++ CRLF ++ HeaderMap.to_wire_in es ++ rest)
    with (l ++ [CR] ++ LF :: (HeaderMap.to_wire_in es ++ rest)).
  rewrite app_assoc. apply getline_app. rewrite not_elem_of_app. split; [done|].
  by rewrite list_elem_of_singleton.
Qed.

(** A message's header block ends at its first blank line. *)
Lemma message_block l es rest : wire_line l → Forall wf_field es →
  ∃ pos, find_sub BLANK_LINE (l ++ CRLF ++ HeaderMap.to_wire_in es ++ CRLF ++ rest) = Some pos ∧
    pos + 4 = length (l ++ CRLF ++ HeaderMap.to_wire_in es ++ CRLF).
Proof.
  intros Hl Hes. rewrite to_wire_lines.
  destruct (find_blank_line l (map field_line es) rest) as (pos & Hpos & Hlen); [done| |].
  { apply Forall_map. eapply Forall_impl; [exact field_line_wire | exact Hes]. }
  rewrite wire_lines_cons in Hpos, Hlen. exists pos. split; [exact Hpos | exact Hlen].
Qed.

Lemma message_take l es rest :
  take (length (l ++ CRLF ++ HeaderMap.to_wire_in es ++ CRLF))
    (l ++ CRLF ++ HeaderMap.to_wire_in es ++ CRLF ++ rest) = l ++ CRLF ++ HeaderMap.to_wire_in es ++ CRLF.
Proof. rewrite !app_assoc. apply take_app_length. Qed.

(** A request head that survives serialization: tokens without white space, an
    HTTP/1.x version, origin form, fields that fit one line, and the fields
    the parser derives (scheme, authority, content length) in agreement. *)
Record wf_request (head : HttpRequestHead) : Prop := {
  wfr_method : is_token (method head) = true;
  wfr_path : is_token (path head) = true;
  wfr_version : is_token (req_version head) = true;
  wfr_h1 : starts_with #"HTTP/1." (req_version head) = true;
  wfr_origin : split_absolute_target (path head) = None;
  wfr_fields : Forall wf_field (HeaderMap.entries_ (req_headers head));
  wfr_derived : scheme head = #"http" ∧ absolute_target head = false ∧
    authority head = default [] (HeaderMap.get #"host" (req_headers head)) ∧
    req_content_length head = header_content_length (req_headers head);
}.

Lemma request_line_tokens m p v : is_token m = true → is_token p = true → is_token v = true →
  extract_token (m ++ SP :: p ++ SP :: v) = (m, SP :: p ++ SP :: v) ∧
  extract_token (SP :: p ++ SP :: v) = (p, SP :: v) ∧ extract_token (SP :: v) = (v, []).
Proof.
  intros. split_and!; [by apply extract_token_sp | |].
  - rewrite extract_token_skip. by apply extract_token_sp.
  - rewrite extract_token_skip. by apply extract_token_end.
Qed.

Lemma request_line_wire m p v : is_token m = true → is_token p = true → is_token v = true →
  wire_line (m ++ SP :: p ++ SP :: v).
Proof.
  intros Hm Hp Hv. split; [by destruct m|].
  rewrite not_elem_of_app, not_elem_of_cons, not_elem_of_app, not_elem_of_cons.
  split_and!; (done || by apply token_no_LF).
Qed.

Lemma request_str_shape head : starts_with #"HTTP/1." (req_version head) = true →
  request_header_str head =
  (method head ++ SP :: path head ++ SP :: req_version head) ++ CRLF ++
  HeaderMap.to_wire_in (HeaderMap.entries_ (req_headers head)) ++ CRLF.
Proof.
  intros Hv. unfold request_header_str, wire_h1_version. rewrite Hv.
  change (#" ") with [SP]. unfold HeaderMap.to_wire. by norm_app.
Qed.

(** A response head that survives serialization. *)
Record wf_response (head : HttpResponseHead) : Prop := {
  wfs_status : (0 < status_code head < 2 ^ 31)%Z;
  wfs_reason : LF ∉ reason head ∧ ∃ c r, reason head = c :: r ∧ c ∉ [SP; HT];
  wfs_version : is_token (resp_version head) = true;
  wfs_h1 : starts_with #"HTTP/1." (resp_version head) = true;
  wfs_fields : Forall wf_field (HeaderMap.entries_ (resp_headers head));
  wfs_derived : resp_content_length head = header_content_length (resp_headers head);
}.

Lemma response_str_shape head : starts_with #"HTTP/1." (resp_version head) = true →
  response_header_str head =
  (resp_version head ++ SP :: to_string (status_code head) ++ SP :: reason head) ++ CRLF ++
  HeaderMap.to_wire_in (HeaderMap.entries_ (resp_headers head)) ++ CRLF.
Proof.
  intros Hv. unfold response_header_str, wire_h1_version. rewrite Hv.
  change (#" ") with [SP]. unfold HeaderMap.to_wire. by norm_app.
Qed.

Lemma to_string_no_LF n : (0 ≤ n)%Z → LF ∉ to_string n.
Proof.
  intros Hn. rewrite to_string_nonneg by done. pose proof (dec_digits_digits 20 n Hn) as Ha.
  intros Hin. apply Forall_forall with (x := LF) in Ha as [d Hd]; [done|]. by apply list_elem_of_In.
Qed.

Lemma status_line_wire v n r : is_token v = true → (0 ≤ n)%Z → LF ∉ r →
  wire_line (v ++ SP :: to_string n ++ SP :: r).
Proof.
  intros Hv Hn Hr. split; [by destruct v|].
  rewrite not_elem_of_app, not_elem_of_cons, not_elem_of_app, not_elem_of_cons.
  split_and!; (done || (by apply token_no_LF) || by apply to_string_no_LF).
Qed.

Lemma getline_all s : s ≠ [] → LF ∉ s → getline s = Some (s, []).
Proof.
  induction s as [|c s IH]; [done|]. intros _ Hs. simpl. rewrite decide_False by set_solver.
  destruct s as [|c' s]; [done|]. by rewrite IH by set_solver.
Qed.

(** ** Theorems *)

(** The serialized block ends at its own blank line and parses back. *)
Lemma request_block_shape (head : HttpRequestHead) (rest : bytes) (Hwf : wf_request head) :
  ∃ pos, find_sub BLANK_LINE (request_header_str head ++ rest) = Some pos ∧
    take (pos + 4) (request_header_str head ++ rest) = request_header_str head ∧
    parse_header_block (request_header_str head) = inr (head, req_version head).
Proof.
  destruct Hwf as [Hm Hp Hv Hh1 Ho Hf (Hs & Ha & Hau & Hcl)].
  pose proof (request_line_wire _ _ _ Hm Hp Hv) as Hl.
  pose proof (request_line_tokens _ _ _ Hm Hp Hv) as (T1 & T2 & T3).
  rewrite (request_str_shape head Hh1). set (es := HeaderMap.entries_ (req_headers head)) in *.
  remember (method head ++ SP :: path head ++ SP :: req_version head) as L eqn:HL.
  destruct (message_block L es rest Hl Hf) as (pos & Hpos & Hlen).
  exists pos. rewrite <- !app_assoc. split_and!; [done| |].
  - by rewrite Hlen, (message_take L es rest).
  - unfold parse_header_block. rewrite message_first_line by apply Hl.
    destruct (L ++ [CR]) as [|? ?] eqn:E; [by destruct L|]. rewrite <- E, strip_cr_app, T1, T2, T3.
    rewrite decide_False by (intros [E0 | E0]; by rewrite E0 in *).
    rewrite parse_header_lines_wire by done. simpl. rewrite Ho.
    destruct head as [m v p sc au ab [hs] cl]; simpl in *; subst. done.
Qed.

(** C4: Serializing a well-formed request and parsing it back is the identity,
    whatever follows it on the wire: the block ends at its own blank line, and
    the parsed head is the head that was written. *)
Theorem request_roundtrip (head : HttpRequestHead) (rest : bytes) (Hwf : wf_request head) :
  ∃ pos, find_sub BLANK_LINE (request_header_str head ++ rest) = Some pos ∧
    take (pos + 4) (request_header_str head ++ rest) = request_header_str head ∧
    parse_header_block (request_header_str head) = inr (head, req_version head).
Proof. exact (request_block_shape head rest Hwf). Qed.

Definition example_request : HttpRequestHead :=
  RequestHead #"GET" #"HTTP/1.0" #"/hello" #"http" #"example.com" false
    (HeaderMap.Map [(#"Host", #"example.com"); (#"Content-Length", #"5")]) (Some 5%Z).

Ltac solve_fields := repeat first
  [ apply Forall_nil; exact I
  | apply Forall_cons; split; [split_and!; [by_eval | by_eval | by_eval | do 2 eexists; split; [reflexivity | by_eval]] |]
  | apply Forall_cons; [split_and!; [by_eval | by_eval | by_eval | do 2 eexists; split; [reflexivity | by_eval]] |]
  | apply Forall_nil ].

Lemma example_request_wf : wf_request example_request.
Proof. split; try reflexivity; [solve_fields | by split_and!]. Qed.

Lemma request_roundtrip_witness :
  wf_request example_request ∧
  parse_header_block (request_header_str example_request) = inr (example_request, #"HTTP/1.0").
Proof.
  split; [exact example_request_wf|].
  destruct (request_roundtrip example_request #"rest" example_request_wf) as (pos & _ & _ & Hp). exact Hp.
Defined.

(** A response head, written and parsed back. *)
Lemma response_block_shape (head : HttpResponseHead) (rest : bytes) (Hwf : wf_response head) :
  ∃ pos, find_sub BLANK_LINE (response_header_str head ++ rest) = Some pos ∧
    take (pos + 4) (response_header_str head ++ rest) = response_header_str head ∧
    parse_response_block (response_header_str head) = inr (head, resp_version head).
Proof.
  destruct Hwf as [Hst (Hr & c & r & Er & Hc) Hv Hh1 Hf Hcl].
  pose proof (status_line_wire _ (status_code head) _ Hv ltac:(lia) Hr) as Hl.
  rewrite (response_str_shape head Hh1). set (es := HeaderMap.entries_ (resp_headers head)) in *.
  remember (resp_version head ++ SP :: to_string (status_code head) ++ SP :: reason head) as L eqn:HL.
  destruct (message_block L es rest Hl Hf) as (pos & Hpos & Hlen).
  exists pos. rewrite <- !app_assoc. split_and!; [done| |].
  - by rewrite Hlen, (message_take L es rest).
  - unfold parse_response_block. rewrite message_first_line by apply Hl.
    destruct (L ++ [CR]) as [|? ?] eqn:E; [by destruct L|].
    rewrite <- E, strip_cr_app, HL, extract_token_sp, extract_int_to_string by (done || lia).
    destruct (Z.leb_spec (status_code head) 0); [lia|].
    rewrite getline_all by (done || (rewrite not_elem_of_cons; by split)).
    rewrite Er, trim_leading_sp, parse_header_lines_wire by done. simpl.
    destruct head as [st rs v [hs] cl]; simpl in *; subst. done.
Qed.

(** Serializing a well-formed response and parsing it back is the identity,
    whatever follows it on the wire: status, reason, version and fields survive,
    and the block ends at its own blank line. *)
Theorem response_roundtrip (head : HttpResponseHead) (rest : bytes) (Hwf : wf_response head) :
  ∃ pos, find_sub BLANK_LINE (response_header_str head ++ rest) = Some pos ∧
    take (pos + 4) (response_header_str head ++ rest) = response_header_str head ∧
    parse_response_block (response_header_str head) = inr (head, resp_version head).
Proof. exact (response_block_shape head rest Hwf). Qed.

Definition example_response : HttpResponseHead :=
  ResponseHead 404 #"Not Found" #"HTTP/1.1" (HeaderMap.Map [(#"Content-Length", #"0")]) (Some 0%Z).

Lemma response_roundtrip_witness :
  wf_response example_response ∧
  parse_response_block (response_header_str example_response) = inr (example_response, #"HTTP/1.1").
Proof.
  assert (wf_response example_response) as Hwf.
  { split; try reflexivity; [simpl; lia | | solve_fields].
    split; [by_eval|]. do 2 eexists. split; [reflexivity | by_eval]. }
  split; [done|]. destruct (response_roundtrip example_response [] Hwf) as (pos & _ & _ & Hp). exact Hp.
Defined.

(** C32: [async_parse_request] always ends, and a head it reports is a function
    of the connection's bytes alone: the block up to the first blank line,
    however the transport segmented it.  What was over-read plus what the
    stream still holds is exactly what follows the block. *)
Theorem parse_request_segmentation {S : Type} `{TransportStreamOk S}
  (fuel : nat) (s : S) (Hfuel : length (stream_input s) < fuel) :
  ∃ r s', async_parse_request fuel s = Some (r, s') ∧
    ∀ head body ka, r = ParseOk head body ka →
      ∃ pos version prefix,
        find_sub BLANK_LINE (stream_input s) = Some pos ∧
        parse_header_block (take (pos + 4) (stream_input s)) = inr (head, version) ∧
        ka = compute_keep_alive (req_headers head) version ∧
        body = request_body head prefix ∧
        drop (pos + 4) (stream_input s) = prefix ++ stream_input s'.
Proof.
  destruct (read_block_terminates request_complete fuel s [] Hfuel) as [[r s'] Hr].
  exists r, s'. split; [done|]. intros head body ka ->.
  apply read_block_complete in Hr as [[ec Hec]|(pos & prefix & Hpos & Hc & Hd)]; [done| |done].
  simpl in *. unfold request_complete in Hc.
  destruct (parse_header_block _) as [e|[h v]] eqn:E; [done|]. simplify_eq.
  by exists pos, v, prefix.
Qed.

Lemma parse_request_segmentation_witness :
  ∃ head s', async_parse_request 60 (script_stream [ReadOk #"GET /x HT"; ReadOk (#"TP/1.1" ++ BLANK_LINE ++ #"GE"); ReadOk #"T"])
      = Some (ParseOk head NullBody true, s') ∧ path head = #"/x" ∧ stream_input s' = #"T".
Proof.
  destruct (parse_request_segmentation 60
    (script_stream [ReadOk #"GET /x HT"; ReadOk (#"TP/1.1" ++ BLANK_LINE ++ #"GE"); ReadOk #"T"]))
    as (r & s' & Hr & Hs); [vm_compute; lia|].
  destruct r as [ec|head body ka]; [vm_compute in Hr; congruence|].
  exists head, s'. rewrite Hr. vm_compute in Hr. simplify_eq. vm_compute. done.
Defined.

(** Which bytes of a [Content-Length: n] request body the handed-out source
    delivers.  When nothing, or at least the whole body, was read along with the
    headers, exactly the [n] bytes after the header block; otherwise the part of
    the body read along with the headers is dropped and only the rest is
    delivered (the prefix loss the source marks as FIXME). *)
Theorem request_body_delivered {S : Type} `{TransportStreamOk S}
  (fuel : nat) (s s' : S) (head : HttpRequestHead) (body : body_src) (ka : bool) (n : Z)
  (Hp : async_parse_request fuel s = Some (ParseOk head body ka, s'))
  (Hn : req_content_length head = Some n) :
  ∃ pos prefix, find_sub BLANK_LINE (stream_input s) = Some pos ∧
    drop (pos + 4) (stream_input s) = prefix ++ stream_input s' ∧
    src_rest s' body =
      if decide (prefix = [] ∨ (n ≤ Z.of_nat (length prefix))%Z)
      then take (Z.to_nat n) (drop (pos + 4) (stream_input s))
      else drop (length prefix) (take (Z.to_nat n) (drop (pos + 4) (stream_input s))).
Proof.
  apply read_block_complete in Hp as [[ec Hec]|(pos & prefix & Hpos & Hc & Hd)]; [done| |done].
  simpl in *. unfold request_complete in Hc.
  destruct (parse_header_block _) as [e|[h v]] eqn:E; [done|]. simplify_eq.
  exists pos, prefix. split_and!; [done..|]. unfold request_body. rewrite Hn, sized_body_rest.
  2:{ apply parse_content_length in E. rewrite E in Hn.
    apply header_content_length_range in Hn. lia. }
  rewrite Hd. case_decide as Hc; [done|].
  rewrite skipn_firstn_comm, drop_app_length. f_equal.
Qed.

Definition post_request : bytes :=
  #"POST /s HTTP/1.1" ++ CRLF ++ #"Content-Length: 5" ++ BLANK_LINE.

Lemma request_body_delivered_witness :
  ∃ head s' body ka, async_parse_request 90 (script_stream [ReadOk (post_request ++ #"he"); ReadOk #"llo"])
    = Some (ParseOk head body ka, s') ∧ src_rest s' body = #"llo".
Proof.
  set (st := script_stream [ReadOk (post_request ++ #"he"); ReadOk #"llo"]).
  destruct (async_parse_request 90 st) as [[[ec|head body ka] s']|] eqn:E; [vm_compute in E; congruence| |vm_compute in E; congruence].
  exists head, s', body, ka. split; [done|].
  assert (req_content_length head = Some 5%Z ∧ stream_input s' = #"llo") as [Hcl Hs']
    by (vm_compute in E; simplify_eq; done).
  destruct (request_body_delivered 90 st s' head body ka 5 E Hcl) as (pos & prefix & Hpos & Hd & ->).
  vm_compute in Hpos. simplify_eq. rewrite Hs' in Hd.
  change (drop (35 + 4) (stream_input st)) with (#"he" ++ #"llo") in Hd |- *.
  apply app_inv_tail in Hd as <-. reflexivity.
Defined.

(** A response that lets its connection be kept alive never has a body
    delimited by the connection's close, did not ask to close, and came from
    HTTP/1.1 or later unless it asked for keep-alive: only such connections
    may be returned to the pool. *)
Theorem response_keep_alive_sound (raw prefix : bytes) (head : HttpResponseHead) (body : body_src)
  (Hc : response_complete raw prefix = ParseOk head body true) :
  body ≠ EofSrc ∧ header_says_close (resp_headers head) = false ∧
  (starts_with #"HTTP/1.0" (resp_version head) = true → header_says_keep_alive (resp_headers head) = true).
Proof.
  unfold response_complete in Hc. destruct (parse_response_block raw) as [e|[h v]] eqn:E; [done|].
  assert (v = resp_version h) as -> by
    (unfold parse_response_block in E; repeat (case_match; simplify_eq/=; try done)).
  destruct (response_body h prefix) as [b cd] eqn:Eb. simplify_eq.
  assert (body = EofSrc → cd = true) as Hcd.
  { unfold response_body, sized_body in Eb. intros ->. repeat (case_match; simplify_eq/=; try done). }
  destruct cd; [done|]. split; [intros HE; by apply Hcd in HE|].
  unfold compute_keep_alive, version_keeps_alive in *.
  destruct (header_says_close (resp_headers head)); [done|]. split; [done|]. intros Hv.
  rewrite Hv in *. by destruct (header_says_keep_alive (resp_headers head)).
Qed.

Lemma response_keep_alive_sound_witness :
  ∃ head, response_complete (#"HTTP/1.1 200 OK" ++ CRLF ++ #"Content-Length: 3" ++ BLANK_LINE) []
    = ParseOk head (StreamSrc 3) true ∧ header_says_close (resp_headers head) = false.
Proof.
  destruct (response_complete (#"HTTP/1.1 200 OK" ++ CRLF ++ #"Content-Length: 3" ++ BLANK_LINE) [])
    as [ec|head body ka] eqn:E; [vm_compute in E; congruence|].
  assert (body = StreamSrc 3 ∧ ka = true) as [-> ->] by (vm_compute in E; by simplify_eq).
  exists head. split; [done|]. apply (response_keep_alive_sound _ _ _ _ E).
Defined.

Section write_lemmas.
Context {S B : Type} `{TransportStreamOk S} `{BodySourceOk B}.

Lemma write_message_correct fuel (s : S) hdr (b : B) :
  body_wf b → length (body_rest b) < fuel →
  ∃ ec s' b', write_message fuel s hdr (Some b) = Some (ec, s', Some b') ∧
    (ec = None → stream_output s' = stream_output s ++ hdr ++ body_rest b ∧
                 stream_input s' = stream_input s).
Proof.
  intros Hw Hf. unfold write_message.
  destruct (stream_write hdr s) as [[e|] s0] eqn:E; [by exists (Some e), s0, b|].
  apply stream_write_ok in E as [Eo Ei].
  destruct (pump_terminates fuel s0 b Hw Hf) as [[[ec s'] b'] Hp].
  rewrite Hp. exists ec, s', b'. split; [done|]. intros ->.
  apply pump_delivers in Hp as [-> ->]; [|done]. by rewrite Eo, Ei, <- app_assoc.
Qed.
End write_lemmas.

(** A request none of whose body was read along with its head. *)
Lemma parse_request_apart {S : Type} `{TransportStreamOk S} fuel (client client' : S) head rest head' body ka :
  wf_request head → stream_input client = request_header_str head ++ rest →
  async_parse_request fuel client = Some (ParseOk head' body ka, client') → stream_input client' = rest →
  head' = head ∧ body = request_body head [].
Proof.
  intros Hwf Hin Hparse <-. apply read_block_complete in Hparse as [[ec Hec]|(pos & prefix & Hp & Hc & Hd)]; [done| |done].
  destruct (request_block_shape head (stream_input client') Hwf) as (pos' & Hp' & Ht & Hb).
  rewrite app_nil_l, Hin in *. rewrite Hp' in Hp. simplify_eq.
  rewrite Ht in Hc. unfold request_complete in Hc. rewrite Hb in Hc. simplify_eq. split; [done|]. f_equal.
  assert (drop (pos + 4) (request_header_str head ++ (stream_input client')) = (stream_input client')) as Hdr.
  { apply (app_inv_head (request_header_str head)). rewrite <- Ht at 1. apply take_drop. }
  rewrite Hdr in Hd. apply (f_equal length) in Hd. rewrite length_app in Hd. apply nil_length_inv. lia.
Qed.

(** A stream source is never empty. *)
Lemma request_body_positive head prefix m : request_body head prefix = StreamSrc m → (0 < m)%Z.
Proof.
  unfold request_body, sized_body. destruct (req_content_length head) as [n|]; [|done]. destruct prefix as [|c prefix].
  - destruct (Z.ltb_spec 0 n); [|done]. by intros [= <-].
  - generalize (length (c :: prefix)). intros k. destruct (Z.eqb_spec (n - Z.min (Z.of_nat k) n) 0); [done|]. intros [= <-]. lia.
Qed.

Lemma parsed_body_positive {S : Type} `{TransportStreamOk S} fuel (client client' : S) head m ka :
  async_parse_request fuel client = Some (ParseOk head (StreamSrc m) ka, client') → (0 < m)%Z.
Proof.
  intros [[ec Hec]|(pos & prefix & _ & Hc & _)]%read_block_complete; [done| |done].
  unfold request_complete in Hc. destruct (parse_header_block _) as [e|[h v]]; [done|]. injection Hc as _ Hb _. symmetry in Hb.
  by eapply request_body_positive.
Qed.

(** C27: What an HTTP/1.1 backend is sent.  When the request of a client has been
    parsed and its body, of which [m] bytes are still to come, is read from the
    connection, writing it to a backend terminates, and unless it fails the
    backend has got the parsed head, serialized, followed by the next [m] bytes
    of the client's connection.  These are the very bytes the client sent if it
    sent the head in the form the proxy writes (origin form, one space between
    the tokens and after each colon) with a [Content-Length], and no byte of the
    body was read along with the headers. *)
Theorem forward_identity {S T : Type} `{TransportStreamOk S} `{TransportStreamOk T}
  (fuel : nat) (client client' : S) (backend : T) (head : HttpRequestHead) (m : Z) (ka : bool)
  (Hparse : async_parse_request fuel client = Some (ParseOk head (StreamSrc m) ka, client'))
  (Hfuel : length (stream_input client') < fuel) :
  ∃ ec backend' b', async_write_request fuel backend head (Some (StreamBody client' m)) = Some (ec, backend', Some b') ∧
    (ec = None → stream_output backend' =
       stream_output backend ++ request_header_str head ++ take (Z.to_nat m) (stream_input client')) ∧
    (∀ sent n, wf_request sent → req_content_length sent = Some n → (0 < n)%Z →
       stream_input client = request_header_str sent ++ stream_input client' →
       head = sent ∧ m = n ∧
       (ec = None → stream_output backend' =
          stream_output backend ++ take (length (request_header_str sent) + Z.to_nat n) (stream_input client))).
Proof.
  pose proof (parsed_body_positive _ _ _ _ _ _ Hparse) as Hm.
  destruct (write_message_correct fuel backend (request_header_str head) (StreamBody client' m))
    as (ec & backend' & b' & Hw & Ho); [simpl; lia | simpl; rewrite length_take; lia |].
  exists ec, backend', b'. split; [done|]. split; [intros ->; by destruct (Ho eq_refl) as [-> _]|].
  intros sent n Hwf Hn Hpos Hin.
  destruct (parse_request_apart fuel client client' sent _ head _ ka Hwf Hin Hparse eq_refl) as [-> Hb].
  unfold request_body, sized_body in Hb. rewrite Hn in Hb. destruct (Z.ltb_spec 0 n); [|lia]. injection Hb as ->.
  split_and!; [done..|]. intros ->. destruct (Ho eq_refl) as [-> _]. by rewrite Hin, take_app_add.
Qed.

Lemma forward_identity_witness :
  ∃ head ka client' ec backend' b',
    async_parse_request 90 (script_stream [ReadOk (request_header_str example_request); ReadOk #"hello"])
      = Some (ParseOk head (StreamSrc 5) ka, client') ∧
    async_write_request 90 (script_stream []) head (Some (StreamBody client' 5)) = Some (ec, backend', Some b') ∧
    stream_output backend' = request_header_str example_request ++ #"hello".
Proof.
  set (client := script_stream [ReadOk (request_header_str example_request); ReadOk #"hello"]).
  destruct (async_parse_request 90 client) as [[[e|head [| |m| |] ka] client']|] eqn:E; try (vm_compute in E; congruence).
  assert (stream_input client' = #"hello") as Hr by (vm_compute in E; simplify_eq; done).
  assert (stream_input client = request_header_str example_request ++ stream_input client') as Hi by (rewrite Hr; vm_compute; done).
  destruct (forward_identity 90 client client' (script_stream []) head m ka E ltac:(rewrite Hr; simpl; lia)) as (ec & backend' & b' & Hw & _ & Ho).
  destruct (Ho example_request 5%Z example_request_wf eq_refl eq_refl Hi) as (-> & -> & Hout).
  exists example_request, ka, client', ec, backend', b'. split_and!; [done..|].
  rewrite Hout, Hi, Hr; [reflexivity|]. vm_compute in E. simplify_eq. vm_compute in Hw. congruence.
Defined.
