(* ===== verification/ChunkedBody.v ===== *)
(** * The chunked-body decoder (src/src/codec/h1_codec.cpp, [ChunkedBodySource])

    [read_line_byte] hands the stream a buffer on its own stack frame and
    captures that array by value in the completion handler, before the read is
    started: what the handler inspects is the array's value at capture time,
    never the byte the stream stored.  The captured values are therefore a
    parameter here ([captured k], the value the [k]-th handler sees), and the
    byte read is consumed and dropped.  Where the stream stores it, a frame that
    may be gone by then, is not modelled. *)

From S2P Require Import Prelude CppStd Transport HttpMessage.

Section chunked.
Context {S : Type} `{TransportStream S}.
Variable captured : nat → ascii.

Record ChunkedBodySource := Chunked {
  stream_ : S;
  size_line_ : bytes;
  chunk_remaining_ : Z;
  finished_ : bool;
  captures : nat;             (** how many arrays were captured so far *)
}.

Definition new_chunked (s : S) : ChunkedBodySource := Chunked s [] 0 false 0.

Definition with_stream (b : ChunkedBodySource) (s : S) : ChunkedBodySource :=
  Chunked s (size_line_ b) (chunk_remaining_ b) (finished_ b) (captures b).
Definition with_line (b : ChunkedBodySource) (l : bytes) : ChunkedBodySource :=
  Chunked (stream_ b) l (chunk_remaining_ b) (finished_ b) (captures b).
Definition with_remaining (b : ChunkedBodySource) (r : Z) : ChunkedBodySource :=
  Chunked (stream_ b) (size_line_ b) r (finished_ b) (captures b).
Definition finish (b : ChunkedBodySource) : ChunkedBodySource :=
  Chunked (stream_ b) (size_line_ b) (chunk_remaining_ b) true (captures b).
Definition capture (b : ChunkedBodySource) : ChunkedBodySource :=
  Chunked (stream_ b) (size_line_ b) (chunk_remaining_ b) (finished_ b) (1 + captures b).

(** [read_line_byte]: the flag is the argument of [done]. *)
Fixpoint read_line_byte (fuel : nat) (b : ChunkedBodySource) : option (bool * ChunkedBodySource) :=
  match fuel with
  | O => None
  | Datatypes.S fuel' =>
      let b0 := captured (captures b) in
      match stream_read 1 (stream_ b) with
      | (ReadErr _, s) | (ReadOk [], s) => Some (false, with_stream (capture b) s)
      | (ReadOk _, s) =>
          let b' := with_stream (capture b) s in
          if decide (b0 = LF) then Some (true, b')
          else if decide (b0 = CR) then read_line_byte fuel' b'
          else read_line_byte fuel' (with_line b' (size_line_ b' ++ [b0]))
      end
  end.

Definition read_line (fuel : nat) (b : ChunkedBodySource) : option (bool * ChunkedBodySource) :=
  read_line_byte fuel (with_line b []).

(** [read_exact count]: up to 64 bytes at a time, contents discarded. *)
Fixpoint read_exact (fuel : nat) (count : Z) (b : ChunkedBodySource) :
  option (bool * ChunkedBodySource) :=
  match fuel with
  | O => None
  | Datatypes.S fuel' =>
      match stream_read (Z.min count 64) (stream_ b) with
      | (ReadErr _, s) | (ReadOk [], s) => Some (false, with_stream b s)
      | (ReadOk d, s) =>
          let n := Z.of_nat (length d) in
          if (count <=? n)%Z then Some (true, with_stream b s)
          else read_exact fuel' (count - n) (with_stream b s)
      end
  end.

Definition skip_crlf (fuel : nat) (b : ChunkedBodySource) := read_exact fuel 2 b.

(** [read_trailers]: lines up to a blank one. *)
Fixpoint read_trailers (fuel : nat) (b : ChunkedBodySource) : option (bool * ChunkedBodySource) :=
  match fuel with
  | O => None
  | Datatypes.S fuel' =>
      match read_line fuel' b with
      | None => None
      | Some (false, b') => Some (false, b')
      | Some (true, b') =>
          match size_line_ b' with
          | [] => Some (true, b')
          | _ => read_trailers fuel' b'
          end
      end
  end.

Definition read_chunk_payload (fuel : nat) (cap : Z) (b : ChunkedBodySource) :
  option (read_result * ChunkedBodySource) :=
  let want := Z.min cap (chunk_remaining_ b) in
  match stream_read want (stream_ b) with
  | (ReadErr ec, s) => Some (ReadErr ec, finish (with_stream b s))
  | (ReadOk d, s) =>
      let r := u64 (chunk_remaining_ b - Z.of_nat (length d)) in
      let b' := with_remaining (with_stream b s) r in
      if (r =? 0)%Z then
        match skip_crlf fuel b' with
        | None => None
        | Some (false, b'') => Some (ReadErr eof, finish b'')
        | Some (true, b'') => Some (ReadOk d, b'')
        end
      else Some (ReadOk d, b')
  end.

Definition read_size_line (fuel : nat) (cap : Z) (b : ChunkedBodySource) :
  option (read_result * ChunkedBodySource) :=
  match read_line fuel b with
  | None => None
  | Some (false, b') => Some (ReadErr eof, finish b')
  | Some (true, b') =>
      let line := match find_char ";" (size_line_ b') with
                  | Some semi => take semi (size_line_ b')   (* drop chunk extensions *)
                  | None => size_line_ b'
                  end in
      let '(sz, digits) := strtoul line 16 in
      if digits then
        let b'' := with_remaining (with_line b' []) sz in
        if (sz =? 0)%Z then
          match read_trailers fuel b'' with
          | None => None
          | Some (false, b3) => Some (ReadErr eof, finish b3)
          | Some (true, b3) => Some (ReadOk [], finish b3)
          end
        else read_chunk_payload fuel cap b''
      else Some (ReadErr invalid_argument, finish (with_line b' line))
  end.

Definition async_read_some (fuel : nat) (cap : Z) (b : ChunkedBodySource) :
  option (read_result * ChunkedBodySource) :=
  if finished_ b then Some (ReadOk [], b)
  else if (chunk_remaining_ b =? 0)%Z then read_size_line fuel cap b
  else read_chunk_payload fuel cap b.

Definition content_length (_ : ChunkedBodySource) : option Z := None.
End chunked.
Arguments Chunked {S} _ _ _ _ _.
Arguments ChunkedBodySource S : clear implicits.

Section chunked_lemmas.
Context {S : Type} `{TransportStreamOk S}.
Implicit Types b : ChunkedBodySource S.

(** A line read always ends: every iteration consumes input. *)
Lemma read_line_byte_terminates captured fuel b :
  length (stream_input (stream_ b)) < fuel → is_Some (read_line_byte captured fuel b).
Proof.
  revert b. induction fuel as [|f IH]; intros b Hf; [lia|]. simpl.
  destruct (stream_read 1 (stream_ b)) as [[[|c d]|e] s'] eqn:E; [by eexists| |by eexists].
  apply stream_read_ok in E as (Hin & _ & _); [|lia].
  rewrite Hin, length_app in Hf. simpl in Hf.
  repeat case_decide; [by eexists | apply IH; simpl; lia..].
Qed.

(** With the same captured value every time, the loop stops at once (when it
    is a line feed) or runs to the end of the stream. *)
Lemma read_line_byte_constant c fuel b r :
  read_line_byte (λ _, c) fuel b = Some r →
  ∃ ok b', r = (ok, b') ∧ (ok = true → c = LF ∧ size_line_ b' = size_line_ b).
Proof.
  revert b. induction fuel as [|f IH]; intros b; simpl; [done|].
  destruct (stream_read 1 (stream_ b)) as [[[|x d]|e] s'] eqn:E;
    [intros [= <-]; by eexists _, _ | |intros [= <-]; by eexists _, _].
  case_decide as Hc; [intros [= <-]; by eexists _, _|].
  case_decide; intros Hr.
  - destruct (IH _ Hr) as (ok & b' & -> & Hok). exists ok, b'. split; [done|].
    intros Ht. by destruct (Hok Ht).
  - destruct (IH _ Hr) as (ok & b' & -> & Hok). exists ok, b'. split; [done|].
    intros Ht. by destruct (Hok Ht).
Qed.
End chunked_lemmas.

(** C40: The chunked decoder does not decode.  Whatever the backend sent, when
    the captured arrays hold the same value each time (for instance the zero
    bytes of a fresh frame), the first read of a chunked body never delivers a
    byte: it ends with [eof] or [invalid_argument], because the chunk-size line
    is assembled from the captured values and not from the stream. *)
Theorem chunked_never_decodes {S : Type} `{TransportStreamOk S} (s : S) (c : ascii) (cap : Z)
  (fuel : nat) (Hfuel : length (stream_input s) < fuel) :
  ∃ ec b', async_read_some (λ _, c) fuel cap (new_chunked s) = Some (ReadErr ec, b') ∧
    (c ≠ LF → ec = eof) ∧ (ec = eof ∨ ec = invalid_argument) ∧ finished_ b' = true.
Proof.
  unfold async_read_some, read_size_line, read_line. simpl.
  destruct (read_line_byte_terminates (λ _, c) fuel (with_line (new_chunked s) [])) as [r Hr]; [done|].
  rewrite Hr. destruct (read_line_byte_constant _ _ _ _ Hr) as (ok & b' & -> & Hok).
  destruct ok.
  - destruct (Hok eq_refl) as [-> Hl]. simpl in Hl. rewrite Hl. simpl.
    eexists _, _. split_and!; [done | done | by right | done].
  - eexists _, _. split_and!; [done | done | by left | done].
Qed.

Lemma chunked_never_decodes_witness :
  ∃ b', async_read_some (λ _, "000"%char) 20 4096
      (new_chunked (script_stream [ReadOk (#"5" ++ CRLF ++ #"hello" ++ CRLF ++ #"0" ++ CRLF ++ CRLF)]))
    = Some (ReadErr eof, b').
Proof.
  destruct (chunked_never_decodes
    (script_stream [ReadOk (#"5" ++ CRLF ++ #"hello" ++ CRLF ++ #"0" ++ CRLF ++ CRLF)]) "000"%char 4096 20)
    as (ec & b' & Hr & Hec & _); [vm_compute; lia|].
  exists b'. rewrite Hr. by rewrite Hec by done.
Defined.
