(* ===== verification/H3Codec.v ===== *)
(** * The HTTP/3 codec (src/src/codec/h3_codec.{h,cpp})

    QUIC variable-length integers at their widths, the literal header-block
    parser, the interpretation of QPACK-decoded header lists, hop-by-hop
    stripping, and the four codec operations over any [TransportStream]. *)

From S2P Require Import Prelude CppStd Transport HttpMessage.

(** ** Variable-length integers (octets are [Z] in [0, 256)) *)

Record VarintResult := Varint { value : Z; bytes_read : Z }.

Definition byte_at (data : list Z) (i : nat) : Z := default 0%Z (data !! i).

Definition decode_varint (data : list Z) : VarintResult :=
  let len := length data in
  if decide (len < 1) then Varint 0 0
  else
    let first := byte_at data 0 in
    let tag := Z.shiftr first 6 in
    let nbytes := (if tag =? 0 then 1 else if tag =? 1 then 2 else if tag =? 2 then 4 else 8)%Z in
    if (Z.of_nat len <? nbytes)%Z then Varint 0 0
    else
      let d i := byte_at data i in
      let top := Z.land first 0x3F in
      let v :=
        if (nbytes =? 1)%Z then top
        else if (nbytes =? 2)%Z then Z.lor (Z.shiftl top 8) (d 1)
        else if (nbytes =? 4)%Z then
          Z.lor (Z.lor (Z.lor (Z.shiftl top 24) (Z.shiftl (d 1) 16)) (Z.shiftl (d 2) 8)) (d 3)
        else
          Z.lor (Z.lor (Z.lor (Z.lor (Z.lor (Z.lor (Z.lor
            (Z.shiftl top 56) (Z.shiftl (d 1) 48)) (Z.shiftl (d 2) 40)) (Z.shiftl (d 3) 32))
            (Z.shiftl (d 4) 24)) (Z.shiftl (d 5) 16)) (Z.shiftl (d 6) 8)) (d 7) in
      Varint v nbytes.

Definition varint_size (v : Z) : Z :=
  if (v <=? 0x3F)%Z then 1
  else if (v <=? 0x3FFF)%Z then 2
  else if (v <=? 0x3FFFFFFF)%Z then 4
  else 8.

(** The octets [encode_varint] stores; their number is its result. *)
Definition encode_varint (v : Z) : list Z :=
  let sh k := u8 (Z.shiftr v k) in
  match varint_size v with
  | 1 => [u8 v]
  | 2 => [Z.lor 0x40 (sh 8); u8 v]
  | 4 => [Z.lor 0x80 (sh 24); sh 16; sh 8; u8 v]
  | _ => [Z.lor 0xC0 (sh 56); sh 48; sh 40; sh 32; sh 24; sh 16; sh 8; u8 v]
  end%Z.

(** [enum class H3FrameType : uint64_t] *)
Inductive H3FrameType := DATA | HEADERS | CANCEL_PUSH | SETTINGS | PUSH_PROMISE | GOAWAY | MAX_PUSH_ID.

Definition frame_type_value (t : H3FrameType) : Z :=
  match t with
  | DATA => 0 | HEADERS => 1 | CANCEL_PUSH => 3 | SETTINGS => 4
  | PUSH_PROMISE => 5 | GOAWAY => 7 | MAX_PUSH_ID => 13
  end%Z.

(** ** Literal header blocks *)

Definition octets_to_bytes (l : list Z) : bytes := map (λ z, ascii_of_nat (Z.to_nat z)) l.
Definition bytes_to_octets (s : bytes) : list Z := map code s.

(** The out-parameters of [parse_request_headers]. *)
Record request_fields := Fields {
  f_method : bytes;
  f_path : bytes;
  f_hdrs : HeaderMap.t;
  f_content_length : option Z;
}.

Definition no_fields : request_fields := Fields [] [] HeaderMap.empty_map None.

(** [true], [false], or the exception [std::stoull] throws. *)
Inductive parse_outcome := Parsed (f : request_fields) | Rejected (f : request_fields) | Threw (f : request_fields).

(** One field routed to its destination; [None] when [stoull] throws. *)
Definition route_field (name v : bytes) (f : request_fields) : option request_fields :=
  if decide (name = #":method") then Some (Fields v (f_path f) (f_hdrs f) (f_content_length f))
  else if decide (name = #":path") then Some (Fields (f_method f) v (f_hdrs f) (f_content_length f))
  else if decide (name = #":authority") then
    Some (Fields (f_method f) (f_path f) (HeaderMap.add #"host" v (f_hdrs f)) (f_content_length f))
  else if decide (name = #"content-length") then
    (λ n, Fields (f_method f) (f_path f) (f_hdrs f) (Some n)) <$> stoull v
  else match name with
       | [] => Some f
       | c :: _ => if decide (c = COLON) then Some f
                   else Some (Fields (f_method f) (f_path f) (HeaderMap.add name v (f_hdrs f)) (f_content_length f))
       end.

(** A length-prefixed string at [pos]: the string and the position behind it.
    [pos + n > len] is computed in [size_t]. *)
Definition read_string (data : list Z) (pos : Z) : option (bytes * Z) :=
  let vr := decode_varint (drop (Z.to_nat pos) data) in
  if (bytes_read vr =? 0)%Z then None
  else
    let pos1 := u64 (pos + bytes_read vr) in
    let n := value vr in
    if (Z.of_nat (length data) <? u64 (pos1 + n))%Z then None
    else Some (octets_to_bytes (take (Z.to_nat n) (drop (Z.to_nat pos1) data)), u64 (pos1 + n)).

(** [while (pos < len)]; every field takes at least two octets, so
    [length data] iterations are enough. *)
Fixpoint parse_fields (fuel : nat) (data : list Z) (pos : Z) (f : request_fields) : parse_outcome :=
  match fuel with
  | O => Rejected f
  | S fuel' =>
      if (pos <? Z.of_nat (length data))%Z then
        match read_string data pos with
        | None => Rejected f
        | Some (name, pos1) =>
            match read_string data pos1 with
            | None => Rejected f
            | Some (v, pos2) =>
                match route_field name v f with
                | None => Threw f
                | Some f' => parse_fields fuel' data pos2 f'
                end
            end
        end
      else Parsed f
  end.

Definition parse_request_headers (data : list Z) : parse_outcome :=
  parse_fields (S (length data)) data 0 no_fields.

(** ** Decoded header lists to heads *)

Definition set_cl_req (h : HttpRequestHead) : HttpRequestHead :=
  match HeaderMap.get #"content-length" (req_headers h) with
  | Some cl => RequestHead (method h) (req_version h) (path h) (scheme h) (authority h)
                 (absolute_target h) (req_headers h) (Some (fst (strtoul cl 10)))
  | None => h
  end.

Definition request_field (h : HttpRequestHead) (nv : bytes * bytes) : HttpRequestHead :=
  let '(n, v) := nv in
  let '(RequestHead m ver p sc au ab hd cl) := h in
  if decide (n = #":method") then RequestHead v ver p sc au ab hd cl
  else if decide (n = #":path") then RequestHead m ver v sc au ab hd cl
  else if decide (n = #":scheme") then RequestHead m ver p v au ab hd cl
  else if decide (n = #":authority") then RequestHead m ver p sc v ab (HeaderMap.set #"host" v hd) cl
  else match n with
       | [] => h
       | c :: _ => if decide (c = COLON) then h
                   else RequestHead m ver p sc au ab (HeaderMap.add n v hd) cl
       end.

Definition request_head_from_headers (raw : HeaderList) : HttpRequestHead :=
  set_cl_req (fold_left request_field raw
    (RequestHead [] #"HTTP/3" [] [] [] false HeaderMap.empty_map None)).

Definition response_field (h : HttpResponseHead) (nv : bytes * bytes) : HttpResponseHead :=
  let '(n, v) := nv in
  let '(ResponseHead st rs ver hd cl) := h in
  if decide (n = #":status") then ResponseHead (i32 (strtol v)) rs ver hd cl
  else match n with
       | [] => h
       | c :: _ => if decide (c = COLON) then h
                   else ResponseHead st rs ver (HeaderMap.add n v hd) cl
       end.

Definition set_cl_resp (h : HttpResponseHead) : HttpResponseHead :=
  match HeaderMap.get #"content-length" (resp_headers h) with
  | Some cl => ResponseHead (status_code h) (reason h) (resp_version h) (resp_headers h)
                 (Some (fst (strtoul cl 10)))
  | None => h
  end.

Definition response_head_from_headers (raw : HeaderList) : HttpResponseHead :=
  set_cl_resp (fold_left response_field raw (ResponseHead 0 [] #"HTTP/3" HeaderMap.empty_map None)).

(** ** Heads to header lists *)

Definition is_hop_by_hop (name : bytes) : bool :=
  let l := lower_string name in
  bool_decide (l = #"connection" ∨ l = #"keep-alive" ∨ l = #"proxy-connection" ∨
               l = #"transfer-encoding" ∨ l = #"upgrade").

Definition end_to_end (h : HeaderMap.t) : HeaderList :=
  List.filter (λ e, negb (is_hop_by_hop (fst e))) (HeaderMap.entries h).

Definition or_default (s d : bytes) : bytes := match s with [] => d | _ => s end.

Definition request_header_list (head : HttpRequestHead) : HeaderList :=
  let auth := match authority head with
              | [] => default [] (HeaderMap.get #"host" (req_headers head))
              | a => a
              end in
  [(#":method", or_default (method head) #"GET");
   (#":scheme", or_default (scheme head) #"http");
   (#":authority", auth);
   (#":path", or_default (path head) #"/")] ++ end_to_end (req_headers head).

Definition response_header_list (head : HttpResponseHead) : HeaderList :=
  (#":status", to_string (status_code head)) :: end_to_end (resp_headers head).

(** ** The codec operations

    Each operation moves its callback into the handler it passes on; when the
    transport returns [false], the moved-from callback is called and throws
    [std::bad_function_call].  The result is what the callback was called with,
    if it was, and whether the operation threw. *)
Record codec_result (R : Type) := CodecResult { cr_called : option R; cr_threw : bool }.
Arguments CodecResult {R} _ _.
Arguments cr_called {R} _.
Arguments cr_threw {R} _.

(** The arguments of the parse callbacks; the body is always the stream's
    payload up to FIN, and HTTP/3 streams are never kept alive. *)
Inductive h3_parse (H : Type) :=
  | H3Err (ec : error_code)
  | H3Ok (head : H) (keep_alive : bool).
Arguments H3Err {H} _.
Arguments H3Ok {H} _ _.

Section codec.
Context {S B : Type} `{TransportStream S} `{BodySource B}.

Definition take_and_interpret {H} (interpret : HeaderList → H) (stream : S) :
  codec_result (h3_parse H) * S :=
  let '(hr, stream') := stream_take_headers stream in
  (CodecResult ((λ r, match r with
                      | inl ec => H3Err ec
                      | inr raw => H3Ok (interpret raw) false
                      end) <$> hr_called hr) (negb (hr_ok hr)), stream').

Definition async_parse_request (stream : S) := take_and_interpret request_head_from_headers stream.
Definition async_parse_response (stream : S) := take_and_interpret response_head_from_headers stream.

(** [finish]: FIN the write side and report the outcome of that. *)
Definition finish (stream : S) (_ : option error_code) : option error_code * S :=
  stream_shutdown stream.

Definition send_message (fuel : nat) (stream : S) (headers : HeaderList) (body : option B) :
  option (codec_result (option error_code) * S * option B) :=
  let '(hr, stream1) := stream_send_headers headers stream in
  let threw := negb (hr_ok hr) in
  match hr_called hr with
  | None => Some (CodecResult None threw, stream1, body)
  | Some (Some ec) =>
      let '(sec, stream2) := finish stream1 (Some ec) in
      Some (CodecResult (Some sec) threw, stream2, body)
  | Some None =>
      match body with
      | None =>
          let '(sec, stream2) := finish stream1 None in
          Some (CodecResult (Some sec) threw, stream2, None)
      | Some b =>
          match pump_body_to_stream fuel stream1 b with
          | None => None
          | Some (ec, stream2, b') =>
              let '(sec, stream3) := finish stream2 ec in
              Some (CodecResult (Some sec) threw, stream3, Some b')
          end
      end
  end.

Definition async_write_request (fuel : nat) (stream : S) (head : HttpRequestHead) (body : option B) :=
  send_message fuel stream (request_header_list head) body.

Definition async_write_response (fuel : nat) (stream : S) (head : HttpResponseHead) (body : option B) :=
  send_message fuel stream (response_header_list head) body.
End codec.

(** ** Lemmas: bit fields *)

(** Two fields that do not overlap: or is addition. *)
Lemma lor_field m b k : (0 ≤ k)%Z → (0 ≤ b < 2 ^ k)%Z → Z.lor (m * 2 ^ k) b = (m * 2 ^ k + b)%Z.
Proof.
  intros Hk Hb. rewrite <- Z.add_lor_land. replace (Z.land (m * 2 ^ k) b) with 0%Z; [lia|].
  rewrite <- (Z.mod_small b (2 ^ k)) by done. rewrite <- Z.land_ones by done.
  rewrite (Z.land_comm b), Z.land_assoc, Z.land_ones, Z.mod_mul by lia. by rewrite Z.land_0_l.
Qed.

Lemma lor_field' a b k m : (0 ≤ k)%Z → (0 ≤ b < 2 ^ k)%Z → a = (m * 2 ^ k)%Z → Z.lor a b = (a + b)%Z.
Proof. intros ?? ->. by apply lor_field. Qed.

(** The two tag bits and the six payload bits of a first octet. *)
Lemma first_octet t x : (0 ≤ x < 64)%Z → (0 ≤ t < 4)%Z →
  Z.lor (t * 64) x = (t * 64 + x)%Z ∧ Z.shiftr (t * 64 + x) 6 = t ∧ Z.land (t * 64 + x) 0x3F = x.
Proof.
  intros Hx Ht. change 64%Z with (2 ^ 6)%Z. split_and!; [by apply lor_field|..].
  - rewrite Z.shiftr_div_pow2 by lia. rewrite Z.div_add_l by lia. rewrite Z.div_small by lia. lia.
  - change 0x3F%Z with (Z.ones 6). rewrite Z.land_ones by lia.
    rewrite Z.add_comm, Z.mod_add by lia. by apply Z.mod_small.
Qed.

Definition octet (z : Z) : Prop := (0 ≤ z < 256)%Z.

Lemma u8_octet z : octet (u8 z).
Proof. unfold octet, u8. apply (Z.mod_pos_bound z 256). lia. Qed.

Lemma u8_shiftr v k : (0 ≤ k)%Z → u8 (Z.shiftr v k) = ((v / 2 ^ k) mod 256)%Z.
Proof. intros. unfold u8. by rewrite Z.shiftr_div_pow2. Qed.

(** Big-endian recombination of an 8-octet value. *)
Lemma be64 t d1 d2 d3 d4 d5 d6 d7 :
  octet d1 → octet d2 → octet d3 → octet d4 → octet d5 → octet d6 → octet d7 →
  Z.lor (Z.lor (Z.lor (Z.lor (Z.lor (Z.lor (Z.lor
    (Z.shiftl t 56) (Z.shiftl d1 48)) (Z.shiftl d2 40)) (Z.shiftl d3 32))
    (Z.shiftl d4 24)) (Z.shiftl d5 16)) (Z.shiftl d6 8)) d7 =
  (t * 2 ^ 56 + d1 * 2 ^ 48 + d2 * 2 ^ 40 + d3 * 2 ^ 32 + d4 * 2 ^ 24 + d5 * 2 ^ 16 + d6 * 2 ^ 8 + d7)%Z.
Proof.
  unfold octet. intros. rewrite !Z.shiftl_mul_pow2 by lia.
  rewrite (lor_field t (d1 * 2 ^ 48) 56) by lia.
  rewrite (lor_field' _ (d2 * 2 ^ 40) 48 (t * 2 ^ 8 + d1)) by lia.
  rewrite (lor_field' _ (d3 * 2 ^ 32) 40 (t * 2 ^ 16 + d1 * 2 ^ 8 + d2)) by lia.
  rewrite (lor_field' _ (d4 * 2 ^ 24) 32 (t * 2 ^ 24 + d1 * 2 ^ 16 + d2 * 2 ^ 8 + d3)) by lia.
  rewrite (lor_field' _ (d5 * 2 ^ 16) 24 (t * 2 ^ 32 + d1 * 2 ^ 24 + d2 * 2 ^ 16 + d3 * 2 ^ 8 + d4)) by lia.
  rewrite (lor_field' _ (d6 * 2 ^ 8) 16
    (t * 2 ^ 40 + d1 * 2 ^ 32 + d2 * 2 ^ 24 + d3 * 2 ^ 16 + d4 * 2 ^ 8 + d5)) by lia.
  rewrite (lor_field' _ d7 8
    (t * 2 ^ 48 + d1 * 2 ^ 40 + d2 * 2 ^ 32 + d3 * 2 ^ 24 + d4 * 2 ^ 16 + d5 * 2 ^ 8 + d6)) by lia.
  done.
Qed.

Lemma be32 t d1 d2 d3 : octet d1 → octet d2 → octet d3 →
  Z.lor (Z.lor (Z.lor (Z.shiftl t 24) (Z.shiftl d1 16)) (Z.shiftl d2 8)) d3 =
  (t * 2 ^ 24 + d1 * 2 ^ 16 + d2 * 2 ^ 8 + d3)%Z.
Proof.
  unfold octet. intros. rewrite !Z.shiftl_mul_pow2 by lia.
  rewrite (lor_field t (d1 * 2 ^ 16) 24) by lia.
  rewrite (lor_field' _ (d2 * 2 ^ 8) 16 (t * 2 ^ 8 + d1)) by lia.
  rewrite (lor_field' _ d3 8 (t * 2 ^ 16 + d1 * 2 ^ 8 + d2)) by lia. done.
Qed.

Lemma be16 t d1 : octet d1 → Z.lor (Z.shiftl t 8) d1 = (t * 2 ^ 8 + d1)%Z.
Proof. unfold octet. intros. rewrite Z.shiftl_mul_pow2 by lia. by rewrite lor_field by lia. Qed.

(** Splitting a value into octets, most significant first. *)
Lemma split64 v : (0 ≤ v < 2 ^ 62)%Z →
  (v / 2 ^ 56 * 2 ^ 56 + (v / 2 ^ 48) mod 256 * 2 ^ 48 + (v / 2 ^ 40) mod 256 * 2 ^ 40 +
   (v / 2 ^ 32) mod 256 * 2 ^ 32 + (v / 2 ^ 24) mod 256 * 2 ^ 24 + (v / 2 ^ 16) mod 256 * 2 ^ 16 +
   (v / 2 ^ 8) mod 256 * 2 ^ 8 + v mod 256 = v)%Z.
Proof. intros. Z.to_euclidean_division_equations. lia. Qed.

Lemma split32 v : (0 ≤ v < 2 ^ 30)%Z →
  (v / 2 ^ 24 * 2 ^ 24 + (v / 2 ^ 16) mod 256 * 2 ^ 16 + (v / 2 ^ 8) mod 256 * 2 ^ 8 + v mod 256 = v)%Z.
Proof. intros. Z.to_euclidean_division_equations. lia. Qed.

(** Decoding a first octet with tag [t] and payload [x] selects the length. *)
Lemma decode_varint_tag t x rest : (0 ≤ x < 64)%Z → (0 ≤ t < 4)%Z →
  let n := (if t =? 0 then 1 else if t =? 1 then 2 else if t =? 2 then 4 else 8)%Z in
  (n ≤ 1 + Z.of_nat (length rest))%Z →
  decode_varint (Z.lor (t * 64) x :: rest) =
  Varint (let d := byte_at (Z.lor (t * 64) x :: rest) in
          if (t =? 0)%Z then x
          else if (t =? 1)%Z then Z.lor (Z.shiftl x 8) (d 1)
          else if (t =? 2)%Z then
            Z.lor (Z.lor (Z.lor (Z.shiftl x 24) (Z.shiftl (d 1) 16)) (Z.shiftl (d 2) 8)) (d 3)
          else Z.lor (Z.lor (Z.lor (Z.lor (Z.lor (Z.lor (Z.lor
            (Z.shiftl x 56) (Z.shiftl (d 1) 48)) (Z.shiftl (d 2) 40)) (Z.shiftl (d 3) 32))
            (Z.shiftl (d 4) 24)) (Z.shiftl (d 5) 16)) (Z.shiftl (d 6) 8)) (d 7)) n.
Proof.
  intros Hx Ht n Hn. destruct (first_octet t x Hx Ht) as (E1 & E2 & E3). rewrite E1 in *.
  unfold decode_varint. rewrite decide_False by (simpl; lia).
  change (byte_at (_ :: rest) 0) with (t * 64 + x)%Z. rewrite E2, E3. fold n.
  destruct (Z.ltb_spec (Z.of_nat (length ((t * 64 + x)%Z :: rest))) n) as [Hlt|_]; [simpl in Hlt; lia|].
  subst n. assert (t = 0 ∨ t = 1 ∨ t = 2 ∨ t = 3)%Z as HH by lia.
  by repeat destruct HH as [->|HH]; subst.
Qed.

Lemma encode_varint_cases v :
  ((v ≤ 63)%Z ∧ varint_size v = 1%Z ∧ encode_varint v = [u8 v]) ∨
  ((63 < v ≤ 16383)%Z ∧ varint_size v = 2%Z ∧ encode_varint v = [Z.lor (1 * 64) (u8 (Z.shiftr v 8)); u8 v]) ∨
  ((16383 < v ≤ 1073741823)%Z ∧ varint_size v = 4%Z ∧
    encode_varint v = [Z.lor (2 * 64) (u8 (Z.shiftr v 24)); u8 (Z.shiftr v 16); u8 (Z.shiftr v 8); u8 v]) ∨
  ((1073741823 < v)%Z ∧ varint_size v = 8%Z ∧
    encode_varint v = [Z.lor (3 * 64) (u8 (Z.shiftr v 56)); u8 (Z.shiftr v 48); u8 (Z.shiftr v 40);
      u8 (Z.shiftr v 32); u8 (Z.shiftr v 24); u8 (Z.shiftr v 16); u8 (Z.shiftr v 8); u8 v]).
Proof.
  unfold encode_varint, varint_size.
  destruct (Z.leb_spec v 0x3F); [left; split_and!; (lia || done)|right].
  destruct (Z.leb_spec v 0x3FFF); [left; split_and!; (lia || done)|right].
  destruct (Z.leb_spec v 0x3FFFFFFF); [left|right]; split_and!; (lia || done).
Qed.

Lemma length_encode_varint v : Z.of_nat (length (encode_varint v)) = varint_size v.
Proof. by destruct (encode_varint_cases v) as [(_ & -> & ->)|[(_ & -> & ->)|[(_ & -> & ->)|(_ & -> & ->)]]]. Qed.

Lemma div_tag v k : (0 < k)%Z → (0 ≤ v < 64 * k)%Z → (0 ≤ v / k < 64)%Z.
Proof. intros. split; [apply Z.div_pos; lia|apply Z.div_lt_upper_bound; lia]. Qed.

Lemma decode_encode_varint v rest : (0 ≤ v < 2 ^ 62)%Z →
  decode_varint (encode_varint v ++ rest) = Varint v (varint_size v).
Proof.
  intros Hv. assert (v mod 256 = u8 v)%Z as Hm by done.
  destruct (encode_varint_cases v) as [(Hr & -> & ->)|[(Hr & -> & ->)|[(Hr & -> & ->)|(Hr & -> & ->)]]];
    simpl app; rewrite ?u8_shiftr by lia.
  - assert (u8 v = v) as -> by (unfold u8; rewrite Z.mod_small by lia; done).
    change v with (Z.lor (0 * 64) v) at 1. by rewrite decode_varint_tag by (simpl; lia).
  - pose proof (div_tag v (2 ^ 8) ltac:(lia) ltac:(lia)) as Ht.
    rewrite (Z.mod_small (v / 2 ^ 8)) by lia.
    rewrite decode_varint_tag; [|done|lia|simpl; lia]. cbn -[Z.lor Z.shiftl Z.div Z.pow u8].
    rewrite be16 by apply u8_octet. f_equal. rewrite <- Hm, (Z.mul_comm (v / _)).
    symmetry. apply (Z.div_mod v 256). lia.
  - pose proof (div_tag v (2 ^ 24) ltac:(lia) ltac:(lia)) as Ht.
    rewrite (Z.mod_small (v / 2 ^ 24)) by lia.
    rewrite decode_varint_tag; [|done|lia|simpl; lia].
    cbn -[Z.lor Z.shiftl Z.div Z.modulo Z.pow u8].
    rewrite be32 by (apply u8_octet || (apply Z.mod_pos_bound; lia)).
    f_equal. rewrite <- Hm. apply split32. lia.
  - pose proof (div_tag v (2 ^ 56) ltac:(lia) ltac:(lia)) as Ht.
    rewrite (Z.mod_small (v / 2 ^ 56)) by lia.
    rewrite decode_varint_tag; [|done|lia|simpl; lia].
    cbn -[Z.lor Z.shiftl Z.div Z.modulo Z.pow u8].
    rewrite be64 by (apply u8_octet || (apply Z.mod_pos_bound; lia)).
    f_equal. rewrite <- Hm. by apply split64.
Qed.

(** Whatever the octets, a decoded value fits in 62 bits and was read from
    inside the buffer. *)
Lemma lor_bound a b n : (0 ≤ n)%Z → (0 ≤ a < 2 ^ n)%Z → (0 ≤ b < 2 ^ n)%Z → (0 ≤ Z.lor a b < 2 ^ n)%Z.
Proof.
  intros Hn Ha Hb. split; [apply Z.lor_nonneg; lia|].
  destruct (decide (Z.lor a b = 0%Z)) as [->|Hne]; [lia|].
  assert (0 ≤ Z.lor a b)%Z by (apply Z.lor_nonneg; lia).
  apply Z.log2_lt_pow2; [lia|]. rewrite Z.log2_lor by lia.
  assert (∀ x, 0 ≤ x < 2 ^ n → x = 0 ∨ Z.log2 x < n)%Z as Hlog.
  { intros x Hx. destruct (decide (x = 0%Z)); [by left|right]. apply Z.log2_lt_pow2; lia. }
  assert (0 < n)%Z. { destruct (decide (n = 0%Z)) as [->|]; [|lia].
    assert (a = 0 ∧ b = 0)%Z as [-> ->] by (change (2 ^ 0)%Z with 1%Z in *; lia). done. }
  destruct (Hlog a Ha) as [->|], (Hlog b Hb) as [->|]; change (Z.log2 0) with 0%Z in *; lia.
Qed.

Lemma byte_at_octet data i : Forall octet data → octet (byte_at data i).
Proof.
  intros Hd. unfold byte_at. destruct (data !! i) eqn:E; simpl; [|by unfold octet; lia].
  by eapply Forall_lookup_1.
Qed.

Lemma shl_bound x k n : (0 ≤ k)%Z → (k + 8 ≤ n)%Z → octet x → (0 ≤ Z.shiftl x k < 2 ^ n)%Z.
Proof.
  intros Hk Hn [? Hx]. rewrite Z.shiftl_mul_pow2 by done. split; [apply Z.mul_nonneg_nonneg; lia|].
  apply Z.lt_le_trans with (2 ^ (k + 8))%Z; [|apply Z.pow_le_mono_r; lia].
  rewrite Z.pow_add_r by lia. change (2 ^ 8)%Z with 256%Z. nia.
Qed.

Lemma shl6_bound x k n : (0 ≤ k)%Z → (k + 6 ≤ n)%Z → (0 ≤ x < 64)%Z → (0 ≤ Z.shiftl x k < 2 ^ n)%Z.
Proof.
  intros Hk Hn [? Hx]. rewrite Z.shiftl_mul_pow2 by done. split; [apply Z.mul_nonneg_nonneg; lia|].
  apply Z.lt_le_trans with (2 ^ (k + 6))%Z; [|apply Z.pow_le_mono_r; lia].
  rewrite Z.pow_add_r by lia. change (2 ^ 6)%Z with 64%Z. nia.
Qed.

Lemma decode_varint_range data : Forall octet data →
  (0 ≤ value (decode_varint data) < 2 ^ 62)%Z ∧
  (0 ≤ bytes_read (decode_varint data) ≤ Z.of_nat (length data))%Z.
Proof.
  intros Hd. unfold decode_varint. case_decide; [simpl; lia|].
  set (top := Z.land (byte_at data 0) 0x3F).
  assert (0 ≤ top < 64)%Z as Htop.
  { unfold top. change 0x3F%Z with (Z.ones 6). rewrite Z.land_ones by lia. apply Z.mod_pos_bound. lia. }
  assert (∀ i, octet (byte_at data i)) as Ho by (intros; by apply byte_at_octet).
  assert (∀ i, 0 ≤ byte_at data i < 2 ^ 62)%Z as Ho' by (intros i; specialize (Ho i); unfold octet in Ho; lia).
  set (tag := Z.shiftr (byte_at data 0) 6).
  destruct (tag =? 0)%Z, (tag =? 1)%Z, (tag =? 2)%Z; cbn [Z.eqb Pos.eqb];
    match goal with |- context [(?a <? ?b)%Z] => destruct (Z.ltb_spec a b) end;
    cbn [value bytes_read]; (split; [|lia]); try lia;
    repeat (apply lor_bound; [lia| |]);
    (apply Ho' || (apply shl_bound; [lia|lia|apply Ho]) || (apply shl6_bound; [lia|lia|done]) || lia).
Qed.

(** ** Lemmas: literal header blocks *)

(** The reference encoding of the block: every string behind its length. *)
Definition encode_string (s : bytes) : list Z :=
  encode_varint (Z.of_nat (length s)) ++ bytes_to_octets s.

Definition encode_block (fields : HeaderList) : list Z :=
  concat (map (λ nv, encode_string (fst nv) ++ encode_string (snd nv)) fields).

(** The reference semantics: route the fields in order; [stoull] may throw. *)
Fixpoint route_all (fields : HeaderList) (f : request_fields) : parse_outcome :=
  match fields with
  | [] => Parsed f
  | (n, v) :: fields' =>
      match route_field n v f with
      | None => Threw f
      | Some f' => route_all fields' f'
      end
  end.

Lemma octets_bytes s : octets_to_bytes (bytes_to_octets s) = s.
Proof.
  induction s as [|c s IH]; simpl; [done|]. rewrite IH. f_equal.
  unfold code. by rewrite Nat2Z.id, ascii_nat_embedding.
Qed.

Lemma varint_size_pos v : (1 ≤ varint_size v ≤ 8)%Z.
Proof. unfold varint_size. repeat case_match; lia. Qed.

Lemma length_encode_string s :
  Z.of_nat (length (encode_string s)) = (varint_size (Z.of_nat (length s)) + Z.of_nat (length s))%Z.
Proof. unfold encode_string, bytes_to_octets. by rewrite length_app, length_map, Nat2Z.inj_add, length_encode_varint. Qed.

Lemma u64_small z : (0 ≤ z < 2 ^ 64)%Z → u64 z = z.
Proof. unfold u64. intros. by apply Z.mod_small. Qed.

(** Reading behind a prefix returns the string and the position after it. *)
Lemma read_string_encoded pre s rest :
  (Z.of_nat (length (pre ++ encode_string s ++ rest)) < 2 ^ 62)%Z →
  read_string (pre ++ encode_string s ++ rest) (Z.of_nat (length pre)) =
  Some (s, Z.of_nat (length (pre ++ encode_string s))).
Proof.
  intros Hlen. pose proof (varint_size_pos (Z.of_nat (length s))) as Hv.
  pose proof (length_encode_string s) as Hs. pose proof (length_encode_varint (Z.of_nat (length s))) as Hev.
  rewrite !length_app in Hlen. unfold read_string. rewrite Nat2Z.id, drop_app_length.
  assert (decode_varint (encode_string s ++ rest) =
          Varint (Z.of_nat (length s)) (varint_size (Z.of_nat (length s)))) as ->.
  { unfold encode_string. rewrite <- app_assoc. apply decode_encode_varint. lia. }
  cbn [value bytes_read]. rewrite (proj2 (Z.eqb_neq _ _)) by lia.
  rewrite (u64_small (Z.of_nat (length pre) + _)) by lia. rewrite u64_small by lia. rewrite !length_app.
  match goal with |- context [(?a <? ?b)%Z] => destruct (Z.ltb_spec a b) end; [lia|].
  f_equal. f_equal; [|lia].
  replace (Z.to_nat (Z.of_nat (length pre) + varint_size (Z.of_nat (length s)))) with
    (length (pre ++ encode_varint (Z.of_nat (length s)))) by (rewrite length_app; lia).
  unfold encode_string. rewrite <- !app_assoc, (app_assoc pre), drop_app_length.
  rewrite take_app_length' by (unfold bytes_to_octets; rewrite length_map; lia). apply octets_bytes.
Qed.

Lemma parse_fields_encoded fields : ∀ fuel pre f,
  (Z.of_nat (length (pre ++ encode_block fields)) < 2 ^ 62)%Z → length fields < fuel →
  parse_fields fuel (pre ++ encode_block fields) (Z.of_nat (length pre)) f = route_all fields f.
Proof.
  induction fields as [|[n v] fields IH]; intros [|fuel] pre f Hlen Hfuel; simpl in Hfuel; try lia.
  - cbn. rewrite app_nil_r, Z.ltb_irrefl. done.
  - pose proof (length_encode_string n) as Hn. pose proof (varint_size_pos (Z.of_nat (length n))) as Hvn.
    change (encode_block ((n, v) :: fields)) with
      ((encode_string n ++ encode_string v) ++ encode_block fields) in *.
    rewrite <- app_assoc in *. cbn [parse_fields].
    rewrite (proj2 (Z.ltb_lt _ _)) by (rewrite !length_app; lia).
    rewrite read_string_encoded by done.
    rewrite (app_assoc pre) in *. rewrite read_string_encoded by done. cbn [route_all].
    destruct (route_field n v f) as [f'|]; [|done].
    rewrite (app_assoc _ (encode_string v)) in *. apply IH; [done|lia].
Qed.

Lemma length_encode_block fields : length fields ≤ length (encode_block fields).
Proof.
  induction fields as [|[n v] fields IH]; [done|].
  change (encode_block ((n, v) :: fields)) with ((encode_string n ++ encode_string v) ++ encode_block fields).
  pose proof (length_encode_string n). pose proof (varint_size_pos (Z.of_nat (length n))).
  rewrite !length_app. cbn [length]. lia.
Qed.

(** A string that is read lies inside the buffer and moves the position on. *)
Lemma read_string_bounds data pos s p : Forall octet data → (Z.of_nat (length data) < 2 ^ 62)%Z →
  (0 ≤ pos ≤ Z.of_nat (length data))%Z → read_string data pos = Some (s, p) →
  (pos < p ≤ Z.of_nat (length data))%Z ∧ (Z.of_nat (length s) < p - pos)%Z.
Proof.
  intros Ho Hlen Hpos. unfold read_string.
  destruct (decode_varint_range (drop (Z.to_nat pos) data)) as [Hval Hrd]; [by apply Forall_drop|].
  rewrite length_drop in Hrd. set (vr := decode_varint _) in *.
  destruct (Z.eqb_spec (bytes_read vr) 0); [done|].
  rewrite (u64_small (pos + _)) by lia. rewrite u64_small by lia.
  match goal with |- context [(?a <? ?b)%Z] => destruct (Z.ltb_spec a b) end; [done|].
  intros [= <- <-]. unfold octets_to_bytes. rewrite length_map, length_take, length_drop. lia.
Qed.

Lemma parse_fields_fuel data : Forall octet data → (Z.of_nat (length data) < 2 ^ 62)%Z →
  ∀ fuel k pos f, (0 ≤ pos ≤ Z.of_nat (length data))%Z → (Z.of_nat (length data) - pos < Z.of_nat fuel)%Z →
  parse_fields (fuel + k) data pos f = parse_fields fuel data pos f.
Proof.
  intros Ho Hlen. induction fuel as [|fuel IH]; intros k pos f Hpos Hfuel; [lia|]. cbn [Nat.add parse_fields].
  destruct (Z.ltb_spec pos (Z.of_nat (length data))); [|done].
  destruct (read_string data pos) as [[n p1]|] eqn:E1; [|done].
  apply read_string_bounds in E1 as [E1 _]; [|done..].
  destruct (read_string data p1) as [[v p2]|] eqn:E2; [|done].
  apply read_string_bounds in E2 as [E2 _]; [|done|done|lia].
  destruct (route_field n v f); [|done]. apply IH; lia.
Qed.

(** ** Lemmas: header lists *)

Definition host_key : bytes := #"host".

(** A regular field name: not empty and not a pseudo-header. *)
Definition regular (n : bytes) : Prop := ∃ c n', n = c :: n' ∧ c ≠ COLON.

Lemma regular_not_pseudo n p : regular n → head p = Some COLON → n ≠ p.
Proof. intros (c & n' & -> & Hc) Hp Heq. subst p. simpl in Hp. congruence. Qed.

Lemma i32_small z : (0 ≤ z < 2 ^ 31)%Z → i32 z = z.
Proof.
  intros. unfold i32. rewrite Z.mod_small by lia. cbv zeta.
  match goal with |- context [(?a <? ?b)%Z] => destruct (Z.ltb_spec a b) end; lia.
Qed.

Lemma response_field_regular h n v : regular n →
  response_field h (n, v) = ResponseHead (status_code h) (reason h) (resp_version h)
    (HeaderMap.add n v (resp_headers h)) (resp_content_length h).
Proof.
  intros Hn. destruct h. unfold response_field.
  rewrite decide_False by (by apply regular_not_pseudo). destruct Hn as (c & n' & -> & Hc).
  by rewrite decide_False.
Qed.

Lemma request_field_regular h n v : regular n →
  request_field h (n, v) = RequestHead (method h) (req_version h) (path h) (scheme h) (authority h)
    (absolute_target h) (HeaderMap.add n v (req_headers h)) (req_content_length h).
Proof.
  intros Hn. destruct h. unfold request_field.
  rewrite !decide_False by (by apply regular_not_pseudo). destruct Hn as (c & n' & -> & Hc).
  by rewrite decide_False.
Qed.

(** Regular fields only append to the header map, in order. *)
Lemma fold_response_regular l : ∀ h, Forall (λ e, regular (fst e)) l →
  fold_left response_field l h = ResponseHead (status_code h) (reason h) (resp_version h)
    (HeaderMap.Map (HeaderMap.entries_ (resp_headers h) ++ l)) (resp_content_length h).
Proof.
  induction l as [|[n v] l IH]; intros [st rs ver [es] cl] Hl; [by rewrite app_nil_r|].
  inversion_clear Hl. cbn [fold_left]. rewrite response_field_regular, IH by done. cbn.
  by rewrite <- app_assoc.
Qed.

(** The fields of a header list that are no pseudo-headers, as they are. *)
Definition kept_fields (raw : HeaderList) : HeaderList :=
  List.filter (λ e, match fst e with [] => false | c :: _ => bool_decide (c ≠ COLON) end) raw.

(** The value of the last [:status] of a header list, as [std::strtol] reads it. *)
Definition sent_status (raw : HeaderList) : Z :=
  match list.last (filter (λ e : bytes * bytes, fst e = #":status") raw) with Some e => i32 (strtol (snd e)) | None => 0%Z end.

(** Whatever a peer sends, its response is read as its last status and its
    fields in order, none of them dropped or changed. *)
Lemma response_fields raw : fold_left response_field raw (ResponseHead 0 [] #"HTTP/3" HeaderMap.empty_map None) =
  ResponseHead (sent_status raw) [] #"HTTP/3" (HeaderMap.Map (kept_fields raw)) None.
Proof.
  induction raw as [|[n v] raw IH] using rev_ind; [done|]. rewrite fold_left_app, IH. cbn [fold_left response_field].
  assert (kept_fields (raw ++ [(n, v)]) = kept_fields raw ++ kept_fields [(n, v)]) as -> by apply List.filter_app.
  unfold sent_status. rewrite list.filter_app. destruct (decide (n = #":status")) as [->|Hn].
  - rewrite filter_cons_True, filter_nil, list.last_snoc by done. cbn. by rewrite app_nil_r.
  - rewrite filter_cons_False, filter_nil, app_nil_r by done. destruct n as [|c n]; [cbn; by rewrite app_nil_r|].
    change (kept_fields [(c :: n, v)]) with (if bool_decide (c ≠ COLON) then [(c :: n, v)] else []). cbn [fst]. destruct (decide (c = COLON)) as [->|Hc].
    + rewrite bool_decide_false by naive_solver. by rewrite app_nil_r.
    + by rewrite bool_decide_true.
Qed.

Lemma fold_request_regular l : ∀ h, Forall (λ e, regular (fst e)) l →
  fold_left request_field l h = RequestHead (method h) (req_version h) (path h) (scheme h) (authority h)
    (absolute_target h) (HeaderMap.Map (HeaderMap.entries_ (req_headers h) ++ l)) (req_content_length h).
Proof.
  induction l as [|[n v] l IH]; intros [m ver p sc au ab [es] cl] Hl; [by rewrite app_nil_r|].
  inversion_clear Hl. cbn [fold_left]. rewrite request_field_regular, IH by done. cbn.
  by rewrite <- app_assoc.
Qed.

Lemma end_to_end_regular h : Forall (λ e, regular (fst e)) (HeaderMap.entries h) →
  Forall (λ e, regular (fst e)) (end_to_end h).
Proof.
  rewrite !List.Forall_forall. intros Hh e. unfold end_to_end. rewrite filter_In. intros [He _]. by apply Hh.
Qed.

Lemma end_to_end_clean h e : List.In e (end_to_end h) → is_hop_by_hop (fst e) = false.
Proof. unfold end_to_end. rewrite filter_In. intros [_ He]. by apply negb_true_iff in He. Qed.

(** After an [:authority] that is the last one, no field changes what [host]
    reads: later [host] fields are appended behind it. *)
Lemma fold_request_host l : ∀ h v,
  authority h = v → HeaderMap.get host_key (req_headers h) = Some v →
  #":authority" ∉ map fst l →
  authority (fold_left request_field l h) = v ∧
  HeaderMap.get host_key (req_headers (fold_left request_field l h)) = Some v.
Proof.
  induction l as [|[n w] l IH]; intros [m ver p sc au ab hd cl] v Ha Hg Hl; [done|].
  cbn [map fst] in Hl. apply not_elem_of_cons in Hl as [Hn Hl]. cbn [fold_left].
  apply IH; [..|done]; unfold request_field; cbn [authority req_headers] in *;
    repeat case_decide; try congruence; try done;
    (destruct n as [|c n]; [done|]; case_decide; [done|]); cbn [authority req_headers]; try done.
  by apply HeaderMap.get_add_present.
Qed.

Lemma set_cl_req_same h : authority (set_cl_req h) = authority h ∧ req_headers (set_cl_req h) = req_headers h.
Proof. unfold set_cl_req. by destruct (HeaderMap.get _ _). Qed.

(** ** Properties *)

(** QUIC variable-length integers (RFC 9000, section 16) round-trip.  For
    every value below [2^62] the encoder stores [varint_size v] octets and the
    decoder, whatever follows them, reads back [v] and that size.  Any buffer
    of octets decodes to a value below [2^62] without reading past its end. *)
Theorem varint_roundtrip (v : Z) (rest : list Z) :
  ((0 ≤ v < 2 ^ 62)%Z →
    decode_varint (encode_varint v ++ rest) = Varint v (varint_size v) ∧
    Z.of_nat (length (encode_varint v)) = varint_size v) ∧
  (Forall octet rest →
    (0 ≤ value (decode_varint rest) < 2 ^ 62)%Z ∧
    (0 ≤ bytes_read (decode_varint rest) ≤ Z.of_nat (length rest))%Z).
Proof.
  split; [intros Hv; split; [by apply decode_encode_varint|apply length_encode_varint]|apply decode_varint_range].
Qed.

Lemma varint_roundtrip_witness :
  decode_varint (encode_varint 494878333 ++ [7%Z]) = Varint 494878333 4 ∧ value (decode_varint [7%Z]) = 7%Z.
Proof.
  destruct (varint_roundtrip 494878333 [7%Z]) as [H1 H2].
  destruct (H1 ltac:(lia)) as [E _]. split; [exact E|reflexivity].
Defined.

(** The literal header block parser is a left inverse of the reference
    encoding: on a block below [2^62] octets it routes exactly the encoded
    fields, in order, and it throws exactly when [stoull] rejects a
    content-length. *)
Theorem header_block_roundtrip (fields : HeaderList) :
  (Z.of_nat (length (encode_block fields)) < 2 ^ 62)%Z →
  parse_request_headers (encode_block fields) = route_all fields no_fields.
Proof.
  intros Hlen. unfold parse_request_headers. apply (parse_fields_encoded fields _ []); [done|].
  pose proof (length_encode_block fields). lia.
Qed.

Definition example_fields : HeaderList :=
  [(#":method", #"GET"); (#":path", #"/a"); (#":authority", #"h"); (#"content-length", #"5"); (#"x", #"y")].

Lemma header_block_roundtrip_witness :
  parse_request_headers (encode_block example_fields) =
  Parsed (Fields #"GET" #"/a" (HeaderMap.Map [(#"host", #"h"); (#"x", #"y")]) (Some 5%Z)).
Proof.
  assert (Z.of_nat (length (encode_block example_fields)) < 2 ^ 62)%Z as Hl by (vm_compute; reflexivity).
  exact (header_block_roundtrip example_fields Hl).
Defined.

(** On any octets the parser stays inside the buffer and its loop ends:
    a string it accepts lies between the old and the new position, which never
    passes the end (the [size_t] additions do not wrap), and iterations beyond
    one per octet change nothing. *)
Theorem header_block_safe (data : list Z) :
  Forall octet data → (Z.of_nat (length data) < 2 ^ 62)%Z →
  (∀ pos s p, (0 ≤ pos ≤ Z.of_nat (length data))%Z → read_string data pos = Some (s, p) →
     (pos < p ≤ Z.of_nat (length data))%Z ∧ (Z.of_nat (length s) < p - pos)%Z) ∧
  (∀ k, parse_fields (S (length data) + k) data 0 no_fields = parse_request_headers data).
Proof.
  intros Ho Hlen. split; [intros; by apply read_string_bounds|].
  intros k. apply parse_fields_fuel; [done|done|lia|lia].
Qed.

Lemma header_block_safe_witness :
  parse_fields 9 [5; 65; 66]%Z 0 no_fields = Rejected no_fields.
Proof.
  refine (proj2 (header_block_safe [5; 65; 66]%Z _ _) 5); [|by vm_compute].
  repeat (constructor; [unfold octet; lia|]). constructor.
Defined.

(** Routing cannot be steered by a [host] field: whatever regular or
    pseudo fields surround it, the last [:authority] is both the request's
    authority and the value [host] reads. *)
Theorem authority_is_host (pre post : HeaderList) (v : bytes) :
  #":authority" ∉ map fst post →
  let h := request_head_from_headers (pre ++ (#":authority", v) :: post) in
  authority h = v ∧ HeaderMap.get host_key (req_headers h) = Some v.
Proof.
  intros Hp h. unfold h, request_head_from_headers.
  destruct (set_cl_req_same (fold_left request_field (pre ++ (#":authority", v) :: post)
    (RequestHead [] #"HTTP/3" [] [] [] false HeaderMap.empty_map None))) as [-> ->].
  rewrite fold_left_app. cbn [fold_left]. set (h0 := fold_left _ pre _).
  apply fold_request_host; [..|done]; destruct h0 as [m ver p sc au ab hd cl]; [done|].
  change (HeaderMap.get host_key (HeaderMap.set host_key v hd) = Some v).
  rewrite HeaderMap.get_set. by rewrite decide_True.
Qed.

Lemma authority_is_host_witness :
  HeaderMap.get host_key (req_headers (request_head_from_headers
    ([(#"host", #"evil")] ++ (#":authority", #"a.test") :: [(#"Host", #"evil")]))) = Some #"a.test".
Proof.
  apply (authority_is_host [(#"host", #"evil")] [(#"Host", #"evil")] #"a.test").
  apply (bool_decide_unpack _). vm_compute. exact I.
Defined.

(** A response re-serialised for HTTP/3 and interpreted by the peer keeps
    its status, its end-to-end fields in order and the length they announce;
    no hop-by-hop field crosses. *)
Theorem h3_response_roundtrip (h : HttpResponseHead) :
  (0 ≤ status_code h < 2 ^ 31)%Z → Forall (λ e, regular (fst e)) (HeaderMap.entries (resp_headers h)) →
  let h' := response_head_from_headers (response_header_list h) in
  status_code h' = status_code h ∧
  HeaderMap.entries (resp_headers h') = end_to_end (resp_headers h) ∧
  resp_content_length h' =
    ((λ cl, fst (strtoul cl 10)) <$> HeaderMap.get #"content-length" (resp_headers h')) ∧
  Forall (λ e, is_hop_by_hop (fst e) = false) (HeaderMap.entries (resp_headers h')).
Proof.
  intros Hst Hreg h'.
  assert (h' = set_cl_resp (ResponseHead (status_code h) [] #"HTTP/3"
    (HeaderMap.Map (end_to_end (resp_headers h))) None)) as ->.
  { unfold h', response_head_from_headers, response_header_list. cbn [fold_left].
    rewrite fold_response_regular by (by apply end_to_end_regular).
    cbn [status_code reason resp_version resp_headers resp_content_length response_field].
    rewrite decide_True by done. rewrite strtol_to_string by lia. by rewrite i32_small by lia. }
  unfold set_cl_resp. cbn [resp_headers].
  destruct (HeaderMap.get #"content-length" _) as [cl|] eqn:Ecl;
    cbn [status_code resp_headers resp_content_length HeaderMap.entries HeaderMap.entries_]; rewrite Ecl;
    split_and!; try done; apply List.Forall_forall; intros e; apply end_to_end_clean.
Qed.

Lemma h3_response_roundtrip_witness :
  HeaderMap.entries (resp_headers (response_head_from_headers (response_header_list
    (ResponseHead 200 #"OK" #"HTTP/1.1"
      (HeaderMap.Map [(#"Transfer-Encoding", #"chunked"); (#"Server", #"x")]) None)))) = [(#"Server", #"x")].
Proof.
  apply (h3_response_roundtrip (ResponseHead 200 #"OK" #"HTTP/1.1"
      (HeaderMap.Map [(#"Transfer-Encoding", #"chunked"); (#"Server", #"x")]) None)); [cbn; lia|].
  repeat (constructor; [eexists _, _; split; [reflexivity|discriminate]|]). constructor.
Defined.

(** A request forwarded over HTTP/3 arrives with its method, scheme and
    path (or their defaults), with [host] reading the authority sent, and with
    exactly its end-to-end fields behind it. *)
Theorem h3_request_roundtrip (h : HttpRequestHead) :
  Forall (λ e, regular (fst e)) (HeaderMap.entries (req_headers h)) →
  let h' := request_head_from_headers (request_header_list h) in
  let auth := match authority h with [] => default [] (HeaderMap.get host_key (req_headers h)) | a => a end in
  method h' = or_default (method h) #"GET" ∧ scheme h' = or_default (scheme h) #"http" ∧
  path h' = or_default (path h) #"/" ∧ authority h' = auth ∧
  HeaderMap.entries (req_headers h') = (host_key, auth) :: end_to_end (req_headers h) ∧
  Forall (λ e, is_hop_by_hop (fst e) = false) (HeaderMap.entries (req_headers h')).
Proof.
  intros Hreg h' auth.
  assert (h' = set_cl_req (RequestHead (or_default (method h) #"GET") #"HTTP/3" (or_default (path h) #"/")
    (or_default (scheme h) #"http") auth false
    (HeaderMap.Map ((host_key, auth) :: end_to_end (req_headers h))) None)) as ->.
  { unfold h', request_head_from_headers, request_header_list. rewrite fold_left_app.
    rewrite fold_request_regular by (by apply end_to_end_regular). reflexivity. }
  unfold set_cl_req. cbn [req_headers].
  destruct (HeaderMap.get #"content-length" _);
    cbn [method scheme path authority req_headers HeaderMap.entries HeaderMap.entries_];
    split_and!; try done; (constructor; [by vm_compute|]);
    apply List.Forall_forall; intros e; apply end_to_end_clean.
Qed.

Lemma h3_request_roundtrip_witness :
  authority (request_head_from_headers (request_header_list
    (RequestHead #"GET" #"HTTP/1.1" #"/" [] [] false (HeaderMap.Map [(#"Host", #"a.test")]) None))) = #"a.test".
Proof.
  apply (h3_request_roundtrip
    (RequestHead #"GET" #"HTTP/1.1" #"/" [] [] false (HeaderMap.Map [(#"Host", #"a.test")]) None)).
  repeat (constructor; [eexists _, _; split; [reflexivity|discriminate]|]). constructor.
Defined.

(** The outcome an HTTP/3 write reports is the outcome of the final FIN
    alone: when sending the headers fails and the shutdown succeeds, the
    callback is told the message was sent. *)
Theorem h3_write_reports_shutdown {S B : Type} `{TransportStream S} `{BodySource B}
  (fuel : nat) (stream stream1 stream2 : S) (headers : HeaderList) (body : option B) (ec : error_code) :
  stream_send_headers headers stream = (HeaderResult true (Some (Some ec)), stream1) →
  stream_shutdown stream1 = (None, stream2) →
  send_message fuel stream headers body = Some (CodecResult (Some None) false, stream2, body).
Proof. intros Hsend Hshut. unfold send_message. rewrite Hsend. cbn. unfold finish. by rewrite Hshut. Qed.

(** A stream whose header write fails and whose shutdown succeeds. *)
Definition refusing_stream : TransportStream unit := {|
  stream_read _ s := (ReadErr eof, s);
  stream_write _ s := (Some connection_reset, s);
  stream_shutdown s := (None, s);
  stream_take_headers s := (HeaderResult false None, s);
  stream_send_headers _ s := (HeaderResult true (Some (Some connection_reset)), s);
|}.

Lemma h3_write_reports_shutdown_witness :
  @send_message unit BufferBodySource refusing_stream _ 0 tt [(#":status", #"200")] None =
  Some (CodecResult (Some None) false, tt, None).
Proof.
  apply (@h3_write_reports_shutdown unit BufferBodySource refusing_stream _ 0 tt tt tt
    [(#":status", #"200")] None connection_reset); reflexivity.
Defined.

(** On a transport without header support (TCP) the HTTP/3 codec does not
    report [operation_not_supported]: its callback has been moved away, none of
    the four operations calls it, and all of them throw. *)
Theorem h3_over_tcp_throws {K B : Type} `{AsioSocket K} `{BodySource B}
  (fuel : nat) (t : Tcp.TcpTransportStream K) (rq : HttpRequestHead) (rs : HttpResponseHead) (body : option B) :
  async_parse_request t = (CodecResult None true, t) ∧
  async_parse_response t = (CodecResult None true, t) ∧
  async_write_request fuel t rq body = Some (CodecResult None true, t, body) ∧
  async_write_response fuel t rs body = Some (CodecResult None true, t, body).
Proof. done. Qed.
