(* ===== verification/Config.v ===== *)
(** * Configuration (src/src/config.{h,cpp})

    The configuration records and [load_config], from the parsed TOML document
    to the record.  The TOML library itself is not modelled: the document
    arrives as a [toml] tree, and [find], [find_or] and [contains] follow the
    library's documented behaviour ([find] throws on a missing key or a wrong
    type, [find_or] returns its default there). *)

From S2P Require Import Prelude CppStd Transport.

Record BackendEndpoint := Endpoint {
  backend_id : bytes;
  host : bytes;
  port : Z;                         (** [uint16_t] *)
  weight : Z;
  ep_protocol : TransportProtocol;
}.

#[global] Instance BackendEndpoint_eq_dec : EqDecision BackendEndpoint.
Proof. solve_decision. Defined.

Record RouteRule := Route {
  route_host : bytes;               (** [host_match]; ["*"] for default *)
  route_backend : bytes;
}.

Record ProxyConfig := Config {
  listen_addr : bytes;
  listen_port : Z;
  num_threads : Z;
  stats_port : Z;
  max_streams_in : Z;
  idle_timeout_secs : Z;
  dual_stack : bool;
  quic_port : Z;
  quic_cert_file : bytes;
  quic_key_file : bytes;
  backends : list BackendEndpoint;
  routes : list RouteRule;
}.

Definition default_config : ProxyConfig :=
  Config #"0.0.0.0" 8080 1 0 0 30 false 0 #"certs/cert.pem" #"certs/key.pem" [] [].

(** ** Documents *)

Inductive toml :=
  | TString (s : bytes)
  | TInteger (n : Z)
  | TBoolean (b : bool)
  | TArray (l : list toml)
  | TTable (fields : list (bytes * toml)).

Fixpoint assoc (key : bytes) (fields : list (bytes * toml)) : option toml :=
  match fields with
  | [] => None
  | (k, v) :: rest => if decide (k = key) then Some v else assoc key rest
  end.

(** [root.contains(key)] and [toml::find(v, key)]; [None] is the exception. *)
Definition find_value (key : bytes) (v : toml) : option toml :=
  match v with TTable fields => assoc key fields | _ => None end.

Definition as_string (v : toml) : option bytes := match v with TString s => Some s | _ => None end.
(** [get<int>]: the stored 64-bit integer converted to [int]. *)
Definition as_int (v : toml) : option Z := match v with TInteger n => Some (i32 n) | _ => None end.
Definition as_bool (v : toml) : option bool := match v with TBoolean b => Some b | _ => None end.
Definition as_array (v : toml) : option (list toml) := match v with TArray l => Some l | _ => None end.

Definition find {A} (as_ : toml → option A) (key : bytes) (v : toml) : option A := find_value key v ≫= as_.
Definition find_or {A} (as_ : toml → option A) (key : bytes) (v : toml) (dflt : A) : A :=
  default dflt (find as_ key v).

(** ** [load_config] *)

(** [listen_port], [quic_port] and [stats_port] are converted to [uint16_t]. *)
Definition load_listen (tbl : toml) (cfg : ProxyConfig) : ProxyConfig :=
  Config (find_or as_string #"address" tbl #"0.0.0.0")
         (u16 (find_or as_int #"port" tbl 8080%Z))
         (find_or as_int #"num_threads" tbl 1%Z)
         (u16 (find_or as_int #"stats_port" tbl 0%Z))
         (find_or as_int #"max_streams_in" tbl 0%Z)
         (find_or as_int #"idle_timeout" tbl 30%Z)
         (find_or as_bool #"dual_stack" tbl false)
         (u16 (find_or as_int #"quic_port" tbl 0%Z))
         (find_or as_string #"quic_cert_file" tbl #"certs/cert.pem")
         (find_or as_string #"quic_key_file" tbl #"certs/key.pem")
         (backends cfg) (routes cfg).

Definition load_backend (v : toml) : option BackendEndpoint :=
  id ← find as_string #"id" v;
  h ← find as_string #"host" v;
  p ← find as_int #"port" v;
  let w := find_or as_int #"weight" v 1%Z in
  let proto := if decide (find_or as_string #"protocol" v #"h1" = #"h3") then QUIC else TCP in
  Some (Endpoint id h (u16 p) w proto).

Definition load_route (v : toml) : option RouteRule :=
  h ← find as_string #"host" v;
  b ← find as_string #"backend" v;
  Some (Route h b).

(** A section that is an array of tables; an absent section changes nothing. *)
Definition load_section {A} (key : bytes) (load : toml → option A) (root : toml) : option (list A) :=
  match find_value key root with
  | None => Some []
  | Some v => l ← as_array v; mapM load l
  end.

(** [None] when [load_config] rethrows. *)
Definition load_config (root : toml) : option ProxyConfig :=
  let cfg := match find_value #"listen" root with
             | Some tbl => load_listen tbl default_config
             | None => default_config
             end in
  bs ← load_section #"backends" load_backend root;
  rs ← load_section #"routes" load_route root;
  Some (Config (listen_addr cfg) (listen_port cfg) (num_threads cfg) (stats_port cfg)
          (max_streams_in cfg) (idle_timeout_secs cfg) (dual_stack cfg) (quic_port cfg)
          (quic_cert_file cfg) (quic_key_file cfg) bs rs).

(** ** Documents as they are written

    A table with some of its keys; a key that is not given is not in the table. *)

Definition given (name : bytes) (v : option toml) : list (bytes * toml) :=
  match v with Some v => [(name, v)] | None => [] end.

(** The [[listen]] table. *)
Record listen_keys := ListenKeys {
  k_address : option bytes; k_port : option Z; k_num_threads : option Z; k_stats_port : option Z;
  k_max_streams_in : option Z; k_idle_timeout : option Z; k_dual_stack : option bool; k_quic_port : option Z;
  k_quic_cert_file : option bytes; k_quic_key_file : option bytes;
}.

Definition no_keys : listen_keys := ListenKeys None None None None None None None None None None.

(** An element of [[[backends]]] and of [[[routes]]]. *)
Record backend_keys := BackendKeys {
  k_id : option bytes; k_host : option bytes; k_backend_port : option Z; k_weight : option Z; k_protocol : option bytes;
}.
Record route_keys := RouteKeys { k_route_host : option bytes; k_route_backend : option bytes }.

Record config_keys := ConfigKeys {
  k_listen : option listen_keys;
  k_backends : option (list backend_keys);
  k_routes : option (list route_keys);
}.

Definition listen_doc (k : listen_keys) : toml :=
  TTable (given #"quic_key_file" (TString <$> k_quic_key_file k) ++ given #"quic_cert_file" (TString <$> k_quic_cert_file k) ++
          given #"quic_port" (TInteger <$> k_quic_port k) ++ given #"dual_stack" (TBoolean <$> k_dual_stack k) ++
          given #"idle_timeout" (TInteger <$> k_idle_timeout k) ++ given #"max_streams_in" (TInteger <$> k_max_streams_in k) ++
          given #"stats_port" (TInteger <$> k_stats_port k) ++ given #"num_threads" (TInteger <$> k_num_threads k) ++
          given #"port" (TInteger <$> k_port k) ++ given #"address" (TString <$> k_address k)).

Definition backend_doc (b : backend_keys) : toml :=
  TTable (given #"protocol" (TString <$> k_protocol b) ++ given #"weight" (TInteger <$> k_weight b) ++
          given #"port" (TInteger <$> k_backend_port b) ++ given #"host" (TString <$> k_host b) ++ given #"id" (TString <$> k_id b)).

Definition route_doc (r : route_keys) : toml :=
  TTable (given #"backend" (TString <$> k_route_backend r) ++ given #"host" (TString <$> k_route_host r)).

Definition config_doc (k : config_keys) : toml :=
  TTable (given #"routes" (TArray ∘ map route_doc <$> k_routes k) ++ given #"backends" (TArray ∘ map backend_doc <$> k_backends k) ++
          given #"listen" (listen_doc <$> k_listen k)).

(** The endpoint and the rule an element describes; [None] when a key that has
    no default is missing. *)
Definition described_backend (b : backend_keys) : option BackendEndpoint :=
  match k_id b, k_host b, k_backend_port b with
  | Some id, Some h, Some p =>
      Some (Endpoint id h (p mod 2 ^ 16) (i32 (default 1 (k_weight b)))
              (if decide (k_protocol b = Some #"h3") then QUIC else TCP))
  | _, _, _ => None
  end%Z.

Definition described_route (r : route_keys) : option RouteRule :=
  match k_route_host r, k_route_backend r with Some h, Some b => Some (Route h b) | _, _ => None end.

(** ** Lemmas *)

Lemma i32_range z : (- 2 ^ 31 ≤ i32 z < 2 ^ 31)%Z.
Proof. unfold i32. cbv zeta. destruct (Z.ltb_spec (z mod 2 ^ 32) (2 ^ 31)); Z.to_euclidean_division_equations; lia. Qed.

(** An [int] and the 64-bit integer it was read from have the same low bits. *)
Lemma u16_i32 z : u16 (i32 z) = (z mod 2 ^ 16)%Z.
Proof.
  unfold u16, i32. cbv zeta. destruct (Z.ltb_spec (z mod 2 ^ 32) (2 ^ 31));
    Z.to_euclidean_division_equations; lia.
Qed.

Lemma assoc_key n m v l : assoc n (given m v ++ l) = if decide (m = n) then v ∪ assoc n l else assoc n l.
Proof. destruct v as [v|]; cbn; case_decide; try done; by destruct (assoc n l). Qed.

Lemma assoc_last n m v : assoc n (given m v) = if decide (m = n) then v else None.
Proof. destruct v as [v|]; cbn; by case_decide. Qed.

(** Looks a key up in a table with distinct keys. *)
Ltac lookup_key :=
  unfold find_or, find, find_value, listen_doc, backend_doc, route_doc, config_doc;
  repeat (rewrite assoc_key; first [rewrite decide_True by reflexivity | rewrite decide_False by discriminate]);
  rewrite assoc_last; first [rewrite decide_True by reflexivity | rewrite decide_False by discriminate];
  rewrite ?(right_id_L None (∪)).

Lemma load_listen_doc k cfg : load_listen (listen_doc k) cfg = Config (default #"0.0.0.0" (k_address k))
  (default 8080 (k_port k) mod 2 ^ 16)%Z (i32 (default 1%Z (k_num_threads k))) (default 0 (k_stats_port k) mod 2 ^ 16)%Z
  (i32 (default 0%Z (k_max_streams_in k))) (i32 (default 30%Z (k_idle_timeout k))) (default false (k_dual_stack k))
  (default 0 (k_quic_port k) mod 2 ^ 16)%Z (default #"certs/cert.pem" (k_quic_cert_file k))
  (default #"certs/key.pem" (k_quic_key_file k)) (backends cfg) (routes cfg).
Proof.
  unfold load_listen. f_equal; lookup_key.
  all: match goal with |- context [(_ <$> ?o) ≫= _] => destruct o end; try reflexivity; apply u16_i32.
Qed.

Lemma load_backend_doc b : load_backend (backend_doc b) = described_backend b.
Proof.
  destruct b as [id h p w pr]. unfold load_backend, described_backend. cbn [k_id k_host k_backend_port k_weight k_protocol].
  assert (find as_string #"id" (backend_doc (BackendKeys id h p w pr)) = id) as -> by (lookup_key; by destruct id).
  assert (find as_string #"host" (backend_doc (BackendKeys id h p w pr)) = h) as -> by (lookup_key; by destruct h).
  assert (find as_int #"port" (backend_doc (BackendKeys id h p w pr)) = i32 <$> p) as -> by (lookup_key; by destruct p).
  assert (find_or as_int #"weight" (backend_doc (BackendKeys id h p w pr)) 1 = i32 (default 1 w))%Z as -> by (lookup_key; by destruct w).
  assert (find_or as_string #"protocol" (backend_doc (BackendKeys id h p w pr)) #"h1" = default #"h1" pr) as -> by (lookup_key; by destruct pr).
  destruct id as [id|], h as [h|], p as [p|]; try reflexivity. cbn -[u16 i32]. rewrite u16_i32. do 2 f_equal.
  destruct pr as [pr|]; [|done]. repeat case_decide; simplify_eq/=; done.
Qed.

Lemma load_route_doc r : load_route (route_doc r) = described_route r.
Proof.
  destruct r as [h b]. unfold load_route, described_route. cbn [k_route_host k_route_backend].
  assert (find as_string #"host" (route_doc (RouteKeys h b)) = h) as -> by (lookup_key; by destruct h).
  assert (find as_string #"backend" (route_doc (RouteKeys h b)) = b) as -> by (lookup_key; by destruct b).
  by destruct h, b.
Qed.

Lemma load_section_doc {A K} name (load : toml → option A) (doc : K → toml) (described : K → option A) root (l : option (list K)) :
  (∀ k, load (doc k) = described k) → find_value name root = (TArray ∘ map doc <$> l) →
  load_section name load root = mapM described (default [] l).
Proof.
  intros Hd. unfold load_section. intros ->. destruct l as [l|]; [|done]. cbn.
  induction l as [|k l IH]; [done|]. cbn. by rewrite Hd, IH.
Qed.

Lemma load_sections k : load_section #"backends" load_backend (config_doc k) = mapM described_backend (default [] (k_backends k)) ∧
  load_section #"routes" load_route (config_doc k) = mapM described_route (default [] (k_routes k)).
Proof. split; (eapply load_section_doc; [apply load_backend_doc || apply load_route_doc|by lookup_key]). Qed.

(** A list is refused when one of its elements is. *)
Lemma mapM_None {A B} (f : A → option B) l : mapM f l = None ↔ Exists (λ x, f x = None) l.
Proof.
  induction l as [|x l IH]; cbn; [split; [done|by inversion 1]|]. rewrite Exists_cons, <- IH.
  destruct (f x); cbn; [|naive_solver]. destruct (mapM f l); cbn; naive_solver.
Qed.

Lemma described_backend_None b : described_backend b = None ↔ k_id b = None ∨ k_host b = None ∨ k_backend_port b = None.
Proof. unfold described_backend. destruct (k_id b), (k_host b), (k_backend_port b); naive_solver. Qed.

Lemma described_route_None r : described_route r = None ↔ k_route_host r = None ∨ k_route_backend r = None.
Proof. unfold described_route. destruct (k_route_host r), (k_route_backend r); naive_solver. Qed.

(** ** Properties *)

(** C36: What [load_config] makes of a configuration document.  For any
    document whose values have the types their keys ask for, with any of the
    keys and sections left out: every key of [[listen]] lands in the field it
    names and a missing one leaves the default of config.h, ports keep their low 16
    bits and counts their low 32; the backends and routes are the ones listed,
    in order, with [h3] (and nothing else) selecting QUIC and weight 1 by
    default.  Loading fails exactly when some backend has no id, host or port or
    some route no host or backend. *)
Theorem config_loaded (k : config_keys) :
  let l := default no_keys (k_listen k) in
  let bs := default [] (k_backends k) in
  let rs := default [] (k_routes k) in
  (∀ c, load_config (config_doc k) = Some c ↔ ∃ bs' rs',
     Forall2 (λ b b', described_backend b = Some b') bs bs' ∧ Forall2 (λ r r', described_route r = Some r') rs rs' ∧
     c = Config (default #"0.0.0.0" (k_address l)) (default 8080 (k_port l) mod 2 ^ 16)%Z (i32 (default 1%Z (k_num_threads l)))
           (default 0 (k_stats_port l) mod 2 ^ 16)%Z (i32 (default 0%Z (k_max_streams_in l))) (i32 (default 30%Z (k_idle_timeout l)))
           (default false (k_dual_stack l)) (default 0 (k_quic_port l) mod 2 ^ 16)%Z
           (default #"certs/cert.pem" (k_quic_cert_file l)) (default #"certs/key.pem" (k_quic_key_file l)) bs' rs') ∧
  (load_config (config_doc k) = None ↔
     Exists (λ b, k_id b = None ∨ k_host b = None ∨ k_backend_port b = None) bs ∨
     Exists (λ r, k_route_host r = None ∨ k_route_backend r = None) rs).
Proof.
  intros l bs rs. destruct (load_sections k) as [Eb Er]. unfold load_config. rewrite Eb, Er. fold bs rs.
  assert (find_value #"listen" (config_doc k) = listen_doc <$> k_listen k) as -> by (by lookup_key).
  assert (match listen_doc <$> k_listen k with Some tbl => load_listen tbl default_config | None => default_config end =
    load_listen (listen_doc l) default_config) as -> by (unfold l; by destruct (k_listen k)).
  rewrite load_listen_doc. cbn -[i32 Z.modulo Z.pow]. split.
  - intros c. split.
    + intros (bs' & Hb & (rs' & Hr & [= <-])%bind_Some)%bind_Some. exists bs', rs'. by rewrite <- !mapM_Some.
    + intros (bs' & rs' & Hb%mapM_Some & Hr%mapM_Some & ->). by rewrite Hb, Hr.
  - setoid_rewrite <- described_backend_None. setoid_rewrite <- described_route_None. rewrite <- !mapM_None.
    destruct (mapM described_backend bs), (mapM described_route rs); naive_solver.
Qed.

(** A port out of range is truncated, [https] is no protocol, a route needs its host. *)
Example config_loaded_some : load_config (config_doc (ConfigKeys
  (Some (ListenKeys (Some #"::") (Some 73616%Z) None None None None (Some true) None None None))
  (Some [BackendKeys (Some #"web") (Some #"10.0.0.1") (Some 80%Z) None (Some #"https");
         BackendKeys (Some #"web") (Some #"10.0.0.2") (Some 443%Z) (Some 2%Z) (Some #"h3")])
  (Some [RouteKeys (Some #"*") (Some #"web")]))) =
  Some (Config #"::" 8080 1 0 0 30 true 0 #"certs/cert.pem" #"certs/key.pem"
    [Endpoint #"web" #"10.0.0.1" 80 1 TCP; Endpoint #"web" #"10.0.0.2" 443 2 QUIC] [Route #"*" #"web"]).
Proof. reflexivity. Qed.

Example config_refused : load_config (config_doc (ConfigKeys None None (Some [RouteKeys None (Some #"web")]))) = None.
Proof. reflexivity. Qed.
