(* ===== verification/Router.v ===== *)
(** * Host routing (src/src/proxy/router.{h,cpp}) *)

From S2P Require Import Prelude CppStd HttpMessage.

Module Router.

Record Rule := MkRule {
  host_match : bytes;          (** ["*"] for default *)
  rule_backend : bytes;
}.

(** [std::vector<Rule> rules_] *)
Record t := MkRouter { rules_ : list Rule }.

Definition empty_router : t := MkRouter [].

Definition add_rule (r : Rule) (rt : t) : t := MkRouter (rules_ rt ++ [r]).

(** One scan of the table for a pattern. *)
Fixpoint scan (pat : bytes) (rules : list Rule) : option bytes :=
  match rules with
  | [] => None
  | r :: rest => if decide (host_match r = pat) then Some (rule_backend r) else scan pat rest
  end.

(** The request's host is the first [host] header, or empty. *)
Definition route (rt : t) (req : HttpRequestHead) : bytes :=
  let host := default [] (HeaderMap.get #"host" (req_headers req)) in
  match scan host (rules_ rt) with
  | Some b => b
  | None => match scan #"*" (rules_ rt) with Some b => b | None => [] end
  end.

(** *** Lemmas *)

Lemma scan_Some pat rules b : scan pat rules = Some b ↔
  ∃ pre r post, rules = pre ++ r :: post ∧ host_match r = pat ∧ rule_backend r = b ∧
    Forall (λ r', host_match r' ≠ pat) pre.
Proof.
  induction rules as [|r rules IH]; cbn.
  - split; [done|]. intros (pre & ? & ? & E & _). by destruct pre.
  - case_decide as Hr.
    + split.
      * intros [= <-]. by exists [], r, rules.
      * intros (pre & r0 & post & E & Hm & <- & Hf). destruct pre as [|r1 pre]; simplify_eq/=; [done|].
        by inversion_clear Hf.
    + rewrite IH. split.
      * intros (pre & r0 & post & -> & Hm & Hb & Hf). exists (r :: pre), r0, post.
        split_and!; [done..|by constructor].
      * intros (pre & r0 & post & E & Hm & Hb & Hf). destruct pre as [|r1 pre]; simplify_eq/=.
        inversion_clear Hf. by exists pre, r0, post.
Qed.

Lemma scan_None pat rules : scan pat rules = None ↔ Forall (λ r, host_match r ≠ pat) rules.
Proof.
  induction rules as [|r rules IH]; cbn; [by split|].
  case_decide as Hr; [split; [done|intros HF; by inversion_clear HF]|].
  rewrite IH. split; [by constructor|intros HF; by inversion_clear HF].
Qed.

Lemma scan_app pat a b : scan pat (a ++ b) = match scan pat a with Some x => Some x | None => scan pat b end.
Proof. induction a as [|r a IH]; cbn; [done|]. by case_decide. Qed.
End Router.

(** The contract: which rule serves a host.  A rule serves it when it is the
    first rule naming the host, or when no rule names the host and it is the
    first default rule. *)
Inductive serves (rules : list Router.Rule) (h : bytes) : Router.Rule → Prop :=
  | serves_exact pre r post :
      rules = pre ++ r :: post → Router.host_match r = h →
      Forall (λ r', Router.host_match r' ≠ h) pre → serves rules h r
  | serves_default pre r post :
      Forall (λ r', Router.host_match r' ≠ h) rules →
      rules = pre ++ r :: post → Router.host_match r = #"*" →
      Forall (λ r', Router.host_match r' ≠ #"*") pre → serves rules h r.

(** [route] implements the contract: it returns the backend of the rule
    that serves the request's host, and the empty string exactly when neither
    the host nor the default has a rule (or the serving rule names no
    backend). *)
Theorem route_refines (rt : Router.t) (req : HttpRequestHead) :
  let h := default [] (HeaderMap.get #"host" (req_headers req)) in
  (∃ r, serves (Router.rules_ rt) h r ∧ Router.route rt req = Router.rule_backend r) ∨
  ((∀ r, ¬ serves (Router.rules_ rt) h r) ∧ Router.route rt req = []).
Proof.
  intros h. unfold Router.route. fold h.
  destruct (Router.scan h (Router.rules_ rt)) as [b|] eqn:E1.
  { apply Router.scan_Some in E1 as (pre & r & post & E & Hm & Hb & Hf). left. exists r.
    split; [by eapply serves_exact|done]. }
  apply Router.scan_None in E1 as Hn.
  destruct (Router.scan #"*" (Router.rules_ rt)) as [b|] eqn:E2.
  - apply Router.scan_Some in E2 as (pre & r & post & E & Hm & Hb & Hf). left. exists r.
    split; [by eapply serves_default|done].
  - apply Router.scan_None in E2. right. split; [|done]. rewrite List.Forall_forall in E2, Hn.
    intros r Hr. inversion Hr as [pre ? post E Hm|pre ? post _ E Hm];
      [apply (Hn r)|apply (E2 r)]; try done; rewrite E; apply in_app_iff; right; by left.
Qed.

(** Rules are append-only in effect: once a host has a rule of its own,
    adding rules never re-routes it, and adding a rule for one host never
    changes where another host with no use for the new rule goes. *)
Theorem add_rule_stable (rt : Router.t) (r : Router.Rule) (req : HttpRequestHead) :
  let h := default [] (HeaderMap.get #"host" (req_headers req)) in
  (∃ r0, In r0 (Router.rules_ rt) ∧ Router.host_match r0 = h) ∨
  (Router.host_match r ≠ h ∧ Router.host_match r ≠ #"*") →
  Router.route (Router.add_rule r rt) req = Router.route rt req.
Proof.
  intros h Hc. unfold Router.route, Router.add_rule. fold h. cbn [Router.rules_]. rewrite !Router.scan_app.
  destruct (Router.scan h (Router.rules_ rt)) as [b|] eqn:E; [done|].
  destruct Hc as [(r0 & Hin & Hm)|[H1 H2]].
  - apply Router.scan_None in E. rewrite List.Forall_forall in E. by apply E in Hin.
  - cbn [Router.scan]. rewrite !decide_False by done. by destruct (Router.scan #"*" (Router.rules_ rt)).
Qed.

Definition example_router : Router.t :=
  Router.add_rule (Router.MkRule #"a.test" #"web") (Router.add_rule (Router.MkRule #"*" #"dflt") Router.empty_router).

Lemma add_rule_stable_witness :
  Router.route (Router.add_rule (Router.MkRule #"a.test" #"other") example_router)
    (RequestHead #"GET" #"HTTP/1.1" #"/" [] [] false (HeaderMap.Map [(#"Host", #"a.test")]) None) = #"web".
Proof.
  rewrite (add_rule_stable example_router (Router.MkRule #"a.test" #"other")
    (RequestHead #"GET" #"HTTP/1.1" #"/" [] [] false (HeaderMap.Map [(#"Host", #"a.test")]) None)); [reflexivity|].
  left. exists (Router.MkRule #"a.test" #"web"). split; [right; left; reflexivity|reflexivity].
Defined.
