(* ===== verification/Stats.v ===== *)
(** * Counters (src/src/proxy/stats.{h,cpp})

    The counters are [std::atomic<uint64_t>]; an increment wraps at [2^64].
    Clock readings are arguments: [us] for an elapsed time, [up] for the
    rendered uptime. *)

From S2P Require Import Prelude CppStd.

Record ProxyStats := Stats {
  tcp_conns : Z;
  quic_conns : Z;
  requests : Z;
  resp_ok : Z;
  resp_err : Z;
  backend_connects : Z;
  lat_us_total : Z;
  lat_count : Z;
}.

Definition no_stats : ProxyStats := Stats 0 0 0 0 0 0 0 0.

Definition bump_tcp_conns (s : ProxyStats) : ProxyStats :=
  Stats (u64 (tcp_conns s + 1)) (quic_conns s) (requests s) (resp_ok s) (resp_err s) (backend_connects s)
        (lat_us_total s) (lat_count s).
Definition bump_quic_conns (s : ProxyStats) : ProxyStats :=
  Stats (tcp_conns s) (u64 (quic_conns s + 1)) (requests s) (resp_ok s) (resp_err s) (backend_connects s)
        (lat_us_total s) (lat_count s).
Definition bump_requests (s : ProxyStats) : ProxyStats :=
  Stats (tcp_conns s) (quic_conns s) (u64 (requests s + 1)) (resp_ok s) (resp_err s) (backend_connects s)
        (lat_us_total s) (lat_count s).
Definition bump_resp_ok (s : ProxyStats) : ProxyStats :=
  Stats (tcp_conns s) (quic_conns s) (requests s) (u64 (resp_ok s + 1)) (resp_err s) (backend_connects s)
        (lat_us_total s) (lat_count s).
Definition bump_resp_err (s : ProxyStats) : ProxyStats :=
  Stats (tcp_conns s) (quic_conns s) (requests s) (resp_ok s) (u64 (resp_err s + 1)) (backend_connects s)
        (lat_us_total s) (lat_count s).
Definition bump_backend_connects (s : ProxyStats) : ProxyStats :=
  Stats (tcp_conns s) (quic_conns s) (requests s) (resp_ok s) (resp_err s) (u64 (backend_connects s + 1))
        (lat_us_total s) (lat_count s).

Definition record_latency (us : Z) (s : ProxyStats) : ProxyStats :=
  Stats (tcp_conns s) (quic_conns s) (requests s) (resp_ok s) (resp_err s) (backend_connects s)
        (u64 (lat_us_total s + u64 us)) (u64 (lat_count s + 1)).

Definition metric (name value : bytes) : bytes := name ++ #" " ++ value ++ [LF].

Definition render (up : bytes) (s : ProxyStats) : bytes :=
  metric #"proxy_uptime_seconds" up ++
  metric #"proxy_tcp_connections_total" (to_string (tcp_conns s)) ++
  metric #"proxy_quic_connections_total" (to_string (quic_conns s)) ++
  metric #"proxy_requests_total" (to_string (requests s)) ++
  metric #"proxy_responses_ok_total" (to_string (resp_ok s)) ++
  metric #"proxy_responses_error_total" (to_string (resp_err s)) ++
  metric #"proxy_backend_connects_total" (to_string (backend_connects s)) ++
  metric #"proxy_backend_latency_us_sum" (to_string (lat_us_total s)) ++
  metric #"proxy_backend_latency_us_count" (to_string (lat_count s)).

(** ** What a scraper reads: the value behind a metric's name *)

Fixpoint scrape (name : bytes) (lines : list bytes) : option bytes :=
  match lines with
  | [] => None
  | l :: rest => if starts_with (name ++ #" ") l then Some (drop (length name + 1) l) else scrape name rest
  end.

Definition scrape_counter (name text : bytes) : option Z :=
  (λ v, fst (strtoul v 10)) <$> scrape name (getlines text).

Definition is_u64 (z : Z) : Prop := (0 ≤ z ≤ ULONG_MAX)%Z.

Definition wf_stats (s : ProxyStats) : Prop :=
  Forall is_u64 [tcp_conns s; quic_conns s; requests s; resp_ok s; resp_err s; backend_connects s;
                 lat_us_total s; lat_count s].

Lemma lf_not_in_to_string n : (0 ≤ n)%Z → LF ∉ to_string n.
Proof. intros. by apply not_in_to_string. Qed.

Lemma getlines_metric name v rest : LF ∉ name → LF ∉ v →
  getlines (metric name v ++ rest) = (name ++ #" " ++ v) :: getlines rest.
Proof.
  intros Hn Hv. unfold metric. rewrite <- !app_assoc. cbn [app].
  replace (name ++ #" " ++ v ++ LF :: rest) with ((name ++ #" " ++ v) ++ LF :: rest) by (by norm_app).
  apply getlines_app. rewrite !elem_of_app. intros [?|[Hs|?]]; [done| |done].
  apply list_elem_of_singleton in Hs. discriminate.
Qed.

(** The metrics in the order they are written. *)
Definition metrics (up : bytes) (s : ProxyStats) : list (bytes * bytes) :=
  [(#"proxy_uptime_seconds", up);
   (#"proxy_tcp_connections_total", to_string (tcp_conns s));
   (#"proxy_quic_connections_total", to_string (quic_conns s));
   (#"proxy_requests_total", to_string (requests s));
   (#"proxy_responses_ok_total", to_string (resp_ok s));
   (#"proxy_responses_error_total", to_string (resp_err s));
   (#"proxy_backend_connects_total", to_string (backend_connects s));
   (#"proxy_backend_latency_us_sum", to_string (lat_us_total s));
   (#"proxy_backend_latency_us_count", to_string (lat_count s))].

Lemma getlines_metrics l : Forall (λ nv, LF ∉ fst nv ∧ LF ∉ snd nv) l →
  getlines (concat (map (λ nv, metric (fst nv) (snd nv)) l)) = map (λ nv, fst nv ++ #" " ++ snd nv) l.
Proof.
  induction l as [|[n v] l IH]; intros Hl; [done|]. inversion_clear Hl as [|? ? [Hn Hv] Hl'].
  cbn [map concat fst snd]. by rewrite getlines_metric, IH.
Qed.

Lemma render_metrics up s : render up s = concat (map (λ nv, metric (fst nv) (snd nv)) (metrics up s)).
Proof. unfold render, metrics. cbn [map concat fst snd]. by rewrite app_nil_r. Qed.

Lemma wf_metrics up s : LF ∉ up → wf_stats s → Forall (λ nv, LF ∉ fst nv ∧ LF ∉ snd nv) (metrics up s).
Proof.
  intros Hup Hs. unfold wf_stats, is_u64 in Hs.
  repeat match type of Hs with Forall _ (_ :: _) => let H := fresh in apply Forall_cons_1 in Hs as [H Hs] end.
  unfold metrics.
  repeat (constructor; [split; [apply (bool_decide_unpack _); vm_compute; exact I|
                                first [exact Hup | cbn [snd]; apply lf_not_in_to_string; lia]]|]).
  constructor.
Qed.

(** The stats page is faithful: a scraper that splits it into lines and
    reads the number behind a metric's name gets back exactly the counter, for
    each of the eight counters. *)
Theorem stats_page_faithful (up : bytes) (s : ProxyStats) : LF ∉ up → wf_stats s →
  let read name := scrape_counter name (render up s) in
  read #"proxy_tcp_connections_total" = Some (tcp_conns s) ∧
  read #"proxy_quic_connections_total" = Some (quic_conns s) ∧
  read #"proxy_requests_total" = Some (requests s) ∧
  read #"proxy_responses_ok_total" = Some (resp_ok s) ∧
  read #"proxy_responses_error_total" = Some (resp_err s) ∧
  read #"proxy_backend_connects_total" = Some (backend_connects s) ∧
  read #"proxy_backend_latency_us_sum" = Some (lat_us_total s) ∧
  read #"proxy_backend_latency_us_count" = Some (lat_count s).
Proof.
  intros Hup Hs read. unfold read, scrape_counter.
  rewrite render_metrics, getlines_metrics by (by apply wf_metrics).
  unfold wf_stats, is_u64 in Hs.
  repeat match type of Hs with Forall _ (_ :: _) => let H := fresh in apply Forall_cons_1 in Hs as [H Hs] end.
  split_and!;
    match goal with |- _ = Some ?c =>
      transitivity ((λ v, fst (strtoul v 10)) <$> Some (to_string c)); [reflexivity|];
      cbn [fmap option_fmap option_map]; by rewrite strtoul_to_string
    end.
Qed.

Lemma stats_page_faithful_witness :
  scrape_counter #"proxy_requests_total" (render #"12.5" (Stats 1 2 (2 ^ 64 - 1) 4 5 6 7 8)) = Some (2 ^ 64 - 1)%Z.
Proof.
  apply (stats_page_faithful #"12.5" (Stats 1 2 (2 ^ 64 - 1) 4 5 6 7 8)).
  - apply (bool_decide_unpack _). vm_compute. exact I.
  - repeat (constructor; [unfold is_u64, ULONG_MAX; cbn; lia|]). constructor.
Defined.
