(* ===== verification/UpstreamPool.v ===== *)
(** * The upstream connection pool (src/src/proxy/upstream_pool.{h,cpp})

    Streams, QUIC sessions and connect callbacks are handles ([nat]).  Each
    operation returns the next pool state and what it did to the outside: a
    callback it called, a TCP connect it started, a stream it asked a session
    to open, a close handler it installed, or the exception the resolver threw.
    A call that ends in a callback is a tail call in the source, so its effect
    is a step of its own.

    Parameters: [resolvable] (whether [resolver.resolve] returns rather than
    throws) and, per call, the outcome [eng] of [QuicClientEngine::connect]:
    the session it delivered synchronously through [on_new_conn], or [None]
    when it returned [false]. *)

From S2P Require Import Prelude CppStd Transport Config.

Record EndpointEntry := Entry {
  be : BackendEndpoint;
  idle : list nat;                       (** [std::deque<ITransportStreamPtr>] *)
}.

Record PendingQuic := Pending {
  endpoint : BackendEndpoint;
  pend_cb : nat;
}.

Record UpstreamPool := Pool {
  quic_engine_ : bool;                   (** whether the engine exists *)
  pending_quic_ : option PendingQuic;
  quic_conns_ : gmap bytes (list nat);
  endpoints_ : list EndpointEntry;
  rr_index_ : Z;                         (** [std::atomic<std::size_t>] *)
}.

Definition kMaxIdlePerEndpoint : nat := 8.

Definition new_pool : UpstreamPool := Pool false None ∅ [] 0.

Definition set_pending (pq : option PendingQuic) (p : UpstreamPool) : UpstreamPool :=
  Pool (quic_engine_ p) pq (quic_conns_ p) (endpoints_ p) (rr_index_ p).
Definition set_conns (m : gmap bytes (list nat)) (p : UpstreamPool) : UpstreamPool :=
  Pool (quic_engine_ p) (pending_quic_ p) m (endpoints_ p) (rr_index_ p).
Definition set_endpoints (es : list EndpointEntry) (p : UpstreamPool) : UpstreamPool :=
  Pool (quic_engine_ p) (pending_quic_ p) (quic_conns_ p) es (rr_index_ p).
Definition set_rr (r : Z) (p : UpstreamPool) : UpstreamPool :=
  Pool (quic_engine_ p) (pending_quic_ p) (quic_conns_ p) (endpoints_ p) r.

(** What an operation does to the outside. *)
Inductive effect :=
  | Called (cb : nat) (r : error_code + nat) (ep : option BackendEndpoint) (from_pool : bool)
  | TcpConnect (cb : nat) (target : BackendEndpoint)
  | OpenStream (session : nat) (ep : BackendEndpoint) (from_pool : bool) (cb : nat)
  | WatchClosed (session : nat) (ep : BackendEndpoint)
  | Threw (cb : nat).                    (** an exception; the callback is not called *)

(** ** Operations *)

Definition add_backend (b : BackendEndpoint) (p : UpstreamPool) : UpstreamPool :=
  Pool (quic_engine_ p || bool_decide (ep_protocol b = QUIC)) (pending_quic_ p) (quic_conns_ p)
       (endpoints_ p ++ [Entry b []]) (rr_index_ p).

(** The index of an entry is its [EndpointEntry*]. *)
Fixpoint candidates_from (i : nat) (id : bytes) (es : list EndpointEntry) : list nat :=
  match es with
  | [] => []
  | e :: es' => if decide (backend_id (be e) = id) then i :: candidates_from (S i) id es'
                else candidates_from (S i) id es'
  end.

Definition candidates (id : bytes) (p : UpstreamPool) : list nat := candidates_from 0 id (endpoints_ p).

Definition quic_key (ep : BackendEndpoint) : bytes := host ep ++ #":" ++ to_string (port ep).

Section ops.
Variable resolvable : BackendEndpoint → bool.

(** [resolver.resolve] is the throwing overload. *)
Definition connect_fresh_to (target : BackendEndpoint) (cb : nat) (p : UpstreamPool) :
  UpstreamPool * list effect :=
  (p, [if resolvable target then TcpConnect cb target else Threw cb]).

(** The completion of [asio::async_connect]: the error, or the stream made of the
    socket; making it throws when the backend is gone ([Tcp.new_stream]). *)
Definition on_tcp_connected (target : BackendEndpoint) (cb : nat) (r : error_code + option nat) (p : UpstreamPool) :
  UpstreamPool * list effect :=
  (p, [match r with
       | inl ec => Called cb (inl ec) (Some target) false
       | inr (Some st) => Called cb (inr st) (Some target) false
       | inr None => Threw cb
       end]).

Definition on_client_conn (session : nat) (p : UpstreamPool) : UpstreamPool * list effect :=
  match pending_quic_ p with
  | None => (p, [])
  | Some pend =>
      (set_pending None p,
       [WatchClosed session (endpoint pend); OpenStream session (endpoint pend) false (pend_cb pend)])
  end.

Definition quic_connect_fresh (eng : option nat) (ep : BackendEndpoint) (cb : nat) (p : UpstreamPool) :
  UpstreamPool * list effect :=
  if quic_engine_ p then
    let p1 := set_pending (Some (Pending ep cb)) p in
    match eng with
    | Some session => on_client_conn session p1
    | None =>
        match pending_quic_ p1 with
        | Some pend => (set_pending None p1, [Called (pend_cb pend) (inl host_unreachable) (Some ep) false])
        | None => (p1, [])
        end
    end
  else (p, [Called cb (inl not_found) (Some ep) false]).

(** The front connection of a key; an emptied queue is erased. *)
Definition pop_quic_conn (key : bytes) (m : gmap bytes (list nat)) : option (nat * gmap bytes (list nat)) :=
  match m !! key with
  | Some (s :: rest) => Some (s, match rest with [] => delete key m | _ => <[key := rest]> m end)
  | _ => None
  end.

Definition open_quic_stream (session : nat) (ep : BackendEndpoint) (from_pool : bool) (cb : nat)
  (p : UpstreamPool) : UpstreamPool * list effect :=
  (p, [OpenStream session ep from_pool cb]).

Definition quic_connect (eng : option nat) (ep : BackendEndpoint) (cb : nat) (p : UpstreamPool) :
  UpstreamPool * list effect :=
  match pop_quic_conn (quic_key ep) (quic_conns_ p) with
  | Some (pooled, m) => open_quic_stream pooled ep true cb (set_conns m p)
  | None => quic_connect_fresh eng ep cb p
  end.

Definition remove_quic_conn (ep : BackendEndpoint) (raw : nat) (p : UpstreamPool) : UpstreamPool :=
  match quic_conns_ p !! quic_key ep with
  | None => p
  | Some dq =>
      let dq' := match list_find (λ s, s = raw) dq with
                 | Some (i, _) => take i dq ++ drop (S i) dq
                 | None => dq
                 end in
      set_conns (match dq' with [] => delete (quic_key ep) (quic_conns_ p)
                           | _ => <[quic_key ep := dq']> (quic_conns_ p) end) p
  end.

(** The handler [open_quic_stream] passes to [async_open_stream]. *)
Definition on_stream_opened (eng : option nat) (session : nat) (ep : BackendEndpoint) (from_pool : bool)
  (cb : nat) (stream : option nat) (p : UpstreamPool) : UpstreamPool * list effect :=
  match stream with
  | Some st =>
      let dq := default [] (quic_conns_ p !! quic_key ep) in
      (set_conns (<[quic_key ep := dq ++ [session]]> (quic_conns_ p)) p,
       [Called cb (inr st) (Some ep) from_pool])
  | None =>
      let p1 := remove_quic_conn ep session p in
      if from_pool then quic_connect eng ep cb p1
      else (p1, [Called cb (inl eof) (Some ep) false])
  end.

(** The handler [on_client_conn] passes to [set_closed_cb]. *)
Definition on_session_closed (session : nat) (ep : BackendEndpoint) (p : UpstreamPool) :
  UpstreamPool * list effect := (remove_quic_conn ep session p, []).

Definition async_connect (eng : option nat) (id : bytes) (cb : nat) (p : UpstreamPool) :
  UpstreamPool * list effect :=
  match candidates id p with
  | [] => (p, [Called cb (inl not_found) None false])
  | cands =>
      let idx := Z.to_nat (rr_index_ p mod Z.of_nat (length cands)) in
      let p1 := set_rr (u64 (rr_index_ p + 1)) p in
      match cands !! idx ≫= λ i, (λ e, (i, e)) <$> endpoints_ p1 !! i with
      | None => (p1, [])                      (* unreachable: [pick_in_range] *)
      | Some (i, e) =>
          if decide (ep_protocol (be e) = QUIC) then quic_connect eng (be e) cb p1
          else
            match idle e with
            | st :: rest =>
                (set_endpoints (<[i := Entry (be e) rest]> (endpoints_ p1)) p1,
                 [Called cb (inr st) (Some (be e)) true])
            | [] => connect_fresh_to (be e) cb p1
            end
      end
  end.

Definition async_connect_fresh (eng : option nat) (ep : BackendEndpoint) (cb : nat) (p : UpstreamPool) :
  UpstreamPool * list effect :=
  if decide (ep_protocol ep = QUIC) then quic_connect_fresh eng ep cb p
  else connect_fresh_to ep cb p.

Definition same_endpoint (a b : BackendEndpoint) : Prop :=
  backend_id a = backend_id b ∧ host a = host b ∧ port a = port b.

#[global] Instance same_endpoint_dec a b : Decision (same_endpoint a b).
Proof. unfold same_endpoint. apply _. Defined.

Fixpoint release_in (ep : BackendEndpoint) (stream : nat) (es : list EndpointEntry) : list EndpointEntry :=
  match es with
  | [] => []
  | e :: es' =>
      if decide (same_endpoint (be e) ep)
      then (if decide (length (idle e) < kMaxIdlePerEndpoint) then Entry (be e) (idle e ++ [stream]) else e) :: es'
      else e :: release_in ep stream es'
  end.

Definition release (ep : BackendEndpoint) (stream : nat) (p : UpstreamPool) : UpstreamPool :=
  if decide (ep_protocol ep = QUIC) then p
  else set_endpoints (release_in ep stream (endpoints_ p)) p.
End ops.

(** ** The pool in its environment

    A system is the pool together with what is outstanding: the callbacks it
    was given, the connects and stream opens in flight, the close handlers
    installed, the sessions that closed, and the streams its clients hold. *)

Record opening_req := Opening {
  o_session : nat;
  o_ep : BackendEndpoint;
  o_from_pool : bool;
  o_cb : nat;
}.

Record system := Sys {
  sys_pool : UpstreamPool;
  asked : list nat;
  answered : list nat;
  lost : list nat;                               (** an exception was thrown *)
  connecting : list (nat * BackendEndpoint);
  opening : list opening_req;
  watched : list (nat * BackendEndpoint);
  closed : list nat;
  held : list nat;
}.

Definition init : system := Sys new_pool [] [] [] [] [] [] [] [].

Definition set_pool (p : UpstreamPool) (sy : system) : system :=
  Sys p (asked sy) (answered sy) (lost sy) (connecting sy) (opening sy) (watched sy) (closed sy) (held sy).
Definition ask (cb : nat) (sy : system) : system :=
  Sys (sys_pool sy) (cb :: asked sy) (answered sy) (lost sy) (connecting sy) (opening sy) (watched sy)
      (closed sy) (held sy).
Definition set_held (l : list nat) (sy : system) : system :=
  Sys (sys_pool sy) (asked sy) (answered sy) (lost sy) (connecting sy) (opening sy) (watched sy) (closed sy) l.
Definition set_connecting (l : list (nat * BackendEndpoint)) (sy : system) : system :=
  Sys (sys_pool sy) (asked sy) (answered sy) (lost sy) l (opening sy) (watched sy) (closed sy) (held sy).
Definition set_opening (l : list opening_req) (sy : system) : system :=
  Sys (sys_pool sy) (asked sy) (answered sy) (lost sy) (connecting sy) l (watched sy) (closed sy) (held sy).
Definition close_session (s : nat) (w : list (nat * BackendEndpoint)) (sy : system) : system :=
  Sys (sys_pool sy) (asked sy) (answered sy) (lost sy) (connecting sy) (opening sy) w (s :: closed sy) (held sy).

Definition result_streams (r : error_code + nat) : list nat := match r with inr st => [st] | inl _ => [] end.

Definition apply_effect (sy : system) (e : effect) : system :=
  match e with
  | Called cb r _ _ => Sys (sys_pool sy) (asked sy) (cb :: answered sy) (lost sy) (connecting sy) (opening sy)
                           (watched sy) (closed sy) (result_streams r ++ held sy)
  | TcpConnect cb t => set_connecting ((cb, t) :: connecting sy) sy
  | OpenStream s ep fp cb => set_opening (Opening s ep fp cb :: opening sy) sy
  | WatchClosed s ep => Sys (sys_pool sy) (asked sy) (answered sy) (lost sy) (connecting sy) (opening sy)
                            ((s, ep) :: watched sy) (closed sy) (held sy)
  | Threw cb => Sys (sys_pool sy) (asked sy) (answered sy) (cb :: lost sy) (connecting sy) (opening sy)
                            (watched sy) (closed sy) (held sy)
  end.

Definition perform (r : UpstreamPool * list effect) (sy : system) : system :=
  fold_left apply_effect (snd r) (set_pool (fst r) sy).

(** The connections of the reuse table, and the idle streams of all endpoints. *)
Definition pooled (m : gmap bytes (list nat)) : list nat := concat (map snd (map_to_list m)).
Definition idle_streams (es : list EndpointEntry) : list nat := concat (map idle es).

Definition fresh_session (sy : system) (s : nat) : Prop :=
  s ∉ map fst (watched sy) ∧ s ∉ closed sy ∧ s ∉ map o_session (opening sy) ∧ s ∉ pooled (quic_conns_ (sys_pool sy)).
Definition fresh_eng (sy : system) (eng : option nat) : Prop := ∀ s, eng = Some s → fresh_session sy s.
Definition fresh_stream (sy : system) (st : nat) : Prop := st ∉ held sy ++ idle_streams (endpoints_ (sys_pool sy)).

Section steps.
Variable resolvable : BackendEndpoint → bool.

(** The interleavings of the pool's operations and of the events it waits
    for.  A new session, stream or callback is one not in use; a client gives
    back only a stream it holds; a closed session opens no more streams. *)
Inductive step : system → system → Prop :=
  | step_backend sy b :
      step sy (set_pool (add_backend b (sys_pool sy)) sy)
  | step_connect sy eng id cb :
      cb ∉ asked sy → fresh_eng sy eng →
      step sy (perform (async_connect resolvable eng id cb (sys_pool sy)) (ask cb sy))
  | step_connect_fresh sy eng ep cb :
      cb ∉ asked sy → fresh_eng sy eng →
      step sy (perform (async_connect_fresh resolvable eng ep cb (sys_pool sy)) (ask cb sy))
  | step_tcp_done sy cb target r rest :
      connecting sy ≡ₚ (cb, target) :: rest → (∀ st, r = inr (Some st) → fresh_stream sy st) →
      step sy (perform (on_tcp_connected target cb r (sys_pool sy)) (set_connecting rest sy))
  | step_opened sy eng s ep fp cb stream rest :
      opening sy ≡ₚ Opening s ep fp cb :: rest → fresh_eng sy eng →
      (∀ st, stream = Some st → fresh_stream sy st ∧ s ∉ closed sy) →
      step sy (perform (on_stream_opened eng s ep fp cb stream (sys_pool sy)) (set_opening rest sy))
  | step_closed sy s ep rest :
      watched sy ≡ₚ (s, ep) :: rest →
      step sy (perform (on_session_closed s ep (sys_pool sy)) (close_session s rest sy))
  | step_release sy ep st rest :
      held sy ≡ₚ st :: rest →
      step sy (set_pool (release ep st (sys_pool sy)) (set_held rest sy))
  | step_drop sy st rest :
      held sy ≡ₚ st :: rest → step sy (set_held rest sy).

Definition reachable : system → Prop := rtc step init.
End steps.

Definition in_pool (m : gmap bytes (list nat)) (k : bytes) (s : nat) : Prop := ∃ l, m !! k = Some l ∧ s ∈ l.

Definition tokens (sy : system) : list nat :=
  answered sy ++ lost sy ++ map fst (connecting sy) ++ map o_cb (opening sy).

(** ** The invariant *)

(** [extra] are callbacks an operation in progress still has to dispose of. *)
Record inv_with (extra : list nat) (sy : system) : Prop := {
  (** at most eight idle connections per endpoint *)
  inv_idle : Forall (λ e, length (idle e) ≤ kMaxIdlePerEndpoint) (endpoints_ (sys_pool sy));
  (** a stream is idle once or held once, never both *)
  inv_streams : NoDup (held sy ++ idle_streams (endpoints_ (sys_pool sy)));
  (** no connect is pending between operations *)
  inv_pending : pending_quic_ (sys_pool sy) = None;
  (** every callback given to the pool is answered, lost or in flight, once *)
  inv_tokens : asked sy ≡ₚ extra ++ tokens sy;
  inv_asked : NoDup (asked sy);
  (** the reuse table holds no empty queue *)
  inv_queues : map_Forall (λ _ l, l ≠ []) (quic_conns_ (sys_pool sy));
  (** a session is pooled once or opening one stream, never both *)
  inv_sessions : NoDup (map o_session (opening sy) ++ pooled (quic_conns_ (sys_pool sy)));
  (** a pooled session is alive and watched under its own key *)
  inv_alive : ∀ k s, in_pool (quic_conns_ (sys_pool sy)) k s →
    s ∉ closed sy ∧ ∃ ep, (s, ep) ∈ watched sy ∧ quic_key ep = k;
  inv_opening : ∀ o, o ∈ opening sy → o_session o ∈ closed sy ∨
    ∃ ep, (o_session o, ep) ∈ watched sy ∧ quic_key ep = quic_key (o_ep o);
  inv_watched : NoDup (map fst (watched sy) ++ closed sy);
  inv_rr : (0 ≤ rr_index_ (sys_pool sy))%Z;
}.

Abbreviation inv := (inv_with []).

(** ** Lemmas: the reuse table *)

Lemma pooled_insert m k l : pooled (<[k := l]> m) ≡ₚ l ++ pooled (delete k m).
Proof.
  unfold pooled. rewrite <- insert_delete_eq, map_to_list_insert by apply lookup_delete_eq. done.
Qed.

Lemma pooled_split m k l : m !! k = Some l → pooled m ≡ₚ l ++ pooled (delete k m).
Proof. intros Hk. rewrite <- (insert_id m k l Hk) at 1. apply pooled_insert. Qed.

Lemma pooled_get m k : pooled m ≡ₚ default [] (m !! k) ++ pooled (delete k m).
Proof.
  destruct (m !! k) as [l|] eqn:E; [by apply pooled_split|]. by rewrite delete_id.
Qed.

Lemma elem_of_pooled m s : s ∈ pooled m ↔ ∃ k, in_pool m k s.
Proof.
  unfold pooled, in_pool. rewrite list_elem_of_In, in_concat. split.
  - intros (l & Hl & Hs). apply in_map_iff in Hl as ([k l'] & <- & Hkl).
    apply list_elem_of_In, elem_of_map_to_list in Hkl. exists k, l'. by rewrite list_elem_of_In.
  - intros (k & l & Hl & Hs). exists l. split; [|by apply list_elem_of_In].
    apply in_map_iff. exists (k, l). split; [done|]. by apply list_elem_of_In, elem_of_map_to_list.
Qed.

(** Replacing one queue, erasing it when it becomes empty. *)
Definition put_queue (k : bytes) (l : list nat) (m : gmap bytes (list nat)) : gmap bytes (list nat) :=
  match l with [] => delete k m | _ => <[k := l]> m end.

Lemma pooled_put k l m : pooled (put_queue k l m) ≡ₚ l ++ pooled (delete k m).
Proof. destruct l; [done|]. apply pooled_insert. Qed.

Lemma queues_put k l m : map_Forall (λ _ (q : list nat), q ≠ []) m → map_Forall (λ _ (q : list nat), q ≠ []) (put_queue k l m).
Proof. intros Hm. destruct l; cbn; [by apply map_Forall_delete|by apply map_Forall_insert_2]. Qed.

Lemma in_pool_put k l m k' s : in_pool (put_queue k l m) k' s → (k' = k ∧ s ∈ l) ∨ (k' ≠ k ∧ in_pool m k' s).
Proof.
  unfold in_pool. intros (q & Hq & Hs). destruct (decide (k' = k)) as [->|Hne].
  - left. split; [done|]. destruct l; cbn in Hq; [by rewrite lookup_delete_eq in Hq|].
    rewrite lookup_insert_eq in Hq. by simplify_eq.
  - right. split; [done|]. exists q. split; [|done].
    destruct l; cbn in Hq; [by rewrite lookup_delete_ne in Hq|by rewrite lookup_insert_ne in Hq].
Qed.

Lemma pop_spec k m s m' : pop_quic_conn k m = Some (s, m') →
  ∃ rest, m !! k = Some (s :: rest) ∧ m' = put_queue k rest m.
Proof.
  unfold pop_quic_conn. intros Hp. destruct (m !! k) as [[|s0 rest]|]; [done| |done].
  exists rest. by destruct rest; simplify_eq.
Qed.

(** Dropping the first occurrence of a session from a queue. *)
Definition drop_session (raw : nat) (dq : list nat) : list nat :=
  match list_find (λ s, s = raw) dq with
  | Some (i, _) => take i dq ++ drop (S i) dq
  | None => dq
  end.

Lemma drop_session_spec raw dq :
  (raw ∉ dq ∧ drop_session raw dq = dq) ∨ (raw ∈ dq ∧ dq ≡ₚ raw :: drop_session raw dq).
Proof.
  unfold drop_session. destruct (list_find _ dq) as [[i x]|] eqn:E.
  - apply list_find_Some in E as (Hi & -> & _). right. split; [by eapply list_elem_of_lookup_2|].
    rewrite <- (take_drop_middle dq i raw Hi) at 1. by rewrite Permutation_middle.
  - apply list_find_None in E. left. split; [|done]. intros Hin. apply list_elem_of_In in Hin. rewrite List.Forall_forall in E. exact (E raw Hin eq_refl).
Qed.

Lemma remove_spec ep raw p : ∃ m', remove_quic_conn ep raw p = set_conns m' p ∧
  (m' = quic_conns_ p ∧ quic_conns_ p !! quic_key ep = None ∨
   ∃ dq, quic_conns_ p !! quic_key ep = Some dq ∧ m' = put_queue (quic_key ep) (drop_session raw dq) (quic_conns_ p)).
Proof.
  unfold remove_quic_conn. destruct (quic_conns_ p !! quic_key ep) as [dq|] eqn:E.
  - eexists. split; [reflexivity|]. right. by exists dq.
  - exists (quic_conns_ p). split; [by destruct p|by left].
Qed.

(** ** Lemmas: effects preserve the invariant *)

Lemma inv_called cb r ep fp sy : inv_with [cb] sy → (∀ st, r = inr st → fresh_stream sy st) →
  inv (apply_effect sy (Called cb r ep fp)).
Proof.
  intros [] Hr. split; cbn; try done.
  destruct r as [e|st]; cbn; [done|]. constructor; [by apply Hr|done].
Qed.

Lemma inv_tcp_connect cb t sy : inv_with [cb] sy → inv (apply_effect sy (TcpConnect cb t)).
Proof.
  intros []. split; cbn; try done. etrans; [eassumption|]. unfold tokens; cbn.
  by rewrite !Permutation_middle.
Qed.

Lemma inv_threw cb sy : inv_with [cb] sy → inv (apply_effect sy (Threw cb)).
Proof.
  intros []. split; cbn; try done. etrans; [eassumption|]. unfold tokens; cbn.
  by rewrite !Permutation_middle.
Qed.

Lemma inv_open s ep fp cb sy : inv_with [cb] sy →
  s ∉ map o_session (opening sy) → s ∉ pooled (quic_conns_ (sys_pool sy)) →
  (s ∈ closed sy ∨ ∃ ep', (s, ep') ∈ watched sy ∧ quic_key ep' = quic_key ep) →
  inv (apply_effect sy (OpenStream s ep fp cb)).
Proof.
  intros [] Ho Hp Hw. split; cbn; try done.
  - etrans; [eassumption|]. unfold tokens; cbn. by rewrite !Permutation_middle.
  - constructor; [|done]. rewrite elem_of_app. by intros [?|?].
  - intros o. rewrite elem_of_cons. intros [->|Hin]; [done|by auto].
Qed.

Lemma inv_watch s ep x sy : inv_with x sy → s ∉ map fst (watched sy) → s ∉ closed sy →
  inv_with x (apply_effect sy (WatchClosed s ep)).
Proof.
  intros [] Hw Hc. split; cbn; try done.
  - intros k s' Hs. destruct (inv_alive0 k s' Hs) as [? (ep' & ? & ?)]. split; [done|].
    exists ep'. split; [by right|done].
  - intros o Hin. destruct (inv_opening0 o Hin) as [?|(ep' & ? & ?)]; [by left|right].
    exists ep'. split; [by right|done].
  - constructor; [|done]. rewrite elem_of_app. by intros [?|?].
Qed.

(** Shrinking the reuse table by replacing one queue by a part of it. *)
Lemma inv_shrink x sy k q q' gone : inv_with x sy →
  quic_conns_ (sys_pool sy) !! k = Some q → q ≡ₚ gone ++ q' →
  inv_with x (set_pool (set_conns (put_queue k q' (quic_conns_ (sys_pool sy))) (sys_pool sy)) sy) ∧
  (∀ s, s ∈ gone → s ∉ map o_session (opening sy) ∧
        s ∉ pooled (put_queue k q' (quic_conns_ (sys_pool sy)))).
Proof.
  intros [] Hk Hq. set (m := quic_conns_ (sys_pool sy)) in *.
  assert (pooled m ≡ₚ gone ++ pooled (put_queue k q' m)) as Hperm.
  { rewrite (pooled_split m k q Hk), pooled_put, Hq. by rewrite app_assoc. }
  assert (NoDup (gone ++ map o_session (opening sy) ++ pooled (put_queue k q' m))) as Hnd.
  { eapply (NoDup_Permutation_proper _ _); [|exact inv_sessions0]. rewrite Hperm.
    rewrite !app_assoc. by rewrite (Permutation_app_comm gone). }
  split.
  - split; cbn; try done.
    + by apply queues_put.
    + by apply list.NoDup_app in Hnd as (_ & _ & Hnd).
    + intros k' s Hs. apply in_pool_put in Hs as [[-> Hs]|[_ Hs]]; [|by auto].
      apply inv_alive0. exists q. split; [done|]. rewrite Hq, elem_of_app. by right.
  - intros s Hs. apply list.NoDup_app in Hnd as (_ & Hd & _). specialize (Hd s Hs).
    rewrite elem_of_app in Hd. split; intros ?; apply Hd; tauto.
Qed.

(** Popping a connection: it is out of the table, not opening, and watched. *)
Lemma inv_pop x sy k s m : inv_with x sy → pop_quic_conn k (quic_conns_ (sys_pool sy)) = Some (s, m) →
  inv_with x (set_pool (set_conns m (sys_pool sy)) sy) ∧
  s ∉ map o_session (opening sy) ∧ s ∉ pooled m ∧
  ∃ ep', (s, ep') ∈ watched sy ∧ quic_key ep' = k.
Proof.
  intros Hinv Hp. apply pop_spec in Hp as (rest & Hk & ->).
  destruct (inv_shrink x sy k (s :: rest) rest [s] Hinv Hk) as [Hi Hs]; [done|].
  destruct (Hs s) as [H1 H2]; [by left|]. split_and!; [done..|].
  apply (inv_alive _ _ Hinv). exists (s :: rest). split; [done|by left].
Qed.

Lemma inv_remove x sy ep raw : inv_with x sy →
  inv_with x (set_pool (remove_quic_conn ep raw (sys_pool sy)) sy) ∧
  (∀ s, s ∈ pooled (quic_conns_ (remove_quic_conn ep raw (sys_pool sy))) →
        s ∈ pooled (quic_conns_ (sys_pool sy))) ∧
  ¬ in_pool (quic_conns_ (remove_quic_conn ep raw (sys_pool sy))) (quic_key ep) raw.
Proof.
  intros Hinv. destruct (remove_spec ep raw (sys_pool sy)) as (m' & -> & [[-> HN]|(dq & Hk & ->)]); cbn.
  - split_and!; [by destruct sy as [[]]|done|]. intros (l & Hl & _). congruence.
  - destruct (drop_session_spec raw dq) as [[Hni ->]|[Hin Hperm]].
    + destruct (inv_shrink x sy (quic_key ep) dq dq [] Hinv Hk) as [Hi _]; [done|]. split_and!; [done|..].
      * intros s. by rewrite pooled_put, (pooled_split _ _ _ Hk).
      * intros Hp. apply in_pool_put in Hp as [[_ ?]|[? _]]; done.
    + destruct (inv_shrink x sy (quic_key ep) dq (drop_session raw dq) [raw] Hinv Hk) as [Hi Hs]; [done|].
      split_and!; [done|..].
      * intros s. rewrite pooled_put, (pooled_split _ _ _ Hk), !elem_of_app.
        assert (s ∈ drop_session raw dq → s ∈ dq) by (intros ?; rewrite Hperm; by right). tauto.
      * intros Hp. destruct (Hs raw) as [_ Hn]; [by left|]. apply Hn, elem_of_pooled. by exists (quic_key ep).
Qed.

(** ** Lemmas: the operations *)

(** What a QUIC connect does: it fails at once, starts a fresh connection, or
    takes one from the table. *)
Inductive quic_outcome (eng : option nat) (ep : BackendEndpoint) (cb : nat) (p : UpstreamPool) :
  UpstreamPool * list effect → Prop :=
  | quic_refused e : quic_outcome eng ep cb p (p, [Called cb (inl e) (Some ep) false])
  | quic_fresh s : eng = Some s →
      quic_outcome eng ep cb p (p, [WatchClosed s ep; OpenStream s ep false cb])
  | quic_reused s m : pop_quic_conn (quic_key ep) (quic_conns_ p) = Some (s, m) →
      quic_outcome eng ep cb p (set_conns m p, [OpenStream s ep true cb]).

Lemma quic_connect_fresh_outcome eng ep cb p : pending_quic_ p = None →
  quic_outcome eng ep cb p (quic_connect_fresh eng ep cb p).
Proof.
  intros Hp. unfold quic_connect_fresh. destruct (quic_engine_ p) eqn:E; [|constructor].
  assert (∀ x, set_pending None (set_pending x p) = p) as Hs by (intros; destruct p; cbn in *; by subst).
  destruct eng as [s|]; unfold on_client_conn; cbn [pending_quic_ set_pending endpoint pend_cb]; rewrite Hs;
    by constructor.
Qed.

Lemma quic_connect_outcome eng ep cb p : pending_quic_ p = None →
  quic_outcome eng ep cb p (quic_connect eng ep cb p).
Proof.
  intros Hp. unfold quic_connect. destruct (pop_quic_conn _ _) as [[s m]|] eqn:E; [by constructor|].
  by apply quic_connect_fresh_outcome.
Qed.

Lemma inv_quic_outcome eng ep cb sy r : inv_with [cb] sy → fresh_eng sy eng →
  quic_outcome eng ep cb (sys_pool sy) r → inv (perform r sy).
Proof.
  intros Hinv Hf Hr. destruct Hr as [e|s Hs|s m Hp]; unfold perform; cbn [fst snd fold_left].
  - apply inv_called; [by destruct sy|done].
  - destruct (Hf s Hs) as (H1 & H2 & H3 & H4).
    apply inv_open; [apply inv_watch; [by destruct sy|done..]|done|done|].
    right. exists ep. split; [by left|done].
  - destruct (inv_pop _ _ _ _ _ Hinv Hp) as (Hi & H1 & H2 & H3).
    apply inv_open; [done..|]. by right.
Qed.

Lemma inv_connect_fresh_to resolvable t cb sy : inv_with [cb] sy →
  inv (perform (connect_fresh_to resolvable t cb (sys_pool sy)) sy).
Proof.
  intros Hinv. unfold perform, connect_fresh_to; cbn [fst snd fold_left].
  destruct (resolvable t); [apply inv_tcp_connect|apply inv_threw]; by destruct sy.
Qed.

(** The entry the round-robin picks is in range and belongs to the group. *)
Lemma candidates_from_spec id es : ∀ i j, j ∈ candidates_from i id es ↔
  ∃ k e, j = i + k ∧ es !! k = Some e ∧ backend_id (be e) = id.
Proof.
  induction es as [|e es IH]; intros i j; cbn.
  - split; [by intros ?%elem_of_nil|]. intros (k & e & _ & Hk & _). by rewrite lookup_nil in Hk.
  - assert ((∃ k e0, j = S i + k ∧ es !! k = Some e0 ∧ backend_id (be e0) = id) ↔
            ∃ k e0, j = i + S k ∧ (e :: es) !! S k = Some e0 ∧ backend_id (be e0) = id) as Hsh.
    { split; intros (k & e0 & -> & Hk & Hid); exists k, e0; (split; [lia|done]). }
    case_decide as Hd; rewrite ?elem_of_cons, IH, Hsh; split.
    + intros [->|(k & e0 & ?)]; [exists 0, e; split_and!; [lia|done..]|by exists (S k), e0].
    + intros ([|k] & e0 & -> & Hk & Hid); [left; lia|right; by exists k, e0].
    + intros (k & e0 & ?). by exists (S k), e0.
    + intros ([|k] & e0 & -> & Hk & Hid); [cbn in Hk; congruence|by exists k, e0].
Qed.

Lemma pick_in_range id p idx : idx < length (candidates id p) →
  ∃ i e, candidates id p !! idx = Some i ∧ endpoints_ p !! i = Some e ∧ backend_id (be e) = id.
Proof.
  intros Hlt. destruct (lookup_lt_is_Some_2 _ _ Hlt) as [i Hi].
  assert (i ∈ candidates id p) as Hin by (by eapply list_elem_of_lookup_2).
  apply candidates_from_spec in Hin as (k & e & -> & Hk & Hid). by exists k, e.
Qed.

(** The endpoint [async_connect] serves the call from, and what it does there. *)
Lemma async_connect_pick resolvable eng id cb p : (0 ≤ rr_index_ p)%Z → candidates id p ≠ [] →
  let idx := Z.to_nat (rr_index_ p mod Z.of_nat (length (candidates id p))) in
  let p1 := set_rr (u64 (rr_index_ p + 1)) p in
  ∃ i e, candidates id p !! idx = Some i ∧ endpoints_ p !! i = Some e ∧ backend_id (be e) = id ∧
    async_connect resolvable eng id cb p =
      if decide (ep_protocol (be e) = QUIC) then quic_connect eng (be e) cb p1
      else match idle e with
           | st :: rest => (set_endpoints (<[i := Entry (be e) rest]> (endpoints_ p)) p1,
                            [Called cb (inr st) (Some (be e)) true])
           | [] => connect_fresh_to resolvable (be e) cb p1
           end.
Proof.
  intros Hrr Hne idx p1.
  assert (0 < Z.of_nat (length (candidates id p)))%Z as Hpos by (destruct (candidates id p); [done|cbn; lia]).
  destruct (pick_in_range id p idx) as (i & e & Hi & He & Hid).
  { subst idx. pose proof (Z.mod_pos_bound (rr_index_ p) _ Hpos). lia. }
  exists i, e. split_and!; [done..|]. transitivity
    (match candidates id p !! idx ≫= λ i, (λ e, (i, e)) <$> endpoints_ p1 !! i with
     | None => (p1, [])
     | Some (i, e) =>
         if decide (ep_protocol (be e) = QUIC) then quic_connect eng (be e) cb p1
         else match idle e with
              | st :: rest => (set_endpoints (<[i := Entry (be e) rest]> (endpoints_ p1)) p1,
                               [Called cb (inr st) (Some (be e)) true])
              | [] => connect_fresh_to resolvable (be e) cb p1
              end
     end); [by unfold async_connect, idx, p1; destruct (candidates id p)|].
  rewrite Hi. cbn [mbind option_bind]. change (endpoints_ p1) with (endpoints_ p). by rewrite He.
Qed.

Lemma idle_streams_insert es i e e' : es !! i = Some e →
  ∃ others, idle_streams es ≡ₚ idle e ++ others ∧ idle_streams (<[i := e']> es) ≡ₚ idle e' ++ others.
Proof.
  intros Hi. assert (i < length es) as Hlt by (by eapply lookup_lt_Some).
  exists (idle_streams (take i es) ++ idle_streams (drop (S i) es)).
  unfold idle_streams. split.
  - rewrite <- (take_drop_middle es i e Hi) at 1. rewrite map_app, concat_app. cbn.
    by rewrite !app_assoc, (Permutation_app_comm (idle e)).
  - rewrite insert_take_drop by done. rewrite map_app, concat_app. cbn.
    by rewrite !app_assoc, (Permutation_app_comm (idle e')).
Qed.

Lemma inv_set_pool x sy p : inv_with x sy →
  Forall (λ e, length (idle e) ≤ kMaxIdlePerEndpoint) (endpoints_ p) →
  NoDup (held sy ++ idle_streams (endpoints_ p)) →
  pending_quic_ p = None → quic_conns_ p = quic_conns_ (sys_pool sy) → (0 ≤ rr_index_ p)%Z →
  inv_with x (set_pool p sy).
Proof. intros [] H1 H2 H3 H4 H5. split; cbn; rewrite ?H4; done. Qed.

Lemma inv_async_connect resolvable eng id cb sy :
  inv_with [cb] sy → fresh_eng sy eng →
  inv (perform (async_connect resolvable eng id cb (sys_pool sy)) sy).
Proof.
  intros Hinv Hf. pose proof (inv_rr _ _ Hinv) as Hrr. destruct (decide (candidates id (sys_pool sy) = [])) as [Hc|Hc].
  { unfold async_connect. rewrite Hc. unfold perform; cbn [fst snd fold_left].
    apply inv_called; [by destruct sy|done]. }
  destruct (async_connect_pick resolvable eng id cb _ Hrr Hc) as (i & e & Hi & He & Hid & ->).
  set (p1 := set_rr _ _).
  assert (0 ≤ rr_index_ p1)%Z as Hrr1 by (apply (Z.mod_pos_bound _ (2 ^ 64)); lia).
  assert (inv_with [cb] (set_pool p1 sy)) as Hinv1 by (apply inv_set_pool; by try apply Hinv).
  case_decide as Hq.
  - apply (inv_quic_outcome eng (be e) cb (set_pool p1 sy)); [done|done|].
    apply quic_connect_outcome. apply Hinv.
  - destruct (idle e) as [|st rest] eqn:Eid; [by apply (inv_connect_fresh_to _ _ _ (set_pool p1 sy))|].
    destruct (idle_streams_insert _ _ _ (Entry (be e) rest) He) as (others & Hp1 & Hp2).
    assert (NoDup (st :: held sy ++ rest ++ others)) as Hnd.
    { eapply NoDup_Permutation_proper; [|exact (inv_streams _ _ Hinv)]. rewrite Hp1, Eid. cbn.
      by rewrite Permutation_middle. }
    unfold perform; cbn [fst snd fold_left]. apply inv_called.
    + apply (inv_set_pool _ sy); [done|..]; cbn; try done; try apply Hinv.
      * apply Forall_insert; [apply Hinv|]. cbn.
        pose proof (Forall_lookup_1 _ _ _ _ (inv_idle _ _ Hinv) He) as Hl. cbn in Hl. rewrite Eid in Hl. cbn in Hl. lia.
      * rewrite Hp2. by inversion_clear Hnd.
    + intros st' [= <-]. unfold fresh_stream; cbn. rewrite Hp2. by inversion_clear Hnd.
Qed.

Lemma release_in_spec ep st es : ∃ l, (l = [] ∨ l = [st]) ∧ idle_streams (release_in ep st es) ≡ₚ l ++ idle_streams es.
Proof.
  induction es as [|e es (l & Hl & IH)]; [exists []; split; [by left|done]|]. cbn [release_in].
  case_decide; [case_decide|].
  - exists [st]. split; [by right|]. unfold idle_streams. cbn. rewrite <- app_assoc. cbn. by rewrite Permutation_middle.
  - exists []. split; [by left|done].
  - exists l. split; [done|]. change (idle_streams (e :: ?x)) with (idle e ++ idle_streams x).
    rewrite IH. by rewrite !app_assoc, (Permutation_app_comm l).
Qed.

Lemma release_in_bound ep st es :
  Forall (λ e, length (idle e) ≤ kMaxIdlePerEndpoint) es →
  Forall (λ e, length (idle e) ≤ kMaxIdlePerEndpoint) (release_in ep st es).
Proof.
  induction es as [|e es IH]; intros He; inversion_clear He; cbn; [constructor|].
  case_decide; [case_decide|]; constructor; try done; [|by apply IH].
  cbn. rewrite length_app. cbn. unfold kMaxIdlePerEndpoint in *. lia.
Qed.

Lemma inv_release sy ep st rest : inv sy → held sy ≡ₚ st :: rest →
  inv (set_pool (release ep st (sys_pool sy)) (set_held rest sy)) ∧ inv (set_held rest sy).
Proof.
  intros Hinv Hh.
  assert (NoDup (st :: rest ++ idle_streams (endpoints_ (sys_pool sy)))) as Hnd.
  { eapply NoDup_Permutation_proper; [|exact (inv_streams _ _ Hinv)]. by rewrite Hh. }
  assert (inv (set_held rest sy)) as Hi.
  { destruct Hinv. split; cbn; try done. by inversion_clear Hnd. }
  split; [|done]. unfold release. case_decide; [by destruct sy|].
  apply inv_set_pool; cbn; [done|by apply release_in_bound, Hinv| |apply Hinv|done|apply Hinv].
  destruct (release_in_spec ep st (endpoints_ (sys_pool sy))) as (l & [-> | ->] & ->); cbn.
  - by inversion_clear Hnd.
  - by rewrite <- Permutation_middle.
Qed.

(** Putting a session back: it was neither pooled nor opening, and is alive. *)
Lemma inv_push x sy ep s : inv_with x sy →
  s ∉ map o_session (opening sy) → s ∉ pooled (quic_conns_ (sys_pool sy)) → s ∉ closed sy →
  (∃ ep', (s, ep') ∈ watched sy ∧ quic_key ep' = quic_key ep) →
  let m := quic_conns_ (sys_pool sy) in
  inv_with x (set_pool (set_conns (<[quic_key ep := default [] (m !! quic_key ep) ++ [s]]> m) (sys_pool sy)) sy).
Proof.
  intros [] Ho Hp Hc Hw m. split; cbn; try done.
  - apply map_Forall_insert_2; [|done]. by intros [_ ?]%app_nil.
  - fold m in inv_sessions0, Hp. rewrite pooled_insert, <- (app_assoc _ [s]). cbn.
    rewrite <- Permutation_middle, <- (pooled_get m (quic_key ep)).
    rewrite <- Permutation_middle. constructor; [|done]. rewrite elem_of_app. by intros [?|?].
  - intros k s' (l & Hl & Hs). destruct (decide (k = quic_key ep)) as [->|Hne].
    + rewrite lookup_insert_eq in Hl. simplify_eq. rewrite elem_of_app, list_elem_of_singleton in Hs.
      destruct Hs as [Hs|Hs]; [|by subst s'].
      destruct (m !! quic_key ep) as [q|] eqn:E; [|by apply elem_of_nil in Hs].
      apply inv_alive0. exists q. by split.
    + rewrite lookup_insert_ne in Hl by done. apply inv_alive0. by exists l.
Qed.

Lemma inv_ask sy cb : inv sy → cb ∉ asked sy → inv_with [cb] (ask cb sy).
Proof. intros [] Hcb. split; cbn; try done; [by constructor|by constructor]. Qed.

Lemma inv_take_opening sy s ep fp cb rest : inv sy → opening sy ≡ₚ Opening s ep fp cb :: rest →
  inv_with [cb] (set_opening rest sy) ∧ s ∉ map o_session rest ∧ s ∉ pooled (quic_conns_ (sys_pool sy)) ∧
  (s ∈ closed sy ∨ ∃ ep', (s, ep') ∈ watched sy ∧ quic_key ep' = quic_key ep).
Proof.
  intros [] Ho.
  assert (NoDup (s :: map o_session rest ++ pooled (quic_conns_ (sys_pool sy)))) as Hnd.
  { eapply NoDup_Permutation_proper; [|exact inv_sessions0]. by rewrite Ho. }
  inversion_clear Hnd as [|? ? Hs Hnd']. rewrite elem_of_app in Hs. split_and!.
  - split; cbn; try done.
    + etrans; [eassumption|]. unfold tokens; cbn. rewrite Ho. cbn. by rewrite !Permutation_middle.
    + intros o Hin. apply inv_opening0. rewrite Ho. by right.
  - tauto.
  - tauto.
  - apply (inv_opening0 (Opening s ep fp cb)). rewrite Ho. by left.
Qed.

Lemma inv_close sy s ep rest : inv sy → watched sy ≡ₚ (s, ep) :: rest →
  (∀ k, ¬ in_pool (quic_conns_ (sys_pool sy)) k s) → inv (close_session s rest sy).
Proof.
  intros [] Hw Hn.
  assert (∀ s' ep', s' ≠ s → (s', ep') ∈ watched sy → (s', ep') ∈ rest) as Hkeep.
  { intros s' ep' Hne Hin. rewrite Hw, elem_of_cons in Hin. destruct Hin; [congruence|done]. }
  split; cbn; try done.
  - intros k s' Hs. destruct (inv_alive0 k s' Hs) as [Hc (ep' & Hin & Hk)].
    assert (s' ≠ s) as Hne by (intros ->; by apply (Hn k)). split.
    + rewrite elem_of_cons. tauto.
    + exists ep'. auto.
  - intros o Hin. rewrite elem_of_cons. destruct (inv_opening0 o Hin) as [?|(ep' & Hin' & Hk)]; [auto|].
    destruct (decide (o_session o = s)) as [->|Hne]; [auto|]. right. exists ep'. auto.
  - eapply NoDup_Permutation_proper; [|exact inv_watched0]. rewrite Hw. cbn. by rewrite Permutation_middle.
Qed.

Lemma watched_unique sy s ep ep' : inv sy → (s, ep) ∈ watched sy → (s, ep') ∈ watched sy → ep = ep'.
Proof.
  intros Hinv H1 H2. pose proof (inv_watched _ _ Hinv) as Hnd. apply list.NoDup_app in Hnd as (Hnd & _ & _).
  apply list_elem_of_lookup in H1 as [i Hi]. apply list_elem_of_lookup in H2 as [j Hj].
  assert (i = j) as ->; [|congruence].
  eapply (NoDup_lookup (map fst (watched sy))); [done|..];
    rewrite list_lookup_fmap; [by rewrite Hi|by rewrite Hj].
Qed.

Lemma inv_on_stream_opened sy eng s ep fp cb stream rest : inv sy →
  opening sy ≡ₚ Opening s ep fp cb :: rest → fresh_eng sy eng →
  (∀ st, stream = Some st → fresh_stream sy st ∧ s ∉ closed sy) →
  inv (perform (on_stream_opened eng s ep fp cb stream (sys_pool sy)) (set_opening rest sy)).
Proof.
  intros Hinv Ho Hf Hst. destruct (inv_take_opening _ _ _ _ _ _ Hinv Ho) as (Hi & H1 & H2 & H3).
  destruct stream as [st|]; cbn [on_stream_opened].
  - destruct (Hst st eq_refl) as [Hfr Hc]. destruct H3 as [?|H3]; [done|].
    unfold perform; cbn [fst snd fold_left]. apply inv_called; [|by intros ? [= <-]].
    by apply (inv_push [cb] (set_opening rest sy)).
  - destruct (inv_remove [cb] (set_opening rest sy) ep s Hi) as (Hr & Hsub & _).
    change (sys_pool (set_opening rest sy)) with (sys_pool sy) in *.
    destruct fp.
    + apply (inv_quic_outcome eng ep cb (set_pool (remove_quic_conn ep s (sys_pool sy)) (set_opening rest sy))); [done| |].
      * intros s' Hs'. destruct (Hf s' Hs') as (F1 & F2 & F3 & F4). split_and!; cbn; [done|done| |].
        -- intros Hin. apply F3. rewrite Ho. cbn. by right.
        -- intros Hin. by apply F4, Hsub.
      * apply quic_connect_outcome. apply (inv_pending _ _ Hr).
    + unfold perform; cbn [fst snd fold_left]. by apply inv_called.
Qed.

Lemma inv_on_session_closed sy s ep rest : inv sy → watched sy ≡ₚ (s, ep) :: rest →
  inv (perform (on_session_closed s ep (sys_pool sy)) (close_session s rest sy)).
Proof.
  intros Hinv Hw. destruct (inv_remove [] sy ep s Hinv) as (Hr & Hsub & Hn).
  apply (inv_close (set_pool (remove_quic_conn ep s (sys_pool sy)) sy) s ep rest); [done|done|].
  cbn [sys_pool set_pool]. intros k Hk. apply Hn.
  assert (s ∈ pooled (quic_conns_ (sys_pool sy))) as Hin by (apply Hsub, elem_of_pooled; by exists k).
  destruct (inv_alive _ _ Hr k s Hk) as [_ (ep' & Hw' & <-)]. cbn [watched set_pool] in Hw'.
  assert (ep = ep') as Heq; [|by rewrite Heq at 2].
  apply (watched_unique sy s); [done| |done]. rewrite Hw. by left.
Qed.

Lemma pool_step_inv resolvable sy sy' : inv sy → step resolvable sy sy' → inv sy'.
Proof.
  intros Hinv Hs. destruct Hs as [sy b|sy eng id cb Hcb Hf|sy eng ep cb Hcb Hf|sy cb t r rest Hc Hr
    |sy eng s ep fp cb stream rest Ho Hf Hst|sy s ep rest Hw|sy ep st rest Hh|sy st rest Hh].
  - apply inv_set_pool; cbn; try apply Hinv; try done.
    + apply Forall_app. split; [apply Hinv|]. constructor; [cbn; unfold kMaxIdlePerEndpoint; lia|constructor].
    + unfold idle_streams. rewrite map_app, concat_app. cbn. rewrite app_nil_r. apply Hinv.
  - by apply (inv_async_connect _ _ _ _ (ask cb sy)); [apply inv_ask|].
  - unfold async_connect_fresh. case_decide.
    + apply (inv_quic_outcome eng ep cb (ask cb sy)); [by apply inv_ask|done|].
      apply quic_connect_fresh_outcome. apply Hinv.
    + by apply (inv_connect_fresh_to _ _ _ (ask cb sy)), inv_ask.
  - assert (inv_with [cb] (set_pool (sys_pool sy) (set_connecting rest sy))) as Hout.
    { destruct Hinv. split; cbn; try done. etrans; [eassumption|]. unfold tokens; cbn. rewrite Hc. cbn. by rewrite !Permutation_middle. }
    unfold perform, on_tcp_connected; cbn [fst snd fold_left]. destruct r as [ec|[st|]]; [by apply inv_called|by apply inv_called; [|intros ? [= <-]; apply Hr]|].
    by apply inv_threw.
  - by apply inv_on_stream_opened.
  - by apply inv_on_session_closed.
  - by apply inv_release.
  - by apply (inv_release sy (Endpoint [] [] 0 0 TCP) st).
Qed.

Lemma init_inv : inv init.
Proof.
  split; cbn; try done; try (by constructor).
  - intros k s (l & Hl & _). by rewrite lookup_empty in Hl.
  - intros o Ho. by apply elem_of_nil in Ho.
Qed.

Lemma pool_reachable_inv resolvable sy : reachable resolvable sy → inv sy.
Proof.
  intros Hr. unfold reachable in Hr. remember init as s0 eqn:E.
  assert (inv s0) as Hi by (subst; apply init_inv). clear E.
  induction Hr as [|s1 s2 s3 Hs Hr IH]; [done|]. apply IH. by eapply pool_step_inv.
Qed.

(** ** Properties *)

(** Whatever the interleaving of connects, completions, releases, drops and
    connection closes, no backend connection is shared: a stream is idle in one
    queue or held by one client, never both or twice; no endpoint keeps more
    than eight idle streams. *)
Theorem pool_exclusive resolvable (sy : system) : reachable resolvable sy →
  NoDup (held sy ++ idle_streams (endpoints_ (sys_pool sy))) ∧
  Forall (λ e, length (idle e) ≤ kMaxIdlePerEndpoint) (endpoints_ (sys_pool sy)).
Proof. intros Hr%pool_reachable_inv. split; apply Hr. Qed.

Definition tcp_ep : BackendEndpoint := Endpoint #"web" #"10.0.0.1" 80 1 TCP.
Definition quic_ep : BackendEndpoint := Endpoint #"h3" #"10.0.0.2" 443 1 QUIC.

(** One TCP backend: connect, complete with stream 7, give it back. *)
Definition released_system : system :=
  let s1 := set_pool (add_backend tcp_ep (sys_pool init)) init in
  let s2 := perform (async_connect (λ _, true) None #"web" 1 (sys_pool s1)) (ask 1 s1) in
  let s3 := perform (on_tcp_connected tcp_ep 1 (inr (Some 7)) (sys_pool s2)) (set_connecting [] s2) in
  set_pool (release tcp_ep 7 (sys_pool s3)) (set_held [] s3).

Lemma released_reachable : reachable (λ _, true) released_system.
Proof.
  eapply rtc_l; [apply (step_backend _ init tcp_ep)|].
  eapply rtc_l; [apply (step_connect _ _ None #"web" 1); [by apply not_elem_of_nil|done]|].
  eapply rtc_l; [apply (step_tcp_done _ _ 1 tcp_ep (inr (Some 7)) []);
    [by vm_compute|intros st [= <-]; by apply not_elem_of_nil]|].
  eapply rtc_l; [apply (step_release _ _ tcp_ep 7 []); by vm_compute|]. apply rtc_refl.
Qed.

Lemma pool_exclusive_witness : NoDup (held released_system ++ idle_streams (endpoints_ (sys_pool released_system))) ∧
  idle_streams (endpoints_ (sys_pool released_system)) = [7].
Proof. split; [apply (pool_exclusive (λ _, true)); exact released_reachable|reflexivity]. Defined.

(** C8: Every connect callback is accounted for: each one the pool was given
    is answered, lost to an exception (the resolver's, or that of a stream
    whose backend is gone), or waiting on exactly one connect or stream open in
    flight; none is answered twice.  With nothing in flight and no exception, all
    have been answered. *)
Theorem connect_answered_once resolvable (sy : system) : reachable resolvable sy →
  NoDup (tokens sy) ∧ asked sy ≡ₚ tokens sy ∧
  (connecting sy = [] → opening sy = [] → lost sy = [] → asked sy ≡ₚ answered sy).
Proof.
  intros Hr%pool_reachable_inv. pose proof (inv_tokens _ _ Hr) as Ht. cbn in Ht. split_and!; [|done|].
  - eapply NoDup_Permutation_proper; [symmetry; exact Ht|apply Hr].
  - intros H1 H2 H3. rewrite Ht. unfold tokens. rewrite H1, H2, H3. cbn. by rewrite app_nil_r.
Qed.

Lemma connect_answered_once_witness : asked released_system ≡ₚ answered released_system.
Proof. apply (connect_answered_once (λ _, true) released_system); [exact released_reachable|reflexivity..]. Defined.

(** The QUIC reuse table is sound: a session in it is in it once, has no
    stream open pending, is not closed, and sits under the key of the endpoint
    it was connected to; no queue in the table is empty. *)
Theorem quic_table_sound resolvable (sy : system) : reachable resolvable sy →
  let m := quic_conns_ (sys_pool sy) in
  NoDup (map o_session (opening sy) ++ pooled m) ∧ map_Forall (λ _ l, l ≠ []) m ∧
  ∀ k s, in_pool m k s → s ∉ closed sy ∧ ∃ ep, (s, ep) ∈ watched sy ∧ quic_key ep = k.
Proof. intros Hr%pool_reachable_inv m. split_and!; apply Hr. Qed.

(** One QUIC backend: connect through session 5, whose first stream is 7. *)
Definition pooled_system : system :=
  let s1 := set_pool (add_backend quic_ep (sys_pool init)) init in
  let s2 := perform (async_connect (λ _, true) (Some 5) #"h3" 1 (sys_pool s1)) (ask 1 s1) in
  perform (on_stream_opened None 5 quic_ep false 1 (Some 7) (sys_pool s2)) (set_opening [] s2).

Lemma pooled_reachable : reachable (λ _, true) pooled_system.
Proof.
  eapply rtc_l; [apply (step_backend _ init quic_ep)|].
  eapply rtc_l; [apply (step_connect _ _ (Some 5) #"h3" 1); [by apply not_elem_of_nil|]|].
  { intros s [= <-]. split_and!; by apply not_elem_of_nil. }
  eapply rtc_l; [apply (step_opened _ _ None 5 quic_ep false 1 (Some 7) []); [by vm_compute|done|]|apply rtc_refl].
  intros st [= <-]. split; by apply not_elem_of_nil.
Qed.

Lemma quic_table_sound_witness : in_pool (quic_conns_ (sys_pool pooled_system)) (quic_key quic_ep) 5 ∧ 5 ∉ closed pooled_system.
Proof.
  assert (in_pool (quic_conns_ (sys_pool pooled_system)) (quic_key quic_ep) 5) as Hp.
  { exists [5]. split; [vm_compute; reflexivity|by left]. }
  split; [exact Hp|].
  exact (proj1 (proj2 (proj2 (quic_table_sound (λ _, true) pooled_system pooled_reachable)) (quic_key quic_ep) 5 Hp)).
Defined.

(** ** Round robin *)

(** The index [async_connect] picks in a group of [n] when the shared counter
    is [rr]. *)
Definition pick (rr : Z) (n : nat) : nat := Z.to_nat (rr mod Z.of_nat n).

(** The endpoint a connect is directed at, read off what the pool does: the
    stream it hands out, the socket it connects or the stream it opens. *)
Definition effect_target (e : effect) : option BackendEndpoint :=
  match e with
  | Called _ _ ep _ => ep
  | TcpConnect _ target => Some target
  | OpenStream _ ep _ _ => Some ep
  | _ => None
  end.

Definition served (r : UpstreamPool * list effect) : option BackendEndpoint := head (omap effect_target (snd r)).

(** The endpoints of a group, in the order they were added. *)
Definition group (id : bytes) (bes : list BackendEndpoint) : list BackendEndpoint :=
  filter (λ b, backend_id b = id) bes.

(** The endpoints that serve [k] consecutive connects of one group. *)
Fixpoint served_by (resolvable : BackendEndpoint → bool) (eng : nat → option nat) (id : bytes) (cb k : nat)
  (p : UpstreamPool) : list (option BackendEndpoint) :=
  match k with
  | O => []
  | S k' => let r := async_connect resolvable (eng cb) id cb p in
            served r :: served_by resolvable eng id (S cb) k' (fst r)
  end.

Lemma candidates_from_group i id es pre : length pre = i →
  map (λ j, (map be (pre ++ es)) !! j) (candidates_from i id es) = map Some (group id (map be es)).
Proof.
  revert i pre. induction es as [|e es IH]; intros i pre Hi; [done|].
  assert (map (λ j, map be (pre ++ e :: es) !! j) (candidates_from (S i) id es) = map Some (group id (map be es))) as IH'.
  { rewrite <- (IH (S i) (pre ++ [e])); [by rewrite <- app_assoc|]. rewrite length_app. cbn. lia. }
  cbn [candidates_from map]. unfold group in *. rewrite filter_cons. case_decide; [|exact IH'].
  cbn [map]. f_equal; [|exact IH']. rewrite map_app, lookup_app_r by (rewrite length_map; lia).
  by rewrite length_map, Hi, Nat.sub_diag.
Qed.

Lemma candidates_group id p :
  map (λ j, (map be (endpoints_ p)) !! j) (candidates id p) = map Some (group id (map be (endpoints_ p))).
Proof. exact (candidates_from_group 0 id (endpoints_ p) [] eq_refl). Qed.

Lemma length_group id p : length (group id (map be (endpoints_ p))) = length (candidates id p).
Proof. rewrite <- (length_map Some), <- candidates_group. by rewrite length_map. Qed.

(** Entry [i] of a group. *)
Lemma group_lookup id p i : candidates id p !! i ≫= (λ j, be <$> endpoints_ p !! j) = group id (map be (endpoints_ p)) !! i.
Proof.
  pose proof (f_equal (λ l, l !! i) (candidates_group id p)) as H.
  rewrite !list_lookup_fmap in H.
  destruct (candidates id p !! i) as [j|], (group id _ !! i) as [b|]; cbn in *; simplify_eq; try done.
  by rewrite list_lookup_fmap in H.
Qed.

Lemma quic_outcome_frame eng ep cb p r : quic_outcome eng ep cb p r →
  endpoints_ (fst r) = endpoints_ p ∧ rr_index_ (fst r) = rr_index_ p ∧ pending_quic_ (fst r) = pending_quic_ p ∧
  served r = Some ep.
Proof. by intros []. Qed.

Section round_robin.
Context (resolvable : BackendEndpoint → bool) (Hres : ∀ ep, resolvable ep = true).

(** A connect is served by the endpoint under the counter, moves the counter
    by one and leaves the endpoints alone. *)
Lemma async_connect_frame eng id cb p : (0 ≤ rr_index_ p)%Z → pending_quic_ p = None →
  let bes := map be (endpoints_ p) in
  group id bes ≠ [] → let r := async_connect resolvable eng id cb p in
  rr_index_ (fst r) = u64 (rr_index_ p + 1) ∧ map be (endpoints_ (fst r)) = bes ∧ pending_quic_ (fst r) = None ∧
  served r = group id bes !! pick (rr_index_ p) (length (group id bes)).
Proof using Hres.
  intros Hrr Hp bes Hg r. unfold r.
  assert (candidates id p ≠ []) as Hc by (intros E; apply Hg, nil_length_inv; unfold bes; by rewrite length_group, E).
  destruct (async_connect_pick resolvable eng id cb p Hrr Hc) as (i & e & Hi & He & Hid & ->).
  assert (group id bes !! pick (rr_index_ p) (length (group id bes)) = Some (be e)) as ->.
  { unfold bes, pick. rewrite length_group, <- group_lookup, Hi. cbn. by rewrite He. }
  set (p1 := set_rr _ p). case_decide.
  - destruct (quic_outcome_frame _ _ _ _ _ (quic_connect_outcome eng (be e) cb p1 Hp)) as (H1 & H2 & H3 & H4).
    by rewrite H1, H2, H3, H4.
  - destruct (idle e) as [|st rest].
    + unfold connect_fresh_to, served. cbn. rewrite Hres. by split_and!.
    + cbn. split_and!; [done| |done|done].
      change (@map ?A ?B) with (@fmap list list_fmap A B). rewrite list_fmap_insert. cbn.
      apply list_insert_id. transitivity (be <$> endpoints_ p !! i); [apply list_lookup_fmap|by rewrite He].
Qed.

Lemma served_by_seq eng id k : ∀ cb p, (0 ≤ rr_index_ p)%Z → (rr_index_ p + Z.of_nat k < 2 ^ 64)%Z →
  pending_quic_ p = None → let g := group id (map be (endpoints_ p)) in g ≠ [] →
  served_by resolvable eng id cb k p = map (λ j, g !! pick (rr_index_ p + Z.of_nat j) (length g)) (seq 0 k).
Proof using Hres.
  induction k as [|k IH]; intros cb p Hrr Hlt Hp g Hg; [done|]. cbn [served_by seq map].
  destruct (async_connect_frame (eng cb) id cb p Hrr Hp Hg) as (H1 & H2 & H3 & H4).
  assert (u64 (rr_index_ p + 1) = rr_index_ p + 1)%Z as Hu by (unfold u64; apply Z.mod_small; lia).
  rewrite Hu in H1. rewrite IH by (rewrite ?H1, ?H2; (done || lia)). rewrite H1, H2, H4. f_equal; [by rewrite Z.add_0_r|].
  rewrite <- (seq_shift k 0), map_map. apply map_ext. intros j. fold g.
  by replace (rr_index_ p + 1 + Z.of_nat j)%Z with (rr_index_ p + Z.of_nat (S j))%Z by lia.
Qed.

(** The endpoints that serve the first of two groups that take turns. *)
Fixpoint served_in_turns (eng : nat → option nat) (id1 id2 : bytes) (cb k : nat) (p : UpstreamPool) :
  list (option BackendEndpoint) :=
  match k with
  | O => []
  | S k' =>
      let r := async_connect resolvable (eng cb) id1 cb p in
      let r' := async_connect resolvable (eng (S cb)) id2 (S cb) (fst r) in
      served r :: served_in_turns eng id1 id2 (S (S cb)) k' (fst r')
  end.

Lemma served_in_turns_same eng id1 id2 k : ∀ cb p, (0 ≤ rr_index_ p)%Z → (rr_index_ p + 2 * Z.of_nat k < 2 ^ 64)%Z →
  pending_quic_ p = None → let bes := map be (endpoints_ p) in length (group id1 bes) = 2 → group id2 bes ≠ [] →
  served_in_turns eng id1 id2 cb k p = repeat (group id1 bes !! pick (rr_index_ p) 2) k.
Proof using Hres.
  induction k as [|k IH]; intros cb p Hrr Hlt Hp bes Hg1 Hg2; [done|]. cbn [served_in_turns repeat].
  destruct (async_connect_frame (eng cb) id1 cb p Hrr Hp) as (E1 & B1 & P1 & S1);
    [intros E; fold bes in E; by rewrite E in Hg1|].
  rewrite S1. fold bes in B1 |- *. rewrite Hg1. f_equal.
  set (p1 := fst (async_connect resolvable (eng cb) id1 cb p)) in *.
  assert (rr_index_ p1 = rr_index_ p + 1)%Z as E1' by (rewrite E1; unfold u64; apply Z.mod_small; lia).
  destruct (async_connect_frame (eng (S cb)) id2 (S cb) p1) as (E2 & B2 & P2 & _); [lia|done|by rewrite B1|].
  set (p2 := fst (async_connect resolvable (eng (S cb)) id2 (S cb) p1)) in *. rewrite B1 in B2.
  assert (rr_index_ p2 = rr_index_ p + 2)%Z as E2' by (rewrite E2, E1'; unfold u64; rewrite Z.mod_small; lia).
  rewrite IH by (rewrite ?B2; (done || lia)). rewrite B2, E2'. do 2 f_equal. unfold pick.
  Z.to_euclidean_division_equations. lia.
Qed.
End round_robin.

Lemma picks_perm rr n : (0 ≤ rr)%Z → 0 < n → map (λ j, pick (rr + Z.of_nat j) n) (seq 0 n) ≡ₚ seq 0 n.
Proof.
  intros Hrr Hn.
  assert (∀ z, 0 ≤ z mod Z.of_nat n < Z.of_nat n)%Z as Hb by (intros; apply Z.mod_pos_bound; lia).
  apply NoDup_Permutation_bis; [|by rewrite length_map|].
  - apply Finite.Injective_map_NoDup_in; [|apply seq_NoDup].
    intros x y Hx%in_seq Hy%in_seq. unfold pick. intros Heq.
    pose proof (Hb (rr + Z.of_nat x)%Z). pose proof (Hb (rr + Z.of_nat y)%Z).
    assert ((rr + Z.of_nat x) mod Z.of_nat n = (rr + Z.of_nat y) mod Z.of_nat n)%Z as Hm by lia.
    pose proof (Z.div_mod (rr + Z.of_nat x) (Z.of_nat n) ltac:(lia)).
    pose proof (Z.div_mod (rr + Z.of_nat y) (Z.of_nat n) ltac:(lia)).
    set (q1 := ((rr + Z.of_nat x) / Z.of_nat n)%Z) in *. set (q2 := ((rr + Z.of_nat y) / Z.of_nat n)%Z) in *.
    assert (Z.of_nat x - Z.of_nat y = Z.of_nat n * (q1 - q2))%Z by lia.
    assert (q1 - q2 < 1)%Z by nia. assert (-1 < q1 - q2)%Z by nia. assert (q1 - q2 = 0)%Z as Hq by lia.
    rewrite Hq in *. lia.
  - intros x Hx%in_map_iff. destruct Hx as (j & <- & _). apply in_seq. unfold pick.
    pose proof (Hb (rr + Z.of_nat j)%Z). lia.
Qed.

Lemma map_lookup_seq {A} (l : list A) : map (λ i, l !! i) (seq 0 (length l)) = map Some l.
Proof.
  induction l as [|a l IH]; [done|]. cbn [length seq map]. f_equal. rewrite <- seq_shift, map_map. apply IH.
Qed.

(** Round robin is fair within a group: [n] consecutive connects to a
    group of [n] endpoints are directed once at each of them, whatever streams
    and connections the pool holds (for host names that resolve, and as long as
    the 64-bit counter does not wrap in between). *)
Theorem round_robin_fair resolvable eng id cb (p : UpstreamPool) :
  (∀ ep, resolvable ep = true) →
  let g := group id (map be (endpoints_ p)) in
  (0 ≤ rr_index_ p)%Z → (rr_index_ p + Z.of_nat (length g) < 2 ^ 64)%Z → pending_quic_ p = None → g ≠ [] →
  served_by resolvable eng id cb (length g) p ≡ₚ map Some g.
Proof.
  intros Hres g Hrr Hlt Hp Hg. rewrite (served_by_seq resolvable Hres) by done. fold g.
  rewrite <- (map_map (λ j, pick (rr_index_ p + Z.of_nat j) (length g)) (λ i, g !! i)).
  rewrite picks_perm, map_lookup_seq; [done|done|]. destruct g; [done|cbn; lia].
Qed.

Definition tcp_ep2 : BackendEndpoint := Endpoint #"web" #"10.0.0.2" 80 1 TCP.
Definition two_endpoints : UpstreamPool := add_backend tcp_ep2 (add_backend tcp_ep new_pool).

Lemma round_robin_fair_witness :
  served_by (λ _, true) (λ _, None) #"web" 1 2 (set_rr 5 two_endpoints) ≡ₚ [Some tcp_ep; Some tcp_ep2].
Proof.
  apply (round_robin_fair (λ _, true) (λ _, None) #"web" 1 (set_rr 5 two_endpoints));
    [reflexivity|cbn; lia|vm_compute; reflexivity|reflexivity|].
  vm_compute. discriminate.
Defined.

(** The counter is shared by all groups, so fairness is lost when groups
    interleave: while a group of two endpoints takes turns with another
    group, every one of its connects is directed at the same endpoint and the
    other one gets none, however long it goes on. *)
Theorem round_robin_starves resolvable eng id1 id2 cb k (p : UpstreamPool) :
  (∀ ep, resolvable ep = true) →
  (0 ≤ rr_index_ p)%Z → (rr_index_ p + 2 * Z.of_nat k < 2 ^ 64)%Z → pending_quic_ p = None →
  ∀ ep1 ep2, group id1 (map be (endpoints_ p)) = [ep1; ep2] → ep1 ≠ ep2 → group id2 (map be (endpoints_ p)) ≠ [] →
  (Forall (λ s, s = Some ep1) (served_in_turns resolvable eng id1 id2 cb k p) ∨
   Forall (λ s, s = Some ep2) (served_in_turns resolvable eng id1 id2 cb k p)).
Proof.
  intros Hres Hrr Hlt Hp ep1 ep2 Hg Hne Hg2.
  rewrite (served_in_turns_same resolvable Hres) by (rewrite ?Hg; done). rewrite Hg.
  assert (pick (rr_index_ p) 2 = 0 ∨ pick (rr_index_ p) 2 = 1) as [-> | ->];
    [unfold pick; Z.to_euclidean_division_equations; lia|left|right];
    apply List.Forall_forall; intros s Hs; by apply repeat_spec in Hs.
Qed.

Definition two_groups : UpstreamPool :=
  add_backend (Endpoint #"api" #"10.0.1.2" 80 1 TCP) (add_backend (Endpoint #"api" #"10.0.1.1" 80 1 TCP) two_endpoints).

Lemma round_robin_starves_witness :
  Forall (λ s, s = Some tcp_ep) (served_in_turns (λ _, true) (λ _, None) #"web" #"api" 1 3 two_groups).
Proof.
  destruct (round_robin_starves (λ _, true) (λ _, None) #"web" #"api" 1 3 two_groups) with (ep1 := tcp_ep) (ep2 := tcp_ep2)
    as [H|H]; try reflexivity; try discriminate; [exact H|].
  apply Forall_cons_1 in H as [H _]. vm_compute in H. discriminate.
Defined.

(** ** Reuse *)

(** A released connection is kept for reuse, behind the older idle ones:
    with room in its endpoint's queue it is appended there, and when it is the
    only idle one the next connect hands it out, marked as pooled, instead of
    opening a new connection. *)
Theorem release_then_reuse resolvable eng id cb st e (p : UpstreamPool) :
  endpoints_ p = [e] → backend_id (be e) = id → ep_protocol (be e) = TCP →
  length (idle e) < kMaxIdlePerEndpoint →
  let p' := release (be e) st p in
  (idle e = [] → snd (async_connect resolvable eng id cb p') = [Called cb (inr st) (Some (be e)) true]) ∧
  endpoints_ p' = [Entry (be e) (idle e ++ [st])].
Proof.
  intros He Hid Ht Hl p'.
  assert (endpoints_ p' = [Entry (be e) (idle e ++ [st])]) as Hp'.
  { unfold p', release. rewrite Ht, decide_False by done. cbn. rewrite He. cbn.
    rewrite decide_True by (by split_and!). by rewrite decide_True. }
  split; [|done]. intros Hidle. unfold async_connect, candidates. rewrite Hp', Hidle. cbn.
  rewrite decide_True by done. cbn -[Z.modulo Z.of_nat]. rewrite Z.mod_1_r. cbn. rewrite Hp', Hidle. cbn.
  change ([0] !! Z.to_nat 0) with (Some 0). cbn -[decide]. by rewrite Ht, decide_False.
Qed.

Lemma release_then_reuse_witness :
  snd (async_connect (λ _, true) None #"web" 2 (release tcp_ep 7 (add_backend tcp_ep new_pool))) =
  [Called 2 (inr 7) (Some tcp_ep) true].
Proof.
  apply (release_then_reuse (λ _, true) None #"web" 2 7 (Entry tcp_ep []) (add_backend tcp_ep new_pool));
    [reflexivity..|unfold kMaxIdlePerEndpoint; cbn; lia|reflexivity].
Defined.
