(* ===== verification/RelaySession.v ===== *)
(** * The relay session (src/src/proxy/relay_session.{h,cpp})

    One client connection: parse a request, pick a backend, forward, relay the
    response, loop or close.  The object's members are the fields of
    [RelaySession]; what is in flight is explicit: [pending] lists the
    completions the session waits for, one constructor of [cont] per callback
    the source installs, with the values the callback captures.  [log] records
    every call the session makes to the outside, newest first.

    Each method is a function on the state; [resume] is the body of the
    callbacks; [step] lets any pending completion, the idle timer and
    [graceful_close] happen in any order.  Dereferencing a null stream sets
    [crashed], after which nothing happens. *)

From S2P Require Import Prelude CppStd Transport HttpMessage H1Codec Config Router Stats.

Inductive Phase := kRequest | kForward | kResponse | kBridge | kClosed.

#[global] Instance Phase_eq_dec : EqDecision Phase.
Proof. solve_decision. Defined.

(** Which codec a pointer designates. *)
Inductive codec := CodecH1 | CodecH3.

(** A stream captured by a pump. *)
Inductive peer := Client | Backend (b : nat).

#[global] Instance peer_eq_dec : EqDecision peer.
Proof. solve_decision. Defined.

(** The callbacks, by the call they wait on. *)
Inductive cont :=
  | KParseRequest                                              (** [request_phase] *)
  | KUseBackend (head : HttpRequestHead) (body : body_src)     (** [async_connect], [handle_forward] *)
  | KTunnelConnect                                             (** [handle_connect] *)
  | KTunnelEstablished                                         (** [start_tunnel] *)
  | KPumpRead (src dst : peer)                                 (** [pump_bytes], outer *)
  | KPumpWrite (src dst : peer)                                (** [pump_bytes], inner *)
  | KBackendWrite (retry_allowed : bool)                       (** [send_backend_request] *)
  | KReconnect                                                 (** [reconnect_backend_fresh] *)
  | KParseResponse                                             (** [response_phase] *)
  | KWrite101                                                  (** [response_phase], upgrade *)
  | KWriteResponse (backend_keep_alive : bool)                 (** [response_phase] *)
  | KWriteError                                                (** [write_error] *)
  | KDrainRead.                                                (** [drain_client] *)

(** What the session does to the outside. *)
Inductive action :=
  | ParseRequest
  | Connect (backend_id : bytes)
  | ConnectFresh (target : BackendEndpoint)
  | AttachBackend (b : nat)             (** a connected stream becomes [backend_] *)
  | AttachTunnel (b : nat)              (** the same, for a CONNECT tunnel *)
  | WriteRequest (c : codec) (b : nat) (head : HttpRequestHead) (body : body_src)
  | ParseResponse (c : codec) (b : nat)
  | WriteResponse (head : HttpResponseHead) (body : body_src)
  | Release (ep : BackendEndpoint) (b : nat)
  | ShutdownClient
  | ShutdownBackend (b : nat)
  | ReadFrom (src : peer)
  | WriteTo (dst : peer) (data : bytes).

Record RelaySession := Relay {
  client_is_h1 : bool;   (** [client_codec_ == h1_codec_] *)
  router_ : Router.t;
  idle_timeout_ : Z;   (** seconds; none when not positive *)
  backend_ : option nat;
  backend_codec_ : codec;
  backend_endpoint_ : BackendEndpoint;
  backend_from_pool_ : bool;
  pending_head_ : option HttpRequestHead;
  pending_body_ : body_src;
  request_method_ : bytes;
  client_version_ : bytes;
  client_keep_alive_ : bool;
  request_is_upgrade_ : bool;
  done_ : bool;
  phase_ : Phase;
  draining_ : bool;
  stats_ : ProxyStats;   (** this session's share of the process-wide counters *)
  timer_armed : bool;   (** a wait on [idle_timer_] is pending *)
  pending : list cont;   (** the completions in flight *)
  log : list action;   (** what was done, newest first *)
  crashed : bool;   (** a null stream was dereferenced *)
}.

(** Assignments to the members. *)
Definition set_backend (x : option nat) (r : RelaySession) : RelaySession :=
  Relay (client_is_h1 r) (router_ r) (idle_timeout_ r) x (backend_codec_ r) (backend_endpoint_ r)
        (backend_from_pool_ r) (pending_head_ r) (pending_body_ r) (request_method_ r) (client_version_ r)
        (client_keep_alive_ r) (request_is_upgrade_ r) (done_ r) (phase_ r) (draining_ r) (stats_ r)
        (timer_armed r) (pending r) (log r) (crashed r).
Definition set_backend_codec (x : codec) (r : RelaySession) : RelaySession :=
  Relay (client_is_h1 r) (router_ r) (idle_timeout_ r) (backend_ r) x (backend_endpoint_ r)
        (backend_from_pool_ r) (pending_head_ r) (pending_body_ r) (request_method_ r) (client_version_ r)
        (client_keep_alive_ r) (request_is_upgrade_ r) (done_ r) (phase_ r) (draining_ r) (stats_ r)
        (timer_armed r) (pending r) (log r) (crashed r).
Definition set_backend_endpoint (x : BackendEndpoint) (r : RelaySession) : RelaySession :=
  Relay (client_is_h1 r) (router_ r) (idle_timeout_ r) (backend_ r) (backend_codec_ r) x
        (backend_from_pool_ r) (pending_head_ r) (pending_body_ r) (request_method_ r) (client_version_ r)
        (client_keep_alive_ r) (request_is_upgrade_ r) (done_ r) (phase_ r) (draining_ r) (stats_ r)
        (timer_armed r) (pending r) (log r) (crashed r).
Definition set_backend_from_pool (x : bool) (r : RelaySession) : RelaySession :=
  Relay (client_is_h1 r) (router_ r) (idle_timeout_ r) (backend_ r) (backend_codec_ r) (backend_endpoint_ r)
        x (pending_head_ r) (pending_body_ r) (request_method_ r) (client_version_ r) (client_keep_alive_ r)
        (request_is_upgrade_ r) (done_ r) (phase_ r) (draining_ r) (stats_ r) (timer_armed r) (pending r)
        (log r) (crashed r).
Definition set_pending_head (x : option HttpRequestHead) (r : RelaySession) : RelaySession :=
  Relay (client_is_h1 r) (router_ r) (idle_timeout_ r) (backend_ r) (backend_codec_ r) (backend_endpoint_ r)
        (backend_from_pool_ r) x (pending_body_ r) (request_method_ r) (client_version_ r)
        (client_keep_alive_ r) (request_is_upgrade_ r) (done_ r) (phase_ r) (draining_ r) (stats_ r)
        (timer_armed r) (pending r) (log r) (crashed r).
Definition set_pending_body (x : body_src) (r : RelaySession) : RelaySession :=
  Relay (client_is_h1 r) (router_ r) (idle_timeout_ r) (backend_ r) (backend_codec_ r) (backend_endpoint_ r)
        (backend_from_pool_ r) (pending_head_ r) x (request_method_ r) (client_version_ r)
        (client_keep_alive_ r) (request_is_upgrade_ r) (done_ r) (phase_ r) (draining_ r) (stats_ r)
        (timer_armed r) (pending r) (log r) (crashed r).
Definition set_request_method (x : bytes) (r : RelaySession) : RelaySession :=
  Relay (client_is_h1 r) (router_ r) (idle_timeout_ r) (backend_ r) (backend_codec_ r) (backend_endpoint_ r)
        (backend_from_pool_ r) (pending_head_ r) (pending_body_ r) x (client_version_ r)
        (client_keep_alive_ r) (request_is_upgrade_ r) (done_ r) (phase_ r) (draining_ r) (stats_ r)
        (timer_armed r) (pending r) (log r) (crashed r).
Definition set_client_version (x : bytes) (r : RelaySession) : RelaySession :=
  Relay (client_is_h1 r) (router_ r) (idle_timeout_ r) (backend_ r) (backend_codec_ r) (backend_endpoint_ r)
        (backend_from_pool_ r) (pending_head_ r) (pending_body_ r) (request_method_ r) x
        (client_keep_alive_ r) (request_is_upgrade_ r) (done_ r) (phase_ r) (draining_ r) (stats_ r)
        (timer_armed r) (pending r) (log r) (crashed r).
Definition set_client_keep_alive (x : bool) (r : RelaySession) : RelaySession :=
  Relay (client_is_h1 r) (router_ r) (idle_timeout_ r) (backend_ r) (backend_codec_ r) (backend_endpoint_ r)
        (backend_from_pool_ r) (pending_head_ r) (pending_body_ r) (request_method_ r) (client_version_ r) x
        (request_is_upgrade_ r) (done_ r) (phase_ r) (draining_ r) (stats_ r) (timer_armed r) (pending r)
        (log r) (crashed r).
Definition set_request_is_upgrade (x : bool) (r : RelaySession) : RelaySession :=
  Relay (client_is_h1 r) (router_ r) (idle_timeout_ r) (backend_ r) (backend_codec_ r) (backend_endpoint_ r)
        (backend_from_pool_ r) (pending_head_ r) (pending_body_ r) (request_method_ r) (client_version_ r)
        (client_keep_alive_ r) x (done_ r) (phase_ r) (draining_ r) (stats_ r) (timer_armed r) (pending r)
        (log r) (crashed r).
Definition set_done (x : bool) (r : RelaySession) : RelaySession :=
  Relay (client_is_h1 r) (router_ r) (idle_timeout_ r) (backend_ r) (backend_codec_ r) (backend_endpoint_ r)
        (backend_from_pool_ r) (pending_head_ r) (pending_body_ r) (request_method_ r) (client_version_ r)
        (client_keep_alive_ r) (request_is_upgrade_ r) x (phase_ r) (draining_ r) (stats_ r) (timer_armed r)
        (pending r) (log r) (crashed r).
Definition set_phase (x : Phase) (r : RelaySession) : RelaySession :=
  Relay (client_is_h1 r) (router_ r) (idle_timeout_ r) (backend_ r) (backend_codec_ r) (backend_endpoint_ r)
        (backend_from_pool_ r) (pending_head_ r) (pending_body_ r) (request_method_ r) (client_version_ r)
        (client_keep_alive_ r) (request_is_upgrade_ r) (done_ r) x (draining_ r) (stats_ r) (timer_armed r)
        (pending r) (log r) (crashed r).
Definition set_draining (x : bool) (r : RelaySession) : RelaySession :=
  Relay (client_is_h1 r) (router_ r) (idle_timeout_ r) (backend_ r) (backend_codec_ r) (backend_endpoint_ r)
        (backend_from_pool_ r) (pending_head_ r) (pending_body_ r) (request_method_ r) (client_version_ r)
        (client_keep_alive_ r) (request_is_upgrade_ r) (done_ r) (phase_ r) x (stats_ r) (timer_armed r)
        (pending r) (log r) (crashed r).
Definition set_stats (x : ProxyStats) (r : RelaySession) : RelaySession :=
  Relay (client_is_h1 r) (router_ r) (idle_timeout_ r) (backend_ r) (backend_codec_ r) (backend_endpoint_ r)
        (backend_from_pool_ r) (pending_head_ r) (pending_body_ r) (request_method_ r) (client_version_ r)
        (client_keep_alive_ r) (request_is_upgrade_ r) (done_ r) (phase_ r) (draining_ r) x (timer_armed r)
        (pending r) (log r) (crashed r).
Definition set_timer_armed (x : bool) (r : RelaySession) : RelaySession :=
  Relay (client_is_h1 r) (router_ r) (idle_timeout_ r) (backend_ r) (backend_codec_ r) (backend_endpoint_ r)
        (backend_from_pool_ r) (pending_head_ r) (pending_body_ r) (request_method_ r) (client_version_ r)
        (client_keep_alive_ r) (request_is_upgrade_ r) (done_ r) (phase_ r) (draining_ r) (stats_ r) x
        (pending r) (log r) (crashed r).
Definition set_pending (x : list cont) (r : RelaySession) : RelaySession :=
  Relay (client_is_h1 r) (router_ r) (idle_timeout_ r) (backend_ r) (backend_codec_ r) (backend_endpoint_ r)
        (backend_from_pool_ r) (pending_head_ r) (pending_body_ r) (request_method_ r) (client_version_ r)
        (client_keep_alive_ r) (request_is_upgrade_ r) (done_ r) (phase_ r) (draining_ r) (stats_ r)
        (timer_armed r) x (log r) (crashed r).
Definition set_log (x : list action) (r : RelaySession) : RelaySession :=
  Relay (client_is_h1 r) (router_ r) (idle_timeout_ r) (backend_ r) (backend_codec_ r) (backend_endpoint_ r)
        (backend_from_pool_ r) (pending_head_ r) (pending_body_ r) (request_method_ r) (client_version_ r)
        (client_keep_alive_ r) (request_is_upgrade_ r) (done_ r) (phase_ r) (draining_ r) (stats_ r)
        (timer_armed r) (pending r) x (crashed r).
Definition set_crashed (x : bool) (r : RelaySession) : RelaySession :=
  Relay (client_is_h1 r) (router_ r) (idle_timeout_ r) (backend_ r) (backend_codec_ r) (backend_endpoint_ r)
        (backend_from_pool_ r) (pending_head_ r) (pending_body_ r) (request_method_ r) (client_version_ r)
        (client_keep_alive_ r) (request_is_upgrade_ r) (done_ r) (phase_ r) (draining_ r) (stats_ r)
        (timer_armed r) (pending r) (log r) x.

(** ** Building blocks *)

Definition act (a : action) (r : RelaySession) : RelaySession := set_log (a :: log r) r.
Definition await (k : cont) (r : RelaySession) : RelaySession := set_pending (k :: pending r) r.
Definition crash (r : RelaySession) : RelaySession := set_crashed true r.
Definition count (bump : ProxyStats → ProxyStats) (r : RelaySession) : RelaySession :=
  set_stats (bump (stats_ r)) r.

Definition goto_phase (p : Phase) (r : RelaySession) : RelaySession :=
  if decide (phase_ r = p) then r else set_phase p r.

Definition phase_name (p : Phase) : bytes :=
  match p with
  | kRequest => #"request" | kForward => #"forward" | kResponse => #"response"
  | kBridge => #"bridge" | kClosed => #"closed"
  end.

Definition kick_idle_timer (r : RelaySession) : RelaySession :=
  if done_ r || (idle_timeout_ r <=? 0)%Z then r else set_timer_armed true r.

Definition close_backend (r : RelaySession) : RelaySession :=
  match backend_ r with
  | Some b => set_backend None (act (ShutdownBackend b) r)
  | None => r
  end.

Definition teardown (r : RelaySession) : RelaySession :=
  if done_ r then r
  else close_backend (act ShutdownClient (goto_phase kClosed (set_timer_armed false (set_done true r)))).

Definition drain_client (r : RelaySession) : RelaySession :=
  if done_ r then r else await KDrainRead (act (ReadFrom Client) r).

Definition gracefully_close_client (r : RelaySession) : RelaySession :=
  if done_ r then r else drain_client (act ShutdownClient (set_draining true r)).

Definition graceful_close (r : RelaySession) : RelaySession :=
  if done_ r then r
  else
    let r1 := set_draining true r in
    if decide (phase_ r1 = kRequest) then act ShutdownClient r1 else r1.

Definition request_phase (r : RelaySession) : RelaySession :=
  await KParseRequest (act ParseRequest (kick_idle_timer (goto_phase kRequest r))).

Definition start (r : RelaySession) : RelaySession := request_phase r.

Definition after_client_response (r : RelaySession) : RelaySession :=
  if draining_ r then gracefully_close_client r
  else if client_keep_alive_ r && negb (done_ r) && client_is_h1 r then request_phase r
  else if client_is_h1 r then gracefully_close_client r
  else drain_client r.

(** The head [write_error] sends; the body is [msg]. *)
Definition error_head (status : HttpStatus) (msg : bytes) : HttpResponseHead :=
  ResponseHead (status_value status) (status_reason status) #"HTTP/1.1"
    (HeaderMap.set #"content-length" (to_string (Z.of_nat (length msg)))
      (HeaderMap.set #"content-type" #"text/plain" HeaderMap.empty_map)) None.

Definition write_error (status : HttpStatus) (msg : bytes) (r : RelaySession) : RelaySession :=
  await KWriteError (act (WriteResponse (error_head status msg) (BufferSrc msg)) (count bump_resp_err r)).

(** ** Backends *)

Definition send_backend_request (retry_allowed : bool) (r : RelaySession) : RelaySession :=
  match backend_ r, pending_head_ r with
  | Some b, Some head =>
      await (KBackendWrite retry_allowed) (act (WriteRequest (backend_codec_ r) b head (pending_body_ r)) r)
  | _, _ => crash r
  end.

Definition reconnect_backend_fresh (r : RelaySession) : RelaySession :=
  let r1 := close_backend r in
  await KReconnect (act (ConnectFresh (backend_endpoint_ r1)) r1).

Definition codec_of (ep : BackendEndpoint) : codec :=
  if decide (ep_protocol ep = QUIC) then CodecH3 else CodecH1.

(** A connected stream becomes the session's backend. *)
Definition attach_backend (upstream : nat) (ep : BackendEndpoint) (from_pool : bool) (r : RelaySession) : RelaySession :=
  let r1 := kick_idle_timer (set_backend_endpoint ep (set_backend (Some upstream) (act (AttachBackend upstream) r))) in
  let r2 := set_backend_from_pool from_pool (set_backend_codec (codec_of ep) r1) in
  if from_pool then r2 else count bump_backend_connects r2.

Definition use_backend (res : error_code + nat) (ep : BackendEndpoint) (from_pool : bool)
  (head : HttpRequestHead) (body : body_src) (r : RelaySession) : RelaySession :=
  match res with
  | inl _ => write_error BadGateway (#"upstream unreachable" ++ [LF]) r
  | inr upstream =>
      send_backend_request true
        (set_pending_body body (set_pending_head (Some head) (attach_backend upstream ep from_pool r)))
  end.

Definition is_upgrade_request (head : HttpRequestHead) : bool :=
  match HeaderMap.get #"upgrade" (req_headers head) with
  | None => false
  | Some _ =>
      match HeaderMap.get #"connection" (req_headers head) with
      | Some c => contains #"upgrade" (lower_string c)
      | None => false
      end
  end.

(** The target of a CONNECT request: ["host:port"] in the path. *)
Definition connect_target (path : bytes) : option BackendEndpoint :=
  match rfind_char COLON path with
  | None => None
  | Some colon =>
      if decide (colon = 0 ∨ length path ≤ colon + 1) then None
      else
        let host := take colon path in
        let port := fst (strtoul (drop (S colon) path) 10) in
        if decide (host = [] ∨ port = 0%Z ∨ (65535 < port)%Z) then None
        else Some (Endpoint [] host (u16 port) 1 TCP)
  end.

Definition handle_connect (head : HttpRequestHead) (r : RelaySession) : RelaySession :=
  match connect_target (path head) with
  | None => write_error BadRequest (#"bad CONNECT target" ++ [LF]) r
  | Some target => await KTunnelConnect (act (ConnectFresh target) r)
  end.

(** The target of an absolute-form request: ["host[:port]"], port 80 by default. *)
Definition forward_target (authority : bytes) : option BackendEndpoint :=
  match rfind_char COLON authority with
  | None => Some (Endpoint [] authority 80 1 TCP)
  | Some colon =>
      let p := fst (strtoul (drop (S colon) authority) 10) in
      if decide (colon = 0 ∨ p = 0%Z ∨ (65535 < p)%Z) then None
      else Some (Endpoint [] (take colon authority) (u16 p) 1 TCP)
  end.

Definition set_host (head : HttpRequestHead) : HttpRequestHead :=
  RequestHead (method head) (req_version head) (path head) (scheme head) (authority head) (absolute_target head)
    (HeaderMap.set #"host" (authority head) (req_headers head)) (req_content_length head).

Definition handle_forward (head : HttpRequestHead) (body : body_src) (r : RelaySession) : RelaySession :=
  if decide (scheme head = #"http") then
    match forward_target (authority head) with
    | None => write_error BadRequest (#"bad target" ++ [LF]) r
    | Some target => await (KUseBackend (set_host head) body) (act (ConnectFresh target) r)
    end
  else write_error BadRequest (#"https absolute-form requires CONNECT" ++ [LF]) r.

(** ** Tunnels *)

Definition tunnel_head : HttpResponseHead :=
  ResponseHead 200 #"Connection Established" #"HTTP/1.1" HeaderMap.empty_map None.

Definition start_tunnel (r : RelaySession) : RelaySession :=
  await KTunnelEstablished (act (WriteResponse tunnel_head NullBody) r).

Definition pump_bytes (src dst : peer) (r : RelaySession) : RelaySession :=
  await (KPumpRead src dst) (act (ReadFrom src) r).

(** [pump_bytes(client_, backend_)] only captures [backend_];
    [pump_bytes(backend_, client_)] reads from it. *)
Definition bridge_mode (r : RelaySession) : RelaySession :=
  let r1 := goto_phase kBridge r in
  match backend_ r1 with
  | Some b => pump_bytes (Backend b) Client (pump_bytes Client (Backend b) r1)
  | None => crash r1
  end.

(** ** Responses *)

Definition response_phase (r : RelaySession) : RelaySession :=
  let r1 := kick_idle_timer (goto_phase kResponse r) in
  match backend_ r1 with
  | Some b => await KParseResponse (act (ParseResponse (backend_codec_ r1) b) r1)
  | None => crash r1
  end.

Definition finish_backend (keep_alive : bool) (r : RelaySession) : RelaySession :=
  let r1 := set_pending_body NullBody (set_pending_head None r) in
  match backend_ r1 with
  | None => r1
  | Some b => if keep_alive then set_backend None (act (Release (backend_endpoint_ r1) b) r1)
              else close_backend r1
  end.

(** ** The callbacks *)

(** An exchange begins: the members it sets. *)
Definition begin_exchange (head : HttpRequestHead) (keep_alive : bool) (r : RelaySession) : RelaySession :=
  let r1 := count bump_requests (goto_phase kForward r) in
  let r2 := set_client_version (req_version head) (set_request_method (method head) (set_client_keep_alive keep_alive r1)) in
  kick_idle_timer (set_request_is_upgrade (is_upgrade_request head) r2).

(** CONNECT, forward proxy, or the route table. *)
Definition dispatch (head : HttpRequestHead) (body : body_src) (r : RelaySession) : RelaySession :=
  if decide (method head = #"CONNECT") then handle_connect head r
  else if absolute_target head then handle_forward head body r
  else
    match Router.route (router_ r) head with
    | [] => write_error ServiceUnavailable (#"no route for host" ++ [LF]) r
    | backend_id => await (KUseBackend head body) (act (Connect backend_id) r)
    end.

Definition on_request (res : parse_result HttpRequestHead) (r : RelaySession) : RelaySession :=
  match res with
  | ParseErr _ => teardown r
  | ParseOk head body keep_alive => dispatch head body (begin_exchange head keep_alive r)
  end.

Definition on_tunnel_connected (res : error_code + nat) (ep : BackendEndpoint) (r : RelaySession) : RelaySession :=
  match res with
  | inl _ => write_error BadGateway (#"connect failed" ++ [LF]) r
  | inr stream => start_tunnel (set_backend_endpoint ep (set_backend (Some stream) (act (AttachTunnel stream) r)))
  end.

Definition on_tunnel_established (ec : option error_code) (r : RelaySession) : RelaySession :=
  match ec with Some _ => teardown r | None => bridge_mode r end.

Definition on_pump_read (src dst : peer) (res : read_result) (r : RelaySession) : RelaySession :=
  if done_ r then r
  else match res with
       | ReadErr _ | ReadOk [] => teardown r
       | ReadOk data => await (KPumpWrite src dst) (act (WriteTo dst data) (kick_idle_timer r))
       end.

Definition on_pump_written (src dst : peer) (ec : option error_code) (r : RelaySession) : RelaySession :=
  if done_ r then r
  else match ec with
       | Some _ => teardown r
       | None => pump_bytes src dst (kick_idle_timer r)
       end.

Definition has_body (b : body_src) : bool := match b with NullBody => false | _ => true end.

Definition on_request_written (retry_allowed : bool) (ec : option error_code) (r : RelaySession) : RelaySession :=
  match ec with
  | Some _ =>
      if retry_allowed && backend_from_pool_ r && negb (has_body (pending_body_ r)) then reconnect_backend_fresh r
      else write_error BadGateway (#"backend write error" ++ [LF]) (close_backend r)
  | None => response_phase (kick_idle_timer (set_pending_body NullBody (set_pending_head None r)))
  end.

Definition on_reconnected (res : error_code + nat) (ep : BackendEndpoint) (r : RelaySession) : RelaySession :=
  match res with
  | inl _ => write_error BadGateway (#"upstream unreachable" ++ [LF]) r
  | inr upstream =>
      send_backend_request false (count bump_backend_connects (set_backend_from_pool false
        (set_backend_endpoint ep (set_backend (Some upstream) (act (AttachBackend upstream) r)))))
  end.

(** The head relayed to the client: the backend's, in the client's version. *)
Definition relay_head (version : bytes) (resp : HttpResponseHead) : HttpResponseHead :=
  match version with
  | [] => resp
  | _ => ResponseHead (status_code resp) (reason resp) version (resp_headers resp) (resp_content_length resp)
  end.

(** The counters a parsed response moves. *)
Definition count_response (us : Z) (resp : HttpResponseHead) (r : RelaySession) : RelaySession :=
  let r1 := count (if (400 <=? status_code resp)%Z then bump_resp_err else bump_resp_ok) r in
  kick_idle_timer (count (record_latency us) r1).

Definition relay_response (resp : HttpResponseHead) (resp_body : body_src) (backend_keep_alive : bool)
  (r : RelaySession) : RelaySession :=
  let body := if decide (request_method_ r = #"HEAD") then NullBody else resp_body in
  let head := relay_head (client_version_ r) resp in
  if request_is_upgrade_ r && (status_code head =? 101)%Z
  then await KWrite101 (act (WriteResponse head NullBody) r)
  else await (KWriteResponse backend_keep_alive) (act (WriteResponse head body) r).

Definition on_response (us : Z) (res : parse_result HttpResponseHead) (r : RelaySession) : RelaySession :=
  match res with
  | ParseErr _ => write_error BadGateway (#"backend response error" ++ [LF]) (close_backend r)
  | ParseOk resp resp_body backend_keep_alive =>
      relay_response resp resp_body backend_keep_alive (count_response us resp r)
  end.

Definition on_101_written (ec : option error_code) (r : RelaySession) : RelaySession :=
  match ec with Some _ => teardown r | None => bridge_mode (set_backend_from_pool false r) end.

Definition on_response_written (backend_keep_alive : bool) (r : RelaySession) : RelaySession :=
  after_client_response (finish_backend backend_keep_alive r).

Definition on_drain_read (res : read_result) (r : RelaySession) : RelaySession :=
  if done_ r then r
  else match res with
       | ReadErr _ | ReadOk [] => teardown r
       | ReadOk _ => drain_client (kick_idle_timer r)
       end.

(** The arguments a callback is called with. *)
Inductive completion :=
  | ParsedRequest (res : parse_result HttpRequestHead)
  | ParsedResponse (us : Z) (res : parse_result HttpResponseHead)
  | Connected (res : error_code + nat) (ep : BackendEndpoint) (from_pool : bool)
  | Written (ec : option error_code)
  | ReadDone (res : read_result).

(** [None] when the completion does not fit the callback. *)
Definition resume (k : cont) (c : completion) (r : RelaySession) : option RelaySession :=
  match k, c with
  | KParseRequest, ParsedRequest res => Some (on_request res r)
  | KUseBackend head body, Connected res ep from_pool => Some (use_backend res ep from_pool head body r)
  | KTunnelConnect, Connected res ep _ => Some (on_tunnel_connected res ep r)
  | KTunnelEstablished, Written ec => Some (on_tunnel_established ec r)
  | KPumpRead src dst, ReadDone res => Some (on_pump_read src dst res r)
  | KPumpWrite src dst, Written ec => Some (on_pump_written src dst ec r)
  | KBackendWrite retry, Written ec => Some (on_request_written retry ec r)
  | KReconnect, Connected res ep _ => Some (on_reconnected res ep r)
  | KParseResponse, ParsedResponse us res => Some (on_response us res r)
  | KWrite101, Written ec => Some (on_101_written ec r)
  | KWriteResponse ka, Written _ => Some (on_response_written ka r)
  | KWriteError, Written _ => Some (after_client_response r)
  | KDrainRead, ReadDone res => Some (on_drain_read res r)
  | _, _ => None
  end.

(** ** Executions *)

Definition new_relay (h1 : bool) (rt : Router.t) (timeout : Z) : RelaySession :=
  Relay h1 rt timeout None CodecH1 (Endpoint [] [] 0 1 TCP) false None NullBody [] [] false false false
        kRequest false no_stats false [] [] false.

(** A wait on the idle timer that expired before it was re-armed still
    completes without an error, so the timer may fire whenever it is enabled. *)
Inductive step : RelaySession → RelaySession → Prop :=
  | step_resume r r' k c pre post :
      crashed r = false → pending r = pre ++ k :: post →
      resume k c (set_pending (pre ++ post) r) = Some r' → step r r'
  | step_timeout r : crashed r = false → (0 < idle_timeout_ r)%Z → step r (teardown (set_timer_armed false r))
  | step_stop r : crashed r = false → step r (graceful_close r).

Definition reachable (h1 : bool) (rt : Router.t) (timeout : Z) : RelaySession → Prop :=
  rtc step (start (new_relay h1 rt timeout)).

(** ** The invariant *)

Definition live (r : RelaySession) : Prop := done_ r = false.

(** The bodies of the requests written to backends since the last client
    request was asked for, newest first. *)
Fixpoint exchange_writes (l : list action) : list body_src :=
  match l with
  | [] => []
  | ParseRequest :: _ => []
  | WriteRequest _ _ _ body :: l' => body :: exchange_writes l'
  | _ :: l' => exchange_writes l'
  end.

(** One attempt, or two of a request without a body. *)
Definition attempts_ok (l : list body_src) : Prop := length l ≤ 1 ∨ l = [NullBody; NullBody].

(** The backend streams the session was given, and those it disposed of. *)
Fixpoint attached (l : list action) : list nat :=
  match l with
  | [] => []
  | AttachBackend b :: l' | AttachTunnel b :: l' => b :: attached l'
  | _ :: l' => attached l'
  end.

Fixpoint disposed (l : list action) : list nat :=
  match l with
  | [] => []
  | Release _ b :: l' | ShutdownBackend b :: l' => b :: disposed l'
  | _ :: l' => disposed l'
  end.

Definition current (r : RelaySession) : list nat := match backend_ r with Some b => [b] | None => [] end.

Definition pump_of (k : cont) : option (peer * peer) :=
  match k with KPumpRead s d | KPumpWrite s d => Some (s, d) | _ => None end.

Definition bridging (b : nat) (l : list cont) : Prop :=
  Forall (λ k, pump_of k = Some (Client, Backend b) ∨ pump_of k = Some (Backend b, Client)) l ∧
  NoDup (map pump_of l).

(** What holds while a given completion is awaited. *)
Definition cont_ok (k : cont) (r : RelaySession) : Prop :=
  let writes := exchange_writes (log r) in
  match k with
  | KParseRequest => backend_ r = None ∧ (live r → phase_ r = kRequest) ∧ writes = []
  | KUseBackend _ _ | KTunnelConnect => backend_ r = None ∧ (live r → phase_ r = kForward) ∧ writes = []
  | KTunnelEstablished => (live r → backend_ r ≠ None ∧ phase_ r = kForward) ∧ writes = []
  | KBackendWrite true =>
      (live r → backend_ r ≠ None ∧ phase_ r = kForward) ∧ pending_head_ r ≠ None ∧ writes = [pending_body_ r]
  | KBackendWrite false =>
      (live r → backend_ r ≠ None ∧ phase_ r = kForward) ∧ pending_head_ r ≠ None ∧
      pending_body_ r = NullBody ∧ writes = [NullBody; NullBody]
  | KReconnect =>
      backend_ r = None ∧ (live r → phase_ r = kForward) ∧ pending_head_ r ≠ None ∧
      pending_body_ r = NullBody ∧ writes = [NullBody]
  | KParseResponse | KWrite101 | KWriteResponse _ => live r → backend_ r ≠ None ∧ phase_ r = kResponse
  | KWriteError | KDrainRead => backend_ r = None ∧ (live r → phase_ r = kForward ∨ phase_ r = kResponse)
  | KPumpRead _ _ | KPumpWrite _ _ => False
  end.

Inductive pending_ok (r : RelaySession) : Prop :=
  | ok_none : pending r = [] → done_ r = true → pending_ok r
  | ok_one k : pending r = [k] → cont_ok k r → pending_ok r
  | ok_bridge b : bridging b (pending r) →
      (live r → length (pending r) = 2 ∧ backend_ r = Some b ∧ phase_ r = kBridge) → pending_ok r.

Record inv (r : RelaySession) : Prop := {
  inv_pending : crashed r = false → pending_ok r;
  inv_crashed : crashed r = true → done_ r = true;
  inv_writes : attempts_ok (exchange_writes (log r));
  inv_streams : attached (log r) ≡ₚ disposed (log r) ++ current r;
  inv_timer : live r → (0 < idle_timeout_ r)%Z → timer_armed r = true;
}.

(** ** Lemmas: the helpers as assignments *)

Lemma goto_phase_eq p r : goto_phase p r = set_phase p r.
Proof. unfold goto_phase. case_decide; [|done]. destruct r; cbn in *; by subst. Qed.

Lemma kick_eq r : kick_idle_timer r =
  set_timer_armed (if done_ r || (idle_timeout_ r <=? 0)%Z then timer_armed r else true) r.
Proof. unfold kick_idle_timer. destruct (_ || _); [by destruct r|done]. Qed.

Lemma close_backend_eq r : close_backend r =
  set_backend None (set_log (map ShutdownBackend (current r) ++ log r) r).
Proof. unfold close_backend, current. destruct r; cbn. by destruct backend_0. Qed.

(** What every state satisfies, whatever it waits for. *)
Record base (r : RelaySession) : Prop := {
  base_crashed : crashed r = false;
  base_writes : attempts_ok (exchange_writes (log r));
  base_streams : attached (log r) ≡ₚ disposed (log r) ++ current r;
  base_timer : live r → (0 < idle_timeout_ r)%Z → timer_armed r = true;
}.

Lemma base_inv r : base r → pending_ok r → inv r.
Proof. intros [] Hp. split; [done| |done..]. congruence. Qed.

Lemma inv_base r : inv r → crashed r = false → base r.
Proof. intros [] Hc. by split. Qed.

(** Actions that neither write a request nor attach or dispose of a stream. *)
Definition neutral (a : action) : Prop :=
  match a with
  | ParseRequest | WriteRequest _ _ _ _ | AttachBackend _ | AttachTunnel _ | Release _ _ | ShutdownBackend _ => False
  | _ => True
  end.

Lemma base_act a r : neutral a → base r → base (act a r).
Proof. intros Ha []. by destruct a; try done; split. Qed.

Lemma base_await k r : base r → base (await k r).
Proof. by intros []; split. Qed.

Lemma base_kick r : base r → base (kick_idle_timer r).
Proof.
  intros []. rewrite kick_eq. split; cbn; try done. unfold live; cbn. intros Hl Ht.
  by destruct (done_ r || _); [apply base_timer0|].
Qed.

Lemma base_close_backend r : base r → base (close_backend r).
Proof.
  intros []. rewrite close_backend_eq. split; cbn; try done; unfold current in *.
  - by destruct (backend_ r).
  - cbn. destruct (backend_ r) as [b|]; cbn; [|done]. rewrite app_nil_r, base_streams0.
    by rewrite Permutation_app_comm.
Qed.

Lemma close_backend_frame r : backend_ (close_backend r) = None ∧ done_ (close_backend r) = done_ r ∧
  phase_ (close_backend r) = phase_ r ∧ pending (close_backend r) = pending r ∧
  exchange_writes (log (close_backend r)) = exchange_writes (log r) ∧
  pending_head_ (close_backend r) = pending_head_ r ∧ pending_body_ (close_backend r) = pending_body_ r.
Proof. rewrite close_backend_eq. unfold current. by destruct (backend_ r). Qed.

Lemma base_teardown r : base r → base (teardown r).
Proof.
  intros Hb. unfold teardown. destruct (done_ r) eqn:E; [done|]. apply base_close_backend, base_act; [done|].
  rewrite goto_phase_eq. destruct Hb. by split.
Qed.

Lemma teardown_frame r : done_ (teardown r) = true ∧ pending (teardown r) = pending r.
Proof.
  unfold teardown. destruct (done_ r) eqn:E; [done|]. rewrite goto_phase_eq.
  destruct (close_backend_frame (act ShutdownClient (set_phase kClosed (set_timer_armed false (set_done true r)))))
    as (_ & -> & _ & -> & _). done.
Qed.

(** ** Lemmas: where the handlers lead *)

Lemma teardown_inv r : base r → pending r = [] → inv (teardown r).
Proof.
  intros Hb Hp. destruct (teardown_frame r) as [Hd Hp']. apply base_inv; [by apply base_teardown|].
  apply ok_none; [by rewrite Hp'|done].
Qed.

(** The states in which a client response may be written and a session closed. *)
Definition settled (r : RelaySession) : Prop :=
  base r ∧ pending r = [] ∧ backend_ r = None ∧ (live r → phase_ r = kForward ∨ phase_ r = kResponse).

Lemma write_error_inv st msg r : settled r → inv (write_error st msg r).
Proof.
  intros (Hb & Hp & Hn & Hph). apply base_inv.
  - apply base_await, base_act; [done|]. destruct Hb. by split.
  - apply (ok_one _ KWriteError); [cbn; by rewrite Hp|]. by split.
Qed.

Lemma drain_inv r : settled r → inv (drain_client r).
Proof.
  intros (Hb & Hp & Hn & Hph). unfold drain_client. destruct (done_ r) eqn:E.
  - apply base_inv; [done|]. by apply ok_none.
  - apply base_inv; [by apply base_await, base_act|].
    apply (ok_one _ KDrainRead); [cbn; by rewrite Hp|]. by split.
Qed.

Lemma graceful_inv r : settled r → inv (gracefully_close_client r).
Proof.
  intros (Hb & Hp & Hn & Hph). unfold gracefully_close_client. destruct (done_ r) eqn:E.
  - apply base_inv; [done|]. by apply ok_none.
  - apply drain_inv. split_and!; [|done..]. apply base_act; [done|]. destruct Hb. by split.
Qed.

Lemma request_phase_inv r : base r → pending r = [] → backend_ r = None → inv (request_phase r).
Proof.
  intros Hb Hp Hn. unfold request_phase. rewrite goto_phase_eq.
  assert (base (kick_idle_timer (set_phase kRequest r))) as Hk
    by (apply base_kick; destruct Hb; by split).
  rewrite kick_eq in *. destruct Hk. apply base_inv.
  - split; cbn; try done. left; cbn; lia.
  - apply (ok_one _ KParseRequest); [cbn; by rewrite Hp|]. by split.
Qed.

Lemma after_client_response_inv r : settled r → inv (after_client_response r).
Proof.
  intros Hs. unfold after_client_response.
  destruct (draining_ r); [by apply graceful_inv|].
  destruct (client_keep_alive_ r && negb (done_ r) && client_is_h1 r); [apply request_phase_inv; apply Hs|].
  destruct (client_is_h1 r); [by apply graceful_inv|by apply drain_inv].
Qed.

(** A connected stream becomes the backend. *)
Lemma base_attach (mk : nat → action) b ep r : (mk = AttachBackend ∨ mk = AttachTunnel) →
  base r → backend_ r = None → base (set_backend_endpoint ep (set_backend (Some b) (act (mk b) r))).
Proof.
  intros Hmk [] Hn. unfold current in *. rewrite Hn in *. cbn in *. rewrite app_nil_r in *.
  destruct Hmk as [-> | ->]; split; cbn; try done; rewrite base_streams0; by rewrite <- Permutation_cons_append.
Qed.

Lemma send_backend_inv (retry : bool) r b head : base r → pending r = [] → backend_ r = Some b →
  pending_head_ r = Some head → (live r → phase_ r = kForward) →
  exchange_writes (log r) = (if retry then [] else [NullBody]) → (retry = false → pending_body_ r = NullBody) →
  inv (send_backend_request retry r).
Proof.
  intros [] Hp Hb Hh Hph Hw Hbody. unfold send_backend_request. rewrite Hb, Hh. apply base_inv.
  - split; cbn; try done. rewrite Hw. destruct retry; [left; cbn; lia|right]. by rewrite Hbody.
  - apply (ok_one _ (KBackendWrite retry)); [cbn; by rewrite Hp|]. cbn. rewrite Hw. destruct retry; cbn.
    + split_and!; [|congruence|done]. intros Hl. split; [congruence|by apply Hph].
    + rewrite Hbody by done. split_and!; [|congruence|done|done]. intros Hl. split; [congruence|by apply Hph].
Qed.

Lemma response_phase_inv r : base r → pending r = [] → (live r → backend_ r ≠ None) → inv (response_phase r).
Proof.
  intros Hb Hp Hn. unfold response_phase. rewrite goto_phase_eq, kick_eq. cbn.
  assert (base (kick_idle_timer (set_phase kResponse r))) as Hk by (apply base_kick; destruct Hb; by split).
  rewrite kick_eq in Hk. destruct (backend_ r) as [b|] eqn:E.
  - apply base_inv; [by apply base_await, base_act|].
    apply (ok_one _ KParseResponse); [cbn; by rewrite Hp|]. intros Hl. cbn. split; [congruence|done].
  - destruct Hk. split; cbn; try done. intros _. destruct (done_ r) eqn:Ed; [done|by destruct (Hn Ed)].
Qed.

Lemma bridge_inv r : base r → pending r = [] → (live r → backend_ r ≠ None) → inv (bridge_mode r).
Proof.
  intros Hb Hp Hn. unfold bridge_mode. rewrite goto_phase_eq. cbn.
  assert (base (set_phase kBridge r)) as Hk by (destruct Hb; by split).
  destruct (backend_ r) as [b|] eqn:E.
  - apply base_inv; [by repeat apply base_await || apply base_act|].
    apply (ok_bridge _ b); cbn; rewrite Hp; [|done]. split.
    + constructor; [by right|]. constructor; [by left|constructor].
    + constructor; [|apply NoDup_singleton]. rewrite list_elem_of_singleton. cbn. congruence.
  - destruct Hk. split; cbn; try done. intros _. destruct (done_ r) eqn:Ed; [done|by destruct (Hn Ed)].
Qed.

Lemma base_count bump r : base r → base (count bump r).
Proof. by intros []; split. Qed.

Lemma finish_backend_settled ka r : base r → pending r = [] → (live r → phase_ r = kResponse) →
  settled (finish_backend ka r).
Proof.
  intros Hb Hp Hph. unfold finish_backend. set (r1 := set_pending_body _ _).
  assert (base r1) as Hb1 by (destruct Hb; by split). change (backend_ r1) with (backend_ r).
  destruct (backend_ r) as [b|] eqn:E; [|split_and!; [done..|by right; apply Hph]].
  destruct ka.
  - split_and!; [|done|done|by right; apply Hph]. destruct Hb1. split; cbn; try done. unfold current in *. cbn in *.
    rewrite E in base_streams0. rewrite app_nil_r, base_streams0. by rewrite Permutation_app_comm.
  - destruct (close_backend_frame r1) as (H1 & H2 & H3 & H4 & _). split_and!; [by apply base_close_backend|by rewrite H4|done|].
    unfold live. rewrite H2, H3. right. by apply Hph.
Qed.

Lemma closed_settled r : base r → pending r = [] → (live r → phase_ r = kForward ∨ phase_ r = kResponse) →
  settled (close_backend r).
Proof.
  intros Hb Hp Hph. destruct (close_backend_frame r) as (H1 & H2 & H3 & H4 & _).
  split_and!; [by apply base_close_backend|by rewrite H4|done|]. unfold live. by rewrite H2, H3.
Qed.

(** ** Lemmas: the callbacks *)

Lemma begin_exchange_frame head ka r : base r → base (begin_exchange head ka r) ∧
  pending (begin_exchange head ka r) = pending r ∧ backend_ (begin_exchange head ka r) = backend_ r ∧
  phase_ (begin_exchange head ka r) = kForward ∧
  exchange_writes (log (begin_exchange head ka r)) = exchange_writes (log r).
Proof.
  intros []. unfold begin_exchange. rewrite goto_phase_eq. split; [|by rewrite kick_eq].
  apply base_kick. by split.
Qed.

Lemma dispatch_inv head body r : base r → pending r = [] → backend_ r = None → phase_ r = kForward →
  exchange_writes (log r) = [] → inv (dispatch head body r).
Proof.
  intros Hb Hp Hn Hph Hw. assert (settled r) as Hs by (split_and!; [done..|by left]).
  assert (∀ h b a, neutral a → exchange_writes (a :: log r) = [] → inv (await (KUseBackend h b) (act a r))) as Huse.
  { intros h b a Ha Hwa. apply base_inv; [by apply base_await, base_act|].
    apply (ok_one _ (KUseBackend h b)); [cbn; by rewrite Hp|]. by split_and!. }
  unfold dispatch. destruct (decide _).
  { unfold handle_connect. destruct (connect_target (path head)); [|by apply write_error_inv].
    apply base_inv; [by apply base_await, base_act|].
    apply (ok_one _ KTunnelConnect); [cbn; by rewrite Hp|]. by split_and!. }
  destruct (absolute_target head).
  { unfold handle_forward. destruct (decide _); [|by apply write_error_inv].
    destruct (forward_target (authority head)); [by apply Huse|by apply write_error_inv]. }
  destruct (Router.route (router_ r) head); [by apply write_error_inv|by apply Huse].
Qed.

Lemma on_request_inv res r : base r → pending r = [] → cont_ok KParseRequest r → inv (on_request res r).
Proof.
  intros Hb Hp (Hn & _ & Hw). destruct res as [ec|head body ka]; [by apply teardown_inv|].
  destruct (begin_exchange_frame head ka r Hb) as (H1 & H2 & H3 & H4 & H5).
  apply dispatch_inv; congruence.
Qed.

Lemma attach_backend_frame b ep fp r : base r → backend_ r = None →
  base (attach_backend b ep fp r) ∧ pending (attach_backend b ep fp r) = pending r ∧
  backend_ (attach_backend b ep fp r) = Some b ∧ phase_ (attach_backend b ep fp r) = phase_ r ∧
  done_ (attach_backend b ep fp r) = done_ r ∧
  exchange_writes (log (attach_backend b ep fp r)) = exchange_writes (log r).
Proof.
  intros Hb Hn. pose proof (base_attach AttachBackend b ep r (or_introl eq_refl) Hb Hn) as Hb0.
  apply base_kick in Hb0. unfold attach_backend. rewrite kick_eq in *. destruct Hb0.
  destruct fp; (split; [by split|done]).
Qed.

Lemma use_backend_inv res ep fp head body r : base r → pending r = [] → cont_ok (KUseBackend head body) r →
  inv (use_backend res ep fp head body r).
Proof.
  intros Hb Hp (Hn & Hph & Hw). destruct res as [ec|b]; cbn [use_backend].
  { apply write_error_inv. split_and!; [done..|]. intros. left. by apply Hph. }
  destruct (attach_backend_frame b ep fp r Hb Hn) as (H1 & H2 & H3 & H4 & H5 & H6).
  set (r1 := attach_backend b ep fp r) in *. clearbody r1.
  apply (send_backend_inv true _ b head); cbn; [destruct H1; by split|congruence|done|done| |congruence|done].
  unfold live in *. cbn. rewrite H4, H5. done.
Qed.

Lemma on_reconnected_inv res ep r : base r → pending r = [] → cont_ok KReconnect r → inv (on_reconnected res ep r).
Proof.
  intros Hb Hp (Hn & Hph & Hh & Hbd & Hw). destruct res as [ec|b]; cbn [on_reconnected].
  { apply write_error_inv. split_and!; [done..|]. intros. left. by apply Hph. }
  destruct (pending_head_ r) as [head|] eqn:E; [|done].
  apply (send_backend_inv false _ b head); try done.
  pose proof (base_attach AttachBackend b ep r (or_introl eq_refl) Hb Hn) as []. by split.
Qed.

Lemma on_tunnel_connected_inv res ep r : base r → pending r = [] → cont_ok KTunnelConnect r →
  inv (on_tunnel_connected res ep r).
Proof.
  intros Hb Hp (Hn & Hph & Hw). destruct res as [ec|b]; cbn [on_tunnel_connected].
  { apply write_error_inv. split_and!; [done..|]. intros. left. by apply Hph. }
  apply base_inv; [apply base_await, base_act, base_attach; [done|by right|done..]|].
  apply (ok_one _ KTunnelEstablished); [cbn; by rewrite Hp|]. split; [|done]. intros Hl. split; [done|by apply Hph].
Qed.

Lemma on_request_written_inv retry ec r : base r → pending r = [] → cont_ok (KBackendWrite retry) r →
  inv (on_request_written retry ec r).
Proof.
  intros Hb Hp Hk.
  assert ((live r → backend_ r ≠ None ∧ phase_ r = kForward) ∧ pending_head_ r ≠ None) as [Hl Hh]
    by (destruct retry; by destruct Hk as (? & ? & _)).
  destruct ec as [ec|]; cbn [on_request_written].
  2:{ apply response_phase_inv; [|by rewrite kick_eq|rewrite kick_eq; intros ?; by apply Hl].
      apply base_kick. destruct Hb. by split. }
  destruct (retry && backend_from_pool_ r && negb (has_body (pending_body_ r))) eqn:E.
  - apply andb_prop in E as [E Hbd]. apply andb_prop in E as [-> _].
    destruct Hk as (_ & _ & Hw). destruct (close_backend_frame r) as (H1 & H2 & H3 & H4 & H5 & H6 & H7).
    assert (pending_body_ r = NullBody) as Hnb by (by destruct (pending_body_ r)).
    unfold reconnect_backend_fresh. apply base_inv; [by apply base_await, base_act, base_close_backend|].
    apply (ok_one _ KReconnect); [cbn; by rewrite H4, Hp|]. cbn. unfold live; cbn.
    rewrite H1, H2, H3, H5, H6, H7, Hw, Hnb. split_and!; try done. intros ?. by apply Hl.
  - apply write_error_inv, closed_settled; [done..|]. left. by apply Hl.
Qed.

Lemma count_response_frame us resp r : base r → base (count_response us resp r) ∧
  pending (count_response us resp r) = pending r ∧ backend_ (count_response us resp r) = backend_ r ∧
  phase_ (count_response us resp r) = phase_ r ∧ done_ (count_response us resp r) = done_ r.
Proof.
  intros []. unfold count_response. split; [|by rewrite kick_eq]. apply base_kick. by split.
Qed.

Lemma on_response_inv us res r : base r → pending r = [] → cont_ok KParseResponse r → inv (on_response us res r).
Proof.
  intros Hb Hp Hk. cbn in Hk. destruct res as [ec|resp body ka]; cbn [on_response].
  { apply write_error_inv, closed_settled; [done..|]. right. by apply Hk. }
  destruct (count_response_frame us resp r Hb) as (Hb2 & H2 & H3 & H4 & H5).
  set (r2 := count_response us resp r) in *. clearbody r2.
  assert (live r2 → backend_ r2 ≠ None ∧ phase_ r2 = kResponse) as Hk2 by (unfold live; by rewrite H3, H4, H5).
  unfold relay_response. destruct (request_is_upgrade_ r2 && _).
  - apply base_inv; [by apply base_await, base_act|]. apply (ok_one _ KWrite101); [cbn; congruence|exact Hk2].
  - apply base_inv; [by apply base_await, base_act|]. apply (ok_one _ (KWriteResponse ka)); [cbn; congruence|exact Hk2].
Qed.

Lemma on_drain_read_inv res r : base r → pending r = [] → cont_ok KDrainRead r → inv (on_drain_read res r).
Proof.
  intros Hb Hp [Hn Hph]. unfold on_drain_read. destruct (done_ r) eqn:E.
  { apply base_inv; [done|]. by apply ok_none. }
  destruct res as [[|c d]|ec]; [by apply teardown_inv| |by apply teardown_inv].
  apply drain_inv. split; [by apply base_kick|]. by rewrite kick_eq.
Qed.

(** The pumps: taking one out and putting one of the same direction back. *)
Lemma bridging_swap b pre k post k' : bridging b (pre ++ k :: post) → pump_of k' = pump_of k →
  bridging b (pre ++ post) ∧ bridging b (k' :: pre ++ post).
Proof.
  intros [Hf Hn] Hk.
  assert (Forall (λ k, pump_of k = Some (Client, Backend b) ∨ pump_of k = Some (Backend b, Client)) (k :: pre ++ post)) as Hf'
    by (by rewrite Permutation_middle).
  assert (NoDup (map pump_of (k :: pre ++ post))) as Hn' by (by rewrite Permutation_middle).
  inversion_clear Hf' as [|? ? Hfk Hfr]. cbn in Hn'. inversion_clear Hn' as [|? ? Hnk Hnr].
  split; [by split|]. split; cbn; [constructor; by rewrite ?Hk|constructor; by rewrite ?Hk].
Qed.

Lemma pump_inv b pre k post f r : pending r = pre ++ post → bridging b (pre ++ k :: post) → base r →
  (live r → length (pre ++ k :: post) = 2 ∧ backend_ r = Some b ∧ phase_ r = kBridge) →
  (f = r ∧ done_ r = true ∨ f = teardown r ∨
   ∃ k' a, pump_of k' = pump_of k ∧ neutral a ∧ f = await k' (act a (kick_idle_timer r))) →
  inv f.
Proof.
  intros Hp Hbr Hb Hl Hf.
  assert (∀ r', done_ r' = true → pending r' = pending r → pending_ok r') as Hdone.
  { intros r' Hd Hp'. apply (ok_bridge _ b); [|unfold live; congruence]. rewrite Hp', Hp.
    by apply (bridging_swap b pre k post k). }
  destruct Hf as [[-> Hd]|[-> |(k' & a & Hk & Ha & ->)]].
  - apply base_inv; [done|by apply Hdone].
  - apply base_inv; [by apply base_teardown|]. by apply Hdone; apply teardown_frame.
  - apply base_inv; [by apply base_await, base_act, base_kick|]. apply (ok_bridge _ b); rewrite kick_eq; cbn.
    + rewrite Hp. by apply (bridging_swap b pre k post k').
    + rewrite Hp. intros Hlv. destruct (Hl Hlv) as (H1 & H2 & H3). split_and!; [|done..].
      rewrite !length_app in *. cbn in H1. lia.
Qed.

Lemma resume_pump_inv b pre k post c r r' : pending r = pre ++ post → bridging b (pre ++ k :: post) → base r →
  (live r → length (pre ++ k :: post) = 2 ∧ backend_ r = Some b ∧ phase_ r = kBridge) →
  resume k c r = Some r' → inv r'.
Proof.
  intros Hp Hbr Hb Hl Hr. apply (pump_inv b pre k post _ r); [done..|].
  destruct Hbr as [Hf _]. apply Forall_app in Hf as [_ Hf]. inversion_clear Hf as [|? ? Hk _].
  destruct k; cbn in Hk; try (by destruct Hk); destruct c; cbn in Hr; try done; simplify_eq.
  - unfold on_pump_read. destruct (done_ r) eqn:E; [by left|]. destruct res as [[|c d]|ec]; [right; by left| |right; by left].
    right. right. by exists (KPumpWrite src dst), (WriteTo dst (c :: d)).
  - unfold on_pump_written. destruct (done_ r) eqn:E; [by left|]. destruct ec as [ec|]; [right; by left|].
    right. right. by exists (KPumpRead src dst), (ReadFrom src).
Qed.

Lemma resume_one_inv k c r r' : base r → pending r = [] → cont_ok k r → resume k c r = Some r' → inv r'.
Proof.
  intros Hb Hp Hk Hr.
  destruct k, c; cbn [resume] in Hr; try done; injection Hr as <-.
  - by apply on_request_inv.
  - by apply use_backend_inv.
  - by apply on_tunnel_connected_inv.
  - destruct Hk as [Hl _]. destruct ec; [by apply teardown_inv|]. apply bridge_inv; [done..|]. intros ?. by apply Hl.
  - by apply on_request_written_inv.
  - by apply on_reconnected_inv.
  - by apply on_response_inv.
  - cbn in Hk. destruct ec; [by apply teardown_inv|]. apply bridge_inv; [destruct Hb; by split|done|].
    intros Hl. by apply Hk.
  - cbn in Hk. apply after_client_response_inv, finish_backend_settled; [done..|]. intros ?. by apply Hk.
  - apply after_client_response_inv. destruct Hk. by split_and!.
  - by apply on_drain_read_inv.
Qed.

Lemma graceful_close_inv r : inv r → crashed r = false → inv (graceful_close r).
Proof.
  intros Hi Hc. pose proof (inv_base _ Hi Hc) as Hb. unfold graceful_close. destruct (done_ r) eqn:E; [done|].
  cbn [phase_ set_draining].
  assert (∀ r0, base r0 → exchange_writes (log r0) = exchange_writes (log r) → pending r0 = pending r →
    backend_ r0 = backend_ r → done_ r0 = done_ r → phase_ r0 = phase_ r → pending_head_ r0 = pending_head_ r →
    pending_body_ r0 = pending_body_ r → inv r0) as Hsame.
  { intros r0 H0 H1 H2 H3 H4 H5 H6 H7. apply base_inv; [done|].
    destruct (inv_pending _ Hi Hc) as [Hp Hd|k Hp Hk|b Hbr Hl].
    - apply ok_none; congruence.
    - apply (ok_one _ k); [congruence|]. destruct k as [| | | | | |[]| | | | | |]; cbn in *; unfold live in *;
        by rewrite ?H1, ?H3, ?H4, ?H5, ?H6, ?H7.
    - apply (ok_bridge _ b); unfold live in *; rewrite ?H2, ?H3, ?H4, ?H5; done. }
  case_decide; (apply Hsame; [|done..]); [apply base_act; [done|]|]; destruct Hb; by split.
Qed.

Lemma teardown_pending_inv r : inv r → crashed r = false → inv (teardown (set_timer_armed false r)).
Proof.
  intros Hi Hc. destruct (done_ r) eqn:E.
  - unfold teardown. cbn. rewrite E. apply base_inv; [destruct (inv_base _ Hi Hc); split; try done; unfold live; cbn; congruence|].
    destruct (inv_pending _ Hi Hc) as [Hp Hd|k Hp Hk|b Hbr Hl]; [by apply ok_none|by apply (ok_one _ k)|by apply (ok_bridge _ b)].
  - assert (base (set_timer_armed true r)) as Hb by (destruct (inv_base _ Hi Hc); by split).
    assert (teardown (set_timer_armed false r) = teardown (set_timer_armed true r)) as ->
      by (unfold teardown; cbn; by rewrite E).
    set (r1 := set_timer_armed true r) in *.
    destruct (teardown_frame r1) as [Hd Hp]. apply base_inv; [by apply base_teardown|].
    pose proof (close_backend_frame (act ShutdownClient (goto_phase kClosed (set_timer_armed false (set_done true r1)))))
      as (F1 & F2 & F3 & F4 & F5 & F6 & F7).
    assert (teardown r1 = close_backend (act ShutdownClient (goto_phase kClosed (set_timer_armed false (set_done true r1))))) as Ht
      by (unfold teardown; cbn; by rewrite E).
    rewrite <- Ht in *. rewrite goto_phase_eq in *. cbn in *.
    destruct (inv_pending _ Hi Hc) as [Hp0 Hd0|k Hp0 Hk|b Hbr Hl].
    + apply ok_none; [congruence|done].
    + apply (ok_one _ k); [congruence|]. destruct k as [| | | | | |[]| | | | | |]; cbn in *; unfold live in *;
        rewrite ?F1, ?F5, ?F6, ?F7, ?Hd; unpack; first [done | by split_and!].
    + apply (ok_bridge _ b); [by rewrite Hp|unfold live; congruence].
Qed.

Lemma start_inv h1 rt timeout : inv (start (new_relay h1 rt timeout)).
Proof.
  unfold start, request_phase. rewrite goto_phase_eq, kick_eq. apply base_inv.
  - split; cbn; try done; [left; cbn; lia|]. intros _ Ht. destruct (Z.leb_spec timeout 0); [lia|done].
  - by apply (ok_one _ KParseRequest).
Qed.

Lemma relay_step_inv r r' : inv r → step r r' → inv r'.
Proof.
  intros Hi Hs. destruct Hs as [r r' k c pre post Hc Hp Hr|r Hc Ht|r Hc].
  - assert (base (set_pending (pre ++ post) r)) as Hb by (destruct (inv_base _ Hi Hc); by split).
    destruct (inv_pending _ Hi Hc) as [Hn _|k0 Hn Hk|b Hbr Hl].
    + rewrite Hn in Hp. by destruct pre.
    + rewrite Hn in Hp. assert (pre = [] ∧ k0 = k ∧ post = []) as (-> & -> & ->)
        by (destruct pre as [|? [|]]; simplify_eq/=; done).
      by apply (resume_one_inv k c (set_pending [] r)).
    + rewrite Hp in *. by apply (resume_pump_inv b pre k post c (set_pending (pre ++ post) r)).
  - by apply teardown_pending_inv.
  - by apply graceful_close_inv.
Qed.

Lemma relay_reachable_inv h1 rt timeout r : reachable h1 rt timeout r → inv r.
Proof.
  unfold reachable. intros Hr. remember (start (new_relay h1 rt timeout)) as r0 eqn:E.
  assert (inv r0) as Hi by (subst; apply start_inv). clear E.
  induction Hr as [|? ? ? Hs Hr IH]; [done|]. by eapply IH, relay_step_inv.
Qed.

(** ** Lemmas: the request counters *)

(** The completions of an exchange whose outcome is not counted yet. *)
Definition uncounted (k : cont) : bool :=
  match k with
  | KUseBackend _ _ | KTunnelConnect | KBackendWrite _ | KReconnect | KParseResponse => true
  | _ => false
  end.

Definition in_flight (l : list cont) : Z := Z.of_nat (length (List.filter uncounted l)).

Fixpoint tunnels (l : list action) : Z :=
  match l with
  | [] => 0
  | AttachTunnel _ :: l' => tunnels l' + 1
  | _ :: l' => tunnels l'
  end%Z.

(** Requests begun, less those answered, tunnelled or in flight, modulo the
    width of the counters. *)
Definition balance (r : RelaySession) : Z :=
  (requests (stats_ r) - resp_ok (stats_ r) - resp_err (stats_ r) - tunnels (log r) - in_flight (pending r))%Z.

Definition owes (w : Z) (r : RelaySession) : Prop := (balance r mod 2 ^ 64 = w mod 2 ^ 64)%Z.

(** Two states with the same request counters, pending completions and tunnels. *)
Definition same_books (r r' : RelaySession) : Prop :=
  (requests (stats_ r) = requests (stats_ r') ∧ resp_ok (stats_ r) = resp_ok (stats_ r') ∧
   resp_err (stats_ r) = resp_err (stats_ r')) ∧ pending r = pending r' ∧ tunnels (log r) = tunnels (log r').

Lemma owes_same w r r' : same_books r r' → owes w r → owes w r'.
Proof. unfold owes, balance. by intros ((-> & -> & ->) & -> & ->). Qed.

Lemma owes_await k w r : owes w r → owes (w - if uncounted k then 1 else 0) (await k r).
Proof.
  unfold owes, balance. cbn. unfold in_flight. cbn. destruct (uncounted k); cbn [length]; [|by rewrite Z.sub_0_r].
  rewrite Nat2Z.inj_succ. intros. Z.to_euclidean_division_equations. lia.
Qed.

Lemma owes_err w r : owes w r → owes (w - 1) (count bump_resp_err r).
Proof. unfold owes, balance, u64. cbn. unfold u64. intros. Z.to_euclidean_division_equations. lia. Qed.

Lemma owes_ok w r : owes w r → owes (w - 1) (count bump_resp_ok r).
Proof. unfold owes, balance. cbn. unfold u64. intros. Z.to_euclidean_division_equations. lia. Qed.

Lemma owes_request w r : owes w r → owes (w + 1) (count bump_requests r).
Proof. unfold owes, balance. cbn. unfold u64. intros. Z.to_euclidean_division_equations. lia. Qed.

Lemma owes_tunnel w b ep r : owes w r → owes (w - 1) (set_backend_endpoint ep (set_backend (Some b) (act (AttachTunnel b) r))).
Proof. unfold owes, balance. cbn. intros. Z.to_euclidean_division_equations. lia. Qed.

Lemma books_close r : same_books r (close_backend r).
Proof. rewrite close_backend_eq. unfold current. by destruct (backend_ r). Qed.

Lemma books_teardown r : same_books r (teardown r).
Proof.
  unfold teardown. destruct (done_ r); [done|]. rewrite goto_phase_eq.
  destruct (books_close (act ShutdownClient (set_phase kClosed (set_timer_armed false (set_done true r))))) as (H1 & H2 & H3).
  by split.
Qed.

Lemma owes_write_error st msg r : owes 1 r → owes 0 (write_error st msg r).
Proof. intros H%owes_err. apply (owes_await KWriteError) in H. by eapply owes_same; [|exact H]. Qed.

Lemma owes_drain r : owes 0 r → owes 0 (drain_client r).
Proof.
  intros H. unfold drain_client. destruct (done_ r); [done|].
  apply (owes_await KDrainRead) in H. by eapply owes_same; [|exact H].
Qed.

Lemma owes_graceful r : owes 0 r → owes 0 (gracefully_close_client r).
Proof. intros H. unfold gracefully_close_client. destruct (done_ r); [done|]. by apply owes_drain. Qed.

Lemma owes_after_response r : owes 0 r → owes 0 (after_client_response r).
Proof.
  intros H. unfold after_client_response. destruct (draining_ r); [by apply owes_graceful|].
  destruct (client_keep_alive_ r && negb (done_ r) && client_is_h1 r).
  { unfold request_phase. rewrite goto_phase_eq, kick_eq.
    apply (owes_await KParseRequest) in H. by eapply owes_same; [|exact H]. }
  destruct (client_is_h1 r); [by apply owes_graceful|by apply owes_drain].
Qed.

Lemma owes_dispatch head body r : owes 1 r → owes 0 (dispatch head body r).
Proof.
  intros H. assert (∀ k a, uncounted k = true → tunnels (a :: log r) = tunnels (log r) → owes 0 (await k (act a r))) as Hw.
  { intros k a Hk Ha. apply (owes_await k) in H. rewrite Hk in H. by eapply owes_same; [|exact H]. }
  unfold dispatch. destruct (decide _).
  { unfold handle_connect. destruct (connect_target _); [by apply Hw|by apply owes_write_error]. }
  destruct (absolute_target head).
  { unfold handle_forward. destruct (decide _); [|by apply owes_write_error].
    destruct (forward_target _); [by apply Hw|by apply owes_write_error]. }
  destruct (Router.route _ _); [by apply owes_write_error|by apply Hw].
Qed.

Lemma owes_send retry r : owes 1 r → crashed (send_backend_request retry r) = false → crashed r = false →
  owes 0 (send_backend_request retry r).
Proof.
  intros H Hc Hr. unfold send_backend_request in *. destruct (backend_ r); [|done]. destruct (pending_head_ r); [|done].
  apply (owes_await (KBackendWrite retry)) in H. by eapply owes_same; [|exact H].
Qed.

Lemma owes_bridge r : owes 0 r → crashed (bridge_mode r) = false → owes 0 (bridge_mode r).
Proof.
  intros H Hc. unfold bridge_mode in *. rewrite goto_phase_eq in *. cbn in *. destruct (backend_ r) as [b|]; [|done].
  apply (owes_await (KPumpRead Client (Backend b))) in H. apply (owes_await (KPumpRead (Backend b) Client)) in H.
  by eapply owes_same; [|exact H].
Qed.

(** Taking a completion out leaves what it stands for owing. *)
Lemma owes_take pre k post r : owes 0 r → pending r = pre ++ k :: post →
  owes (if uncounted k then 1 else 0) (set_pending (pre ++ post) r).
Proof.
  unfold owes, balance. intros H Hp. cbn. rewrite Hp in H. unfold in_flight in *.
  rewrite !filter_app in *. cbn in H. rewrite !length_app in *. destruct (uncounted k); cbn [length] in *;
    Z.to_euclidean_division_equations; lia.
Qed.

Lemma owes_resume k c r r' : owes (if uncounted k then 1 else 0) r → crashed r = false →
  resume k c r = Some r' → crashed r' = false → owes 0 r'.
Proof.
  intros H Hc Hr Hc'. destruct k, c; cbn [resume] in Hr; try done; injection Hr as <-; cbn [uncounted] in H.
  - destruct res as [ec|head body ka]; [by eapply owes_same; [apply books_teardown|]|].
    apply owes_dispatch. unfold begin_exchange. rewrite goto_phase_eq, kick_eq.
    apply owes_request in H. by eapply owes_same; [|exact H].
  - destruct res as [ec|b]; [by apply owes_write_error|]. apply owes_send; [|done|].
    + unfold attach_backend. rewrite kick_eq. destruct from_pool; by eapply owes_same; [|exact H].
    + unfold attach_backend. rewrite kick_eq. by destruct from_pool.
  - destruct res as [ec|b]; [by apply owes_write_error|]. apply (owes_tunnel _ b ep) in H.
    apply (owes_await KTunnelEstablished) in H. by eapply owes_same; [|exact H].
  - destruct ec; [by eapply owes_same; [apply books_teardown|]|by apply owes_bridge].
  - unfold on_pump_read. destruct (done_ r); [done|]. destruct res as [[|a d]|ec];
      [by eapply owes_same; [apply books_teardown|]| |by eapply owes_same; [apply books_teardown|]].
    rewrite kick_eq. apply (owes_await (KPumpWrite src dst)) in H. by eapply owes_same; [|exact H].
  - unfold on_pump_written. destruct (done_ r); [done|]. destruct ec; [by eapply owes_same; [apply books_teardown|]|].
    rewrite kick_eq. apply (owes_await (KPumpRead src dst)) in H. by eapply owes_same; [|exact H].
  - destruct ec as [ec|]; cbn [on_request_written] in *.
    + destruct (_ && _ && _); [|apply owes_write_error; by eapply owes_same; [apply books_close|]].
      unfold reconnect_backend_fresh. apply (owes_same _ _ _ (books_close r)), (owes_await KReconnect) in H.
      by eapply owes_same; [|exact H].
    + unfold response_phase in *. rewrite goto_phase_eq, !kick_eq in *. cbn in *. destruct (backend_ r); [|done].
      apply (owes_await KParseResponse) in H. by eapply owes_same; [|exact H].
  - destruct res as [ec|b]; [by apply owes_write_error|]. apply owes_send; [|done|done].
    by eapply owes_same; [|exact H].
  - destruct res as [ec|resp body ka]; cbn [on_response] in *.
    { apply owes_write_error. by eapply owes_same; [apply books_close|]. }
    assert (owes 0 (count_response us resp r)) as H'.
    { unfold count_response. rewrite kick_eq. destruct (400 <=? status_code resp)%Z;
        [apply owes_err in H|apply owes_ok in H]; exact H. }
    unfold relay_response. destruct (request_is_upgrade_ _ && _);
      [apply (owes_await KWrite101) in H'|apply (owes_await (KWriteResponse ka)) in H']; by eapply owes_same; [|exact H'].
  - destruct ec; [by eapply owes_same; [apply books_teardown|]|]. by apply owes_bridge.
  - apply owes_after_response. unfold finish_backend.
    set (r1 := set_pending_body _ _). assert (owes 0 r1) as H1 by (by eapply owes_same; [|exact H]). clearbody r1.
    destruct (backend_ r1); [|done]. destruct backend_keep_alive; [by eapply owes_same; [|exact H1]|].
    by eapply owes_same; [apply books_close|].
  - by apply owes_after_response.
  - unfold on_drain_read. destruct (done_ r); [done|]. destruct res as [[|a d]|ec];
      [by eapply owes_same; [apply books_teardown|]| |by eapply owes_same; [apply books_teardown|]].
    apply owes_drain. rewrite kick_eq. by eapply owes_same; [|exact H].
Qed.

Lemma reachable_owes h1 rt timeout r : reachable h1 rt timeout r → crashed r = false → owes 0 r.
Proof.
  unfold reachable. intros Hr. remember (start (new_relay h1 rt timeout)) as r0 eqn:E.
  assert (crashed r0 = false → owes 0 r0) as Hi.
  { intros _. subst. unfold start, request_phase. rewrite goto_phase_eq, kick_eq. reflexivity. }
  clear E. induction Hr as [|r1 r2 r3 Hs Hr IH]; [done|]. apply IH. clear IH. intros Hc2.
  destruct Hs as [r1 r2 k c pre post Hc Hp Hres|r1 Hc Ht|r1 Hc]; specialize (Hi Hc).
  - apply (owes_resume k c (set_pending (pre ++ post) r1)); [by apply owes_take|done..].
  - eapply owes_same; [apply books_teardown|]. by eapply owes_same; [|exact Hi].
  - unfold graceful_close. destruct (done_ r1); [done|]. by case_decide; (eapply owes_same; [|exact Hi]).
Qed.
