(* ===== verification/RelayTheorems.v ===== *)
(** * Properties of the relay session (src/src/proxy/relay_session.cpp)

    The theorems about every interleaving of a session's completions, its idle
    timer and a server stop, and the functional behaviour of its handlers.  The
    model and the invariants are in [RelaySession]. *)

From S2P Require Import Prelude CppStd Transport HttpMessage H1Codec Config Router Stats RelaySession.

(** ** Properties *)

(** C1: The phase tells what is in flight.  In every reachable state of a
    session that has not been torn down: in [kRequest] exactly the request
    parse is pending and there is no backend; in [kForward] and [kResponse]
    exactly one completion of that phase is pending; in [kBridge] the two pumps
    of the bridge are; [kClosed] is never the phase. *)
Theorem relay_phase_sound h1 rt timeout r : reachable h1 rt timeout r → crashed r = false → live r →
  match phase_ r with
  | kRequest => pending r = [KParseRequest] ∧ backend_ r = None
  | kForward => ∃ k, pending r = [k] ∧ match k with
      | KUseBackend _ _ | KTunnelConnect | KTunnelEstablished | KBackendWrite _ | KReconnect
      | KWriteError | KDrainRead => True | _ => False end
  | kResponse => ∃ k, pending r = [k] ∧ match k with
      | KParseResponse | KWrite101 | KWriteResponse _ | KWriteError | KDrainRead => True | _ => False end
  | kBridge => ∃ b, backend_ r = Some b ∧ bridging b (pending r) ∧ length (pending r) = 2
  | kClosed => False
  end.
Proof.
  intros Hr%relay_reachable_inv Hc Hl. destruct (inv_pending _ Hr Hc) as [_ Hd|k Hp Hk|b Hb Hk].
  - unfold live in Hl. congruence.
  - destruct k as [| | | | | |[]| | | | | |]; cbn in Hk; unpack;
      repeat match goal with H : live r → _ |- _ => specialize (H Hl); unpack end; try done;
      try (match goal with H : phase_ r = _ ∨ phase_ r = _ |- _ => destruct H as [H|H] end);
      match goal with H : phase_ r = _ |- _ => rewrite H end; first [by split | by (eexists; split; [exact Hp|exact I])].
  - destruct (Hk Hl) as (H1 & H2 & ->). by exists b.
Qed.

Definition default_rt : Router.t := Router.add_rule (Router.MkRule #"*" #"web") Router.empty_router.
Definition get_head : HttpRequestHead :=
  RequestHead #"GET" #"HTTP/1.1" #"/" #"http" #"a.test" false (HeaderMap.Map [(#"Host", #"a.test")]) None.
Definition web_ep : BackendEndpoint := Endpoint #"web" #"10.0.0.1" 80 1 TCP.

(** A GET forwarded over a pooled connection: awaiting the request, the
    backend, and the completion of the write. *)
Definition at_request : RelaySession := start (new_relay true default_rt 30).
Definition at_connect : RelaySession := on_request (ParseOk get_head NullBody true) (set_pending [] at_request).
Definition at_write : RelaySession := use_backend (inr 7) web_ep true get_head NullBody (set_pending [] at_connect).

Lemma at_request_reachable : reachable true default_rt 30 at_request.
Proof. apply rtc_refl. Qed.

Lemma at_write_reachable : reachable true default_rt 30 at_write.
Proof.
  eapply rtc_l; [apply (step_resume at_request at_connect KParseRequest (ParsedRequest (ParseOk get_head NullBody true)) [] []);
    vm_compute; reflexivity|].
  eapply rtc_l; [apply (step_resume at_connect at_write (KUseBackend get_head NullBody) (Connected (inr 7) web_ep true) [] []);
    vm_compute; reflexivity|].
  apply rtc_refl.
Qed.

Lemma relay_phase_sound_witness : phase_ at_write = kForward ∧ ∃ k, pending at_write = [k].
Proof.
  split; [reflexivity|].
  destruct (relay_phase_sound true default_rt 30 at_write at_write_reachable eq_refl eq_refl) as (k & Hk & _).
  by exists k.
Defined.

(** A completion that writes to the client. *)
Definition writes_client (k : cont) : Prop :=
  match k with
  | KTunnelEstablished | KWrite101 | KWriteResponse _ | KWriteError => True
  | KPumpWrite _ dst => dst = Client
  | _ => False
  end.

(** Graceful shutdown never cuts off a response: when [graceful_close] shuts
    down the client's stream, no write to the client is in flight; otherwise it
    only marks the session as draining. *)
Theorem graceful_close_safe h1 rt timeout r : reachable h1 rt timeout r → crashed r = false →
  (log (graceful_close r) = ShutdownClient :: log r ∧ Forall (λ k, ¬ writes_client k) (pending r)) ∨
  log (graceful_close r) = log r ∧ (draining_ (graceful_close r) = true ∨ done_ r = true).
Proof.
  intros Hr%relay_reachable_inv Hc. unfold graceful_close. destruct (done_ r) eqn:Hd; [right; auto|]. cbn [phase_ set_draining].
  case_decide as Hph; [left; split; [done|]|right; auto].
  destruct (inv_pending _ Hr Hc) as [_ ?|k Hp Hk|b Hb Hk]; [congruence| |].
  - rewrite Hp. constructor; [|constructor]. destruct k as [| | | | | |[]| | | | | |]; cbn in Hk |- *; try tauto; unpack;
      repeat match goal with H : live r → _ |- _ => specialize (H Hd); unpack end;
      try (match goal with H : phase_ r = _ ∨ phase_ r = _ |- _ => destruct H as [H|H] end); congruence.
  - destruct (Hk Hd) as (_ & _ & E). congruence.
Qed.

Lemma graceful_close_safe_witness : log (graceful_close at_request) = ShutdownClient :: log at_request.
Proof.
  destruct (graceful_close_safe true default_rt 30 at_request at_request_reachable eq_refl) as [[H _]|[H _]]; [exact H|].
  vm_compute in H. discriminate.
Defined.

(** C7: Backend connections are not leaked or disposed of twice: every stream
    the session was given is its current backend, or was released to the pool
    or shut down exactly once, in every reachable state. *)
Theorem backend_disposed_once h1 rt timeout r : reachable h1 rt timeout r →
  attached (log r) ≡ₚ disposed (log r) ++ current r.
Proof. intros Hr%relay_reachable_inv. apply Hr. Qed.

Lemma backend_disposed_once_witness : attached (log at_write) = [7] ∧ attached (log at_write) ≡ₚ disposed (log at_write) ++ [7].
Proof. split; [reflexivity|]. exact (backend_disposed_once true default_rt 30 at_write at_write_reachable). Defined.

(** C5: A request is sent to a backend at most twice, and more than once only
    when it has no body: in every reachable state the requests written since
    the client's request was asked for are at most one, or two without a
    body. *)
Theorem retry_at_most_once h1 rt timeout r : reachable h1 rt timeout r →
  length (exchange_writes (log r)) ≤ 1 ∨ exchange_writes (log r) = [NullBody; NullBody].
Proof. intros Hr%relay_reachable_inv. apply (inv_writes _ Hr). Qed.

Lemma retry_at_most_once_witness : exchange_writes (log at_write) = [NullBody] ∧
  (length (exchange_writes (log at_write)) ≤ 1 ∨ exchange_writes (log at_write) = [NullBody; NullBody]).
Proof. split; [reflexivity|]. exact (retry_at_most_once true default_rt 30 at_write at_write_reachable). Defined.

(** C34: With an idle timeout configured, a session that is not torn down (and
    has not dereferenced a null stream) always has the timer armed, and its expiry is a step that closes it: the session is
    done, the client's stream is shut down, then the backend, if it has one, and
    nothing else is called. *)
Theorem idle_timer_armed h1 rt timeout r : reachable h1 rt timeout r → crashed r = false →
  (0 < idle_timeout_ r)%Z → done_ r = false →
  timer_armed r = true ∧
  ∃ r', step r r' ∧ done_ r' = true ∧ phase_ r' = kClosed ∧ backend_ r' = None ∧
    log r' = map ShutdownBackend (current r) ++ ShutdownClient :: log r.
Proof.
  intros Hr%relay_reachable_inv Hc Ht Hd. split; [by apply (inv_timer _ Hr)|].
  exists (teardown (set_timer_armed false r)). split; [by apply step_timeout|].
  unfold teardown. cbn. by rewrite Hd, goto_phase_eq, close_backend_eq.
Qed.

Lemma idle_timer_armed_witness : timer_armed at_write = true.
Proof. exact (proj1 (idle_timer_armed true default_rt 30 at_write at_write_reachable eq_refl eq_refl eq_refl)). Defined.

(** The counters add up: modulo their 64-bit width, the requests begun are
    the responses counted as ok, those counted as errors, the tunnels and the
    exchanges in flight, so no exchange is counted twice or not at all. *)
Theorem requests_accounted h1 rt timeout r : reachable h1 rt timeout r → crashed r = false →
  (requests (stats_ r) mod 2 ^ 64 =
   (resp_ok (stats_ r) + resp_err (stats_ r) + tunnels (log r) + in_flight (pending r)) mod 2 ^ 64)%Z.
Proof.
  intros Hr Hc. pose proof (reachable_owes _ _ _ _ Hr Hc) as H. unfold owes, balance in H.
  Z.to_euclidean_division_equations. lia.
Qed.

Lemma requests_accounted_witness : requests (stats_ at_write) = 1%Z ∧ in_flight (pending at_write) = 1%Z ∧
  (1 mod 2 ^ 64 = (0 + 0 + 0 + 1) mod 2 ^ 64)%Z.
Proof.
  split_and!; [reflexivity|reflexivity|]. exact (requests_accounted true default_rt 30 at_write at_write_reachable eq_refl).
Defined.

(** C37: A null backend is dereferenced only after a teardown; and it is: when the
    idle timer fires while a request is being written to the backend (or a
    tunnel or upgrade reply to the client) and the write then completes, the
    callback, which does not test [done_], goes on with the backend that
    teardown reset. *)
Theorem null_backend_after_teardown h1 rt timeout r : reachable h1 rt timeout r →
  (crashed r = true → done_ r = true) ∧
  (crashed r = false → (0 < idle_timeout_ r)%Z → done_ r = false →
   (∃ b, pending r = [KBackendWrite b]) ∨ pending r = [KTunnelEstablished] ∨ pending r = [KWrite101] →
   ∃ r1 r2, step r r1 ∧ step r1 r2 ∧ crashed r2 = true).
Proof.
  intros Hr%relay_reachable_inv. split; [apply Hr|]. intros Hc Ht Hd Hk.
  set (r1 := teardown (set_timer_armed false r)).
  assert (pending r1 = pending r ∧ backend_ r1 = None ∧ crashed r1 = false) as (Hp & Hb & Hc1).
  { split; [exact (proj2 (teardown_frame (set_timer_armed false r)))|]. unfold r1, teardown. cbn. rewrite Hd, goto_phase_eq, close_backend_eq. done. }
  assert (∃ k, pending r1 = [k] ∧ ∃ r2, resume k (Written None) (set_pending [] r1) = Some r2 ∧ crashed r2 = true)
    as (k & Hk1 & r2 & Hr2 & Hc2).
  { rewrite Hp. destruct Hk as [[b Hk]|[Hk|Hk]]; rewrite Hk; (eexists; split; [reflexivity|]);
      (eexists; split; [reflexivity|]).
    - cbn. unfold response_phase. rewrite goto_phase_eq, !kick_eq. cbn. by rewrite Hb.
    - cbn. unfold bridge_mode. rewrite goto_phase_eq. cbn. by rewrite Hb.
    - cbn. unfold on_101_written, bridge_mode. rewrite goto_phase_eq. cbn. by rewrite Hb. }
  exists r1, r2. split_and!; [by apply step_timeout|by apply (step_resume r1 r2 k (Written None) [] [])|done].
Qed.

Lemma null_backend_after_teardown_witness : ∃ r1 r2, step at_write r1 ∧ step r1 r2 ∧ crashed r2 = true.
Proof.
  apply (null_backend_after_teardown true default_rt 30 at_write at_write_reachable); try reflexivity.
  left. exists true. reflexivity.
Defined.

(** [kClosed] is not terminal: a session torn down by the idle timer while
    it waits for a request still forwards one that arrives afterwards; the
    callback does not test [done_], counts the request, leaves [kClosed] and
    asks the pool for a backend. *)
Theorem request_after_teardown h1 rt timeout r head (body : body_src) (ka : bool) :
  reachable h1 rt timeout r → crashed r = false → (0 < idle_timeout_ r)%Z → done_ r = false →
  pending r = [KParseRequest] → method head ≠ #"CONNECT" → absolute_target head = false →
  Router.route (router_ r) head ≠ [] →
  ∃ r1 r2, step r r1 ∧ done_ r1 = true ∧ phase_ r1 = kClosed ∧ step r1 r2 ∧
    phase_ r2 = kForward ∧ hd_error (log r2) = Some (Connect (Router.route (router_ r) head)).
Proof.
  intros Hr Hc Ht Hd Hp Hm Ha Hrt. set (r1 := teardown (set_timer_armed false r)).
  assert (pending r1 = [KParseRequest] ∧ router_ r1 = router_ r ∧ crashed r1 = false ∧ done_ r1 = true ∧ phase_ r1 = kClosed)
    as (Hp1 & Hr1 & Hc1 & Hd1 & Hph1).
  { unfold r1, teardown. cbn. rewrite Hd, goto_phase_eq, close_backend_eq. done. }
  exists r1, (on_request (ParseOk head body ka) (set_pending [] r1)).
  split_and!; [by apply step_timeout|done|done|
               by apply (step_resume r1 _ KParseRequest (ParsedRequest (ParseOk head body ka)) [] [])|..];
    cbn [on_request]; unfold dispatch; rewrite decide_False, Ha by done;
    unfold begin_exchange; rewrite goto_phase_eq, kick_eq; cbn [router_ set_timer_armed set_request_is_upgrade
      set_client_version set_request_method set_client_keep_alive count set_stats set_phase set_pending];
    rewrite Hr1; by destruct (Router.route (router_ r) head).
Qed.

Lemma request_after_teardown_witness : ∃ r1 r2, step at_request r1 ∧ done_ r1 = true ∧ phase_ r1 = kClosed ∧
  step r1 r2 ∧ phase_ r2 = kForward ∧ hd_error (log r2) = Some (Connect #"web").
Proof.
  apply (request_after_teardown true default_rt 30 at_request get_head NullBody true at_request_reachable);
    try reflexivity; discriminate.
Defined.

(** A request that arrives after [graceful_close] has shut down the idle
    client's stream is still served, but its response is written on the stream
    that is already shut down: here the error response of a request without
    a route. *)
Theorem response_after_fin r head (body : body_src) (ka : bool) :
  crashed r = false → done_ r = false → phase_ r = kRequest → pending r = [KParseRequest] →
  method head ≠ #"CONNECT" → absolute_target head = false → Router.route (router_ r) head = [] →
  ∃ r2, step r (graceful_close r) ∧ step (graceful_close r) r2 ∧
    log r2 = WriteResponse (error_head ServiceUnavailable (#"no route for host" ++ [LF]))
               (BufferSrc (#"no route for host" ++ [LF])) :: ShutdownClient :: log r.
Proof.
  intros Hc Hd Hph Hp Hm Ha Hrt. assert (graceful_close r = act ShutdownClient (set_draining true r)) as Hg.
  { unfold graceful_close. rewrite Hd. cbn [phase_ set_draining]. by rewrite decide_True. }
  exists (on_request (ParseOk head body ka) (set_pending [] (graceful_close r))).
  split_and!; [by apply step_stop|
    apply (step_resume _ _ KParseRequest (ParsedRequest (ParseOk head body ka)) [] []); [by rewrite Hg..|done]|].
  rewrite Hg. cbn [on_request]. unfold dispatch. rewrite decide_False, Ha by done.
  unfold begin_exchange. rewrite goto_phase_eq, kick_eq.
  cbn [router_ set_timer_armed set_request_is_upgrade set_client_version set_request_method set_client_keep_alive
       count set_stats set_phase set_pending act set_log set_draining].
  by rewrite Hrt.
Qed.

Definition idle_no_routes : RelaySession := start (new_relay true Router.empty_router 30).

Lemma response_after_fin_witness : ∃ r2, step (graceful_close idle_no_routes) r2 ∧
  nth_error (log r2) 1 = Some ShutdownClient.
Proof.
  destruct (response_after_fin idle_no_routes get_head NullBody true) as (r2 & _ & Hs & Hl);
    try reflexivity; try discriminate.
  exists r2. split; [exact Hs|]. rewrite Hl. reflexivity.
Defined.

(** ** Functional behaviour *)

Lemma count_response_fields us resp r :
  log (count_response us resp r) = log r ∧ pending (count_response us resp r) = pending r ∧
  client_version_ (count_response us resp r) = client_version_ r ∧
  request_method_ (count_response us resp r) = request_method_ r ∧
  request_is_upgrade_ (count_response us resp r) = request_is_upgrade_ r ∧
  backend_endpoint_ (count_response us resp r) = backend_endpoint_ r ∧
  backend_ (count_response us resp r) = backend_ r ∧ done_ (count_response us resp r) = done_ r ∧
  draining_ (count_response us resp r) = draining_ r ∧ client_is_h1 (count_response us resp r) = client_is_h1 r ∧
  client_keep_alive_ (count_response us resp r) = client_keep_alive_ r.
Proof. unfold count_response. rewrite kick_eq. by split_and!. Qed.

(** The session loops to the next request of a keep-alive client. *)
Lemma next_request bka r b : backend_ r = Some b → pending r = [] → done_ r = false → draining_ r = false →
  client_is_h1 r = true → client_keep_alive_ r = true →
  let r2 := on_response_written bka r in
  pending r2 = [KParseRequest] ∧ phase_ r2 = kRequest ∧ backend_ r2 = None ∧
  log r2 = [ParseRequest; if bka then Release (backend_endpoint_ r) b else ShutdownBackend b] ++ log r.
Proof.
  intros Hb Hp Hd Hdr Hh1 Hka r2.
  assert (∃ r1, finish_backend bka r = r1 ∧ backend_ r1 = None ∧ pending r1 = [] ∧ done_ r1 = false ∧ draining_ r1 = false ∧
    client_is_h1 r1 = true ∧ client_keep_alive_ r1 = true ∧
    log r1 = (if bka then Release (backend_endpoint_ r) b else ShutdownBackend b) :: log r) as (r1 & E & F).
  { eexists. split; [reflexivity|]. unfold finish_backend. cbn [backend_ set_pending_body set_pending_head]. rewrite Hb.
    destruct bka; [by split_and!|]. rewrite close_backend_eq. unfold current. cbn. rewrite Hb. by split_and!. }
  unfold r2, on_response_written. rewrite E. clear E r2. destruct F as (F1 & F2 & F3 & F4 & F5 & F6 & F7).
  unfold after_client_response. rewrite F4, F3, F5, F6. cbn [andb negb].
  unfold request_phase. rewrite goto_phase_eq, kick_eq. cbn. rewrite F1, F2, F7. by split_and!.
Qed.

(** What a parsed response that does not switch protocols leads to. *)
Lemma relayed resp body bka r : (request_is_upgrade_ r = false ∨ status_code resp ≠ 101%Z) → client_version_ r ≠ [] →
  relay_response resp body bka r =
  await (KWriteResponse bka) (act (WriteResponse (ResponseHead (status_code resp) (reason resp)
    (client_version_ r) (resp_headers resp) (resp_content_length resp))
    (if decide (request_method_ r = #"HEAD") then NullBody else body)) r).
Proof.
  intros Hup Hv. unfold relay_response.
  assert (relay_head (client_version_ r) resp = ResponseHead (status_code resp) (reason resp)
    (client_version_ r) (resp_headers resp) (resp_content_length resp)) as -> by (unfold relay_head; by destruct (client_version_ r)).
  cbn [status_code]. destruct (request_is_upgrade_ r && (status_code resp =? 101)%Z) eqn:E; [|done].
  apply andb_prop in E as [E1 E2]. apply Z.eqb_eq in E2. destruct Hup; congruence.
Qed.

(** The keep-alive loop, shared by the properties of responses. *)
Lemma response_loop us resp body bka ec r b :
  pending r = [] → backend_ r = Some b → done_ r = false → draining_ r = false → client_is_h1 r = true →
  client_keep_alive_ r = true → (request_is_upgrade_ r = false ∨ status_code resp ≠ 101%Z) → client_version_ r ≠ [] →
  let r1 := on_response us (ParseOk resp body bka) r in
  pending r1 = [KWriteResponse bka] ∧
  ∃ r2, resume (KWriteResponse bka) (Written ec) (set_pending [] r1) = Some r2 ∧
    pending r2 = [KParseRequest] ∧ phase_ r2 = kRequest ∧ backend_ r2 = None ∧
    log r2 = [ParseRequest; if bka then Release (backend_endpoint_ r) b else ShutdownBackend b;
              WriteResponse (ResponseHead (status_code resp) (reason resp) (client_version_ r) (resp_headers resp)
                               (resp_content_length resp))
                            (if decide (request_method_ r = #"HEAD") then NullBody else body)] ++ log r.
Proof.
  intros Hp Hb Hd Hdr Hh1 Hka Hup Hv r1. unfold r1. cbn [on_response].
  destruct (count_response_fields us resp r) as (F1 & F2 & F3 & F4 & F5 & F6 & F7 & F8 & F9 & F10 & F11).
  set (r0 := count_response us resp r) in *. clearbody r0.
  rewrite relayed by (rewrite ?F5, ?F3; done). rewrite F3, F4, <- F1, <- F6.
  split; [cbn; by rewrite F2, Hp|]. eexists. split; [reflexivity|].
  set (rw := set_pending [] _). destruct (next_request bka rw b) as (N1 & N2 & N3 & N4); [cbn; congruence..|].
  split_and!; [done..|]. rewrite N4. done.
Qed.

(** What the session does once the response is written, by the client. *)
Definition loops (r : RelaySession) : bool := negb (draining_ r) && client_is_h1 r && client_keep_alive_ r.

Lemma after_response_eq r : pending r = [] → done_ r = false →
  pending (after_client_response r) = [if loops r then KParseRequest else KDrainRead] ∧
  backend_ (after_client_response r) = backend_ r ∧
  log (after_client_response r) =
    (if loops r then [ParseRequest]
     else ReadFrom Client :: (if draining_ r || client_is_h1 r then [ShutdownClient] else [])) ++ log r.
Proof.
  intros Hp Hd. unfold after_client_response, gracefully_close_client, drain_client, request_phase, loops. cbn [done_ act set_log set_draining].
  rewrite Hd, goto_phase_eq, kick_eq.
  destruct (draining_ r), (client_is_h1 r), (client_keep_alive_ r); cbn; rewrite ?Hd; cbn; by rewrite Hp.
Qed.

Lemma finish_backend_eq (bka : bool) r b : backend_ r = Some b →
  let r1 := finish_backend bka r in
  backend_ r1 = None ∧ pending r1 = pending r ∧ done_ r1 = done_ r ∧ loops r1 = loops r ∧ draining_ r1 = draining_ r ∧
  client_is_h1 r1 = client_is_h1 r ∧ log r1 = (if bka then Release (backend_endpoint_ r) b else ShutdownBackend b) :: log r.
Proof.
  intros Hb r1. unfold r1, finish_backend. cbn [backend_ set_pending_body set_pending_head]. rewrite Hb.
  destruct bka; [by split_and!|]. rewrite close_backend_eq. unfold current. cbn. rewrite Hb. by split_and!.
Qed.

Lemma relay_head_eq v resp : relay_head v resp =
  ResponseHead (status_code resp) (reason resp) (if decide (v = []) then resp_version resp else v) (resp_headers resp) (resp_content_length resp).
Proof. unfold relay_head. by destruct v, resp. Qed.

Lemma bridge_mode_eq r b : backend_ r = Some b → pending r = [] →
  phase_ (bridge_mode r) = kBridge ∧ backend_ (bridge_mode r) = Some b ∧
  pending (bridge_mode r) = [KPumpRead (Backend b) Client; KPumpRead Client (Backend b)].
Proof. intros Hb Hp. unfold bridge_mode. rewrite goto_phase_eq. cbn. rewrite Hb. cbn. by rewrite Hp. Qed.

(** C10: What becomes of a backend's response, in a session that has not been
    torn down.  Exactly one response is written to the client: the backend's
    status, reason and headers, in the client's version (the backend's if the
    client's request had none), and no body for HEAD.  A 101 to a request that
    asked for an upgrade goes out without a body and, once written, the session
    bridges client and backend in both directions.  After any other response
    the backend is released to the pool if it may be kept alive and shut down
    otherwise, whether or not the write failed; then an HTTP/1.1 keep-alive
    client that is not draining is asked for its next request, a draining or
    other HTTP/1.1 client is sent a FIN and read to its end, and an HTTP/3
    client is read to its end. *)
Theorem response_relayed us resp body (bka : bool) r b : pending r = [] → backend_ r = Some b → done_ r = false →
  let head := ResponseHead (status_code resp) (reason resp) (if decide (client_version_ r = []) then resp_version resp else client_version_ r)
                (resp_headers resp) (resp_content_length resp) in
  let r1 := on_response us (ParseOk resp body bka) r in
  if request_is_upgrade_ r && (status_code resp =? 101)%Z then
    pending r1 = [KWrite101] ∧ log r1 = WriteResponse head NullBody :: log r ∧
    ∃ r2, resume KWrite101 (Written None) (set_pending [] r1) = Some r2 ∧ phase_ r2 = kBridge ∧ backend_ r2 = Some b ∧
      pending r2 = [KPumpRead (Backend b) Client; KPumpRead Client (Backend b)]
  else
    pending r1 = [KWriteResponse bka] ∧
    log r1 = WriteResponse head (if decide (request_method_ r = #"HEAD") then NullBody else body) :: log r ∧
    ∀ ec, ∃ r2, resume (KWriteResponse bka) (Written ec) (set_pending [] r1) = Some r2 ∧ backend_ r2 = None ∧
      pending r2 = [if negb (draining_ r) && client_is_h1 r && client_keep_alive_ r then KParseRequest else KDrainRead] ∧
      log r2 = (if negb (draining_ r) && client_is_h1 r && client_keep_alive_ r then [ParseRequest]
                else ReadFrom Client :: (if draining_ r || client_is_h1 r then [ShutdownClient] else [])) ++
               (if bka then Release (backend_endpoint_ r) b else ShutdownBackend b) :: log r1.
Proof.
  intros Hp Hb Hd head r1. unfold r1. cbn [on_response].
  destruct (count_response_fields us resp r) as (F1 & F2 & F3 & F4 & F5 & F6 & F7 & F8 & F9 & F10 & F11).
  set (r0 := count_response us resp r) in *. clearbody r0. clear r1.
  unfold relay_response. rewrite relay_head_eq, F3, F4, F5. fold head. change (status_code head) with (status_code resp).
  destruct (request_is_upgrade_ r && (status_code resp =? 101)%Z).
  - split; [cbn; by rewrite F2, Hp|]. split; [cbn; by rewrite F1|]. eexists. split; [reflexivity|].
    by apply bridge_mode_eq; [cbn; rewrite F7|].
  - split; [cbn; by rewrite F2, Hp|]. split; [cbn; by rewrite F1|]. intros ec. eexists. split; [reflexivity|].
    unfold on_response_written. set (rw := set_pending [] _).
    destruct (finish_backend_eq bka rw b) as (N1 & N2 & N3 & N4 & N5 & N6 & N7); [cbn; congruence|].
    destruct (after_response_eq (finish_backend bka rw)) as (A1 & A2 & A3); [by rewrite N2|rewrite N3; cbn; congruence|].
    rewrite A1, A2, A3, N1, N4, N5, N6, N7. unfold loops. cbn. rewrite F6, F9, F10, F11. done.
Qed.

Definition at_response : RelaySession :=
  on_request_written true None (set_pending [] at_write).

Lemma response_relayed_witness :
  pending (on_response 250 (ParseOk (ResponseHead 200 #"OK" #"HTTP/1.1" HeaderMap.empty_map None) (StreamSrc 3) true)
    (set_pending [] at_response)) = [KWriteResponse true].
Proof.
  pose proof (response_relayed 250 (ResponseHead 200 #"OK" #"HTTP/1.1" HeaderMap.empty_map None) (StreamSrc 3) true
    (set_pending [] at_response) 7 eq_refl eq_refl eq_refl) as H.
  cbv zeta in H. change (request_is_upgrade_ (set_pending [] at_response)) with false in H. exact (proj1 H).
Defined.

(** ** Targets *)

Lemma connect_target_split h p junk : h ≠ [] → (1 ≤ p ≤ 65535)%Z → no_digit junk → COLON ∉ junk →
  connect_target (h ++ COLON :: to_string p ++ junk) = Some (Endpoint [] h p 1 TCP).
Proof.
  intros Hh Hp Hj Hc. unfold connect_target.
  assert (COLON ∉ to_string p ++ junk) as Hn.
  { rewrite elem_of_app. intros [Hin|Hin]; [|done]. by apply (not_in_to_string COLON p) in Hin; [|lia|]. }
  rewrite rfind_char_app by done.
  destruct (to_string_head p) as (c & s & d & E & _); [lia|].
  rewrite decide_False.
  2:{ intros [H0|Hlen]; [by destruct h|]. rewrite length_app, E in Hlen. cbn in Hlen. lia. }
  rewrite take_app_length. replace (drop (S (length h)) (h ++ COLON :: to_string p ++ junk)) with (to_string p ++ junk).
  2:{ change (S (length h)) with (1 + length h). rewrite Nat.add_comm, <- drop_drop, drop_app_length. done. }
  rewrite strtoul_to_string_rest by (unfold ULONG_MAX; (done || lia)). cbn [fst].
  rewrite decide_False by (intros [?|[?|?]]; [done|lia..]). unfold u16. by rewrite Z.mod_small by lia.
Qed.

Lemma connect_target_sound path ep : connect_target path = Some ep →
  host ep ≠ [] ∧ (1 ≤ port ep ≤ 65535)%Z ∧ ep_protocol ep = TCP ∧ ∃ rest, path = host ep ++ COLON :: rest.
Proof.
  unfold connect_target. destruct (rfind_char COLON path) as [i|] eqn:E; [|done].
  case_decide as H1; [done|]. case_decide as H2; [done|]. intros [= <-]. cbn [host port ep_protocol].
  pose proof (strtoul_range (drop (S i) path) 10 ltac:(lia)) as Hr.
  apply rfind_char_Some in E as (E & _ & _).
  split_and!; [tauto| | |done|by eexists]; unfold u16; rewrite Z.mod_small; lia.
Qed.

(** CONNECT targets.  ["host:port"] with a port in [1, 65535] is accepted
    and tunnelled to exactly that host and port over TCP, also when other text
    follows the port; whatever is accepted has a host, a port in that range,
    and the host is what precedes a colon of the request's path; anything else
    is answered with 400 and opens no connection. *)
Theorem connect_target_correct (head : HttpRequestHead) (r : RelaySession) :
  (∀ h p junk, h ≠ [] → (1 ≤ p ≤ 65535)%Z → no_digit junk → COLON ∉ junk →
     path head = h ++ COLON :: to_string p ++ junk →
     log (handle_connect head r) = ConnectFresh (Endpoint [] h p 1 TCP) :: log r) ∧
  (∀ ep, log (handle_connect head r) = ConnectFresh ep :: log r →
     host ep ≠ [] ∧ (1 ≤ port ep ≤ 65535)%Z ∧ ep_protocol ep = TCP ∧ ∃ rest, path head = host ep ++ COLON :: rest) ∧
  (connect_target (path head) = None →
     log (handle_connect head r) =
     WriteResponse (error_head BadRequest (#"bad CONNECT target" ++ [LF])) (BufferSrc (#"bad CONNECT target" ++ [LF])) :: log r).
Proof.
  split_and!.
  - intros h p junk Hh Hp Hj Hc Hpath. unfold handle_connect. by rewrite Hpath, connect_target_split.
  - intros ep. unfold handle_connect. destruct (connect_target (path head)) as [ep'|] eqn:E; [|done].
    cbn. intros [= ->]. by apply connect_target_sound.
  - intros E. unfold handle_connect. by rewrite E.
Qed.

Definition connect_head : HttpRequestHead :=
  RequestHead #"CONNECT" #"HTTP/1.1" #"a.test:443x" #"http" [] false HeaderMap.empty_map None.

Lemma connect_target_correct_witness :
  log (handle_connect connect_head at_request) = ConnectFresh (Endpoint [] #"a.test" 443 1 TCP) :: log at_request.
Proof.
  apply (proj1 (connect_target_correct connect_head at_request) #"a.test" 443%Z #"x"); [discriminate|lia|reflexivity| |reflexivity].
  by_eval.
Defined.

(** Forward proxying.  An absolute-form http request goes to the host and
    port of its own authority (port 80 by default), never through the route
    table, and is forwarded with exactly one [host] field, the authority,
    whatever [Host] the client sent; another scheme is refused. *)
Theorem forward_uses_authority (head : HttpRequestHead) (body : body_src) (r : RelaySession) :
  pending r = [] →
  (∀ ep, scheme head = #"http" → forward_target (authority head) = Some ep →
     log (handle_forward head body r) = ConnectFresh ep :: log r ∧
     ∃ head', pending (handle_forward head body r) = [KUseBackend head' body] ∧
       HeaderMap.get_all #"host" (req_headers head') = [authority head] ∧
       path head' = path head ∧ method head' = method head) ∧
  (COLON ∉ authority head → forward_target (authority head) = Some (Endpoint [] (authority head) 80 1 TCP)) ∧
  (scheme head ≠ #"http" → ∀ ep, log (handle_forward head body r) ≠ ConnectFresh ep :: log r).
Proof.
  intros Hp. split_and!.
  - intros ep Hs Ht. unfold handle_forward. rewrite decide_True by done. rewrite Ht. split; [done|].
    exists (set_host head). split; [cbn; by rewrite Hp|]. split; [|done].
    unfold set_host. cbn [req_headers]. rewrite HeaderMap.get_all_set. by rewrite decide_True.
  - intros Hc. unfold forward_target. by rewrite (proj2 (rfind_char_None COLON (authority head)) Hc).
  - intros Hs ep. unfold handle_forward. by rewrite decide_False.
Qed.

Definition absolute_head : HttpRequestHead :=
  RequestHead #"GET" #"HTTP/1.1" #"/x" #"http" #"b.test" true (HeaderMap.Map [(#"Host", #"evil")]) None.

Lemma forward_uses_authority_witness :
  log (handle_forward absolute_head NullBody (set_pending [] at_request)) =
  ConnectFresh (Endpoint [] #"b.test" 80 1 TCP) :: log at_request.
Proof.
  apply (proj1 (forward_uses_authority absolute_head NullBody (set_pending [] at_request) eq_refl)
    (Endpoint [] #"b.test" 80 1 TCP)); reflexivity.
Defined.

(** ** Winding down *)

(** How many requests the session has asked its client for. *)
Fixpoint asks (l : list action) : nat :=
  match l with [] => 0 | ParseRequest :: l' => S (asks l') | _ :: l' => asks l' end.

Definition winding_down (r : RelaySession) : bool := draining_ r || done_ r.

(** Winding down, with [n] requests asked for so far. *)
Definition wound (n : nat) (r : RelaySession) : Prop := winding_down r = true ∧ asks (log r) = n.

Lemma wound_act n a r : a ≠ ParseRequest → wound n r → wound n (act a r).
Proof. intros Ha [H1 H2]. split; [exact H1|]. by destruct a. Qed.

Lemma wound_draining n r : wound n r → wound n (set_draining true r).
Proof. intros [_ H]. by split. Qed.

Lemma wound_done n r : asks (log r) = n → wound n (set_done true r).
Proof. intros H. split; [apply orb_true_r|exact H]. Qed.

Lemma wound_goto n p r : wound n r → wound n (goto_phase p r).
Proof. rewrite goto_phase_eq. done. Qed.

Lemma wound_kick n r : wound n r → wound n (kick_idle_timer r).
Proof. rewrite kick_eq. done. Qed.

Lemma wound_close_backend n r : wound n r → wound n (close_backend r).
Proof. intros H. unfold close_backend. destruct (backend_ r) as [b|]; [|done]. by apply (wound_act n (ShutdownBackend b) r). Qed.

Lemma wound_write_error n st msg r : wound n r → wound n (write_error st msg r).
Proof. intros H. by apply (wound_act n (WriteResponse (error_head st msg) (BufferSrc msg)) r). Qed.

Lemma wound_teardown n r : asks (log r) = n → wound n (teardown r).
Proof.
  intros H. unfold teardown. destruct (done_ r) eqn:E; [split; [unfold winding_down; rewrite E; apply orb_true_r|done]|].
  apply wound_close_backend, wound_act; [discriminate|]. apply wound_goto. by apply (wound_done n r).
Qed.

(** Peel the assignments that do not matter for [wound]. *)
Ltac peel :=
  match goal with
  | |- wound ?n (set_backend _ ?r) => change (wound n r)
  | |- wound ?n (set_backend_codec _ ?r) => change (wound n r)
  | |- wound ?n (set_backend_endpoint _ ?r) => change (wound n r)
  | |- wound ?n (set_backend_from_pool _ ?r) => change (wound n r)
  | |- wound ?n (set_pending_head _ ?r) => change (wound n r)
  | |- wound ?n (set_pending_body _ ?r) => change (wound n r)
  | |- wound ?n (set_request_method _ ?r) => change (wound n r)
  | |- wound ?n (set_client_version _ ?r) => change (wound n r)
  | |- wound ?n (set_client_keep_alive _ ?r) => change (wound n r)
  | |- wound ?n (set_request_is_upgrade _ ?r) => change (wound n r)
  | |- wound ?n (set_phase _ ?r) => change (wound n r)
  | |- wound ?n (set_timer_armed _ ?r) => change (wound n r)
  | |- wound ?n (set_pending _ ?r) => change (wound n r)
  | |- wound ?n (set_crashed _ ?r) => change (wound n r)
  | |- wound ?n (crash ?r) => change (wound n r)
  | |- wound ?n (count _ ?r) => change (wound n r)
  | |- wound ?n (await _ ?r) => change (wound n r)
  | |- wound _ (act _ _) => apply wound_act; [discriminate|]
  | |- wound _ (kick_idle_timer _) => apply wound_kick
  | |- wound _ (goto_phase _ _) => apply wound_goto
  | |- wound _ (close_backend _) => apply wound_close_backend
  | |- wound _ (set_draining true _) => apply wound_draining
  | |- wound _ (write_error _ _ _) => apply wound_write_error
  | |- wound _ (teardown _) => apply wound_teardown; assumption
  end.

Ltac wind := repeat first [peel | assumption | case_match].

Lemma wound_drain n r : wound n r → wound n (drain_client r).
Proof. intros H. unfold drain_client. wind. Qed.

Lemma wound_graceful n r : wound n r → wound n (gracefully_close_client r).
Proof. intros H. unfold gracefully_close_client. case_match; [done|]. apply wound_drain. wind. Qed.

(** The only way back to [request_phase] is closed. *)
Lemma wound_after n r : wound n r → wound n (after_client_response r).
Proof.
  intros H. unfold after_client_response. destruct (draining_ r) eqn:Ed; [by apply wound_graceful|].
  assert (done_ r = true) as Hd by (destruct H as [H _]; unfold winding_down in H; by rewrite Ed in H).
  rewrite Hd, andb_false_r. cbn [andb]. case_match; [by apply wound_graceful|by apply wound_drain].
Qed.

Lemma wound_dispatch n head body r : wound n r → wound n (dispatch head body r).
Proof.
  intros H. unfold dispatch, handle_connect, handle_forward. wind.
Qed.

Lemma wound_send n b r : wound n r → wound n (send_backend_request b r).
Proof. intros H. unfold send_backend_request. wind. Qed.

Lemma wound_bridge n r : wound n r → wound n (bridge_mode r).
Proof. intros H. unfold bridge_mode, pump_bytes. wind. Qed.

Lemma wound_resume n k c r r' : wound n r → resume k c r = Some r' → wound n r'.
Proof.
  intros H Hr. pose proof (proj2 H) as Ha.
  destruct k, c; cbn in Hr; try discriminate; injection Hr as <-.
  - unfold on_request. destruct res; [wind|]. apply wound_dispatch. unfold begin_exchange. wind.
  - unfold use_backend, attach_backend. destruct res; [wind|]. apply wound_send. wind.
  - unfold on_tunnel_connected, start_tunnel. wind.
  - unfold on_tunnel_established. destruct ec; [wind|by apply wound_bridge].
  - unfold on_pump_read. wind.
  - unfold on_pump_written, pump_bytes. wind.
  - unfold on_request_written, reconnect_backend_fresh, response_phase. wind.
  - unfold on_reconnected. destruct res; [wind|]. apply wound_send. wind.
  - unfold on_response, relay_response, count_response. destruct res; [wind|]. destruct (_ && _); wind.
  - unfold on_101_written. destruct ec; [wind|]. apply wound_bridge. wind.
  - unfold on_response_written, finish_backend. apply wound_after. wind.
  - by apply wound_after.
  - unfold on_drain_read. destruct (done_ r); [done|]. destruct res as [[|x data]|ec]; [wind| |wind].
    apply wound_drain. wind.
Qed.

Lemma graceful_close_winds r : winding_down (graceful_close r) = true.
Proof.
  unfold graceful_close, winding_down. destruct (done_ r) eqn:E; [by rewrite E, orb_true_r|]. by case_decide.
Qed.

Lemma wound_step n r r' : wound n r → step r r' → wound n r'.
Proof.
  intros H Hs. destruct Hs as [r r' k c pre post _ _ Hr|r _ _|r _].
  - eapply wound_resume; [|exact Hr]. wind.
  - apply wound_teardown. apply H.
  - unfold graceful_close. destruct (done_ r) eqn:E; [done|]. case_decide; wind.
Qed.

(** ** A draining session ends *)

(** How far a session is from its end: what it waits for, 0 once torn down. *)
Definition rank (k : cont) : nat :=
  match k with
  | KParseRequest => 8
  | KUseBackend _ _ | KTunnelConnect => 7
  | KBackendWrite true => 6
  | KReconnect => 5
  | KBackendWrite false => 4
  | KParseResponse => 3
  | KTunnelEstablished | KWrite101 | KWriteResponse _ | KWriteError => 2
  | KPumpRead _ _ | KPumpWrite _ _ | KDrainRead => 1
  end.

Definition stage (r : RelaySession) : nat :=
  if done_ r then 0 else match pending r with [] => 9 | k :: _ => rank k end.

(** Completions that bring bytes: of a bridge, or of a client that keeps
    sending after the FIN. *)
Definition moves_data (k : cont) (c : completion) : bool :=
  match k, c with
  | KPumpRead _ _, ReadDone (ReadOk (_ :: _)) | KPumpWrite _ _, Written None | KDrainRead, ReadDone (ReadOk (_ :: _)) => true
  | _, _ => false
  end.

Lemma stage_done r : done_ r = true → stage r = 0.
Proof. unfold stage. by intros ->. Qed.

Lemma stage_await k r : stage (await k r) ≤ rank k.
Proof. unfold stage. cbn. destruct (done_ r); lia. Qed.

Lemma stage_teardown r : stage (teardown r) = 0.
Proof. apply stage_done, teardown_frame. Qed.

Lemma stage_write_error st msg r : stage (write_error st msg r) ≤ 2.
Proof. exact (stage_await KWriteError _). Qed.

Lemma stage_dispatch head body r : stage (dispatch head body r) ≤ 7.
Proof.
  unfold dispatch, handle_connect, handle_forward. repeat case_match;
    first [exact (stage_await KTunnelConnect _)|exact (stage_await (KUseBackend _ _) _)|
           etransitivity; [apply stage_write_error|lia]].
Qed.

Lemma stage_send retry r : crashed (send_backend_request retry r) = true ∨ stage (send_backend_request retry r) ≤ rank (KBackendWrite retry).
Proof. unfold send_backend_request. destruct (backend_ r); [|by left]. destruct (pending_head_ r); [|by left]. right. apply stage_await. Qed.

Lemma stage_bridge r : crashed (bridge_mode r) = true ∨ stage (bridge_mode r) ≤ 1.
Proof. unfold bridge_mode. destruct (backend_ _); [|by left]. right. exact (stage_await (KPumpRead _ _) _). Qed.

Lemma stage_drain r : stage (drain_client r) ≤ 1.
Proof. unfold drain_client. destruct (done_ r) eqn:E; [rewrite stage_done by done; lia|exact (stage_await KDrainRead _)]. Qed.

Lemma stage_graceful r : stage (gracefully_close_client r) ≤ 1.
Proof. unfold gracefully_close_client. destruct (done_ r) eqn:E; [rewrite stage_done by done; lia|apply stage_drain]. Qed.

Lemma stage_after r : draining_ r = true → stage (after_client_response r) ≤ 1.
Proof. intros Hd. unfold after_client_response. rewrite Hd. apply stage_graceful. Qed.

Lemma finish_backend_draining ka r : draining_ (finish_backend ka r) = draining_ r.
Proof. unfold finish_backend. cbn. destruct (backend_ r) eqn:E; [|done]. destruct ka; [done|]. by rewrite close_backend_eq. Qed.

(** Every completion brings a draining session nearer to its end. *)
Lemma resume_stage k c r r' : draining_ r = true → done_ r = false → resume k c r = Some r' →
  crashed r' = true ∨ stage r' < rank k ∨ moves_data k c = true ∧ stage r' ≤ rank k.
Proof.
  intros Hdr Hd Hr. destruct k, c; cbn in Hr; try discriminate; injection Hr as <-; cbn [rank moves_data].
  - right. left. unfold on_request. destruct res; [rewrite stage_teardown; lia|]. apply Nat.lt_succ_r, stage_dispatch.
  - unfold use_backend. destruct res; [right; left; eapply Nat.le_lt_trans; [apply stage_write_error|lia]|].
    destruct (stage_send true (set_pending_body body (set_pending_head (Some head) (attach_backend n ep from_pool r)))) as [H|H]; [by left|].
    right. left. cbn [rank] in H. lia.
  - right. left. unfold on_tunnel_connected. destruct res; [eapply Nat.le_lt_trans; [apply stage_write_error|lia]|].
    eapply Nat.le_lt_trans; [exact (stage_await KTunnelEstablished _)|cbn; lia].
  - unfold on_tunnel_established. destruct ec; [right; left; rewrite stage_teardown; lia|]. destruct (stage_bridge r); [by left|right; left; lia].
  - right. unfold on_pump_read. rewrite Hd. destruct res as [[|x d]|e]; [left; rewrite stage_teardown; lia| |left; rewrite stage_teardown; lia].
    right. split; [done|]. exact (stage_await (KPumpWrite src dst) _).
  - right. unfold on_pump_written. rewrite Hd. destruct ec; [left; rewrite stage_teardown; lia|]. right. split; [done|].
    exact (stage_await (KPumpRead src dst) _).
  - unfold on_request_written. destruct ec.
    + right. left. destruct retry_allowed; cbn [andb]; [|eapply Nat.le_lt_trans; [apply stage_write_error|lia]].
      case_match; [|eapply Nat.le_lt_trans; [apply stage_write_error|lia]].
      eapply Nat.le_lt_trans; [exact (stage_await KReconnect _)|cbn; lia].
    + unfold response_phase. destruct (backend_ _); [|by left]. right. left.
      eapply Nat.le_lt_trans; [exact (stage_await KParseResponse _)|destruct retry_allowed; cbn; lia].
  - unfold on_reconnected. destruct res; [right; left; eapply Nat.le_lt_trans; [apply stage_write_error|lia]|].
    match goal with |- crashed (send_backend_request _ ?x) = true ∨ _ => destruct (stage_send false x) as [H|H] end; [by left|].
    right. left. cbn [rank] in H. lia.
  - right. left. unfold on_response. destruct res; [eapply Nat.le_lt_trans; [apply stage_write_error|lia]|]. unfold relay_response.
    case_match; [eapply Nat.le_lt_trans; [exact (stage_await KWrite101 _)|cbn; lia]|eapply Nat.le_lt_trans; [exact (stage_await (KWriteResponse _) _)|cbn; lia]].
  - unfold on_101_written. destruct ec; [right; left; rewrite stage_teardown; lia|].
    destruct (stage_bridge (set_backend_from_pool false r)); [by left|right; left; lia].
  - right. left. apply Nat.lt_succ_r, stage_after. by rewrite finish_backend_draining.
  - right. left. by apply Nat.lt_succ_r, stage_after.
  - right. unfold on_drain_read. rewrite Hd. destruct res as [[|x d]|e]; [left; rewrite stage_teardown; lia| |left; rewrite stage_teardown; lia].
    right. split; [done|]. apply stage_drain.
Qed.

(** Only three handlers can dereference a null stream. *)
Lemma crashed_close r : crashed (close_backend r) = crashed r.
Proof. by rewrite close_backend_eq. Qed.

Lemma crashed_teardown r : crashed (teardown r) = crashed r.
Proof. unfold teardown. destruct (done_ r); [done|]. by rewrite crashed_close, goto_phase_eq. Qed.

Lemma crashed_drain r : crashed (drain_client r) = crashed r.
Proof. unfold drain_client. by destruct (done_ r). Qed.

Lemma crashed_after r : crashed (after_client_response r) = crashed r.
Proof.
  unfold after_client_response, gracefully_close_client, request_phase. rewrite goto_phase_eq, kick_eq.
  repeat case_match; by rewrite ?crashed_drain.
Qed.

Lemma crashed_dispatch head body r : crashed (dispatch head body r) = crashed r.
Proof. unfold dispatch, handle_connect, handle_forward. by repeat case_match. Qed.

Lemma crashed_finish ka r : crashed (finish_backend ka r) = crashed r.
Proof. unfold finish_backend. case_match; [|done]. destruct ka; [done|]. by rewrite crashed_close. Qed.

Lemma done_send retry r : done_ (send_backend_request retry r) = done_ r.
Proof. unfold send_backend_request. by repeat case_match. Qed.

Lemma done_bridge r : done_ (bridge_mode r) = done_ r.
Proof. unfold bridge_mode. rewrite goto_phase_eq. by case_match. Qed.

Lemma done_response_phase r : done_ (response_phase r) = done_ r.
Proof. unfold response_phase. rewrite goto_phase_eq, kick_eq. by case_match. Qed.

(** A callback that crashes has not torn the session down. *)
Lemma resume_crash k c r r' : resume k c r = Some r' → crashed r' = crashed r ∨ done_ r' = done_ r.
Proof.
  intros Hr. destruct k, c; cbn in Hr; try discriminate; injection Hr as <-.
  - left. unfold on_request. destruct res; [apply crashed_teardown|].
    rewrite crashed_dispatch. unfold begin_exchange. by rewrite goto_phase_eq, kick_eq.
  - unfold use_backend. destruct res; [by left|right]. rewrite done_send. unfold attach_backend. rewrite kick_eq. by destruct from_pool.
  - left. unfold on_tunnel_connected. by destruct res.
  - unfold on_tunnel_established. destruct ec; [left; apply crashed_teardown|right; apply done_bridge].
  - left. unfold on_pump_read. destruct (done_ r); [done|]. destruct res as [[|x d]|e]; [apply crashed_teardown| |apply crashed_teardown]. by rewrite kick_eq.
  - left. unfold on_pump_written. destruct (done_ r); [done|]. destruct ec; [apply crashed_teardown|]. by rewrite kick_eq.
  - unfold on_request_written. destruct ec; [left; case_match; exact (crashed_close r)|right]. rewrite done_response_phase. by rewrite kick_eq.
  - unfold on_reconnected. destruct res; [by left|right]. by rewrite done_send.
  - left. unfold on_response. destruct res; [exact (crashed_close r)|]. unfold relay_response, count_response. rewrite kick_eq. by case_match.
  - unfold on_101_written. destruct ec; [left; apply crashed_teardown|right]. by rewrite done_bridge.
  - left. unfold on_response_written. by rewrite crashed_after, crashed_finish.
  - left. apply crashed_after.
  - left. unfold on_drain_read. destruct (done_ r); [done|].
    destruct res as [[|x d]|e]; [apply crashed_teardown|rewrite crashed_drain; by rewrite kick_eq|apply crashed_teardown].
Qed.

(** What a session waits for has the rank of its stage. *)
Lemma stage_pending h1 rt timeout r k : reachable h1 rt timeout r → crashed r = false → done_ r = false → k ∈ pending r → rank k = stage r.
Proof.
  intros Hr%relay_reachable_inv Hc Hd Hk. unfold stage. rewrite Hd.
  destruct (inv_pending _ Hr Hc) as [_ ?|k' Hp _|b [Hf _] _]; [congruence|rewrite Hp in *; by apply list_elem_of_singleton in Hk as ->|].
  assert (∀ k', k' ∈ pending r → rank k' = 1) as H1.
  { intros k' Hk'. destruct (proj1 (list.Forall_forall _ _) Hf k' Hk') as [E|E]; by destruct k'. }
  rewrite (H1 k Hk). destruct (pending r) as [|k0 l]; [by apply not_elem_of_nil in Hk|]. symmetry. apply H1. by left.
Qed.

Lemma live_pending h1 rt timeout r : reachable h1 rt timeout r → crashed r = false → done_ r = false →
  pending r ≠ [] ∧ 1 ≤ stage r ≤ 8 ∧ ∀ k, pending r = [k] → cont_ok k r.
Proof.
  intros Hr%relay_reachable_inv Hc Hd.
  assert (pending r ≠ [] ∧ ∀ k, pending r = [k] → cont_ok k r) as [Hne Hok].
  { destruct (inv_pending _ Hr Hc) as [_ ?|k Hp Hk|b _ Hl]; [congruence|split; congruence|].
    destruct (Hl Hd) as (Hlen & _). split; [by intros E; rewrite E in Hlen|]. intros k E. by rewrite E in Hlen. }
  split_and!; [done| | |done]; unfold stage; rewrite Hd; (destruct (pending r) as [|k l]; [done|]); destruct k as [| | | | | |[]| | | | | |]; cbn; lia.
Qed.

Lemma draining_step h1 rt timeout r k c pre post r' : reachable h1 rt timeout r → crashed r = false → done_ r = false → draining_ r = true →
  pending r = pre ++ k :: post → resume k c (set_pending (pre ++ post) r) = Some r' →
  crashed r' = false ∧ (stage r' < stage r ∨ moves_data k c = true ∧ stage r' ≤ stage r).
Proof.
  intros Hr Hc Hd Hdr Hp Hs. assert (reachable h1 rt timeout r') as Hr' by (eapply rtc_r; [exact Hr|by eapply step_resume]).
  assert (rank k = stage r) as Ek by (eapply stage_pending; [done..|]; rewrite Hp, elem_of_app; right; by left).
  assert (crashed r' = false) as Hc'.
  { destruct (crashed r') eqn:E; [|done]. pose proof (inv_crashed _ (relay_reachable_inv _ _ _ _ Hr') E) as Hd'.
    destruct (resume_crash k c _ r' Hs) as [H|H]; cbn in H; congruence. }
  split; [done|]. destruct (resume_stage k c (set_pending (pre ++ post) r) r' Hdr Hd Hs) as [?|H]; [congruence|]. by rewrite Ek in H.
Qed.

Lemma wound_rtc r r' : winding_down r = true → rtc step r r' → asks (log r') = asks (log r) ∧ winding_down r' = true.
Proof.
  intros Hw Hs. assert (wound (asks (log r)) r') as [? ?]; [|done].
  assert (wound (asks (log r)) r) as H by done. clear Hw. revert H. generalize (asks (log r)). intros n H.
  induction Hs as [|r1 r2 r3 Hs _ IH]; [done|]. apply IH. by eapply wound_step.
Qed.

(** The end of a draining session: the response is out, then the client's end. *)
Lemma drained_after r : draining_ r = true → done_ r = false → pending r = [] →
  pending (after_client_response r) = [KDrainRead] ∧ backend_ (after_client_response r) = backend_ r ∧
  log (after_client_response r) = ReadFrom Client :: ShutdownClient :: log r.
Proof.
  intros Hdr Hd Hp. destruct (after_response_eq r Hp Hd) as (A1 & A2 & A3). unfold loops in *. rewrite Hdr in *. done.
Qed.

(** C9: A session that winds down finishes the exchange in flight and closes.
    (1) Draining or torn down, it never asks its client for another request,
    whatever completes afterwards (one it has asked for already may still
    arrive and is served), and a server stop makes every session draining
    unless it is torn down already.  (2) Of a draining session that is
    not torn down some completion is pending, and every completion brings it
    strictly nearer to the teardown (at most eight stages away), except that the
    bytes of a bridge, or of a client that goes on sending, leave it where it
    is.  (3) When the response, or the error response, has been written, its
    backend is given up, the client is sent a FIN and read to its end; at that
    end, or on a read error, the session is torn down. *)
Theorem winding_down_final h1 rt timeout r : reachable h1 rt timeout r → crashed r = false → winding_down r = true →
  (∀ r', rtc step r r' → asks (log r') = asks (log r) ∧ winding_down r' = true) ∧
  (∀ r0, done_ r0 = false → draining_ (graceful_close r0) = true) ∧
  (done_ r = false →
   pending r ≠ [] ∧ 1 ≤ stage r ≤ 8 ∧
   (∀ k c pre post r', pending r = pre ++ k :: post → resume k c (set_pending (pre ++ post) r) = Some r' →
      crashed r' = false ∧ (stage r' < stage r ∨ moves_data k c = true ∧ stage r' ≤ stage r)) ∧
   (∀ bka ec r', pending r = [KWriteResponse bka] → resume (KWriteResponse bka) (Written ec) (set_pending [] r) = Some r' →
      ∃ b, backend_ r = Some b ∧ pending r' = [KDrainRead] ∧ backend_ r' = None ∧
        log r' = ReadFrom Client :: ShutdownClient :: (if bka then Release (backend_endpoint_ r) b else ShutdownBackend b) :: log r) ∧
   (∀ ec r', pending r = [KWriteError] → resume KWriteError (Written ec) (set_pending [] r) = Some r' →
      pending r' = [KDrainRead] ∧ log r' = ReadFrom Client :: ShutdownClient :: log r) ∧
   (∀ res r', pending r = [KDrainRead] → moves_data KDrainRead (ReadDone res) = false →
      resume KDrainRead (ReadDone res) (set_pending [] r) = Some r' →
      done_ r' = true ∧ phase_ r' = kClosed ∧ pending r' = [] ∧ log r' = ShutdownClient :: log r)).
Proof.
  intros Hr Hc Hw. split_and!; [intros r' Hs; by apply wound_rtc| |intros Hd].
  { intros r0 H0. unfold graceful_close. rewrite H0. by case_decide. }
  assert (draining_ r = true) as Hdr by (unfold winding_down in Hw; by rewrite Hd, orb_false_r in Hw).
  destruct (live_pending _ _ _ _ Hr Hc Hd) as (Hne & Hs & Hok). split_and!; [done|apply Hs..| | | |].
  - intros k c pre post r' Hp Hs'. by eapply draining_step.
  - intros bka ec r' Hp [= <-]. destruct (Hok _ Hp Hd) as [Hb _]. destruct (backend_ r) as [b|] eqn:Eb; [|done]. exists b.
    destruct (finish_backend_eq bka (set_pending [] r) b Eb) as (N1 & N2 & N3 & _ & N5 & _ & N7).
    destruct (drained_after (finish_backend bka (set_pending [] r))) as (A1 & A2 & A3); [by rewrite N5|by rewrite N3|by rewrite N2|].
    unfold on_response_written. rewrite A1, A2, A3, N1, N7. done.
  - intros ec r' Hp [= <-]. by destruct (drained_after (set_pending [] r)) as (A1 & _ & A3).
  - intros res r' Hp Hm [= <-]. destruct (Hok _ Hp) as [Hb _]. unfold on_drain_read. cbn. rewrite Hd.
    assert (teardown (set_pending [] r) = set_backend None (act ShutdownClient (set_phase kClosed (set_timer_armed false (set_done true (set_pending [] r)))))) as E.
    { unfold teardown. cbn. rewrite Hd, goto_phase_eq, close_backend_eq. unfold current. cbn. by rewrite Hb. }
    destruct res as [[|x d]|e]; [rewrite E; by split_and!|done|rewrite E; by split_and!].
Qed.

Lemma winding_down_final_witness :
  asks (log (on_request_written true None (set_pending [] (graceful_close at_write)))) = 1 ∧ stage (graceful_close at_write) = 6.
Proof.
  assert (reachable true default_rt 30 (graceful_close at_write)) as Hr by (eapply rtc_r; [exact at_write_reachable|by apply step_stop]).
  split; [|reflexivity].
  refine (proj1 (proj1 (winding_down_final true default_rt 30 (graceful_close at_write) Hr eq_refl eq_refl) _ _)).
  eapply rtc_l; [apply (step_resume (graceful_close at_write) _ (KBackendWrite true) (Written None) [] []); reflexivity|].
  apply rtc_refl.
Defined.
