(* ===== verification/RelayTrace.v ===== *)
(** * What a relay session does to the pool, call by call
    (src/src/proxy/relay_session.cpp)

    The calls a session makes form a disciplined sequence: it disposes only of
    the stream it holds, attaches a stream only when it holds none, and asks for
    a connection exactly when it starts waiting for one.  [holds] and [connects]
    read this off the log; [tracks] is the invariant every handler keeps.  The
    worker composes it with the pool. *)

From S2P Require Import Prelude CppStd Transport HttpMessage H1Codec Config Router Stats RelaySession.

(** The streams held after one call; [None] when the call is not permitted. *)
Definition own (a : action) (l : list nat) : option (list nat) :=
  match a with
  | AttachBackend b | AttachTunnel b => match l with [] => Some [b] | _ => None end
  | Release _ b | ShutdownBackend b => if decide (l = [b]) then Some [] else None
  | _ => Some l
  end.

(** The streams held after a whole log (newest call first). *)
Fixpoint holds (l : list action) : option (list nat) :=
  match l with [] => Some [] | a :: l' => holds l' ≫= own a end.

Definition is_connect (a : action) : bool := match a with Connect _ | ConnectFresh _ => true | _ => false end.
Definition is_wait (k : cont) : bool := match k with KUseBackend _ _ | KTunnelConnect | KReconnect => true | _ => false end.

(** Calls that ask for a connection, and callbacks that wait for one. *)
Definition connects (l : list action) : nat := length (List.filter is_connect l).
Definition waits (l : list cont) : nat := length (List.filter is_wait l).

(** The log extends [l0], accounts for the current backend, has attached [a],
    and [d] of the connections asked for have been delivered. *)
Definition tracks (l0 : list action) (d : nat) (a : list nat) (r : RelaySession) : Prop :=
  l0 `suffix_of` log r ∧ holds (log r) = Some (current r) ∧ attached (log r) = a ∧
  waits (pending r) + d = connects (log r).

(** Assignments that leave the log, the backend and what is pending alone. *)
Lemma tracks_frame (f : RelaySession → RelaySession) r l0 d a :
  (∀ q, log (f q) = log q) → (∀ q, backend_ (f q) = backend_ q) → (∀ q, pending (f q) = pending q) →
  tracks l0 d a r → tracks l0 d a (f r).
Proof. unfold tracks, current. intros -> -> ->. done. Qed.

(** Calls without a bearing on the pool. *)
Definition internal (a : action) : Prop :=
  match a with
  | Connect _ | ConnectFresh _ | AttachBackend _ | AttachTunnel _ | Release _ _ | ShutdownBackend _ => False
  | _ => True
  end.

Section lemmas.
Context (l0 : list action).
Implicit Types (d : nat) (a : list nat) (r : RelaySession).

Lemma tracks_act d a x r : internal x → tracks l0 d a r → tracks l0 d a (act x r).
Proof.
  intros Hx (H1 & H2 & H3 & H4). unfold tracks. cbn [log act set_log pending current backend_].
  split_and!; [by apply suffix_cons_r| | |]; destruct x; try done; cbn; by rewrite H2.
Qed.

Lemma tracks_await d a k r : is_wait k = false → tracks l0 d a r → tracks l0 d a (await k r).
Proof. intros Hk (H1 & H2 & H3 & H4). split_and!; [done..|]. unfold waits. cbn. by rewrite Hk. Qed.

(** Asking for a connection and waiting for it go together. *)
Lemma tracks_connect d a k x r : is_wait k = true → is_connect x = true → tracks l0 d a r →
  tracks l0 d a (await k (act x r)).
Proof.
  intros Hk Hx (H1 & H2 & H3 & H4). unfold tracks, waits, connects in *. cbn. rewrite Hk, Hx. cbn.
  split_and!; [by apply suffix_cons_r| | |lia]; destruct x; try done; cbn; by rewrite H2.
Qed.

Lemma tracks_kick d a r : tracks l0 d a r → tracks l0 d a (kick_idle_timer r).
Proof. rewrite kick_eq. done. Qed.

Lemma tracks_goto d a p r : tracks l0 d a r → tracks l0 d a (goto_phase p r).
Proof. rewrite goto_phase_eq. done. Qed.

(** Giving up the backend, to the pool or for good. *)
Lemma tracks_dispose d a x b r : (x = ShutdownBackend b ∨ ∃ ep, x = Release ep b) → backend_ r = Some b →
  tracks l0 d a r → tracks l0 d a (set_backend None (act x r)).
Proof.
  intros Hx Hb (H1 & H2 & H3 & H4). unfold tracks, current in *. rewrite Hb in H2. cbn.
  split_and!; [by apply suffix_cons_r| | |]; destruct Hx as [->|[ep ->]]; cbn; rewrite ?H2; cbn; try done;
    by rewrite decide_True.
Qed.

Lemma tracks_close_backend d a r : tracks l0 d a r → tracks l0 d a (close_backend r).
Proof.
  intros H. unfold close_backend. destruct (backend_ r) as [b|] eqn:E; [|done].
  by apply (tracks_dispose d a (ShutdownBackend b) b); [left| |].
Qed.

(** A delivered stream becomes the backend. *)
Lemma tracks_attach d a x b r : (x = AttachBackend b ∨ x = AttachTunnel b) → backend_ r = None →
  tracks l0 d a r → tracks l0 d (b :: a) (set_backend (Some b) (act x r)).
Proof.
  intros Hx Hb (H1 & H2 & H3 & H4). unfold tracks, current in *. rewrite Hb in H2. cbn.
  split_and!; [by apply suffix_cons_r| | |]; destruct Hx as [-> | ->]; cbn; rewrite ?H2, ?H3; done.
Qed.

Lemma tracks_write_error d a st msg r : tracks l0 d a r → tracks l0 d a (write_error st msg r).
Proof. intros H. apply tracks_await; [done|]. by apply (tracks_act d a (WriteResponse (error_head st msg) (BufferSrc msg)) r). Qed.

Lemma tracks_teardown d a r : tracks l0 d a r → tracks l0 d a (teardown r).
Proof.
  intros H. unfold teardown. destruct (done_ r); [done|]. apply tracks_close_backend, tracks_act; [done|].
  by apply tracks_goto.
Qed.
End lemmas.

(** Peel one assignment, call or helper. *)
Ltac tracks_peel :=
  match goal with
  | |- tracks _ _ _ (?f ?x ?r) =>
      lazymatch f with
      | set_backend_codec => idtac | set_backend_endpoint => idtac | set_backend_from_pool => idtac
      | set_pending_head => idtac | set_pending_body => idtac | set_request_method => idtac
      | set_client_version => idtac | set_client_keep_alive => idtac | set_request_is_upgrade => idtac
      | set_phase => idtac | set_draining => idtac | set_done => idtac | set_timer_armed => idtac | count => idtac
      end;
      apply (tracks_frame (f x)); [intros; reflexivity..|]
  | |- tracks _ _ _ (crash _) => apply (tracks_frame crash); [intros; reflexivity..|]
  | |- tracks _ _ _ (await (KUseBackend _ _) (act _ _)) => apply tracks_connect; [reflexivity..|]
  | |- tracks _ _ _ (await KTunnelConnect (act _ _)) => apply tracks_connect; [reflexivity..|]
  | |- tracks _ _ _ (await KReconnect (act _ _)) => apply tracks_connect; [reflexivity..|]
  | |- tracks _ _ _ (await _ _) => apply tracks_await; [reflexivity|]
  | |- tracks _ _ _ (act _ _) => apply tracks_act; [exact I|]
  | |- tracks _ _ _ (kick_idle_timer _) => apply tracks_kick
  | |- tracks _ _ _ (goto_phase _ _) => apply tracks_goto
  | |- tracks _ _ _ (close_backend _) => apply tracks_close_backend
  | |- tracks _ _ _ (write_error _ _ _) => apply tracks_write_error
  | |- tracks _ _ _ (teardown _) => apply tracks_teardown
  end.

Ltac track := repeat first
  [tracks_peel | match goal with |- tracks _ _ _ ?r => is_var r; assumption end | case_match].

Section handlers.
Context (l0 : list action).
Implicit Types (d : nat) (a : list nat) (r : RelaySession).

Lemma tracks_drain d a r : tracks l0 d a r → tracks l0 d a (drain_client r).
Proof. intros H. unfold drain_client. track. Qed.

Lemma tracks_graceful d a r : tracks l0 d a r → tracks l0 d a (gracefully_close_client r).
Proof. intros H. unfold gracefully_close_client. case_match; [done|]. apply tracks_drain. track. Qed.

Lemma tracks_graceful_close d a r : tracks l0 d a r → tracks l0 d a (graceful_close r).
Proof. intros H. unfold graceful_close. case_match; [done|]. case_decide; track. Qed.

Lemma tracks_after d a r : tracks l0 d a r → tracks l0 d a (after_client_response r).
Proof.
  intros H. unfold after_client_response, request_phase. case_match; [by apply tracks_graceful|].
  case_match; [track|]. case_match; [by apply tracks_graceful|by apply tracks_drain].
Qed.

Lemma tracks_dispatch d a head body r : tracks l0 d a r → tracks l0 d a (dispatch head body r).
Proof. intros H. unfold dispatch, handle_connect, handle_forward. track. Qed.

Lemma tracks_send d a b r : tracks l0 d a r → tracks l0 d a (send_backend_request b r).
Proof. intros H. unfold send_backend_request. track. Qed.

Lemma tracks_bridge d a r : tracks l0 d a r → tracks l0 d a (bridge_mode r).
Proof. intros H. unfold bridge_mode, pump_bytes. track. Qed.

Lemma tracks_finish d a ka r : tracks l0 d a r → tracks l0 d a (finish_backend ka r).
Proof.
  intros H. unfold finish_backend. cbn [backend_ set_pending_body set_pending_head].
  destruct (backend_ r) as [b|] eqn:E; [|track]. destruct ka; [|track].
  by apply (tracks_dispose l0 d a (Release _ b) b); [right; eexists| |].
Qed.

(** The stream a completion delivers. *)
Definition delivered (x : completion) : list nat :=
  match x with Connected (inr st) _ _ => [st] | _ => [] end.

(** A completion taken off the pending list. *)
Lemma tracks_take d a pre k post r : pending r = pre ++ k :: post → tracks l0 d a r →
  tracks l0 (d + Nat.b2n (is_wait k)) a (set_pending (pre ++ post) r).
Proof.
  intros Hp (H1 & H2 & H3 & H4). split_and!; [done..|]. cbn [pending log set_pending]. rewrite <- H4, Hp. unfold waits.
  rewrite !List.filter_app, !length_app. cbn. destruct (is_wait k); cbn; lia.
Qed.

(** A callback that waits for a connection runs with no backend. *)
Definition ready (k : cont) (r : RelaySession) : Prop := is_wait k = true → backend_ r = None.

Lemma tracks_resume d a k x r r' : ready k r → tracks l0 d a r → resume k x r = Some r' →
  tracks l0 d (delivered x ++ a) r'.
Proof.
  intros Hk H Hr. destruct k, x; cbn in Hr; try discriminate; injection Hr as <-; cbn [delivered app].
  - unfold on_request. destruct res; [track|]. apply tracks_dispatch. unfold begin_exchange. track.
  - unfold use_backend, attach_backend. destruct res as [e|st]; [track|]. cbn [app]. apply tracks_send.
    destruct from_pool; track; (apply tracks_attach; [by left|by apply Hk|done]).
  - unfold on_tunnel_connected, start_tunnel. destruct res as [e|st]; [track|]. cbn [app]. track.
    apply tracks_attach; [by right|by apply Hk|done].
  - unfold on_tunnel_established. destruct ec; [track|by apply tracks_bridge].
  - unfold on_pump_read. track.
  - unfold on_pump_written, pump_bytes. track.
  - unfold on_request_written, reconnect_backend_fresh, response_phase. track.
  - unfold on_reconnected. destruct res as [e|st]; [track|]. cbn [app]. apply tracks_send. track.
    apply tracks_attach; [by left|by apply Hk|done].
  - unfold on_response, relay_response, count_response. destruct res; [track|]. destruct (_ && _); track.
  - unfold on_101_written. destruct ec; [track|]. apply tracks_bridge. track.
  - unfold on_response_written. by apply tracks_after, tracks_finish.
  - by apply tracks_after.
  - unfold on_drain_read. destruct (done_ r); [done|]. destruct res as [[|c s]|e]; [track| |track].
    apply tracks_drain. track.
Qed.
End handlers.

(** What is in flight tells whether there is a backend. *)
Lemma pending_ready r k pre post : inv r → crashed r = false → pending r = pre ++ k :: post → ready k r.
Proof.
  intros Hi Hc Hp Hw. destruct (inv_pending _ Hi Hc) as [E _|k' E Hk|b [Hb _] _].
  - rewrite E in Hp. by destruct pre.
  - rewrite E in Hp. destruct pre as [|? [|]]; simplify_eq/=. destruct k; cbn in Hk, Hw; try done; apply Hk.
  - rewrite Hp in Hb. apply Forall_app in Hb as [_ Hb]. apply Forall_cons_1 in Hb as [Hb _].
    destruct k; try done; destruct Hb; done.
Qed.

(** Every reachable session accounts for its calls. *)
Lemma reachable_tracks h1 rt timeout r : reachable h1 rt timeout r →
  ∃ d a, tracks [] d a r.
Proof.
  unfold reachable. intros Hr. remember (start (new_relay h1 rt timeout)) as r0 eqn:E.
  assert (inv r0 ∧ ∃ d a, tracks [] d a r0) as Hi.
  { subst. split; [by apply (relay_reachable_inv h1 rt timeout), rtc_refl|]. exists 0, [].
    unfold start, request_phase. rewrite goto_phase_eq, kick_eq. split_and!; [apply suffix_nil|done..]. }
  clear E. induction Hr as [r0|r0 r1 r2 Hs _ IH]; [apply Hi|]. apply IH. destruct Hi as [Hi (d & a & Ht)].
  split; [by eapply relay_step_inv|].
  destruct Hs as [r0 r1 k x pre post Hc Hp Hx|r0 Hc _|r0 Hc].
  - eexists _, _. eapply tracks_resume; [|by eapply tracks_take|exact Hx].
    intros Hw. exact (pending_ready _ _ _ _ Hi Hc Hp Hw).
  - exists d, a. track.
  - exists d, a. by apply tracks_graceful_close.
Qed.
