(* ===== verification/Worker.v ===== *)
(** * The relays of a worker and the pool they share
    (src/src/proxy/relay_session.cpp, src/src/proxy/upstream_pool.cpp)

    The composition of [RelaySession] with [UpstreamPool]: what a session's
    handler calls on the pool ([since], the new part of its log) is carried out
    on the pool, in order ([serves]); what the pool answers is delivered to the
    session that asked.  The pool's model lets a client give back only a stream
    it holds; here this is not assumed but follows from the sessions' own
    discipline ([RelayTrace]).

    The source runs a connect callback inside the call that asks, when a pooled
    stream is at hand, or from the completion of a connect.  Here an answer is
    first recorded in [w_answers] and then delivered, with anything in between:
    more interleavings than the source has, so what holds here holds there. *)

From S2P Require Import Prelude CppStd Transport HttpMessage H1Codec Config Router Stats UpstreamPool.
From S2P Require Import RelaySession RelayTheorems RelayTrace.

(** A callback the pool has called, not yet run by its session. *)
Record answer := Answer {
  a_cb : nat;
  a_res : error_code + nat;
  a_ep : BackendEndpoint;
  a_from_pool : bool;
}.

Record worker := Worker {
  w_sys : system;
  w_relays : list RelaySession;
  w_answers : list answer;
  w_asks : list (nat * nat);           (** callbacks not yet run, with their sessions *)
}.

(** The callbacks among what the pool does; an unknown group gets [BackendEndpoint{}]. *)
Definition answers_of (es : list effect) : list answer :=
  omap (λ e, match e with
             | Called cb r ep fp => Some (Answer cb r (default (Endpoint [] [] 0 1 TCP) ep) fp)
             | _ => None
             end) es.

Definition answer_streams (l : list answer) : list nat := concat (map (λ x, result_streams (a_res x)) l).

(** A pool operation is carried out. *)
Definition pool_call (r : UpstreamPool * list effect) (before : system) (w : worker) : worker :=
  Worker (perform r before) (w_relays w) (answers_of (snd r) ++ w_answers w) (w_asks w).

Definition set_sys (sy : system) (w : worker) : worker := Worker sy (w_relays w) (w_answers w) (w_asks w).
Definition set_asks (l : list (nat * nat)) (w : worker) : worker := Worker (w_sys w) (w_relays w) (w_answers w) l.
Definition set_relay (i : nat) (r : RelaySession) (w : worker) : worker :=
  Worker (w_sys w) (<[i := r]> (w_relays w)) (w_answers w) (w_asks w).

(** The calls made between two logs, oldest first. *)
Definition since (l l' : list action) : list action := rev (take (length l' - length l) l').

(** The stream a call gives up. *)
Definition disposes (a : action) : option nat :=
  match a with Release _ b | ShutdownBackend b => Some b | _ => None end.

Section worker.
Context (resolvable : BackendEndpoint → bool) (rt : Router.t) (timeout : Z).

(** The pool carries out one call of session [i]. *)
Inductive serve (i : nat) : action → worker → worker → Prop :=
  | serve_connect w eng id cb : cb ∉ asked (w_sys w) → fresh_eng (w_sys w) eng →
      serve i (Connect id) w
        (set_asks ((cb, i) :: w_asks w)
          (pool_call (async_connect resolvable eng id cb (sys_pool (w_sys w))) (ask cb (w_sys w)) w))
  | serve_connect_fresh w eng ep cb : cb ∉ asked (w_sys w) → fresh_eng (w_sys w) eng →
      serve i (ConnectFresh ep) w
        (set_asks ((cb, i) :: w_asks w)
          (pool_call (async_connect_fresh resolvable eng ep cb (sys_pool (w_sys w))) (ask cb (w_sys w)) w))
  | serve_release w ep b rest : held (w_sys w) ≡ₚ b :: rest →
      serve i (Release ep b) w (set_sys (set_pool (release ep b (sys_pool (w_sys w))) (set_held rest (w_sys w))) w)
  | serve_shutdown w b rest : held (w_sys w) ≡ₚ b :: rest →
      serve i (ShutdownBackend b) w (set_sys (set_held rest (w_sys w)) w)
  | serve_other w a : is_connect a = false → disposes a = None → serve i a w w.

Inductive serves (i : nat) : list action → worker → worker → Prop :=
  | serves_nil w : serves i [] w w
  | serves_cons a acts w w1 w2 : serve i a w w1 → serves i acts w1 w2 → serves i (a :: acts) w w2.

(** A handler of session [i] took it from [r] to [r']. *)
Definition handled (i : nat) (r r' : RelaySession) (w w' : worker) : Prop :=
  serves i (since (log r) (log r')) (set_relay i r' w) w'.

Inductive wstep : worker → worker → Prop :=
  (** the configuration, and events the pool waits for *)
  | w_backend w b : wstep w (set_sys (set_pool (add_backend b (sys_pool (w_sys w))) (w_sys w)) w)
  | w_tcp_done w cb target r rest :
      connecting (w_sys w) ≡ₚ (cb, target) :: rest → (∀ st, r = inr (Some st) → fresh_stream (w_sys w) st) →
      wstep w (pool_call (on_tcp_connected target cb r (sys_pool (w_sys w))) (set_connecting rest (w_sys w)) w)
  | w_opened w eng s ep fp cb stream rest :
      opening (w_sys w) ≡ₚ Opening s ep fp cb :: rest → fresh_eng (w_sys w) eng →
      (∀ st, stream = Some st → fresh_stream (w_sys w) st ∧ s ∉ closed (w_sys w)) →
      wstep w (pool_call (on_stream_opened eng s ep fp cb stream (sys_pool (w_sys w))) (set_opening rest (w_sys w)) w)
  | w_closed w s ep rest : watched (w_sys w) ≡ₚ (s, ep) :: rest →
      wstep w (pool_call (on_session_closed s ep (sys_pool (w_sys w))) (close_session s rest (w_sys w)) w)
  (** sessions *)
  | w_accept w h1 :
      wstep w (Worker (w_sys w) (w_relays w ++ [start (new_relay h1 rt timeout)]) (w_answers w) (w_asks w))
  | w_event w w' i r r' k x pre post :
      w_relays w !! i = Some r → crashed r = false → pending r = pre ++ k :: post → is_wait k = false →
      resume k x (set_pending (pre ++ post) r) = Some r' → handled i r r' w w' → wstep w w'
  | w_timeout w w' i r : w_relays w !! i = Some r → crashed r = false → (0 < idle_timeout_ r)%Z →
      handled i r (teardown (set_timer_armed false r)) w w' → wstep w w'
  | w_stop w w' i r : w_relays w !! i = Some r → crashed r = false → handled i r (graceful_close r) w w' → wstep w w'
  | w_deliver w w' i r r' k x rest asks pre post :
      w_relays w !! i = Some r → crashed r = false → pending r = pre ++ k :: post → is_wait k = true →
      w_answers w ≡ₚ x :: rest → w_asks w ≡ₚ (a_cb x, i) :: asks →
      resume k (Connected (a_res x) (a_ep x) (a_from_pool x)) (set_pending (pre ++ post) r) = Some r' →
      handled i r r' (Worker (w_sys w) (w_relays w) rest asks) w' → wstep w w'.

Definition new_worker : worker := Worker init [] [] [].

Definition worker_reachable : worker → Prop := rtc wstep new_worker.

(** ** The invariant *)

(** Every callback is with a session that waits, or has been run. *)
Definition accounted (w : worker) : Prop :=
  ∃ run, asked (w_sys w) ≡ₚ run ++ map fst (w_asks w) ∧ answered (w_sys w) ≡ₚ run ++ map a_cb (w_answers w).

Definition asks_of (i : nat) (w : worker) : nat := length (filter (λ p, p.2 = i) (w_asks w)).

Record winv (w : worker) : Prop := {
  wi_pool : UpstreamPool.reachable resolvable (w_sys w);
  wi_relays : Forall (λ r, ∃ h1, RelaySession.reachable h1 rt timeout r) (w_relays w);
  wi_held : held (w_sys w) ≡ₚ answer_streams (w_answers w) ++ concat (map current (w_relays w));
  wi_accounted : accounted w;
  wi_waits : ∀ i r, w_relays w !! i = Some r → waits (pending r) = asks_of i w;
  wi_known : Forall (λ p, p.2 < length (w_relays w)) (w_asks w);
}.

(** ** Lemmas: the pool's side *)

Lemma answer_streams_app l k : answer_streams (l ++ k) = answer_streams l ++ answer_streams k.
Proof. unfold answer_streams. by rewrite map_app, concat_app. Qed.

Lemma perform_books r sy :
  asked (perform r sy) = asked sy ∧ answered (perform r sy) ≡ₚ map a_cb (answers_of (snd r)) ++ answered sy ∧
  held (perform r sy) ≡ₚ answer_streams (answers_of (snd r)) ++ held sy.
Proof.
  destruct r as [p es]. unfold perform. cbn [fst snd].
  assert (asked (set_pool p sy) = asked sy ∧ answered (set_pool p sy) = answered sy ∧ held (set_pool p sy) = held sy)
    as (<- & <- & <-) by done.
  generalize (set_pool p sy). clear. induction es as [|e es IH]; intros sy; cbn; [done|].
  destruct (IH (apply_effect sy e)) as (-> & -> & ->).
  destruct e; cbn; try done. split_and!; [done|by rewrite Permutation_middle|].
  change (answer_streams (?x :: ?l)) with (result_streams (a_res x) ++ answer_streams l). cbn.
  rewrite !app_assoc. f_equiv. apply Permutation_app_comm.
Qed.

Lemma accounted_call r before w : asked before = asked (w_sys w) → answered before = answered (w_sys w) →
  accounted w → accounted (pool_call r before w).
Proof.
  intros H1 H2 (run & Ha & Hb). destruct (perform_books r before) as (P1 & P2 & _). exists run. cbn.
  rewrite P1, P2, H1, H2, Ha, Hb. split; [done|]. rewrite map_app, !app_assoc. f_equiv. apply Permutation_app_comm.
Qed.

(** ** Lemmas: serving a session's calls *)

Definition attach_of (a : action) : list nat := match a with AttachBackend b | AttachTunnel b => [b] | _ => [] end.

(** Calls the pool has no part in. *)
Lemma serves_quiet i acts w : forallb (λ a, negb (is_connect a) && bool_decide (disposes a = None)) acts = true →
  serves i acts w w.
Proof.
  induction acts as [|a acts IH]; cbn; [constructor|]. intros [[H1 H2]%andb_prop H3]%andb_prop.
  econstructor; [|by apply IH]. apply serve_other; [by destruct (is_connect a)|by apply bool_decide_eq_true in H2].
Qed.

(** What serving one call keeps. *)
Record serve_spec (i : nat) (a : action) (w w' : worker) : Prop := {
  ss_pool : UpstreamPool.reachable resolvable (w_sys w) → UpstreamPool.reachable resolvable (w_sys w');
  ss_relays : w_relays w' = w_relays w;
  ss_accounted : accounted w → accounted w';
  ss_asks : ∃ new, w_asks w' = new ++ w_asks w ∧ map snd new = replicate (Nat.b2n (is_connect a)) i;
  ss_held : ∀ l l' others, own a l = Some l' →
    held (w_sys w) ≡ₚ answer_streams (w_answers w) ++ attach_of a ++ l ++ others →
    held (w_sys w') ≡ₚ answer_streams (w_answers w') ++ l' ++ others;
}.

Lemma serve_call_spec i a cb r w : is_connect a = true →
  UpstreamPool.step resolvable (w_sys w) (perform r (ask cb (w_sys w))) →
  serve_spec i a w (set_asks ((cb, i) :: w_asks w) (pool_call r (ask cb (w_sys w)) w)).
Proof.
  intros Ha Hs. destruct (perform_books r (ask cb (w_sys w))) as (P1 & P2 & P3). split.
  - intros Hr. by eapply rtc_r.
  - done.
  - intros (run & H1 & H2). exists run. cbn. rewrite P1, P2. cbn. rewrite H1, H2. split; [by rewrite Permutation_middle|].
    rewrite map_app, !app_assoc. f_equiv. apply Permutation_app_comm.
  - exists [(cb, i)]. by rewrite Ha.
  - intros l l' others Ho Hh. cbn [w_sys w_answers pool_call set_asks]. rewrite P3. cbn [held ask]. rewrite Hh, answer_streams_app.
    destruct a; try done; cbn in Ho; simplify_eq; cbn [attach_of app]; by rewrite app_assoc.
Qed.

Lemma serve_dispose_spec i a b rest sy' w : disposes a = Some b → held (w_sys w) ≡ₚ b :: rest →
  UpstreamPool.step resolvable (w_sys w) sy' → held sy' = rest → asked sy' = asked (w_sys w) →
  answered sy' = answered (w_sys w) → serve_spec i a w (set_sys sy' w).
Proof.
  intros Ha Hb Hs H1 H2 H3. split.
  - intros Hr. by eapply rtc_r.
  - done.
  - intros (run & A1 & A2). exists run. cbn. by rewrite H2, H3.
  - exists []. by destruct a.
  - intros l l' others Ho Hh. cbn. rewrite H1. apply (Permutation_cons_inv (a := b)). rewrite <- Hb, Hh.
    destruct a; try done; cbn in Ha, Ho; simplify_eq; case_decide; simplify_eq; cbn; by rewrite Permutation_middle.
Qed.

Lemma serve_ok i a w w' : serve i a w w' → serve_spec i a w w'.
Proof.
  intros [w0 eng id cb H1 H2|w0 eng ep cb H1 H2|w0 ep b rest H|w0 b rest H|w0 a0 H1 H2].
  - by apply serve_call_spec, step_connect.
  - by apply serve_call_spec, step_connect_fresh.
  - eapply serve_dispose_spec; [done|exact H|exact (step_release _ _ ep b rest H)|done..].
  - eapply serve_dispose_spec; [done|exact H|exact (step_drop _ _ b rest H)|done..].
  - split; [done..|exists []; by rewrite H1|]. intros l l' others Ho ->.
    destruct a0; try done; cbn in Ho; simplify_eq; cbn [attach_of app]; try done.
    all: destruct l; simplify_eq; done.
Qed.

(** The same for a whole handler. *)
Fixpoint owns (acts : list action) (l : list nat) : option (list nat) :=
  match acts with [] => Some l | a :: acts' => own a l ≫= owns acts' end.

Definition attaches (acts : list action) : list nat := concat (map attach_of acts).

Lemma serves_ok i acts w w' : serves i acts w w' →
  (UpstreamPool.reachable resolvable (w_sys w) → UpstreamPool.reachable resolvable (w_sys w')) ∧
  w_relays w' = w_relays w ∧ (accounted w → accounted w') ∧
  (∃ new, w_asks w' = new ++ w_asks w ∧ map snd new = replicate (connects acts) i) ∧
  (∀ l l' others, owns acts l = Some l' →
    held (w_sys w) ≡ₚ answer_streams (w_answers w) ++ attaches acts ++ l ++ others →
    held (w_sys w') ≡ₚ answer_streams (w_answers w') ++ l' ++ others).
Proof.
  induction 1 as [w|a acts w w1 w2 Hs _ IH].
  { split_and!; [done..|by exists []|]. intros l l' others [= <-] H. done. }
  apply serve_ok in Hs as [S1 S2 S3 (new1 & S4 & S5) S6]. destruct IH as (I1 & I2 & I3 & (new2 & I4 & I5) & I6).
  split_and!; [auto|congruence|auto| |].
  - exists (new2 ++ new1). rewrite I4, S4, app_assoc. split; [done|]. rewrite map_app, I5, S5, <- replicate_add.
    f_equal. unfold connects. cbn [List.filter]. destruct (is_connect a); cbn [length Nat.b2n]; lia.
  - intros l l' others Ho Hh. cbn in Ho. destruct (own a l) as [l1|] eqn:E; [|done]. cbn in Ho.
    apply (I6 l1 l' others Ho). rewrite (S6 l l1 (attaches acts ++ others) E).
    + f_equiv. by rewrite !app_assoc, (Permutation_app_comm l1).
    + rewrite Hh. f_equiv. change (attaches (a :: acts)) with (attach_of a ++ attaches acts).
      rewrite <- app_assoc. f_equiv. by rewrite !app_assoc, (Permutation_app_comm l).
Qed.

(** A disciplined session is always served. *)
Lemma serves_exist i acts : ∀ l l' others w, owns acts l = Some l' →
  held (w_sys w) ≡ₚ answer_streams (w_answers w) ++ attaches acts ++ l ++ others → ∃ w', serves i acts w w'.
Proof.
  induction acts as [|a acts IH]; intros l l' others w Ho Hh; [by exists w; constructor|].
  cbn in Ho. destruct (own a l) as [l1|] eqn:E; [|done]. cbn in Ho.
  assert (∃ w1, serve i a w w1) as [w1 Hs].
  { set (cb := fresh (asked (w_sys w))). assert (cb ∉ asked (w_sys w)) as Hcb by apply infinite_is_fresh.
    assert (fresh_eng (w_sys w) None) as Hn by done.
    destruct (disposes a) as [b|] eqn:Ed.
    - assert (l = [b] ∧ attach_of a = []) as [-> Hat] by (destruct a; simplify_eq/=; by case_decide).
      assert (∃ rest, held (w_sys w) ≡ₚ b :: rest) as [rest Hr].
      { eexists. rewrite Hh. rewrite app_assoc. cbn [app]. by rewrite <- Permutation_middle. }
      destruct a; simplify_eq/=; eexists; by econstructor.
    - destruct (is_connect a) eqn:Ec; [|by exists w; constructor].
      destruct a; try done; eexists; [by eapply serve_connect|by eapply serve_connect_fresh]. }
  destruct (serve_ok _ _ _ _ Hs) as [_ _ _ _ S6].
  destruct (IH l1 l' others w1 Ho) as [w2 H2]; [|by exists w2; econstructor].
  rewrite (S6 l l1 (attaches acts ++ others) E).
  - f_equiv. by rewrite !app_assoc, (Permutation_app_comm l1).
  - rewrite Hh. f_equiv. change (attaches (a :: acts)) with (attach_of a ++ attaches acts).
    rewrite <- app_assoc. f_equiv. by rewrite !app_assoc, (Permutation_app_comm l).
Qed.

(** ** Lemmas: the session's side *)

Lemma since_app new l : since l (new ++ l) = rev new.
Proof. unfold since. rewrite length_app, Nat.add_sub. by rewrite take_app_length. Qed.

Lemma owns_app acts1 acts2 l : owns (acts1 ++ acts2) l = owns acts1 l ≫= owns acts2.
Proof. revert l. induction acts1 as [|a acts1 IH]; intros l; cbn; [done|]. by destruct (own a l); cbn. Qed.

Lemma holds_app new l : holds (new ++ l) = holds l ≫= owns (rev new).
Proof.
  induction new as [|a new IH]; cbn; [by destruct (holds l)|]. rewrite IH.
  destruct (holds l) as [h|]; [|done]. cbn. rewrite owns_app. destruct (owns (rev new) h) as [h'|]; [|done]. cbn. by destruct (own a h').
Qed.

Lemma attaches_rev new : attaches (rev new) ≡ₚ attached new.
Proof.
  unfold attaches. rewrite <- (Permutation_rev new). induction new as [|a new IH]; [done|]. cbn.
  destruct a; cbn; rewrite IH; done.
Qed.

Lemma attached_app new l : attached (new ++ l) = attached new ++ attached l.
Proof. induction new as [|a new IH]; [done|]. destruct a; cbn; by rewrite IH. Qed.

Lemma connects_app l k : connects (l ++ k) = connects l + connects k.
Proof. unfold connects. by rewrite List.filter_app, length_app. Qed.

Lemma connects_rev l : connects (rev l) = connects l.
Proof.
  induction l as [|a l IH]; [done|]. cbn [rev]. rewrite connects_app, IH. unfold connects. cbn [List.filter].
  destruct (is_connect a); cbn [length]; lia.
Qed.

(** What a handler that keeps track of its calls does to the pool. *)
Definition disciplined (wk : nat) (att : list nat) (r r' : RelaySession) : Prop :=
  let acts := since (log r) (log r') in
  owns acts (current r) = Some (current r') ∧ attaches acts ≡ₚ att ∧
  waits (pending r') + wk = connects acts + waits (pending r).

Lemma tracks_disciplined r r' d a wk att : tracks [] d a r → tracks (log r) (d + wk) (att ++ a) r' →
  disciplined wk att r r'.
Proof.
  intros (_ & H2 & H3 & H4) ([new Hn] & K2 & K3 & K4). unfold disciplined. rewrite Hn, since_app.
  rewrite Hn in K2, K3, K4. rewrite holds_app, H2 in K2. rewrite attached_app, H3 in K3. apply app_inv_tail in K3 as <-.
  rewrite connects_app in K4. rewrite connects_rev. split_and!; [done|apply attaches_rev|lia].
Qed.

Lemma tracks_from r d a : tracks [] d a r → tracks (log r) d a r.
Proof. intros (_ & H). by split. Qed.

(** Completions, the idle timer and a server stop are disciplined. *)
Lemma resume_disciplined h1 r r' k x pre post : RelaySession.reachable h1 rt timeout r → crashed r = false →
  pending r = pre ++ k :: post → resume k x (set_pending (pre ++ post) r) = Some r' →
  disciplined (Nat.b2n (is_wait k)) (delivered x) r r'.
Proof.
  intros Hr Hc Hp Hx. destruct (reachable_tracks _ _ _ _ Hr) as (d & a & Ht).
  apply (tracks_disciplined r r' d a); [done|].
  eapply tracks_resume; [|by apply tracks_take, tracks_from|exact Hx].
  intros Hw. exact (pending_ready _ _ _ _ (relay_reachable_inv _ _ _ _ Hr) Hc Hp Hw).
Qed.

Lemma timeout_disciplined h1 r : RelaySession.reachable h1 rt timeout r →
  disciplined 0 [] r (teardown (set_timer_armed false r)).
Proof.
  intros Hr. destruct (reachable_tracks _ _ _ _ Hr) as (d & a & Ht). apply (tracks_disciplined r _ d a); [done|].
  rewrite Nat.add_0_r. apply tracks_from in Ht. track.
Qed.

Lemma stop_disciplined h1 r : RelaySession.reachable h1 rt timeout r → disciplined 0 [] r (graceful_close r).
Proof.
  intros Hr. destruct (reachable_tracks _ _ _ _ Hr) as (d & a & Ht). apply (tracks_disciplined r _ d a); [done|].
  rewrite Nat.add_0_r. by apply tracks_graceful_close, tracks_from.
Qed.

Lemma currents_split i r (rs : list RelaySession) : rs !! i = Some r →
  concat (map current rs) ≡ₚ current r ++ concat (map current (delete i rs)).
Proof. intros Hi. rewrite (delete_Permutation _ _ _ Hi) at 1. done. Qed.

Lemma currents_insert i r r' (rs : list RelaySession) : rs !! i = Some r →
  concat (map current (<[i := r']> rs)) ≡ₚ current r' ++ concat (map current (delete i rs)).
Proof.
  intros Hi. pose proof (lookup_lt_Some _ _ _ Hi) as Hlt.
  rewrite (currents_split i r'); [|by apply list_lookup_insert_eq].
  by rewrite !delete_take_drop, take_insert_ge, drop_insert_lt by lia.
Qed.

Lemma asks_of_app i new w w' : w_asks w' = new ++ w_asks w → asks_of i w' = length (filter (λ p, p.2 = i) new) + asks_of i w.
Proof. intros E. unfold asks_of. by rewrite E, list.filter_app, length_app. Qed.

Lemma new_asks j i (new : list (nat * nat)) n : map snd new = replicate n i →
  length (filter (λ p, p.2 = j) new) = if decide (i = j) then n else 0.
Proof.
  revert n. induction new as [|p new IH]; intros [|n] E; cbn in E; try discriminate; [by case_decide|].
  injection E as E1 E2. rewrite filter_cons. specialize (IH n E2). rewrite E1. case_decide; cbn; by rewrite IH.
Qed.

Lemma no_asks_beyond n j (l : list (nat * nat)) : Forall (λ p, p.2 < n) l → n ≤ j → filter (λ p, p.2 = j) l = [].
Proof.
  intros H Hj. induction H as [|p l Hp _ IH]; [done|]. rewrite filter_cons, IH. case_decide; [lia|done].
Qed.

(** A handler keeps the invariant; [w] is the state with the answer it was
    delivered, if any, already taken off. *)
Lemma handled_inv i r r' wk att w w' : w_relays w !! i = Some r →
  UpstreamPool.reachable resolvable (w_sys w) →
  Forall (λ r, ∃ h1, RelaySession.reachable h1 rt timeout r) (<[i := r']> (w_relays w)) →
  held (w_sys w) ≡ₚ answer_streams (w_answers w) ++ att ++ concat (map current (w_relays w)) →
  accounted w → (∀ j q, w_relays w !! j = Some q → waits (pending q) = asks_of j w + if decide (i = j) then wk else 0) →
  Forall (λ p, p.2 < length (w_relays w)) (w_asks w) →
  disciplined wk att r r' → handled i r r' w w' → winv w'.
Proof.
  intros Hi Hp Hrel Hh Ha Hw Hk (D1 & D2 & D3) Hs. apply serves_ok in Hs as (S1 & S2 & S3 & (new & S4 & S5) & S6).
  cbn [w_relays w_sys w_asks w_answers set_relay] in *. pose proof (lookup_lt_Some _ _ _ Hi) as Hlt. split.
  - by apply S1.
  - by rewrite S2.
  - rewrite S2, (currents_insert i r r') by done. apply (S6 (current r)); [done|].
    rewrite Hh, D2, (currents_split i r) by done. done.
  - by apply S3.
  - intros j q. rewrite S2. rewrite (asks_of_app j new w w' S4), (new_asks j i new _ S5).
    destruct (decide (i = j)) as [<-|Hne].
    + rewrite list_lookup_insert_eq by done. intros [= <-]. specialize (Hw i r Hi). rewrite decide_True in Hw by done. lia.
    + rewrite list_lookup_insert_ne by done. intros Hq. specialize (Hw j q Hq). rewrite decide_False in Hw by done. lia.
  - rewrite S2, S4, length_insert. apply Forall_app. split; [|done]. clear -S5 Hlt. revert S5. generalize (connects (since (log r) (log r'))).
    induction new as [|p new IH]; intros n E; [constructor|]. destruct n; [discriminate|]. cbn in E. injection E as E1 E2.
    constructor; [lia|by eapply IH].
Qed.

Lemma accounted_deliver sy rs x rest asks i answers wasks : answers ≡ₚ x :: rest → wasks ≡ₚ (a_cb x, i) :: asks →
  accounted (Worker sy rs answers wasks) → accounted (Worker sy rs rest asks).
Proof.
  intros E1 E2 (run & H1 & H2). exists (a_cb x :: run). cbn in *. rewrite H1, H2, E1, E2. cbn.
  by rewrite <- !Permutation_middle.
Qed.

Lemma winv_call r before w : winv w → UpstreamPool.step resolvable (w_sys w) (perform r before) →
  asked before = asked (w_sys w) → answered before = answered (w_sys w) → held before = held (w_sys w) →
  winv (pool_call r before w).
Proof.
  intros [H1 H2 H3 H4 H5 H6] Hs E1 E2 E3. destruct (perform_books r before) as (_ & _ & P3). split; try done.
  - by eapply rtc_r.
  - cbn [w_sys w_answers pool_call w_relays]. by rewrite P3, E3, H3, answer_streams_app, app_assoc.
  - by apply accounted_call.
Qed.

(** Every other relay keeps its bookkeeping when the handler of [i] delivers
    nothing. *)
Lemma winv_handled i r r' w w' : winv w → w_relays w !! i = Some r → RelaySession.step r r' →
  disciplined 0 [] r r' → handled i r r' w w' → winv w'.
Proof.
  intros [H1 H2 H3 H4 H5 H6] Hi Hs Hd Hh. eapply (handled_inv i r r' 0 []); try done.
  - apply Forall_insert; [done|]. destruct (Forall_lookup_1 _ _ _ _ H2 Hi) as [h1 Hr]. exists h1. by eapply rtc_r.
  - intros j q Hq. rewrite (H5 j q Hq). case_decide; lia.
Qed.

Lemma wstep_inv w w' : wstep w w' → winv w → winv w'.
Proof.
  intros Hs Hinv. destruct Hs as [w b|w cb target r rest Hc Hf|w eng s ep fp cb stream rest Ho Hf Hst|w s ep rest Hw|w h1
    |w w' i r r' k x pre post Hi Hc Hp Hk Hx Hh|w w' i r Hi Hc Ht Hh|w w' i r Hi Hc Hh
    |w w' i r r' k x rest asks pre post Hi Hc Hp Hk Ha Hb Hx Hh].
  - destruct Hinv as [H1 H2 H3 H4 H5 H6]. split; try done. eapply rtc_r; [exact H1|apply step_backend].
  - apply winv_call; try done. by apply step_tcp_done.
  - apply winv_call; try done. by apply step_opened.
  - apply winv_call; try done. by apply step_closed.
  - destruct Hinv as [H1 H2 H3 H4 H5 H6]. split; try done; cbn [w_sys w_relays w_answers w_asks].
    + apply Forall_app. split; [done|]. constructor; [|constructor]. exists h1. apply rtc_refl.
    + rewrite map_app, concat_app. cbn. unfold start, request_phase. rewrite goto_phase_eq, kick_eq. cbn. by rewrite app_nil_r.
    + intros j q [Hq|(Hge & Hq)]%lookup_app_Some; [by apply H5|]. apply list_lookup_singleton_Some in Hq as [Hj <-].
      unfold start, request_phase. rewrite goto_phase_eq, kick_eq. cbn. unfold asks_of. cbn [w_asks].
      by rewrite (no_asks_beyond _ _ _ H6 Hge).
    + eapply List.Forall_impl; [|exact H6]. intros p Hlt. cbn in *. rewrite length_app. lia.
  - destruct (Forall_lookup_1 _ _ _ _ (wi_relays _ Hinv) Hi) as [h1 Hr].
    pose proof (resume_disciplined _ _ _ _ _ _ _ Hr Hc Hp Hx) as Hd. rewrite Hk in Hd.
    assert (delivered x = []) as E by (destruct x; [done..| |done|done]; by destruct k).
    rewrite E in Hd. eapply winv_handled; [done..| |exact Hd|done]. by eapply step_resume.
  - destruct (Forall_lookup_1 _ _ _ _ (wi_relays _ Hinv) Hi) as [h1 Hr].
    eapply winv_handled; [done..|by apply step_timeout|by eapply timeout_disciplined|done].
  - destruct (Forall_lookup_1 _ _ _ _ (wi_relays _ Hinv) Hi) as [h1 Hr].
    eapply winv_handled; [done..|by apply step_stop|by eapply stop_disciplined|done].
  - destruct Hinv as [H1 H2 H3 H4 H5 H6]. destruct (Forall_lookup_1 _ _ _ _ H2 Hi) as [h1 Hr].
    pose proof (resume_disciplined _ _ _ _ _ _ _ Hr Hc Hp Hx) as Hd. rewrite Hk in Hd.
    apply (handled_inv i r r' 1 (result_streams (a_res x)) (Worker (w_sys w) (w_relays w) rest asks)); cbn [w_sys w_relays w_answers w_asks]; try done.
    + apply Forall_insert; [done|]. exists h1. eapply rtc_r; [exact Hr|by eapply step_resume].
    + rewrite H3, app_assoc. apply Permutation_app_tail. unfold answer_streams. rewrite Ha. cbn. apply Permutation_app_comm.
    + destruct w. by eapply accounted_deliver.
    + intros j q Hq. rewrite (H5 j q Hq). unfold asks_of. cbn [w_asks]. rewrite Hb, filter_cons. cbn [snd].
      case_decide; cbn [length]; lia.
    + rewrite Hb in H6. by apply Forall_cons_1 in H6 as [_ H6].
Qed.

Lemma worker_inv w : worker_reachable w → winv w.
Proof.
  unfold worker_reachable. intros Hr. remember new_worker as w0 eqn:E. assert (winv w0) as Hi.
  { subst. split; try done. apply rtc_refl. by exists []. }
  clear E. induction Hr as [|w0 w1 w2 Hs _ IH]; [done|]. apply IH. by eapply wstep_inv.
Qed.
End worker.

(** ** Properties *)

Section properties.
Context (resolvable : BackendEndpoint → bool) (rt : Router.t) (timeout : Z).

(** The callbacks not yet run are with the pool or answered. *)
Lemma asks_out w : winv resolvable rt timeout w →
  map fst (w_asks w) ≡ₚ map a_cb (w_answers w) ++ lost (w_sys w) ++ map fst (connecting (w_sys w)) ++
    map o_cb (opening (w_sys w)) ∧ NoDup (map fst (w_asks w)).
Proof.
  intros [H1 _ _ (run & A1 & A2) _ _]. apply pool_reachable_inv in H1.
  pose proof (UpstreamPool.inv_tokens _ _ H1) as Ht. pose proof (UpstreamPool.inv_asked _ _ H1) as Hn. cbn in Ht.
  rewrite A1 in Ht, Hn. unfold tokens in Ht. rewrite A2, <- app_assoc in Ht. apply Permutation_app_inv_l in Ht.
  apply list.NoDup_app in Hn as (_ & _ & Hn). done.
Qed.

(** Where the pool's answers go. *)
Lemma answer_has_session w x : winv resolvable rt timeout w → x ∈ w_answers w →
  ∃ i r k pre post rest asks, w_relays w !! i = Some r ∧ pending r = pre ++ k :: post ∧ is_wait k = true ∧
    w_answers w ≡ₚ x :: rest ∧ w_asks w ≡ₚ (a_cb x, i) :: asks.
Proof.
  intros Hinv Hx. destruct (asks_out _ Hinv) as [Ht _]. destruct Hinv as [_ _ _ _ H5 H6].
  assert (a_cb x ∈ map fst (w_asks w)) as Hin.
  { rewrite Ht. apply elem_of_app. left. by apply list_elem_of_fmap_2. }
  apply list_elem_of_fmap in Hin as ([cb i] & Ecb & Hin). cbn in Ecb. subst cb.
  rewrite List.Forall_forall in H6. pose proof (H6 _ (proj1 (list_elem_of_In _ _) Hin)) as Hlt. cbn in Hlt.
  apply lookup_lt_is_Some_2 in Hlt as [r Hr]. specialize (H5 i r Hr).
  apply elem_of_Permutation in Hx as [rest Hrest]. apply elem_of_Permutation in Hin as [asks Hasks].
  assert (waits (pending r) ≠ 0) as Hw.
  { rewrite H5. unfold asks_of. rewrite Hasks, filter_cons. cbn. by rewrite decide_True. }
  assert (∃ pre k post, pending r = pre ++ k :: post ∧ is_wait k = true) as (pre & k & post & Hp & Hk).
  { clear -Hw. induction (pending r) as [|k l IH]; [done|]. destruct (is_wait k) eqn:E; [by exists [], k, l|].
    unfold waits in Hw. cbn in Hw. rewrite E in Hw. destruct (IH Hw) as (pre & k' & post & -> & Hk). by exists (k :: pre), k', post. }
  by exists i, r, k, pre, post, rest, asks.
Qed.

(** A disciplined handler is carried out, and the session ends up where the
    handler left it. *)
Lemma handled_exists i r r' wk att w : w_relays w !! i = Some r → disciplined wk att r r' →
  held (w_sys w) ≡ₚ answer_streams (w_answers w) ++ att ++ concat (map current (w_relays w)) →
  ∃ w', handled resolvable i r r' w w' ∧ w_relays w' !! i = Some r'.
Proof.
  intros Hi (D1 & D2 & _) Hh. unfold handled.
  destruct (serves_exist resolvable i (since (log r) (log r')) (current r) (current r')
    (concat (map current (delete i (w_relays w)))) (set_relay i r' w) D1) as [w' Hs].
  { cbn [w_sys w_answers set_relay]. rewrite Hh, D2, (currents_split i r) by done. done. }
  exists w'. split; [done|]. apply serves_ok in Hs as (_ & -> & _). cbn.
  apply list_lookup_insert_eq. by eapply lookup_lt_Some.
Qed.

(** C2: Across the sessions of a worker and the pool they share no backend
    connection is used twice: each stream is the backend of one session, is
    being delivered to one, or is idle in one queue of the pool. *)
Theorem worker_exclusive w : worker_reachable resolvable rt timeout w →
  NoDup (concat (map current (w_relays w)) ++ answer_streams (w_answers w) ++
         idle_streams (endpoints_ (sys_pool (w_sys w)))).
Proof.
  intros [H1 _ H3 _ _ _]%worker_inv. apply pool_reachable_inv in H1.
  eapply NoDup_Permutation_proper; [|exact (UpstreamPool.inv_streams _ _ H1)]. rewrite H3, <- app_assoc.
  rewrite !(app_assoc (concat _)), (Permutation_app_comm (concat _)). by rewrite <- !app_assoc.
Qed.

(** C6: A session that waits for a connection is not forgotten: it has one callback
    with the pool for each of the waits, and the callbacks of all sessions are
    exactly those with an answer on its way, a connect or a stream open in
    flight, or lost to an exception. *)
Theorem worker_waits_answered w : worker_reachable resolvable rt timeout w →
  map fst (w_asks w) ≡ₚ map a_cb (w_answers w) ++ lost (w_sys w) ++ map fst (connecting (w_sys w)) ++
    map o_cb (opening (w_sys w)) ∧
  NoDup (map fst (w_asks w)) ∧
  ∀ i r, w_relays w !! i = Some r → waits (pending r) = asks_of i w.
Proof.
  intros Hinv%worker_inv. destruct (asks_out _ Hinv) as [H1 H2]. split_and!; [done..|apply Hinv].
Qed.

(** C3: The sessions keep the pool's contract: the pool never refuses a call of a
    session.  Whatever completes for a session, when its idle timer expires and
    when the server stops it, the calls of its handler can be carried out, the
    streams it gives back being streams it holds; and each answer of the pool
    goes to a session that waits for one. *)
Theorem relay_always_served w : worker_reachable resolvable rt timeout w →
  (∀ i r, w_relays w !! i = Some r → crashed r = false →
    (∀ k x pre post r', pending r = pre ++ k :: post → is_wait k = false →
      resume k x (set_pending (pre ++ post) r) = Some r' →
      ∃ w', wstep resolvable rt timeout w w' ∧ w_relays w' !! i = Some r') ∧
    ((0 < idle_timeout_ r)%Z →
      ∃ w', wstep resolvable rt timeout w w' ∧ w_relays w' !! i = Some (teardown (set_timer_armed false r))) ∧
    (∃ w', wstep resolvable rt timeout w w' ∧ w_relays w' !! i = Some (graceful_close r))) ∧
  (∀ x, x ∈ w_answers w → ∃ i r k pre post, w_relays w !! i = Some r ∧ pending r = pre ++ k :: post ∧
    is_wait k = true ∧
    (crashed r = false → ∃ r' w', resume k (Connected (a_res x) (a_ep x) (a_from_pool x)) (set_pending (pre ++ post) r) = Some r' ∧
      wstep resolvable rt timeout w w' ∧ w_relays w' !! i = Some r')).
Proof.
  intros Hinv%worker_inv. destruct (Hinv) as [H1 H2 H3 H4 H5 H6]. split.
  - intros i r Hi Hc. destruct (Forall_lookup_1 _ _ _ _ H2 Hi) as [h1 Hr]. split_and!.
    + intros k x pre post r' Hp Hk Hx. pose proof (resume_disciplined _ _ _ _ _ _ _ _ _ Hr Hc Hp Hx) as Hd. rewrite Hk in Hd.
      assert (delivered x = []) as E by (destruct x; [done..| |done|done]; by destruct k).
      rewrite E in Hd. destruct (handled_exists i r r' 0 [] w Hi Hd H3) as (w' & Hh & Hw). exists w'.
      split; [by eapply w_event|done].
    + intros Ht. destruct (handled_exists i r _ 0 [] w Hi (timeout_disciplined _ _ _ _ Hr) H3) as (w' & Hh & Hw).
      exists w'. split; [by eapply w_timeout|done].
    + destruct (handled_exists i r _ 0 [] w Hi (stop_disciplined _ _ _ _ Hr) H3) as (w' & Hh & Hw).
      exists w'. split; [by eapply w_stop|done].
  - intros x Hx. destruct (answer_has_session w x Hinv Hx) as (i & r & k & pre & post & rest & asks & Hi & Hp & Hk & Hrest & Hasks).
    exists i, r, k, pre, post. split_and!; [done..|]. intros Hc. destruct (Forall_lookup_1 _ _ _ _ H2 Hi) as [h1 Hr].
    assert (∃ r', resume k (Connected (a_res x) (a_ep x) (a_from_pool x)) (set_pending (pre ++ post) r) = Some r') as [r' Hx']
      by (destruct k; try discriminate; by eexists).
    pose proof (resume_disciplined _ _ _ _ _ _ _ _ _ Hr Hc Hp Hx') as Hd.
    destruct (handled_exists i r r' _ _ (Worker (w_sys w) (w_relays w) rest asks) Hi Hd) as (w' & Hh & Hw).
    { cbn [w_sys w_answers w_relays]. rewrite H3, app_assoc. apply Permutation_app_tail. unfold answer_streams. rewrite Hrest.
      cbn. rewrite Permutation_app_comm. f_equiv. by destruct (a_res x). }
    exists r', w'. split_and!; [done| |done]. eapply w_deliver; [done..|exact Hh].
Qed.
End properties.

(** ** A worker with one TCP backend and one session

    The session's request makes it ask the pool, which connects; the stream is
    delivered and becomes its backend. *)

Definition accepted : worker :=
  Worker (set_pool (add_backend tcp_ep (sys_pool init)) init) [at_request] [] [].
Definition asking : worker :=
  set_asks [(1, 0)] (pool_call (async_connect (λ _, true) None #"web" 1 (sys_pool (w_sys accepted)))
    (ask 1 (w_sys accepted)) (set_relay 0 at_connect accepted)).
Definition answering : worker :=
  pool_call (on_tcp_connected tcp_ep 1 (inr (Some 7)) (sys_pool (w_sys asking))) (set_connecting [] (w_sys asking)) asking.
Definition at_write_fresh : RelaySession := use_backend (inr 7) tcp_ep false get_head NullBody (set_pending [] at_connect).
Definition holding : worker := set_relay 0 at_write_fresh (Worker (w_sys answering) (w_relays answering) [] []).

Lemma asking_reachable : worker_reachable (λ _, true) default_rt 30 asking.
Proof.
  eapply rtc_l; [apply (w_backend _ _ _ new_worker tcp_ep)|]. eapply rtc_l; [apply (w_accept _ _ _ _ true)|].
  eapply rtc_l; [|apply rtc_refl].
  eapply (w_event _ _ _ accepted asking 0 at_request at_connect KParseRequest (ParsedRequest (ParseOk get_head NullBody true)) [] []);
    [vm_compute; reflexivity..|].
  unfold handled. replace (since _ _) with [Connect #"web"]; [|vm_compute; reflexivity].
  eapply serves_cons; [|apply serves_nil]. apply (serve_connect _ 0 (set_relay 0 at_connect accepted) None #"web" 1); [apply not_elem_of_nil|done].
Qed.

Lemma answering_reachable : worker_reachable (λ _, true) default_rt 30 answering.
Proof.
  eapply rtc_r; [exact asking_reachable|]. apply (w_tcp_done _ _ _ asking 1 tcp_ep (inr (Some 7)) []); [by vm_compute|].
  intros st [= <-]. apply not_elem_of_nil.
Qed.

Lemma holding_reachable : worker_reachable (λ _, true) default_rt 30 holding.
Proof.
  eapply rtc_r; [exact answering_reachable|].
  eapply (w_deliver _ _ _ answering holding 0 at_connect at_write_fresh (KUseBackend get_head NullBody)
    (Answer 1 (inr 7) tcp_ep false) [] [] [] []); [vm_compute; reflexivity..|].
  apply serves_quiet. vm_compute. reflexivity.
Qed.

Lemma worker_exclusive_witness : NoDup [7] ∧ concat (map current (w_relays holding)) = [7].
Proof. split; [exact (worker_exclusive _ _ _ _ holding_reachable)|reflexivity]. Defined.

Lemma worker_waits_answered_witness : [1] ≡ₚ map fst (connecting (w_sys asking)) ∧ waits (pending at_connect) = 1.
Proof.
  destruct (worker_waits_answered _ _ _ _ asking_reachable) as (H1 & _ & H2). split; [exact H1|].
  exact (H2 0 at_connect eq_refl).
Defined.

Lemma relay_always_served_witness :
  (∃ w' r', wstep (λ _, true) default_rt 30 holding w' ∧ w_relays w' !! 0 = Some r' ∧ backend_ r' = None) ∧
  ∃ i r, w_relays answering !! i = Some r ∧ waits (pending r) = 1.
Proof.
  split.
  - destruct (relay_always_served _ _ _ _ holding_reachable) as [H _].
    destruct (H 0 at_write_fresh) as (_ & Ht & _); [vm_compute; reflexivity..|].
    destruct Ht as (w' & Hs & Hw); [vm_compute; reflexivity|].
    exists w', (teardown (set_timer_armed false at_write_fresh)). split; [exact Hs|]. split; [exact Hw|vm_compute; reflexivity].
  - destruct (relay_always_served _ _ _ _ answering_reachable) as [_ H].
    destruct (H (Answer 1 (inr 7) tcp_ep false)) as (i & r & k & pre & post & Hi & Hp & Hk & _); [vm_compute; by left|].
    exists i, r. split; [exact Hi|]. destruct i as [|i]; [|vm_compute in Hi; discriminate].
    assert (w_relays answering !! 0 = Some at_connect) as E by (vm_compute; reflexivity).
    rewrite Hi in E. injection E as ->. vm_compute. reflexivity.
Defined.
