(* ===== verification/QuicDemux.v ===== *)
(** * QUIC ingress and engine glue (src/src/transport/quic_demux.{h,cpp},
    src/src/transport/quic_transport.cpp)

    The single UDP ingress routes every datagram to a worker by its
    destination connection id; the server engines generate and register the
    ids.  Octets are [Z] in [0, 256).  [dcid] stands for
    [lsquic_dcid_from_packet]: the offset and length of the id, or [None] when
    it returns a negative offset. *)

From S2P Require Import Prelude CppStd.

Definition kServerCidLen : nat := 8.

(** ** The demultiplexer *)

Record QuicPacketDemux := Demux {
  workers_ : list nat;                      (** the slots' engines *)
  cid_to_worker_ : gmap (list Z) Z;
  socket6_open : bool;
  send_retry_armed_ : bool;
  send_retry6_armed_ : bool;
}.

Definition new_demux (v6_bound : bool) : QuicPacketDemux := Demux [] ∅ v6_bound false false.

Definition add_worker (engine : nat) (d : QuicPacketDemux) : Z * QuicPacketDemux :=
  (Z.of_nat (length (workers_ d)),
   Demux (workers_ d ++ [engine]) (cid_to_worker_ d) (socket6_open d) (send_retry_armed_ d) (send_retry6_armed_ d)).

Definition register_cid (key : list Z) (worker_idx : Z) (d : QuicPacketDemux) : QuicPacketDemux :=
  Demux (workers_ d) (<[key := worker_idx]> (cid_to_worker_ d)) (socket6_open d) (send_retry_armed_ d) (send_retry6_armed_ d).

Definition remove_cid (key : list Z) (d : QuicPacketDemux) : QuicPacketDemux :=
  Demux (workers_ d) (delete key (cid_to_worker_ d)) (socket6_open d) (send_retry_armed_ d) (send_retry6_armed_ d).

(** FNV-1a in [uint64_t]. *)
Definition fnv1a (bytes : list Z) : Z :=
  fold_left (λ h b, u64 (Z.lxor h b * 0x100000001b3)) bytes 0xcbf29ce484222325%Z.

Definition fnv_worker (cid : list Z) (n_workers : Z) : Z := (fnv1a cid mod n_workers)%Z.

Section demux.
Variable dcid : list Z → option (nat * nat).

(** The id's bytes, when the packet has a non-empty one. *)
Definition packet_cid (buf : list Z) : option (list Z) :=
  match dcid buf with
  | None => None
  | Some (off, cid_len) => if decide (cid_len = 0) then None else Some (take cid_len (drop off buf))
  end.

Definition route (buf : list Z) (d : QuicPacketDemux) : Z :=
  match workers_ d with
  | [] => (-1)%Z
  | _ =>
      let n_workers := Z.of_nat (length (workers_ d)) in
      match packet_cid buf with
      | None => (-1)%Z
      | Some key =>
          match cid_to_worker_ d !! key with
          | Some w => w
          | None =>
              match key with
              | [] => (-1)%Z
              | b :: _ => if (b <? n_workers)%Z then b else fnv_worker key n_workers
              end
          end
      end
  end.

(** What [on_packet] does: hand the packet to a worker's engine, and re-arm
    the receive on the socket it came from. *)
Inductive ingress := Post (engine : nat) (pkt : list Z) | Rearm (v6 : bool).

Definition on_packet (res : error_code + list Z) (v6 socket_open : bool) (d : QuicPacketDemux) : list ingress :=
  match res with
  | inl ec =>
      if decide (ec = operation_aborted) then []
      else if socket_open then [Rearm v6] else []
  | inr pkt =>
      let w := route pkt d in
      if decide (w < 0 ∨ Z.of_nat (length (workers_ d)) ≤ w)%Z then [Rearm v6]
      else match workers_ d !! Z.to_nat w with
           | Some engine => [Post engine pkt; Rearm v6]
           | None => [Rearm v6]
           end
  end.
End demux.

(** [arm_write_watch] returns whether a wait was started. *)
Definition arm_write_watch (armed socket_open : bool) : bool * bool :=
  if armed || negb socket_open then (armed, false) else (true, true).

Definition arm_send_retry (d : QuicPacketDemux) : QuicPacketDemux :=
  let a4 := fst (arm_write_watch (send_retry_armed_ d) true) in
  let a6 := if socket6_open d then fst (arm_write_watch (send_retry6_armed_ d) (socket6_open d))
            else send_retry6_armed_ d in
  Demux (workers_ d) (cid_to_worker_ d) (socket6_open d) a4 a6.

(** The completion of the watch: disarmed; without an error every worker is
    asked to flush. *)
Definition on_writable (v6 : bool) (ec : option error_code) (d : QuicPacketDemux) : QuicPacketDemux * list nat :=
  (Demux (workers_ d) (cid_to_worker_ d) (socket6_open d)
     (if v6 then send_retry_armed_ d else false) (if v6 then false else send_retry6_armed_ d),
   match ec with Some _ => [] | None => workers_ d end).

(** ** Sending *)

(** The outcome of one [sendmsg]. *)
Inductive send_outcome := Sent | WouldBlock | SendError.

Record out_spec := Spec { dest_v4 : bool; outcome : send_outcome }.

(** The specs that were sent, by index, and whether any would have blocked. *)
Fixpoint send_from (i : nat) (fd_v4 fd_v6 : Z) (specs : list out_spec) : list nat * bool :=
  match specs with
  | [] => ([], false)
  | s :: rest =>
      let '(sent, blocked) := send_from (S i) fd_v4 fd_v6 rest in
      if ((if dest_v4 s then fd_v4 else fd_v6) <? 0)%Z then (sent, blocked)
      else match outcome s with
           | Sent => (i :: sent, blocked)
           | WouldBlock => (sent, true)
           | SendError => (sent, blocked)
           end
  end.

(** [send_specs]: the count returned and the flag. *)
Definition send_specs (fd_v4 fd_v6 : Z) (specs : list out_spec) : nat * bool :=
  let '(sent, blocked) := send_from 0 fd_v4 fd_v6 specs in (length sent, blocked).

(** ** The server engine *)

Record QuicServerEngine := Engine { worker_idx_ : Z }.

(** [ea_generate_scid]: [rnd] are the random octets drawn. *)
Definition generate_scid (e : QuicServerEngine) (len : nat) (rnd : nat → Z) : list Z :=
  match len with
  | O => []
  | S n => (if (0 <=? worker_idx_ e)%Z then u8 (worker_idx_ e) else u8 (rnd 0)) :: map (λ i, u8 (rnd i)) (seq 1 n)
  end.

Definition on_new_scids (e : QuicServerEngine) (cids : list (list Z)) (d : QuicPacketDemux) : QuicPacketDemux :=
  fold_left (λ d c, register_cid c (worker_idx_ e) d) cids d.

Definition on_old_scids (cids : list (list Z)) (d : QuicPacketDemux) : QuicPacketDemux :=
  fold_left (λ d c, remove_cid c d) cids d.

(** [schedule_tick]: the delay, in milliseconds, for what
    [lsquic_engine_earliest_adv_tick] reported. *)
Definition schedule_tick (next : bool) (diff : Z) : Z :=
  if (diff <? 0)%Z then 0
  else if negb next || (500 <? diff)%Z then 500
  else diff.

(** ** Lemmas *)

Lemma fnv_worker_range cid n : (0 < n)%Z → (0 ≤ fnv_worker cid n < n)%Z.
Proof. intros. by apply Z.mod_pos_bound. Qed.

(** The table only names workers that exist. *)
Definition table_ok (d : QuicPacketDemux) : Prop :=
  map_Forall (λ _ w, (0 ≤ w < Z.of_nat (length (workers_ d)))%Z) (cid_to_worker_ d).

Lemma table_ok_register key w d : table_ok d → (0 ≤ w < Z.of_nat (length (workers_ d)))%Z → table_ok (register_cid key w d).
Proof. intros Hd Hw. by apply map_Forall_insert_2. Qed.

Lemma table_ok_remove key d : table_ok d → table_ok (remove_cid key d).
Proof. intros Hd. by apply map_Forall_delete. Qed.

Lemma table_ok_add engine d : table_ok d → table_ok (snd (add_worker engine d)).
Proof.
  intros Hd key w Hk. cbn in *. specialize (Hd key w Hk). rewrite length_app. cbn. cbn in Hd. lia.
Qed.

Lemma new_scids_lookup e cids d : workers_ (on_new_scids e cids d) = workers_ d ∧
  ∀ key, cid_to_worker_ (on_new_scids e cids d) !! key =
    if decide (key ∈ cids) then Some (worker_idx_ e) else cid_to_worker_ d !! key.
Proof.
  unfold on_new_scids. revert d. induction cids as [|c cids IH]; intros d; cbn.
  - split; [done|]. intros key. by rewrite decide_False by apply not_elem_of_nil.
  - destruct (IH (register_cid c (worker_idx_ e) d)) as [H1 H2]. split; [by rewrite H1|]. intros key. rewrite H2. cbn.
    destruct (decide (key = c)) as [->|Hne].
    + rewrite lookup_insert_eq, (decide_True (P := c ∈ c :: cids)) by (by left). by case_decide.
    + rewrite lookup_insert_ne by done. do 2 case_decide; set_solver.
Qed.

Lemma old_scids_lookup cids d : workers_ (on_old_scids cids d) = workers_ d ∧
  ∀ key, cid_to_worker_ (on_old_scids cids d) !! key = if decide (key ∈ cids) then None else cid_to_worker_ d !! key.
Proof.
  unfold on_old_scids. revert d. induction cids as [|c cids IH]; intros d; cbn.
  - split; [done|]. intros key. by rewrite decide_False by apply not_elem_of_nil.
  - destruct (IH (remove_cid c d)) as [H1 H2]. split; [by rewrite H1|]. intros key. rewrite H2. cbn.
    destruct (decide (key = c)) as [->|Hne].
    + rewrite lookup_delete_eq, (decide_True (P := c ∈ c :: cids)) by (by left). by case_decide.
    + rewrite lookup_delete_ne by done. do 2 case_decide; set_solver.
Qed.

Lemma send_from_sorted fd4 fd6 specs : ∀ i, let sent := fst (send_from i fd4 fd6 specs) in
  NoDup sent ∧ (∀ j, j ∈ sent → i ≤ j < i + length specs).
Proof.
  induction specs as [|s specs IH]; intros i; cbn.
  - split; [constructor|]. by intros j ?%elem_of_nil.
  - specialize (IH (S i)). destruct (send_from (S i) fd4 fd6 specs) as [sent blocked]. cbn in IH. destruct IH as [Hn Hr].
    assert (∀ j, j ∈ sent → i ≤ j < i + S (length specs)) as Hr' by (intros j Hj; specialize (Hr j Hj); lia).
    destruct (_ <? 0)%Z; [done|]. destruct (outcome s); cbn; [|done|done].
    split; [constructor; [intros Hi; specialize (Hr i Hi); lia|done]|].
    intros j [->|Hj]%elem_of_cons; [lia|by apply Hr'].
Qed.

(** The states of the ingress: workers are added, and engines with the index
    they were given register and retire ids they generated. *)
Inductive demux_reachable : QuicPacketDemux → Prop :=
  | demux_new v6_bound : demux_reachable (new_demux v6_bound)
  | demux_add engine d : demux_reachable d → demux_reachable (snd (add_worker engine d))
  | demux_register e cids d : demux_reachable d → (0 ≤ worker_idx_ e < Z.of_nat (length (workers_ d)))%Z →
      (∀ c, c ∈ cids → ∃ rnd, c = generate_scid e kServerCidLen rnd) → demux_reachable (on_new_scids e cids d)
  | demux_retire cids d : demux_reachable d → demux_reachable (on_old_scids cids d)
  | demux_arm d : demux_reachable d → demux_reachable (arm_send_retry d)
  | demux_writable v6 ec d : demux_reachable d → demux_reachable (fst (on_writable v6 ec d)).

(** A registered id names an existing worker, and begins with its index. *)
Definition self_describing (d : QuicPacketDemux) : Prop :=
  ∀ key w, cid_to_worker_ d !! key = Some w →
    (0 ≤ w < Z.of_nat (length (workers_ d)))%Z ∧ ∃ rest, key = u8 w :: rest.

Lemma reachable_self_describing d : demux_reachable d → self_describing d.
Proof.
  induction 1 as [ds|engine d _ IH|e cids d _ IH Hw Hc|cids d _ IH|d _ IH|v6 ec d _ IH]; try done.
  - intros key w Hk. cbn in *. destruct (IH key w Hk) as [H1 H2]. split; [|done]. rewrite length_app. cbn. lia.
  - intros key w. destruct (new_scids_lookup e cids d) as [-> ->]. case_decide as Hin; [|by apply IH].
    intros [= <-]. split; [done|]. destruct (Hc key Hin) as [rnd ->]. cbn -[u8 seq].
    destruct (Z.leb_spec 0 (worker_idx_ e)); [|lia]. by eexists.
  - intros key w. destruct (old_scids_lookup cids d) as [-> ->]. case_decide; [done|apply IH].
Qed.

Section properties.
Variable dcid : list Z → option (nat * nat).
(** The id lies inside the packet, whose octets are octets. *)
Definition packet_ok (buf : list Z) : Prop :=
  Forall (λ b, 0 ≤ b < 256)%Z buf ∧ ∀ off len, dcid buf = Some (off, len) → off + len ≤ length buf.

Lemma packet_cid_head buf key : packet_ok buf → packet_cid dcid buf = Some key → ∃ b rest, key = b :: rest ∧ (0 ≤ b < 256)%Z.
Proof.
  intros [Ho Hd]. unfold packet_cid. destruct (dcid buf) as [[off len]|]; [|done].
  specialize (Hd off len eq_refl). case_decide; [done|]. intros [= <-].
  destruct (drop off buf) as [|b rest] eqn:E.
  { apply (f_equal length) in E. rewrite length_drop in E. cbn in E. lia. }
  destruct len as [|len]; [done|]. exists b, (take len rest). split; [done|].
  assert (b ∈ buf) as Hin by (rewrite <- (take_drop off buf), E; set_solver).
  apply list_elem_of_In in Hin. rewrite List.Forall_forall in Ho. by apply Ho.
Qed.

Lemma route_Some buf d key : workers_ d ≠ [] → packet_cid dcid buf = Some key → ∀ b rest, key = b :: rest →
  route dcid buf d = match cid_to_worker_ d !! key with
                     | Some w => w
                     | None => if (b <? Z.of_nat (length (workers_ d)))%Z then b
                               else fnv_worker key (Z.of_nat (length (workers_ d)))
                     end.
Proof.
  intros Hw Hk b rest ->. unfold route. rewrite Hk. destruct (workers_ d) as [|e l]; [done|].
  by destruct (cid_to_worker_ d !! (b :: rest)).
Qed.
End properties.

(** ** Properties *)

(** Every datagram with a connection id is handed to exactly one existing
    worker, and the receive is re-armed; one without is dropped and the
    receive re-armed: the ingress neither loses its loop nor indexes outside the
    worker table. *)
Theorem ingress_routes (dcid : list Z → option (nat * nat)) (d : QuicPacketDemux) (buf : list Z) (v6 open : bool) :
  demux_reachable d → workers_ d ≠ [] → packet_ok dcid buf →
  (packet_cid dcid buf = None → on_packet dcid (inr buf) v6 open d = [Rearm v6]) ∧
  (packet_cid dcid buf ≠ None →
   ∃ engine, workers_ d !! Z.to_nat (route dcid buf d) = Some engine ∧
     (0 ≤ route dcid buf d < Z.of_nat (length (workers_ d)))%Z ∧
     on_packet dcid (inr buf) v6 open d = [Post engine buf; Rearm v6]).
Proof.
  intros Hr%reachable_self_describing Hw Hp. split.
  - intros Hk. unfold on_packet, route. rewrite Hk. by destruct (workers_ d).
  - intros Hk. destruct (packet_cid dcid buf) as [key|] eqn:E; [|done].
    destruct (packet_cid_head dcid buf key Hp E) as (b & rest & Hkey & Hb).
    assert (0 ≤ route dcid buf d < Z.of_nat (length (workers_ d)))%Z as Hrange.
    { rewrite (route_Some dcid buf d key Hw E b rest Hkey).
      destruct (cid_to_worker_ d !! key) as [w|] eqn:Ew; [by apply (Hr key w)|].
      destruct (Z.ltb_spec b (Z.of_nat (length (workers_ d)))); [lia|].
      apply fnv_worker_range. destruct (workers_ d); [done|cbn; lia]. }
    destruct (lookup_lt_is_Some_2 (workers_ d) (Z.to_nat (route dcid buf d))) as [engine He]; [lia|].
    exists engine. split_and!; [done|lia|lia|]. unfold on_packet.
    rewrite decide_False by lia. by rewrite He.
Qed.

(** The id is the first eight octets of the packet. *)
Definition short_header (buf : list Z) : option (nat * nat) := if decide (8 ≤ length buf) then Some (0, 8) else None.

Definition two_workers : QuicPacketDemux := snd (add_worker 11 (snd (add_worker 10 (new_demux false)))).

Lemma two_workers_reachable : demux_reachable two_workers.
Proof. by apply demux_add, demux_add, demux_new. Qed.

Definition packet : list Z := [1; 2; 3; 4; 5; 6; 7; 8; 9]%Z.

Lemma packet_is_ok : packet_ok short_header packet.
Proof.
  split; [repeat (constructor; [lia|]); constructor|]. intros off len [= <- <-]. cbn. lia.
Qed.

Lemma ingress_routes_witness : ∃ engine, on_packet short_header (inr packet) false true two_workers = [Post engine packet; Rearm false].
Proof.
  assert (workers_ two_workers ≠ []) as Hw by discriminate.
  destruct (proj2 (ingress_routes short_header two_workers packet false true two_workers_reachable Hw packet_is_ok))
    as (e & _ & _ & He); [discriminate|]. exists e. exact He.
Defined.

(** An id generated by an engine leads to its worker. *)
Lemma route_owner (dcid : list Z → option (nat * nat)) (d : QuicPacketDemux) (e : QuicServerEngine)
  (rnd : nat → Z) (buf : list Z) :
  demux_reachable d → (length (workers_ d) ≤ 256) → (0 ≤ worker_idx_ e < Z.of_nat (length (workers_ d)))%Z →
  packet_cid dcid buf = Some (generate_scid e kServerCidLen rnd) →
  route dcid buf d = worker_idx_ e.
Proof.
  intros Hr%reachable_self_describing Hn He Hp.
  assert (workers_ d ≠ []) as Hw by (intros E; rewrite E in He; cbn in He; lia).
  assert (u8 (worker_idx_ e) = worker_idx_ e) as Hu by (unfold u8; apply Z.mod_small; lia).
  assert (∃ rest, generate_scid e kServerCidLen rnd = worker_idx_ e :: rest) as [rest Hg].
  { cbn -[u8 seq]. destruct (Z.leb_spec 0 (worker_idx_ e)); [|lia]. rewrite Hu. by eexists. }
  rewrite Hg in Hp. rewrite (route_Some dcid buf d _ Hw Hp _ _ eq_refl).
  destruct (cid_to_worker_ d !! (worker_idx_ e :: rest)) as [w|] eqn:E.
  - destruct (Hr _ _ E) as [Hwr (rest' & Heq)]. injection Heq as Heq _. rewrite Heq. unfold u8. symmetry. apply Z.mod_small. lia.
  - destruct (Z.ltb_spec (worker_idx_ e) (Z.of_nat (length (workers_ d)))); [done|lia].
Qed.

(** Server-issued ids are self-describing: with at most 256 workers, a packet
    carrying an id some engine generated goes to that engine's worker in every
    reachable state of the table, registered, retired or not registered yet;
    so a connection keeps its worker when its address changes, and before and
    after the table knows its ids. *)
Theorem scid_routes_to_owner (dcid : list Z → option (nat * nat)) (d : QuicPacketDemux) (e : QuicServerEngine)
  (rnd : nat → Z) (buf : list Z) :
  demux_reachable d → (length (workers_ d) ≤ 256) → (0 ≤ worker_idx_ e < Z.of_nat (length (workers_ d)))%Z →
  packet_cid dcid buf = Some (generate_scid e kServerCidLen rnd) →
  route dcid buf d = worker_idx_ e.
Proof. apply route_owner. Qed.

Lemma scid_routes_to_owner_witness :
  route short_header (generate_scid (Engine 1) 8 (λ i, Z.of_nat i)) two_workers = 1%Z.
Proof.
  apply (scid_routes_to_owner short_header two_workers (Engine 1) (λ i, Z.of_nat i)
    (generate_scid (Engine 1) 8 (λ i, Z.of_nat i)) two_workers_reachable); [cbn; lia|cbn; lia|vm_compute; reflexivity].
Defined.

(** What [send_specs] reports is how many datagrams were sent, not how far the
    batch got: as soon as a datagram behind an unsent one goes out, one of the
    first [count] specs, which the caller takes as sent, was not. *)
Theorem send_specs_counts_gaps (fd4 fd6 : Z) (specs : list out_spec) (i j : nat) :
  let sent := fst (send_from 0 fd4 fd6 specs) in
  i ∉ sent → j ∈ sent → i < j →
  ∃ k, k < fst (send_specs fd4 fd6 specs) ∧ k ∉ sent.
Proof.
  intros sent Hi Hj Hij. unfold send_specs. subst sent.
  destruct (send_from_sorted fd4 fd6 specs 0) as [Hn Hr]. destruct (send_from 0 fd4 fd6 specs) as [sent blocked].
  cbn [fst] in *. destruct (decide (i < length sent)) as [Hlt|Hge]; [by exists i|].
  destruct (decide (Forall (λ k, k ∈ sent) (seq 0 (length sent)))) as [Hall|Hno].
  - exfalso. rewrite List.Forall_forall in Hall.
    assert (seq 0 (length sent) ≡ₚ sent) as Hp.
    { apply NoDup_Permutation_bis; [apply seq_NoDup|by rewrite length_seq|]. intros k Hk. by apply list_elem_of_In, Hall. }
    rewrite <- Hp in Hj. apply list_elem_of_In, in_seq in Hj. lia.
  - apply not_Forall_Exists in Hno; [|apply _]. apply List.Exists_exists in Hno as (k & Hk & Hnk).
    apply in_seq in Hk. exists k. split; [lia|done].
Qed.

Lemma send_specs_counts_gaps_witness :
  ∃ k, k < 1 ∧ k ∉ fst (send_from 0 3 4 [Spec true WouldBlock; Spec true Sent]).
Proof.
  apply (send_specs_counts_gaps 3 4 [Spec true WouldBlock; Spec true Sent] 0 1); [by_eval|by_eval|lia].
Defined.

(** ** Addresses and keys *)

(** The members of [sockaddr_in] and [sockaddr_in6] that are set: the family
    ([true] for IPv6), the port's two octets in network order, the address. *)
Record sockaddr := Sockaddr { sa_v6 : bool; sa_port : list Z; sa_addr : list Z }.

Definition to_sockaddr (v6 : bool) (port : Z) (address : list Z) : sockaddr :=
  Sockaddr v6 [Z.shiftr (u16 port) 8; Z.land port 255] (take (if v6 then 16 else 4) address).

(** The key of an id: the octets of its buffer up to its length. *)
Definition cid_key (buf : list Z) (len : nat) : list Z := take len buf.

(** ** The receive loop

    Per socket: receives pending, and completions whose handler, [on_packet],
    has not run yet. *)

Record rx := Rx { rx_pending : nat; rx_queued : list (error_code + list Z) }.

Record ingress_loop := Loop {
  loop_demux : QuicPacketDemux;
  loop_rx : rx;
  loop_rx6 : rx;
  loop_posted : list (nat * list Z);       (** packets posted to engines, newest first *)
}.

Definition do_recv (r : rx) : rx := Rx (S (rx_pending r)) (rx_queued r).

Definition new_loop (d : QuicPacketDemux) : ingress_loop := Loop d (Rx 0 []) (Rx 0 []) [].

Definition loop_start (l : ingress_loop) : ingress_loop :=
  Loop (loop_demux l) (do_recv (loop_rx l)) (if socket6_open (loop_demux l) then do_recv (loop_rx6 l) else loop_rx6 l)
    (loop_posted l).

(** [cancel]: the pending receives complete with [operation_aborted]. *)
Definition cancel (r : rx) : rx := Rx 0 (rx_queued r ++ replicate (rx_pending r) (inl operation_aborted)).

Definition loop_stop (l : ingress_loop) : ingress_loop :=
  Loop (loop_demux l) (cancel (loop_rx l)) (if socket6_open (loop_demux l) then cancel (loop_rx6 l) else loop_rx6 l)
    (loop_posted l).

(** [notify_tx_blocked]: the posted task, run on the ingress thread. *)
Definition notify_tx_blocked (l : ingress_loop) : ingress_loop :=
  Loop (arm_send_retry (loop_demux l)) (loop_rx l) (loop_rx6 l) (loop_posted l).

(** What a handler does, carried out. *)
Definition carry_out (i : ingress) (l : ingress_loop) : ingress_loop :=
  match i with
  | Post engine pkt => Loop (loop_demux l) (loop_rx l) (loop_rx6 l) ((engine, pkt) :: loop_posted l)
  | Rearm false => Loop (loop_demux l) (do_recv (loop_rx l)) (loop_rx6 l) (loop_posted l)
  | Rearm true => Loop (loop_demux l) (loop_rx l) (do_recv (loop_rx6 l)) (loop_posted l)
  end.

Section receive_loop.
Variable dcid : list Z → option (nat * nat).

(** The handler of a queued completion; the sockets stay open. *)
Definition handle (v6 : bool) (res : error_code + list Z) (l : ingress_loop) : ingress_loop :=
  fold_left (λ l i, carry_out i l) (on_packet dcid res v6 true (loop_demux l)) l.

Inductive loop_step : ingress_loop → ingress_loop → Prop :=
  | loop_complete l n res : rx_pending (loop_rx l) = S n → res ≠ inl operation_aborted →
      loop_step l (Loop (loop_demux l) (Rx n (rx_queued (loop_rx l) ++ [res])) (loop_rx6 l) (loop_posted l))
  | loop_complete6 l n res : rx_pending (loop_rx6 l) = S n → res ≠ inl operation_aborted →
      loop_step l (Loop (loop_demux l) (loop_rx l) (Rx n (rx_queued (loop_rx6 l) ++ [res])) (loop_posted l))
  | loop_handle l res q : rx_queued (loop_rx l) = res :: q →
      loop_step l (handle false res (Loop (loop_demux l) (Rx (rx_pending (loop_rx l)) q) (loop_rx6 l) (loop_posted l)))
  | loop_handle6 l res q : rx_queued (loop_rx6 l) = res :: q →
      loop_step l (handle true res (Loop (loop_demux l) (loop_rx l) (Rx (rx_pending (loop_rx6 l)) q) (loop_posted l)))
  | loop_blocked l : loop_step l (notify_tx_blocked l).

(** A handler re-arms its own socket unless the receive was aborted. *)
Lemma handle_spec v6 res l : ∃ posts, handle v6 res l =
  let again r := if decide (res = inl operation_aborted) then r else do_recv r in
  Loop (loop_demux l) (if v6 then loop_rx l else again (loop_rx l)) (if v6 then again (loop_rx6 l) else loop_rx6 l)
    (posts ++ loop_posted l).
Proof.
  unfold handle, on_packet. destruct res as [ec|pkt].
  - exists []. cbv zeta. do 2 case_decide; try congruence; by destruct l, v6.
  - rewrite (decide_False (P := inr pkt = inl operation_aborted)) by done. case_decide; [exists []; by destruct l, v6|].
    destruct (workers_ (loop_demux l) !! _) as [e|]; [exists [(e, pkt)]; by destruct l, v6|exists []; by destruct l, v6].
Qed.

(** Receives in flight on a socket. *)
Definition in_flight (r : rx) : nat := rx_pending r + length (rx_queued r).

(** While running, one receive per open socket, none aborted; after a stop,
    what was completed before it may still be handled. *)
Definition loop_ok (l : ingress_loop) : Prop :=
  in_flight (loop_rx l) = 1 ∧ in_flight (loop_rx6 l) = Nat.b2n (socket6_open (loop_demux l)) ∧
  inl operation_aborted ∉ rx_queued (loop_rx l) ++ rx_queued (loop_rx6 l).

Lemma loop_step_ok l l' : loop_step l l' → loop_ok l → loop_ok l'.
Proof.
  unfold loop_ok, in_flight. intros Hs (H1 & H2 & H3). rewrite not_elem_of_app in H3. destruct H3 as [H3 H4].
  destruct Hs as [l n res Hp Hr|l n res Hp Hr|l res q Hq|l res q Hq|l].
  - cbn. rewrite Hp in H1. rewrite length_app. cbn. split_and!; [lia|done|]. set_solver.
  - cbn. rewrite Hp in H2. rewrite length_app. cbn. split_and!; [done|lia|]. set_solver.
  - edestruct (handle_spec false res) as [posts ->]. cbn. rewrite Hq in H1, H3. rewrite decide_False by set_solver. cbn in *.
    split_and!; [lia|done|]. set_solver.
  - edestruct (handle_spec true res) as [posts ->]. cbn. rewrite Hq in H2, H4. rewrite decide_False by set_solver. cbn in *.
    split_and!; [done|lia|]. set_solver.
  - cbn. rewrite not_elem_of_app. done.
Qed.
End receive_loop.

(** A socket's side of the loop, whether it is open, and the loop once its oldest
    queued completion is taken. *)
Definition rx_of (v6 : bool) (l : ingress_loop) : rx := if v6 then loop_rx6 l else loop_rx l.
Definition is_open (v6 : bool) (l : ingress_loop) : bool := negb v6 || socket6_open (loop_demux l).
Definition dequeue (v6 : bool) (l : ingress_loop) : ingress_loop :=
  let next r := Rx (rx_pending r) (tail (rx_queued r)) in
  Loop (loop_demux l) (if v6 then loop_rx l else next (loop_rx l)) (if v6 then next (loop_rx6 l) else loop_rx6 l) (loop_posted l).

Lemma loop_reachable_ok dcid d l : rtc (loop_step dcid) (loop_start (new_loop d)) l → loop_ok l.
Proof.
  intros Hr. remember (loop_start (new_loop d)) as l0 eqn:E. assert (loop_ok l0) as Hi.
  { subst. unfold loop_ok, loop_start, new_loop. cbn. destruct (socket6_open d); cbn; split_and!; try done; apply not_elem_of_nil. }
  clear E. induction Hr as [|l0 l1 l2 Hs _ IH]; [done|]. apply IH. by eapply loop_step_ok.
Qed.

Lemma loop_stop_rx v6 l : rx_of v6 (loop_stop l) = if is_open v6 l then cancel (rx_of v6 l) else rx_of v6 l.
Proof. unfold is_open. destruct v6; [|done]. cbn. by destruct (socket6_open _). Qed.

Lemma handled_rx dcid v6 res l : rx_of v6 (handle dcid v6 res (dequeue v6 l)) =
  let r := Rx (rx_pending (rx_of v6 l)) (tail (rx_queued (rx_of v6 l))) in
  if decide (res = inl operation_aborted) then r else do_recv r.
Proof. edestruct (handle_spec dcid v6 res) as [posts ->]. by destruct v6. Qed.

(** C35: The ingress has one receive in flight per open socket, IPv4 and IPv6, and
    none on a closed one.  Stopping it ends the loop of each open socket whose
    receive is still pending: it completes as aborted, and the handler of that
    completion starts no other receive.  A completion that came before the stop
    but is not handled yet, a datagram or an error, starts the next receive, so
    that socket goes on receiving after the stop. *)
Theorem ingress_receive_loop dcid (d : QuicPacketDemux) l (v6 : bool) : rtc (loop_step dcid) (loop_start (new_loop d)) l →
  in_flight (rx_of v6 l) = Nat.b2n (is_open v6 l) ∧
  (is_open v6 l = true → rx_queued (rx_of v6 l) = [] →
     rx_of v6 (loop_stop l) = Rx 0 [inl operation_aborted] ∧
     rx_of v6 (handle dcid v6 (inl operation_aborted) (dequeue v6 (loop_stop l))) = Rx 0 []) ∧
  (∀ res, rx_queued (rx_of v6 l) = [res] →
     rx_of v6 (loop_stop l) = Rx 0 [res] ∧ rx_of v6 (handle dcid v6 res (dequeue v6 (loop_stop l))) = Rx 1 []).
Proof.
  intros (H1 & H2 & H3)%loop_reachable_ok. rewrite not_elem_of_app in H3.
  assert (in_flight (rx_of v6 l) = Nat.b2n (is_open v6 l)) as Hf by (unfold is_open; by destruct v6).
  assert (inl operation_aborted ∉ rx_queued (rx_of v6 l)) as Ha by (destruct v6; tauto).
  split; [done|]. unfold in_flight in Hf. split.
  - intros Ho Hq. rewrite handled_rx, loop_stop_rx, Ho. unfold cancel. rewrite Ho, Hq in *. cbn in Hf. replace (rx_pending (rx_of v6 l)) with 1 by lia. done.
  - intros res Hq. rewrite handled_rx, loop_stop_rx. rewrite Hq in *. destruct (is_open v6 l); cbn in Hf; [|lia].
    rewrite decide_False by set_solver. unfold cancel. rewrite Hq. replace (rx_pending (rx_of v6 l)) with 0 by lia. done.
Qed.

Definition ingress_ds : ingress_loop := loop_start (new_loop (new_demux true)).

Lemma ingress_receive_loop_witness : in_flight (loop_rx6 ingress_ds) = 1 ∧ rx_queued (loop_rx6 (loop_stop ingress_ds)) = [inl operation_aborted] ∧
  rx_queued (loop_rx (loop_stop ingress_ds)) = [inl operation_aborted].
Proof.
  destruct (ingress_receive_loop short_header (new_demux true) ingress_ds true) as (H1 & H2 & _); [apply rtc_refl|].
  destruct (ingress_receive_loop short_header (new_demux true) ingress_ds false) as (_ & H3 & _); [apply rtc_refl|].
  split; [exact H1|]. split; [exact (f_equal rx_queued (proj1 (H2 eq_refl eq_refl)))|exact (f_equal rx_queued (proj1 (H3 eq_refl eq_refl)))].
Defined.
