(* ===== verification/Steering.v ===== *)
(** * Kernel steering of QUIC datagrams (ebpf/quic_steer.bpf.c, ebpf/steer_loader.c)

    With one UDP socket per worker in a reuseport group, a program attached to
    the group picks the socket, and so the worker, of each datagram: what
    [QuicPacketDemux::route] does in user space.  Module [Bpf] is the eBPF
    program, Module [Loader] the probe that attaches a classic BPF filter and
    counts where datagrams arrive.

    A packet is a list of octets; a read behind its end, which the kernel's
    verifier must exclude, is [None].  [bpf_sk_select_reuseport] and the kernel's
    choice of a socket are parameters. *)

From S2P Require Import Prelude CppStd QuicDemux.

Definition N_WORKERS : Z := 4.

Definition SK_DROP : Z := 0.
Definition SK_PASS : Z := 1.
Definition IPPROTO_UDP : Z := 17.

Module Bpf.
Definition SCID_LEN : nat := 8.

(** Where a run ends: [return SK_DROP], or the call of the helper. *)
Inductive action := Drop | Select (idx : Z).

(** The routing byte and the fallback hash of the QUIC packet at [q]. *)
Definition routing (p : list Z) (q : nat) (b0 : Z) : option (Z * Z) :=
  if decide (Z.land b0 0x80 = 0)%Z then
    q1 ← p !! (q + 1); q2 ← p !! (q + 2);
    Some (q1, u8 (q1 + q2))
  else
    q1 ← p !! (q + 1); q2 ← p !! (q + 2); q3 ← p !! (q + 3); q4 ← p !! (q + 4);
    if decide (Z.lor (Z.lor (Z.lor q1 q2) q3) q4 ≠ 0)%Z then
      dcil ← p !! (q + 5);
      if decide ((1 ≤ dcil ≤ 20)%Z ∧ q + 6 + Z.to_nat dcil ≤ length p) then
        q6 ← p !! (q + 6);
        Some (q6, u8 (q6 + dcil))
      else Some (0xff, 0)%Z
    else Some (0xff, 0)%Z.

(** The program up to its last call; [q[6]] and [q[7]] are read for the trace. *)
Definition steer (p : list Z) : option action :=
  if decide (length p < 20) then Some Drop
  else
    p0 ← p !! 0;
    if decide (Z.shiftr p0 4 ≠ 4 ∨ Z.land p0 0x0f < 5)%Z then Some Drop
    else
      p9 ← p !! 9;
      if decide (p9 ≠ IPPROTO_UDP) then Some Drop
      else
        let q := Z.to_nat (Z.land p0 0x0f * 4) + 8 in
        if decide (length p < q + 1 + SCID_LEN) then Some Drop
        else
          b0 ← p !! q; _ ← p !! (q + 6); _ ← p !! (q + 7);
          '(rb, h) ← routing p q b0;
          Some (Select (if (rb <? N_WORKERS)%Z then rb else (h mod N_WORKERS)%Z)).

(** [select]: what [bpf_sk_select_reuseport] returns for an index. *)
Definition quic_steer (select : Z → Z) (p : list Z) : option Z :=
  a ← steer p; Some (match a with Drop => SK_DROP | Select idx => select idx end).
End Bpf.

Module Loader.
(** The two instructions of the filter. *)
Inductive sock_filter := LdBAbs (k : nat) | RetA.

Definition code : list sock_filter := [LdBAbs (8 + 1); RetA].

(** Classic BPF with accumulator [a]; a load behind the end of the packet ends
    the filter with 0, as does the end of the program. *)
Fixpoint run_filter (prog : list sock_filter) (a : Z) (skb : list Z) : Z :=
  match prog with
  | [] => 0
  | LdBAbs k :: prog' => match skb !! k with Some b => run_filter prog' b skb | None => 0 end
  | RetA :: _ => a
  end.

Definition send_probe (routing_byte : Z) : list Z :=
  [0x43; u8 routing_byte; 0x11; 0x22; 0x33; 0x44; 0x55; 0x66; 0x77; 0x88; 1; 2; 3; 4; 5; 6]%Z.

(** Five probes for each worker. *)
Definition probes : list (list Z) :=
  flat_map (λ rb, map (λ _, send_probe (Z.of_nat rb)) (seq 0 5)) (seq 0 (Z.to_nat N_WORKERS)).

(** [view]: the part of a datagram the filter sees.  An index outside the group
    falls back to the kernel's hash of the addresses, [fallback] for every
    probe, since they share source and destination. *)
Definition chosen_socket (view : list Z → list Z) (fallback : Z) (pkt : list Z) : Z :=
  let i := run_filter code 0 (view pkt) in
  if decide (0 ≤ i < N_WORKERS)%Z then i else fallback.

(** What is counted on socket [i] when every probe is delivered. *)
Definition count (view : list Z → list Z) (fallback : Z) (i : nat) : nat :=
  length (filter (λ pkt, chosen_socket view fallback pkt = Z.of_nat i) probes).

(** [main]'s result.  [bound]: the group's sockets could be made; [attached]:
    [SO_ATTACH_REUSEPORT_CBPF] succeeded. *)
Definition main (bound attached : bool) (view : list Z → list Z) (fallback : Z) : Z :=
  if negb bound then 1
  else if negb attached then 1
  else if decide (Forall (λ i, count view fallback i = 5) (seq 0 (Z.to_nat N_WORKERS))) then 0 else 1.
End Loader.

(** ** Packets *)

(** A QUIC packet with the connection id [cid] at offset [off]: the short
    header, whose id has the server's length, and the long header of a version
    other than 0. *)
Inductive quic_packet (cid : list Z) : nat → list Z → Prop :=
  | short_packet b0 rest : Z.land b0 0x80 = 0%Z → length cid = kServerCidLen →
      quic_packet cid 1 (b0 :: cid ++ rest)
  | long_packet b0 v1 v2 v3 v4 rest : Z.land b0 0x80 ≠ 0%Z → Z.lor (Z.lor (Z.lor v1 v2) v3) v4 ≠ 0%Z →
      1 ≤ length cid ≤ 20 → quic_packet cid 6 (b0 :: v1 :: v2 :: v3 :: v4 :: Z.of_nat (length cid) :: cid ++ rest).

(** [lsquic_dcid_from_packet], as documented: it finds the id of such packets. *)
Definition finds_dcid (dcid : list Z → option (nat * nat)) : Prop :=
  ∀ cid off pkt, quic_packet cid off pkt → dcid pkt = Some (off, length cid).

(** An IPv4 header of [ihl] words with protocol UDP, then a UDP header. *)
Record ip_udp_header (hdr : list Z) : Prop := {
  iu_first : ∃ ihl, hdr !! 0 = Some (0x40 + ihl)%Z ∧ (5 ≤ ihl < 16)%Z ∧ length hdr = Z.to_nat (ihl * 4) + 8;
  iu_proto : hdr !! 9 = Some IPPROTO_UDP;
}.

(** ** Lemmas *)

Lemma version_ihl i : (0 ≤ i < 16)%Z → Z.shiftr (0x40 + i) 4 = 4%Z ∧ Z.land (0x40 + i) 0x0f = i.
Proof.
  intros Hi. change 0x0f%Z with (Z.ones 4). rewrite Z.land_ones, Z.shiftr_div_pow2 by lia. change (2 ^ 4)%Z with 16%Z.
  Z.to_euclidean_division_equations. lia.
Qed.

(** A read of the first nine octets at [q] that the length check covers. *)
Lemma covered (p : list Z) q i : q + 9 ≤ length p → i < 9 → ∃ b, p !! (q + i) = Some b.
Proof. intros Hl Hi. apply lookup_lt_is_Some_2. lia. Qed.

Ltac read_at q i := match goal with
  | H : q + 9 ≤ length ?p |- _ =>
      let b := fresh "b" in let E := fresh "E" in
      destruct (covered p q i H ltac:(lia)) as [b E]; rewrite E; cbn [mbind option_bind]
  end.

Lemma routing_total p q b0 : q + 9 ≤ length p → is_Some (Bpf.routing p q b0).
Proof.
  intros H. unfold Bpf.routing. read_at q 1. read_at q 2. case_decide; [by eexists|]. read_at q 3. read_at q 4.
  case_decide; [|by eexists]. read_at q 5. case_decide; [|by eexists]. read_at q 6. by eexists.
Qed.

(** Octets stay octets under the program's reads. *)
Lemma routing_octets p q b0 rb h : Forall (λ b, 0 ≤ b < 256)%Z p → Bpf.routing p q b0 = Some (rb, h) → (0 ≤ rb)%Z.
Proof.
  intros Hp. assert (∀ i b, p !! i = Some b → (0 ≤ b)%Z) as Ho.
  { intros i b Hi. apply (proj1 (Forall_lookup _ _) Hp) in Hi. lia. }
  unfold Bpf.routing. intros E. simplify_option_eq; eauto; lia.
Qed.

Lemma found_cid dcid cid off pkt : finds_dcid dcid → quic_packet cid off pkt → packet_cid dcid pkt = Some cid.
Proof.
  intros Hd Hq. unfold packet_cid. rewrite (Hd _ _ _ Hq). destruct Hq as [b0 rest _ Hl|b0 v1 v2 v3 v4 rest _ _ Hl]; rewrite decide_False by (unfold kServerCidLen in *; lia);
    simpl; by rewrite drop_0, take_app_length.
Qed.

(** The program finds the routing byte of such packets. *)
Lemma routing_packet hdr off b cid pkt : quic_packet (b :: cid) off pkt → 
  ∃ b0 h, pkt !! 0 = Some b0 ∧ Bpf.routing (hdr ++ pkt) (length hdr) b0 = Some (b, h).
Proof.
  intros Hq. assert (∀ i, (hdr ++ pkt) !! (length hdr + i) = pkt !! i) as Hr by (intros i; by rewrite lookup_app_r, Nat.add_sub' by lia).
  unfold Bpf.routing. destruct Hq as [b0 rest Hb Hl|b0 v1 v2 v3 v4 rest Hb Hv Hl]; exists b0.
  - destruct cid as [|c cid]; [done|]. exists (u8 (b + c)). split; [done|]. rewrite decide_True by done. by rewrite !Hr.
  - exists (u8 (b + Z.of_nat (length (b :: cid)))). split; [done|]. rewrite decide_False by done. rewrite !Hr.
    cbn [lookup list_lookup mbind option_bind]. rewrite (decide_True (P := Z.lor _ _ ≠ 0%Z)) by done.
    rewrite decide_True; [done|]. rewrite Nat2Z.id, length_app. cbn [length app]. rewrite length_app. cbn [length] in Hl. lia.
Qed.

Lemma length_quic_packet cid off pkt : quic_packet cid off pkt → length cid = kServerCidLen → 9 ≤ length pkt.
Proof. intros [b0 rest _ _|b0 v1 v2 v3 v4 rest _ _ _] E; cbn; rewrite length_app, E; unfold kServerCidLen; lia. Qed.

(** An IPv4 datagram with such a packet is steered by its first id octet. *)
Lemma steer_packet hdr off b cid pkt : ip_udp_header hdr → length (b :: cid) = kServerCidLen → quic_packet (b :: cid) off pkt →
  (b < N_WORKERS)%Z → Bpf.steer (hdr ++ pkt) = Some (Bpf.Select b).
Proof.
  intros [(ihl & H0 & Hi & Hl) H9] Hn Hq Hb. pose proof (length_quic_packet _ _ _ Hq Hn) as Hp.
  destruct (version_ihl ihl) as [E1 E2]; [lia|]. unfold Bpf.steer. rewrite !length_app, decide_False by lia.
  rewrite (lookup_app_l hdr pkt 0) by lia. rewrite H0. cbn [mbind option_bind]. rewrite E1, E2, decide_False by lia.
  rewrite (lookup_app_l hdr pkt 9) by lia. rewrite H9. cbn [mbind option_bind]. rewrite decide_False by (intros Hne; by apply Hne). cbv zeta. rewrite <- Hl.
  rewrite decide_False by (unfold Bpf.SCID_LEN; lia).
  destruct (routing_packet hdr off b cid pkt Hq) as (b0 & h & Hb0 & Er).
  rewrite (lookup_app_r hdr pkt (length hdr)), Nat.sub_diag, Hb0 by lia. cbn [mbind option_bind].
  assert (length hdr + 9 ≤ length (hdr ++ pkt)) as Hc by (rewrite length_app; lia). read_at (length hdr) 6. read_at (length hdr) 7.
  rewrite Er. cbn [mbind option_bind]. by destruct (Z.ltb_spec b N_WORKERS); [|lia].
Qed.

(** The identifier an engine generates begins with its index. *)
Lemma scid_head e rnd : (0 ≤ worker_idx_ e < N_WORKERS)%Z →
  ∃ rest, generate_scid e kServerCidLen rnd = worker_idx_ e :: rest ∧ length (worker_idx_ e :: rest) = kServerCidLen.
Proof.
  intros He. exists (map (λ i, u8 (rnd i)) (seq 1 7)). split; [|reflexivity].
  unfold generate_scid, kServerCidLen. destruct (Z.leb_spec 0 (worker_idx_ e)); [|lia].
  f_equal. unfold u8. apply Z.mod_small. unfold N_WORKERS in He. lia.
Qed.

(** Seen from the payload, every probe falls back to the kernel's hash. *)
Lemma count_payload fallback i : Loader.count (λ pkt, pkt) fallback i =
  if decide (fallback = Z.of_nat i) then length Loader.probes else 0.
Proof.
  unfold Loader.count. assert (Forall (λ pkt, ∃ rb, pkt = Loader.send_probe rb) Loader.probes) as Hp.
  { apply Forall_flat_map, Forall_forall. intros rb _. apply Forall_fmap, Forall_forall. intros k _. by eexists. }
  induction Hp as [|pkt l [rb ->] _ IH]; [by case_decide|]. rewrite filter_cons.
  change (Loader.chosen_socket (λ pkt, pkt) fallback (Loader.send_probe rb)) with fallback.
  case_decide; [cbn; by rewrite IH|done].
Qed.

(** ** Properties *)

(** C29: The steering program is safe and total: on every packet it ends without
    reading outside the packet, dropping it or asking for a socket of the group. *)
Theorem steer_in_bounds (p : list Z) : Forall (λ b, 0 ≤ b < 256)%Z p →
  Bpf.steer p = Some Bpf.Drop ∨ ∃ idx, Bpf.steer p = Some (Bpf.Select idx) ∧ (0 ≤ idx < N_WORKERS)%Z.
Proof.
  intros Hp. unfold Bpf.steer. case_decide; [by left|].
  destruct (lookup_lt_is_Some_2 p 0) as [p0 ->]; [lia|]. cbn [mbind option_bind]. case_decide; [by left|].
  destruct (lookup_lt_is_Some_2 p 9) as [p9 ->]; [lia|]. cbn [mbind option_bind]. case_decide; [by left|].
  cbv zeta. case_decide as Hq; [by left|]. set (q := Z.to_nat (Z.land p0 15 * 4) + 8) in *. right.
  assert (q + 9 ≤ length p) as Hl by (unfold Bpf.SCID_LEN in Hq; lia).
  destruct (covered p q 0 Hl) as [b0 E0]; [lia|]. rewrite Nat.add_0_r in E0. rewrite E0. cbn [mbind option_bind]. read_at q 6. read_at q 7.
  destruct (routing_total p q b0 Hl) as [[rb h] Er]. rewrite Er. cbn [mbind option_bind]. eexists. split; [done|].
  pose proof (routing_octets _ _ _ _ _ Hp Er). unfold N_WORKERS. destruct (Z.ltb_spec rb 4); [lia|]. by apply Z.mod_pos_bound.
Qed.

(** A header without options, and a short-header packet to worker 2. *)
Definition ipv4 : list Z := [0x45; 0; 0; 60; 0; 0; 0; 0; 64; 17; 0; 0; 127; 0; 0; 1; 127; 0; 0; 1; 1; 2; 37; 5; 0; 40; 0; 0]%Z.

Lemma ipv4_ok : ip_udp_header ipv4.
Proof. split; [exists 5%Z; split_and!; [done|lia|lia|done]|done]. Qed.

Definition to_worker_2 : list Z := 0x43%Z :: generate_scid (Engine 2) kServerCidLen (λ _, 7%Z) ++ [1; 2; 3]%Z.

Lemma to_worker_2_packet : quic_packet (generate_scid (Engine 2) kServerCidLen (λ _, 7%Z)) 1 to_worker_2.
Proof. by constructor. Qed.

Lemma steer_in_bounds_witness : Bpf.steer (ipv4 ++ to_worker_2) = Some Bpf.Drop ∨
  ∃ idx, Bpf.steer (ipv4 ++ to_worker_2) = Some (Bpf.Select idx) ∧ (0 ≤ idx < N_WORKERS)%Z.
Proof. apply (steer_in_bounds (ipv4 ++ to_worker_2)). by_eval. Defined.

(** As it stands the program delivers nothing.  The helper returns 0 or a
    negative error, the program returns that value as its verdict, and neither
    is [SK_PASS]; and seen from the UDP header, which is where the data of such
    a program begins, every datagram whose routing byte is not 17 is dropped
    before the helper is asked. *)
Theorem steer_delivers_nothing :
  (∀ select p, (∀ idx, select idx ≤ 0)%Z → Bpf.quic_steer select p ≠ Some SK_PASS) ∧
  (∀ udp b0 rb rest, length udp = 8 → rb ≠ IPPROTO_UDP → Bpf.steer (udp ++ b0 :: rb :: rest) = Some Bpf.Drop).
Proof.
  split.
  - intros select p Hs. unfold Bpf.quic_steer. destruct (Bpf.steer p) as [[|idx]|]; cbn; [done| |done].
    intros [= E]. specialize (Hs idx). unfold SK_PASS in E. lia.
  - intros udp b0 rb rest Hu Hr. unfold Bpf.steer. case_decide; [done|].
    destruct (lookup_lt_is_Some_2 (udp ++ b0 :: rb :: rest) 0) as [p0 ->]; [lia|]. cbn [mbind option_bind]. case_decide; [done|].
    assert ((udp ++ b0 :: rb :: rest) !! 9 = Some rb) as -> by (by rewrite lookup_app_r, Hu by lia).
    cbn [mbind option_bind]. by rewrite decide_True.
Qed.

(** C15: The steering program picks the worker the user-space ingress would, but
    passes nothing on.  With four workers, take a datagram that carries an id some
    engine generated, under a short or a long header.  If what the program sees
    began with the IPv4 header, as it assumes (whatever options it has), it would
    ask the helper for exactly the worker [route] posts the datagram to, which is
    the worker of that engine, whatever the tables of the ingress hold; but what
    the helper returns, 0 or an error, is its verdict, and that is never
    [SK_PASS].  What such a program does see begins with the UDP header
    (ebpf/README.md): then it drops the datagram without asking, unless the octet
    behind the first happens to be 17. *)
Theorem steer_matches_demux dcid d e rnd hdr off pkt :
  demux_reachable d → length (workers_ d) = Z.to_nat N_WORKERS → finds_dcid dcid → ip_udp_header hdr →
  (0 ≤ worker_idx_ e < N_WORKERS)%Z → quic_packet (generate_scid e kServerCidLen rnd) off pkt →
  Bpf.steer (hdr ++ pkt) = Some (Bpf.Select (route dcid pkt d)) ∧ route dcid pkt d = worker_idx_ e ∧
  (∀ select, (∀ idx, select idx ≤ 0)%Z →
     Bpf.quic_steer select (hdr ++ pkt) = Some (select (worker_idx_ e)) ∧ select (worker_idx_ e) ≠ SK_PASS) ∧
  (∀ select udp, length udp = 8 → pkt !! 1 ≠ Some IPPROTO_UDP → Bpf.quic_steer select (udp ++ pkt) = Some SK_DROP).
Proof.
  intros Hd Hw Hf Hh He Hq. assert (route dcid pkt d = worker_idx_ e) as ->.
  { apply (route_owner dcid d e rnd pkt Hd); [by rewrite Hw; cbv; lia|by rewrite Hw|by eapply found_cid]. }
  assert (Bpf.steer (hdr ++ pkt) = Some (Bpf.Select (worker_idx_ e))) as Hs.
  { destruct (scid_head e rnd He) as (rest & E & Hl). rewrite E in Hq. by eapply steer_packet; [| | |lia]. }
  split_and!; [done|done| |].
  - intros select Hsel. unfold Bpf.quic_steer. rewrite Hs. split; [done|]. specialize (Hsel (worker_idx_ e)). unfold SK_PASS. lia.
  - intros select udp Hu Hne. assert (9 ≤ length pkt) as Hl.
    { apply (length_quic_packet _ _ _ Hq). destruct (scid_head e rnd He) as (r & -> & Hl). exact Hl. }
    destruct pkt as [|b0 [|rb rest]]; [cbn in Hl; lia..|].
    unfold Bpf.quic_steer. rewrite (proj2 steer_delivers_nothing); [done|done|]. intros ->. by apply Hne.
Qed.

(** The lookup RFC 9000 prescribes. *)
Definition rfc_dcid (buf : list Z) : option (nat * nat) :=
  b0 ← buf !! 0;
  if decide (Z.land b0 0x80 = 0%Z) then if decide (kServerCidLen < length buf) then Some (1, kServerCidLen) else None
  else len ← buf !! 5; if decide (len ≤ 20 ∧ 6 + len ≤ Z.of_nat (length buf))%Z then Some (6, Z.to_nat len) else None.

Lemma rfc_finds_dcid : finds_dcid rfc_dcid.
Proof.
  intros cid off pkt [b0 rest Hb Hl|b0 v1 v2 v3 v4 rest Hb Hv Hl]; unfold rfc_dcid; cbn [lookup list_lookup mbind option_bind].
  - rewrite decide_True by done. rewrite decide_True by (cbn; rewrite length_app; lia). by rewrite Hl.
  - rewrite decide_False by done. rewrite decide_True by (cbn [length]; rewrite length_app; lia). by rewrite Nat2Z.id.
Qed.

Definition four_workers : QuicPacketDemux := snd (add_worker 13 (snd (add_worker 12 two_workers))).

Lemma steer_matches_demux_witness : Bpf.steer (ipv4 ++ to_worker_2) = Some (Bpf.Select 2) ∧
  Bpf.quic_steer (λ _, 0%Z) ([1; 2; 37; 5; 0; 24; 0; 0]%Z ++ to_worker_2) = Some SK_DROP.
Proof.
  destruct (steer_matches_demux rfc_dcid four_workers (Engine 2) (λ _, 7%Z) ipv4 1 to_worker_2) as (H1 & H2 & _ & H3);
    [by apply demux_add, demux_add, two_workers_reachable|reflexivity|exact rfc_finds_dcid|exact ipv4_ok|cbv; split; [discriminate|reflexivity]|exact to_worker_2_packet|].
  split; [rewrite H1, H2; reflexivity|]. apply H3; [reflexivity|discriminate].
Defined.

(** The packet for worker 2: the helper is asked, answers 0, and 0 is a drop. *)
Lemma steer_delivers_nothing_witness : Bpf.quic_steer (λ _, 0%Z) (ipv4 ++ to_worker_2) = Some SK_DROP ∧
  Bpf.quic_steer (λ _, 0%Z) (ipv4 ++ to_worker_2) ≠ Some SK_PASS ∧
  Bpf.steer ([1; 2; 37; 5; 0; 24; 0; 0]%Z ++ to_worker_2) = Some Bpf.Drop.
Proof.
  split; [reflexivity|]. split; [apply (proj1 steer_delivers_nothing); intros; lia|]. by apply (proj2 steer_delivers_nothing).
Defined.

(** What the loader reports depends on where the filter's view of a datagram
    begins.  From the UDP header, each socket counts its five probes and the
    loader succeeds; from the payload, the filter reads an octet of the payload
    behind the id, no index is in the group, and the loader fails wherever the
    kernel's hash sends the probes. *)
Theorem loader_verdict (udp : list Z) (fallback : Z) : length udp = 8 →
  Loader.main true true (λ pkt, udp ++ pkt) fallback = 0%Z ∧
  (∀ i, i < Z.to_nat N_WORKERS → Loader.count (λ pkt, udp ++ pkt) fallback i = 5) ∧
  Loader.main true true (λ pkt, pkt) fallback = 1%Z.
Proof.
  intros Hu. do 8 (destruct udp as [|? udp]; [done|]). destruct udp; [|done].
  assert (∀ i, i < Z.to_nat N_WORKERS → Loader.count (λ pkt, [z; z0; z1; z2; z3; z4; z5; z6] ++ pkt) fallback i = 5) as Hc.
  { intros i Hi. unfold N_WORKERS in Hi. do 4 (destruct i as [|i]; [reflexivity|]). cbn in Hi. lia. }
  split_and!; [|done|].
  - unfold Loader.main. cbn [negb]. rewrite decide_True; [done|]. apply Forall_seq. intros i Hi. apply Hc. lia.
  - unfold Loader.main. cbn [negb]. rewrite decide_False; [done|]. intros HF.
    rewrite Forall_seq in HF. specialize (HF 0 ltac:(cbv; lia)). rewrite count_payload in HF. case_decide; cbv in HF; lia.
Qed.

Lemma loader_verdict_witness : Loader.main true true (λ pkt, [1; 2; 37; 5; 0; 24; 0; 0]%Z ++ pkt) 3 = 0%Z ∧
  (∀ i, i < Z.to_nat N_WORKERS → Loader.count (λ pkt, [1; 2; 37; 5; 0; 24; 0; 0]%Z ++ pkt) 3 i = 5) ∧
  Loader.main true true (λ pkt, pkt) 3 = 1%Z.
Proof. exact (loader_verdict [1; 2; 37; 5; 0; 24; 0; 0]%Z 3 eq_refl). Defined.
