(* ===== verification/DemuxDemo.v ===== *)
(** * The demultiplexer prototype (examples/quic_demux_demo.cpp)

    The prototype routes packets to engine slots by a table from connection ids,
    written in hexadecimal, to slots; an id seen for the first time is given the
    slot its source address hashes to.  [lsquic_dcid_from_packet] is the
    parameter [dcid]: an offset, negative when there is no id, and a length. *)

From S2P Require Import Prelude CppStd QuicDemux.
From S2P Require Steering.

Definition octets (s : bytes) : list Z := map code s.

(** ** Packets and keys *)

Definition make_initial_packet (dcid scid : bytes) : list Z :=
  [0xC0; 0; 0; 0; 1]%Z ++ [u8 (Z.of_nat (length dcid))] ++ octets dcid ++
  [u8 (Z.of_nat (length scid))] ++ octets scid.

(** [snprintf("%02x")] of an octet. *)
Definition hex_digit (d : Z) : ascii := if (d <? 10)%Z then ascii_of_nat (48 + Z.to_nat d) else ascii_of_nat (87 + Z.to_nat d).
Definition hex_octet (b : Z) : bytes := [hex_digit (b / 16); hex_digit (b mod 16)].
Definition hex (b : list Z) : bytes := concat (map hex_octet b).

(** ** The demultiplexer *)

Record Demux := MkDemux {
  n_slots : Z;
  slot_packets : list Z;
  cid_to_slot : gmap bytes Z;
}.

Definition new_demux (n : nat) : Demux := MkDemux (Z.of_nat n) (replicate n 0%Z) ∅.

Definition hash_slot (key : bytes) (d : Demux) : Z := i32 (fnv1a (octets key) mod n_slots d).

(** [slot_packets[slot]++]; [None] for an index outside the vector. *)
Definition count_packet (slot : Z) (d : Demux) : option Demux :=
  if decide (0 ≤ slot < Z.of_nat (length (slot_packets d)))%Z
  then Some (MkDemux (n_slots d) (alter (λ n, i32 (n + 1)) (Z.to_nat slot) (slot_packets d)) (cid_to_slot d))
  else None.

(** The slot and, for a parsed id, what [dcid_out] is set to. *)
Definition route (dcid : list Z → option (nat * nat)) (buf : list Z) (src_addr : bytes) (d : Demux) :
  option (Z * option bytes * Demux) :=
  match dcid buf with
  | None | Some (_, O) => Some ((-1)%Z, None, d)
  | Some (off, cid_len) =>
      let cid := hex (take cid_len (drop off buf)) in
      match cid_to_slot d !! cid with
      | Some slot => d' ← count_packet slot d; Some (slot, Some cid, d')
      | None =>
          let slot := hash_slot src_addr d in
          d' ← count_packet slot (MkDemux (n_slots d) (slot_packets d) (<[cid := slot]> (cid_to_slot d)));
          Some (slot, Some cid, d')
      end
  end.

Definition close_connection (cid_hex : bytes) (d : Demux) : Demux :=
  MkDemux (n_slots d) (slot_packets d) (delete cid_hex (cid_to_slot d)).

(** [main]: the slots of the five packets, and the packets counted per slot. *)
Definition main (dcid : list Z → option (nat * nat)) : option (list Z * list Z) :=
  let p1 := make_initial_packet #"AAAA" #"servercid" in
  let p2 := make_initial_packet #"BBBB" #"servercid" in
  '(s1, _, d1) ← route dcid p1 #"client1@wifi" (new_demux 2);
  '(s2, _, d2) ← route dcid p1 #"client1@cell" d1;
  '(s3, _, d3) ← route dcid p2 #"client2@wifi" d2;
  '(s4, _, d4) ← route dcid p1 #"client1@cell:different_port" d3;
  '(s5, _, d5) ← route dcid p1 #"client3@wifi" (close_connection #"41414141" d4);
  Some ([s1; s2; s3; s4; s5], slot_packets d5).

(** ** Lemmas *)

Lemma hex_digit_inj d d' : (0 ≤ d < 16)%Z → (0 ≤ d' < 16)%Z → hex_digit d = hex_digit d' → d = d'.
Proof.
  intros Hd Hd'. assert (∀ k, (0 ≤ k < 16)%Z → nat_of_ascii (hex_digit k) = Z.to_nat (if (k <? 10)%Z then 48 + k else 87 + k)%Z) as Hn.
  { intros k Hk. unfold hex_digit. destruct (Z.ltb_spec k 10); rewrite nat_ascii_embedding; lia. }
  intros E%(f_equal nat_of_ascii). rewrite !Hn in E by done. destruct (Z.ltb_spec d 10), (Z.ltb_spec d' 10); lia.
Qed.

Lemma hex_octet_inj b b' : (0 ≤ b < 256)%Z → (0 ≤ b' < 256)%Z → hex_octet b = hex_octet b' → b = b'.
Proof.
  intros Hb Hb' [= E1 E2]. apply hex_digit_inj in E1, E2; Z.to_euclidean_division_equations; lia.
Qed.

(** Ids are told apart by their keys. *)
Lemma hex_inj l l' : Forall (λ b, 0 ≤ b < 256)%Z l → Forall (λ b, 0 ≤ b < 256)%Z l' → hex l = hex l' → l = l'.
Proof.
  intros Hl. revert l'. induction Hl as [|b l Hb Hl IH]; intros l' Hl'; destruct Hl' as [|b' l' Hb' Hl']; try done.
  unfold hex. cbn [map concat]. intros E. apply (app_inj_1 (hex_octet b) (hex_octet b')) in E as [E1 E2]; [|done].
  by rewrite (hex_octet_inj b b'), (IH l').
Qed.

Definition packet_to (dcid : list Z → option (nat * nat)) (cid buf : list Z) : Prop := packet_cid dcid buf = Some cid.

Lemma route_found dcid cid buf src d : packet_to dcid cid buf →
  route dcid buf src d = let key := hex cid in
    let slot := default (hash_slot src d) (cid_to_slot d !! key) in
    d' ← count_packet slot (MkDemux (n_slots d) (slot_packets d) (<[key := slot]> (cid_to_slot d))); Some (slot, Some key, d').
Proof.
  unfold packet_to, packet_cid, route. destruct (dcid buf) as [[off len]|]; [|done]. case_decide; [done|]. intros [= <-].
  destruct len as [|len]; [done|]. cbv zeta. destruct (cid_to_slot d !! _) as [slot|] eqn:E; [|done]. cbn [default].
  by rewrite insert_id by done; destruct d.
Qed.

(** The table names slots that exist. *)
Definition slots_ok (d : Demux) : Prop :=
  (0 < n_slots d < 2 ^ 31)%Z ∧ length (slot_packets d) = Z.to_nat (n_slots d) ∧
  map_Forall (λ _ s, 0 ≤ s < n_slots d)%Z (cid_to_slot d).

Lemma hash_slot_range key d : (0 < n_slots d < 2 ^ 31)%Z → (0 ≤ hash_slot key d < n_slots d)%Z.
Proof.
  intros Hn. unfold hash_slot, i32. pose proof (Z.mod_pos_bound (fnv1a (octets key)) (n_slots d) ltac:(lia)).
  rewrite Z.mod_small by lia. cbv zeta. destruct (Z.ltb_spec (fnv1a (octets key) mod n_slots d) (2 ^ 31)); lia.
Qed.

Inductive demo_reachable : Demux → Prop :=
  | demo_new n : (0 < Z.of_nat n < 2 ^ 31)%Z → demo_reachable (new_demux n)
  | demo_route dcid buf src d slot out d' : demo_reachable d → route dcid buf src d = Some (slot, out, d') → demo_reachable d'
  | demo_close key d : demo_reachable d → demo_reachable (close_connection key d).

Lemma count_packet_ok slot d : slots_ok d → (0 ≤ slot < n_slots d)%Z →
  ∃ d', count_packet slot d = Some d' ∧ slots_ok d' ∧ cid_to_slot d' = cid_to_slot d ∧ n_slots d' = n_slots d.
Proof.
  intros (Hn & Hl & Ht) Hs. unfold count_packet. rewrite decide_True by lia. eexists. split; [done|]. unfold slots_ok. cbn.
  rewrite length_alter. tauto.
Qed.

Lemma insert_slot_ok d key slot : slots_ok d → (0 ≤ slot < n_slots d)%Z →
  slots_ok (MkDemux (n_slots d) (slot_packets d) (<[key := slot]> (cid_to_slot d))).
Proof. intros (Hn & Hl & Ht) Hs. split; [done|]. split; [done|]. by apply map_Forall_insert_2. Qed.

(** A packet with an id is counted on the slot of the id, which is an existing
    one and is in the table afterwards. *)
Lemma route_ok dcid cid buf src d : slots_ok d → packet_to dcid cid buf →
  ∃ slot d', route dcid buf src d = Some (slot, Some (hex cid), d') ∧ (0 ≤ slot < n_slots d)%Z ∧ slots_ok d' ∧ n_slots d' = n_slots d ∧
    cid_to_slot d' = <[hex cid := slot]> (cid_to_slot d) ∧ slot = default (hash_slot src d) (cid_to_slot d !! hex cid).
Proof.
  intros Hd Hp. rewrite (route_found _ _ _ _ _ Hp). cbv zeta. set (slot := default _ _).
  assert (0 ≤ slot < n_slots d)%Z as Hs.
  { unfold slot. destruct (cid_to_slot d !! hex cid) as [s|] eqn:E; [by eapply Hd|]. apply hash_slot_range, Hd. }
  destruct (count_packet_ok slot _ (insert_slot_ok d (hex cid) slot Hd Hs) Hs) as (d' & E & H1 & H2 & H3).
  rewrite E. cbn. exists slot, d'. split; [done|]. by repeat (split; [done|]).
Qed.

Lemma demo_slots_ok d : demo_reachable d → slots_ok d.
Proof.
  induction 1 as [n Hn|dcid buf src d slot out d' _ IH E|key d _ IH].
  - split; [done|]. split; [cbn; rewrite length_replicate; lia|apply map_Forall_empty].
  - destruct (packet_cid dcid buf) as [cid|] eqn:Ep.
    + destruct (route_ok dcid cid buf src d IH Ep) as (s & d1 & E1 & _ & H1 & _). congruence.
    + unfold packet_cid in Ep. unfold route in E. destruct (dcid buf) as [[off [|len]]|]; [|by case_decide|]; by simplify_eq.
  - destruct IH as (H1 & H2 & H3). split; [done|]. split; [done|]. by apply map_Forall_delete.
Qed.

(** ** Properties *)

(** The prototype keeps a connection on its engine: whatever the table
    holds, two packets with the same connection id go to the same existing slot,
    from whatever addresses they come and whatever packets with other ids are
    routed in between; once the connection is closed, the id is new and goes
    where its address hashes to. *)
Theorem demo_migration_safe dcid cid buf1 src1 d1 slot out d2 cid' buf' src' d3 buf2 src2 slot' out' :
  demo_reachable d1 → packet_to dcid cid buf1 → packet_to dcid cid buf2 → packet_to dcid cid' buf' → cid' ≠ cid →
  Forall (λ b, 0 ≤ b < 256)%Z cid → Forall (λ b, 0 ≤ b < 256)%Z cid' →
  route dcid buf1 src1 d1 = Some (slot, out, d2) → route dcid buf' src' d2 = Some (slot', out', d3) →
  (0 ≤ slot < n_slots d1)%Z ∧
  (∃ d4, route dcid buf2 src2 d3 = Some (slot, Some (hex cid), d4)) ∧
  (∃ d4, route dcid buf2 src2 (close_connection (hex cid) d3) = Some (hash_slot src2 d1, Some (hex cid), d4)).
Proof.
  intros Hr%demo_slots_ok P1 P2 P' Hne Ho Ho' E1 E'.
  destruct (route_ok dcid cid buf1 src1 d1 Hr P1) as (s & d2' & Er & Hs & H2 & N2 & T2 & _). rewrite E1 in Er. injection Er as <- -> <-.
  destruct (route_ok dcid cid' buf' src' d2 H2 P') as (s' & d3' & Er & _ & H3 & N3 & T3 & _). rewrite E' in Er. injection Er as <- -> <-.
  assert (hex cid' ≠ hex cid) as Hh by (intros E%hex_inj; done). split; [done|]. split.
  - destruct (route_ok dcid cid buf2 src2 d3 H3 P2) as (s2 & d4 & -> & _ & _ & _ & _ & ->). exists d4.
    by rewrite T3, lookup_insert_ne, T2, lookup_insert_eq.
  - assert (slots_ok (close_connection (hex cid) d3)) as H4.
    { destruct H3 as (K1 & K2 & K3). split; [done|]. split; [done|]. by apply map_Forall_delete. }
    destruct (route_ok dcid cid buf2 src2 _ H4 P2) as (s2 & d4 & -> & _ & _ & _ & _ & ->). exists d4.
    cbn. rewrite lookup_delete_eq. unfold hash_slot. cbn. by rewrite N3, N2.
Qed.

(** ** The run of [main] *)

Definition AAAA : list Z := make_initial_packet #"AAAA" #"servercid".
Definition BBBB : list Z := make_initial_packet #"BBBB" #"servercid".

Lemma AAAA_cid : packet_to Steering.rfc_dcid [65; 65; 65; 65]%Z AAAA.
Proof. reflexivity. Qed.
Lemma BBBB_cid : packet_to Steering.rfc_dcid [66; 66; 66; 66]%Z BBBB.
Proof. reflexivity. Qed.

(** The first connection stays on its slot from three addresses. *)
Example demux_main_run : ∃ s1 s3 s5 counts, main Steering.rfc_dcid = Some ([s1; s1; s3; s1; s5], counts).
Proof. do 4 eexists. vm_compute. reflexivity. Qed.

Lemma demo_migration_safe_witness : ∃ slot out d2 slot' out' d3,
  route Steering.rfc_dcid AAAA #"client1@wifi" (new_demux 2) = Some (slot, out, d2) ∧
  route Steering.rfc_dcid BBBB #"client2@wifi" d2 = Some (slot', out', d3) ∧
  ∃ d4, route Steering.rfc_dcid AAAA #"client1@cell" d3 = Some (slot, Some (hex [65; 65; 65; 65]%Z), d4).
Proof.
  destruct (route Steering.rfc_dcid AAAA #"client1@wifi" (new_demux 2)) as [[[slot out] d2]|] eqn:E1; [|vm_compute in E1; discriminate].
  destruct (route Steering.rfc_dcid BBBB #"client2@wifi" d2) as [[[slot' out'] d3]|] eqn:E2;
    [|vm_compute in E1; injection E1 as <- <- <-; vm_compute in E2; discriminate].
  exists slot, out, d2, slot', out', d3. split; [reflexivity|]. split; [exact E2|].
  apply (demo_migration_safe Steering.rfc_dcid [65; 65; 65; 65]%Z AAAA #"client1@wifi" (new_demux 2) slot out d2 [66; 66; 66; 66]%Z
    BBBB #"client2@wifi" d3 AAAA #"client1@cell" slot' out'); [|exact AAAA_cid|exact AAAA_cid|exact BBBB_cid|discriminate|by_eval|by_eval|exact E1|exact E2].
  apply demo_new. cbn. lia.
Defined.
