(* ===== verification/MiniQuic.v ===== *)
(** * The miniature engine (examples/mini_quic_demo.cpp)

    A QUIC engine reduced to its interface: connections found by their id,
    streams within them, contexts that the application makes and the engine
    keeps.  The application's objects are on an explicit heap: [sess] holds the
    sessions ([AppSession]) with what they received, [strs] the stream objects
    ([AppStream]) with the address of their session; a new object takes an
    address not in use, and a use of one that is gone is [None].  The tables are
    traversed in the order of the lists they are turned into, which stands for the
    unspecified order of [std::unordered_map]. *)

From S2P Require Import Prelude CppStd.

Record mini_stream_t := Stream {
  s_ctx : option nat;
  want_read : bool;
  s_buf : bytes;
  s_fin : bool;
}.

Record mini_conn_t := Conn {
  c_ctx : option nat;
  closed : bool;
  streams : gmap Z mini_stream_t;
  outbox : bytes;
}.

(** The engine's table, the application's heap, and the packets handed to
    [on_packets_out]. *)
Record state := St {
  conns : gmap bytes mini_conn_t;
  sess : gmap nat bytes;
  strs : gmap nat nat;
  sent : list (bytes * bytes);
}.

Definition init : state := St ∅ ∅ ∅ [].

Definition set_conn (d : bytes) (c : mini_conn_t) (st : state) : state := St (<[d := c]> (conns st)) (sess st) (strs st) (sent st).
Definition set_stream (sid : Z) (s : mini_stream_t) (c : mini_conn_t) : mini_conn_t :=
  Conn (c_ctx c) (closed c) (<[sid := s]> (streams c)) (outbox c).

(** ** The stream calls *)

(** [Bytes []] is the end of the stream. *)
Inductive read_outcome := Bytes (d : bytes) | WouldBlock.

Definition mini_stream_read (len : nat) (s : mini_stream_t) : read_outcome * mini_stream_t :=
  match s_buf s with
  | [] => if s_fin s then (Bytes [], s) else (WouldBlock, s)
  | _ => let n := len `min` length (s_buf s) in
         (Bytes (take n (s_buf s)), Stream (s_ctx s) (want_read s) (drop n (s_buf s)) (s_fin s))
  end.

Definition mini_stream_write (data : bytes) (c : mini_conn_t) : mini_conn_t :=
  Conn (c_ctx c) (closed c) (streams c) (outbox c ++ data).

Definition mini_stream_wantread (want : bool) (s : mini_stream_t) : bool * mini_stream_t :=
  (want_read s, Stream (s_ctx s) want (s_buf s) (s_fin s)).

(** ** The application's callbacks *)

Definition app_on_new_conn (st : state) : nat * state :=
  let p := fresh (dom (sess st)) in (p, St (conns st) (<[p := []]> (sess st)) (strs st) (sent st)).

Definition app_on_new_stream (c : mini_conn_t) (st : state) : option (nat * state) :=
  session ← c_ctx c;
  let a := fresh (dom (strs st)) in Some (a, St (conns st) (sess st) (<[a := session]> (strs st)) (sent st)).

(** [while ((n = mini_stream_read(...)) > 0)], with a buffer of 64 bytes: every
    round takes a byte, so the length of the buffer bounds the rounds. *)
Fixpoint read_loop (fuel : nat) (s : mini_stream_t) (received : bytes) : mini_stream_t * bytes :=
  match fuel with
  | O => (s, received)
  | S fuel' =>
      match mini_stream_read 64 s with
      | (Bytes ((_ :: _) as d), s') => read_loop fuel' s' (received ++ d)
      | (_, s') => (s', received)
      end
  end.

Definition app_on_read (d : bytes) (sid : Z) (st : state) : option state :=
  c ← conns st !! d;
  s ← streams c !! sid;
  ctx ← s_ctx s;
  session ← strs st !! ctx;
  received ← sess st !! session;
  let '(s1, received') := read_loop (S (length (s_buf s))) s received in
  let s2 := snd (mini_stream_wantread false s1) in
  let echo := #"echo:" ++ received' ++ [LF] in
  Some (St (<[d := mini_stream_write echo (set_stream sid s2 c)]> (conns st)) (<[session := received']> (sess st)) (strs st) (sent st)).

Definition app_on_conn_closed (c : mini_conn_t) (st : state) : option state :=
  p ← c_ctx c;
  Some (St (conns st) (delete p (sess st))
           (foldr (λ kv m, match s_ctx (snd kv) with Some a => delete a m | None => m end) (strs st) (map_to_list (streams c))) (sent st)).

(** ** The engine *)

(** The first loop: streams that want to read and have bytes. *)
Definition tick (d : bytes) (sid : Z) (st : state) : option state :=
  c ← conns st !! d;
  s ← streams c !! sid;
  if want_read s && negb (bool_decide (s_buf s = [])) then app_on_read d sid st else Some st.

Definition tick_all (keys : list (bytes * Z)) (st : state) : option state :=
  foldr (λ k o, st ← o; tick (fst k) (snd k) st) (Some st) keys.

Definition stream_keys (st : state) : list (bytes * Z) :=
  flat_map (λ kc, map (λ ks, (fst kc, fst ks)) (map_to_list (streams (snd kc)))) (map_to_list (conns st)).

(** The second loop: what is to be sent is handed over and cleared. *)
Definition flush (st : state) : state :=
  St ((λ c, Conn (c_ctx c) (closed c) (streams c) []) <$> conns st) (sess st) (strs st)
     (map (λ kc, (fst kc, outbox (snd kc))) (filter (λ kc, outbox (snd kc) ≠ []) (map_to_list (conns st))) ++ sent st).

Definition mini_engine_process_conns (st : state) : option state :=
  st' ← tick_all (stream_keys st) st; Some (flush st').

(** The connection and the stream of a packet, found or made. *)
Definition find_conn (d : bytes) (st : state) : state :=
  match conns st !! d with
  | Some _ => st
  | None => let '(p, st1) := app_on_new_conn st in set_conn d (Conn (Some p) false ∅ []) st1
  end.

Definition find_stream (d : bytes) (sid : Z) (st : state) : option state :=
  c ← conns st !! d;
  match streams c !! sid with
  | Some _ => Some st
  | None => '(a, st1) ← app_on_new_stream c st; Some (set_conn d (set_stream sid (Stream (Some a) false [] false) c) st1)
  end.

(** Data and FIN. *)
Definition deposit (d : bytes) (sid : Z) (type : ascii) (payload : bytes) (st : state) : option state :=
  c ← conns st !! d;
  s ← streams c !! sid;
  if decide (type = "D"%char ∧ payload ≠ []) then
    let st1 := set_conn d (set_stream sid (Stream (s_ctx s) (want_read s) (s_buf s ++ payload) (s_fin s)) c) st in
    if want_read s then app_on_read d sid st1 else Some st1
  else if decide (type = "F"%char) then
    let st1 := set_conn d (set_stream sid (Stream (s_ctx s) (want_read s) (s_buf s) true) c) st in
    if want_read s then app_on_read d sid st1 else Some st1
  else Some st.

(** The result and the state; the packet is [dcid(4), sid, type, payload]. *)
Definition mini_engine_packet_in (data : bytes) (st : state) : option (Z * state) :=
  match drop 4 data with
  | sid :: type :: payload =>
      let d := take 4 data in
      st1 ← find_stream d (code sid) (find_conn d st);
      st2 ← deposit d (code sid) type payload st1;
      st3 ← mini_engine_process_conns st2;
      Some (0%Z, st3)
  | _ => Some ((-1)%Z, st)
  end.

Definition mini_conn_close (d : bytes) (st : state) : option state :=
  c ← conns st !! d;
  if closed c then Some st
  else st1 ← app_on_conn_closed c st; Some (St (delete d (conns st1)) (sess st1) (strs st1) (sent st1)).

Definition wantread (d : bytes) (sid : Z) (want : bool) (st : state) : option state :=
  c ← conns st !! d; s ← streams c !! sid; Some (set_conn d (set_stream sid (snd (mini_stream_wantread want s)) c) st).

(** [main]: how many connections are left and what the session of the last one
    received. *)
Definition packet (d : bytes) (sid : nat) (type : ascii) (payload : bytes) : bytes := d ++ [ascii_of_nat sid; type] ++ payload.

Definition main : option (nat * option bytes) :=
  '(_, st1) ← mini_engine_packet_in (packet #"ABCD" 0 "D" #"hello") init;
  '(_, st2) ← mini_engine_packet_in (packet #"ABCD" 1 "D" #"world") st1;
  '(_, st3) ← mini_engine_packet_in (packet #"WXYZ" 0 "D" #"other") st2;
  st4 ← wantread #"ABCD" 0 true st3;
  st5 ← wantread #"ABCD" 1 true st4;
  st6 ← wantread #"WXYZ" 0 true st5;
  '(_, st7) ← mini_engine_packet_in (packet #"ABCD" 0 "D" #"!!") st6;
  st8 ← mini_conn_close #"ABCD" st7;
  Some (size (conns st8), c ← conns st8 !! #"WXYZ"; p ← c_ctx c; sess st8 !! p).

Example mini_main_run : main = Some (1, Some #"other").
Proof. vm_compute. reflexivity. Qed.

(** ** Lemmas

    What ownership depends on: the contexts, and which addresses are in use. *)

Definition skel (c : mini_conn_t) : option nat * bool * gmap Z (option nat) := (c_ctx c, closed c, s_ctx <$> streams c).
Definition skels (st : state) : gmap bytes (option nat * bool * gmap Z (option nat)) := skel <$> conns st.

Definition same (st st' : state) : Prop := skels st' = skels st ∧ dom (sess st') = dom (sess st) ∧ strs st' = strs st.

Record heap_ok (st : state) : Prop := {
  ho_conn : ∀ d x, skels st !! d = Some x → ∃ p m, x = (Some p, false, m) ∧ p ∈ dom (sess st) ∧
    ∀ sid ctx, m !! sid = Some ctx → ∃ a, ctx = Some a ∧ strs st !! a = Some p;
  ho_own : ∀ d d' p m m', skels st !! d = Some (Some p, false, m) → skels st !! d' = Some (Some p, false, m') → d = d';
  ho_apart : ∀ d x m sid sid' a, skels st !! d = Some (x, false, m) → m !! sid = Some (Some a) → m !! sid' = Some (Some a) → sid = sid';
  ho_sess : ∀ p, p ∈ dom (sess st) → ∃ d m, skels st !! d = Some (Some p, false, m);
  ho_strs : ∀ a p, strs st !! a = Some p → ∃ d m sid, skels st !! d = Some (Some p, false, m) ∧ m !! sid = Some (Some a);
}.

Lemma same_refl st : same st st.
Proof. done. Qed.

Lemma same_trans st1 st2 st3 : same st1 st2 → same st2 st3 → same st1 st3.
Proof. intros (A1 & A2 & A3) (B1 & B2 & B3). split_and!; congruence. Qed.

Lemma heap_ok_same st st' : same st st' → heap_ok st → heap_ok st'.
Proof. intros (E1 & E2 & E3) [H1 H2 H3 H4 H5]. split; rewrite ?E1, ?E2, ?E3; done. Qed.

Lemma skel_set_stream sid s s' c : streams c !! sid = Some s → s_ctx s' = s_ctx s → skel (set_stream sid s' c) = skel c.
Proof.
  intros Hs E. unfold skel, set_stream. cbn. rewrite fmap_insert, insert_id; [done|]. rewrite lookup_fmap, Hs. cbn. by rewrite E.
Qed.

Lemma skels_set d c c' st : conns st !! d = Some c → skel c' = skel c → skel <$> <[d := c']> (conns st) = skels st.
Proof. intros Hd E. unfold skels. rewrite fmap_insert, insert_id; [done|]. rewrite lookup_fmap, Hd. cbn. by rewrite E. Qed.

Lemma read_loop_ctx fuel s r : s_ctx (fst (read_loop fuel s r)) = s_ctx s.
Proof.
  revert s r. induction fuel as [|fuel IH]; intros s r; [done|]. cbn [read_loop]. unfold mini_stream_read.
  destruct (s_buf s) as [|c b]; [by destruct (s_fin s)|]. cbn [length Nat.min take]. by rewrite IH.
Qed.

(** The loop empties the buffer into the session, in order. *)
Lemma read_loop_drains fuel s r : length (s_buf s) < fuel →
  read_loop fuel s r = (Stream (s_ctx s) (want_read s) [] (s_fin s), r ++ s_buf s).
Proof.
  revert s r. induction fuel as [|fuel IH]; intros s r Hf; [lia|]. cbn [read_loop]. unfold mini_stream_read.
  destruct s as [ctx w [|c b] f]; cbn [s_buf s_ctx want_read s_fin] in *; [by destruct f; rewrite app_nil_r|].
  cbn [length Nat.min take]. rewrite IH; cbn [s_buf s_ctx want_read s_fin].
  - f_equal. rewrite <- app_assoc. f_equal. cbn. f_equal. apply take_drop.
  - cbn [length drop skipn]. rewrite length_drop. cbn in Hf. lia.
Qed.

(** A stream that is in the table. *)
Definition present (d : bytes) (sid : Z) (st : state) : Prop := ∃ c s, conns st !! d = Some c ∧ streams c !! sid = Some s.

Lemma present_same d sid st st' : same st st' → present d sid st → present d sid st'.
Proof.
  intros (E & _ & _) (c & s & Hc & Hs).
  assert (skels st' !! d = Some (skel c)) as H by (rewrite E; unfold skels; by rewrite lookup_fmap, Hc).
  unfold skels in H. rewrite lookup_fmap in H. destruct (conns st' !! d) as [c'|] eqn:E'; [|done]. injection H as _ _ Hm.
  assert ((s_ctx <$> streams c') !! sid = Some (s_ctx s)) as Hk by (rewrite Hm, lookup_fmap, Hs; done).
  rewrite lookup_fmap in Hk. destruct (streams c' !! sid) as [s'|] eqn:Es; [|done]. by exists c', s'.
Qed.

(** The callback finds its objects. *)
Lemma app_on_read_ok d sid st : heap_ok st → present d sid st →
  ∃ st', app_on_read d sid st = Some st' ∧ same st st' ∧ sent st' = sent st.
Proof.
  intros Hok (c & s & Hc & Hs). unfold app_on_read. rewrite Hc. cbn [mbind option_bind]. rewrite Hs. cbn [mbind option_bind].
  destruct (ho_conn _ Hok d (skel c)) as (p & m & Ex & Hp & Hm). { unfold skels. by rewrite lookup_fmap, Hc. }
  injection Ex as Ec Ecl <-. destruct (Hm sid (s_ctx s)) as (a & Ea & Ha). { by rewrite lookup_fmap, Hs. }
  rewrite Ea. cbn [mbind option_bind]. rewrite Ha. cbn [mbind option_bind]. apply elem_of_dom in Hp as [r Hr]. rewrite Hr. cbn [mbind option_bind].
  pose proof (read_loop_ctx (S (length (s_buf s))) s r) as Hctx. destruct (read_loop _ s r) as [s1 r']. cbn in Hctx.
  eexists. split; [done|]. split; [|done]. split_and!; cbn; [|rewrite dom_insert_L; apply elem_of_dom_2 in Hr; set_solver|done].
  unfold skels. cbn. apply (skels_set d c); [done|].
  change (skel (mini_stream_write ?e ?c0)) with (skel c0). by eapply skel_set_stream.
Qed.

Lemma tick_ok d sid st : heap_ok st → present d sid st → ∃ st', tick d sid st = Some st' ∧ same st st' ∧ sent st' = sent st.
Proof.
  intros Hok Hp. pose proof Hp as (c & s & Hc & Hs). unfold tick. rewrite Hc. cbn. rewrite Hs. cbn.
  destruct (want_read s && _); [by apply app_on_read_ok|by exists st].
Qed.

Lemma stream_keys_present st d sid : (d, sid) ∈ stream_keys st → present d sid st.
Proof.
  intros Hin. apply list_elem_of_In, in_flat_map in Hin as ([d' c] & Hc & Hin). apply in_map_iff in Hin as ([sid' s] & [= -> ->] & Hs).
  apply list_elem_of_In, elem_of_map_to_list in Hc, Hs. by exists c, s.
Qed.

Lemma tick_all_ok keys st : heap_ok st → (∀ d sid, (d, sid) ∈ keys → present d sid st) →
  ∃ st', tick_all keys st = Some st' ∧ same st st' ∧ sent st' = sent st.
Proof.
  intros Hok. induction keys as [|[d sid] keys IH]; intros Hk; [by exists st|].
  destruct IH as (st1 & E & Hs & Hn). { intros d' sid' Hin. apply Hk. by right. }
  unfold tick_all in *. cbn. rewrite E. cbn.
  destruct (tick_ok d sid st1) as (st2 & E2 & Hs2 & Hn2); [by eapply heap_ok_same|by eapply present_same, Hk; [|left]|].
  exists st2. split; [done|]. split; [by eapply same_trans|congruence].
Qed.

Lemma flush_same st : same st (flush st).
Proof.
  split_and!; [|done|done]. unfold skels, flush. cbn. rewrite <- map_fmap_compose. by apply map_fmap_ext.
Qed.

Lemma process_ok st : heap_ok st → ∃ st', mini_engine_process_conns st = Some st' ∧ same st st'.
Proof.
  intros Hok. destruct (tick_all_ok (stream_keys st) st Hok) as (st1 & E & Hs & _); [apply stream_keys_present|].
  unfold mini_engine_process_conns. rewrite E. cbn. eexists. split; [done|]. eapply same_trans; [done|apply flush_same].
Qed.

Lemma deposit_ok d sid type payload st : heap_ok st → present d sid st → ∃ st', deposit d sid type payload st = Some st' ∧ same st st'.
Proof.
  intros Hok (c & s & Hc & Hs). unfold deposit. rewrite Hc. cbn. rewrite Hs. cbn.
  assert (∀ s', s_ctx s' = s_ctx s → let st1 := set_conn d (set_stream sid s' c) st in
    ∃ st', (if want_read s then app_on_read d sid st1 else Some st1) = Some st' ∧ same st st') as Hgo.
  { intros s' E st1. assert (same st st1) as H1.
    { split_and!; [|done|done]. unfold st1, set_conn, skels. cbn. apply (skels_set d c); [done|]. by eapply skel_set_stream. }
    destruct (want_read s); [|by exists st1]. destruct (app_on_read_ok d sid st1) as (st2 & E2 & H2 & _).
    - by eapply heap_ok_same.
    - eapply present_same; [done|]. by exists c, s.
    - exists st2. split; [done|]. by eapply same_trans. }
  case_decide; [by apply Hgo|]. case_decide; [by apply Hgo|by exists st].
Qed.

(** ** Making and freeing objects *)

Lemma find_conn_ok d st : heap_ok st → heap_ok (find_conn d st) ∧ is_Some (conns (find_conn d st) !! d).
Proof.
  intros Hok. unfold find_conn. destruct (conns st !! d) as [c|] eqn:Ed; [by rewrite Ed|]. cbn -[fresh].
  set (p := fresh (dom (sess st))). assert (p ∉ dom (sess st)) as Hp by apply is_fresh. rewrite lookup_insert_eq. split; [|done].
  assert (skels st !! d = None) as Hd by (unfold skels; by rewrite lookup_fmap, Ed).
  destruct Hok as [H1 H2 H3 H4 H5]. split; unfold skels; cbn -[fresh]; rewrite ?fmap_insert, ?dom_insert_L; fold (skels st).
  - intros d' x. destruct (decide (d = d')) as [<-|Hne].
    + rewrite lookup_insert_eq. intros [= <-]. exists p, ∅. split_and!; [done|set_solver|]. intros sid ctx Hx. by rewrite lookup_empty in Hx.
    + rewrite lookup_insert_ne by done. intros Hx. destruct (H1 d' x Hx) as (p' & m & -> & Hp' & Hm). exists p', m. split_and!; [done|set_solver|done].
  - assert (∀ d' m', skels st !! d' ≠ Some (Some p, false, m')) as Hno.
    { intros d' m' Hx. destruct (H1 d' _ Hx) as (p' & m & [= <- <-] & Hp' & _). done. }
    intros d1 d2 p' m m'. destruct (decide (d = d1)) as [<-|N1], (decide (d = d2)) as [<-|N2]; try done;
      rewrite ?lookup_insert_eq, ?lookup_insert_ne by done; [intros [= <- _] ?|intros ? [= <- _]|by apply H2]; by exfalso; eapply Hno.
  - intros d' x m sid sid' a. destruct (decide (d = d')) as [<-|Hne].
    + rewrite lookup_insert_eq. intros [= _ <-] Hx. by rewrite fmap_empty, lookup_empty in Hx.
    + rewrite lookup_insert_ne by done. apply H3.
  - intros p' [->%elem_of_singleton|Hp']%elem_of_union.
    + exists d, (s_ctx <$> ∅). by rewrite lookup_insert_eq.
    + destruct (H4 p' Hp') as (d' & m & Hx). exists d', m. rewrite lookup_insert_ne; [done|]. intros ->. congruence.
  - intros a p' Ha. destruct (H5 a p' Ha) as (d' & m & sid & Hx & Hm). exists d', m, sid. split; [|done]. rewrite lookup_insert_ne; [done|].
    intros ->. congruence.
Qed.

Lemma find_stream_ok d sid st : heap_ok st → is_Some (conns st !! d) →
  ∃ st', find_stream d sid st = Some st' ∧ heap_ok st' ∧ present d sid st'.
Proof.
  intros Hok [c Hc]. unfold find_stream. rewrite Hc. cbn [mbind option_bind].
  destruct (streams c !! sid) as [s|] eqn:Es; [exists st; split_and!; [done..|]; by exists c, s|].
  assert (skels st !! d = Some (skel c)) as Hd by (unfold skels; by rewrite lookup_fmap, Hc).
  destruct (ho_conn _ Hok d _ Hd) as (p & m & Ex & Hp & Hm). rewrite Ex in Hd. injection Ex as Ec Ecl Em.
  unfold app_on_new_stream. rewrite Ec. cbn [mbind option_bind]. set (a := fresh (dom (strs st))).
  assert (strs st !! a = None) as Ha by (apply not_elem_of_dom, is_fresh).
  eexists. split; [done|]. split; [|eexists _, _; cbn; rewrite lookup_insert_eq; split; [done|]; cbn; by rewrite lookup_insert_eq].
  assert (m !! sid = None) as Hsid by (by rewrite <- Em, lookup_fmap, Es).
  assert (∀ d' m' sid', skels st !! d' = Some (Some p, false, m') → m' !! sid' ≠ Some (Some a)) as Hno.
  { intros d' m' sid' Hx Hy. destruct (ho_conn _ Hok d' _ Hx) as (p' & m0 & [= <- <-] & _ & Hz). destruct (Hz _ _ Hy) as (a' & [= <-] & Hz'). congruence. }
  destruct Hok as [H1 H2 H3 H4 H5]. split; unfold skels, set_conn; cbn; rewrite ?fmap_insert; fold (skels st);
    change (skel (set_stream ?i ?s0 c)) with (c_ctx c, closed c, s_ctx <$> <[i := s0]> (streams c)); rewrite fmap_insert, Em, Ec, Ecl; cbn [s_ctx].
  - intros d' x. destruct (decide (d = d')) as [<-|Hne].
    + rewrite lookup_insert_eq. intros [= <-]. exists p, (<[sid := Some a]> m). split_and!; [done..|]. intros sid' ctx.
      destruct (decide (sid = sid')) as [<-|Hn]; [rewrite lookup_insert_eq; intros [= <-]; exists a; by rewrite lookup_insert_eq|].
      rewrite lookup_insert_ne by done. intros Hx. destruct (Hm sid' ctx Hx) as (a' & -> & Ha'). exists a'. split; [done|].
      rewrite lookup_insert_ne; [done|]. intros E. rewrite <- E in Ha'. congruence.
    + rewrite lookup_insert_ne by done. intros Hx. destruct (H1 d' x Hx) as (p' & m' & -> & Hp' & Hm'). exists p', m'. split_and!; [done..|].
      intros sid' ctx Hy. destruct (Hm' sid' ctx Hy) as (a' & -> & Ha'). exists a'. split; [done|]. rewrite lookup_insert_ne; [done|].
      intros E. rewrite <- E in Ha'. congruence.
  - intros d1 d2 p' m1 m2. destruct (decide (d = d1)) as [<-|N1], (decide (d = d2)) as [<-|N2]; try done;
      rewrite ?lookup_insert_eq, ?lookup_insert_ne by done; [intros [= <- _] Hx; by eapply H2|intros Hx [= <- _]; by eapply H2|by apply H2].
  - intros d' x m' sid1 sid2 a'. destruct (decide (d = d')) as [<-|Hne].
    + rewrite lookup_insert_eq. intros [= _ <-].
      destruct (decide (sid = sid1)) as [<-|N1], (decide (sid = sid2)) as [<-|N2]; try done;
        rewrite ?lookup_insert_eq, ?lookup_insert_ne by done; [intros [= <-] Hx|intros Hx [= <-]|by eapply H3]; by destruct (Hno _ _ _ Hd Hx).
    + rewrite lookup_insert_ne by done. apply H3.
  - intros p' Hp'. destruct (H4 p' Hp') as (d' & m' & Hx). destruct (decide (d = d')) as [<-|Hne].
    + exists d. eexists. rewrite lookup_insert_eq. by rewrite Hd in Hx; injection Hx as <- _.
    + exists d', m'. by rewrite lookup_insert_ne.
  - intros a' p'. destruct (decide (a = a')) as [<-|Hna].
    + rewrite lookup_insert_eq. intros [= <-]. exists d, (<[sid := Some a]> m), sid. by rewrite !lookup_insert_eq.
    + rewrite lookup_insert_ne by done. intros Hx. destruct (H5 a' p' Hx) as (d' & m' & sid' & Hy & Hz). destruct (decide (d = d')) as [<-|Hne].
      * rewrite Hd in Hy. injection Hy as <- <-. exists d, (<[sid := Some a]> m), sid'. rewrite lookup_insert_eq. split; [done|].
        rewrite lookup_insert_ne; [done|]. intros ->. congruence.
      * exists d', m', sid'. by rewrite lookup_insert_ne.
Qed.

(** The loop that deletes the streams' objects. *)
Lemma freed_lookup (l : list (Z * mini_stream_t)) (m : gmap nat nat) a :
  foldr (λ kv m, match s_ctx (snd kv) with Some a => delete a m | None => m end) m l !! a =
  if decide (Some a ∈ map (λ kv, s_ctx (snd kv)) l) then None else m !! a.
Proof.
  induction l as [|[k s] l IH]; cbn; [by rewrite decide_False by apply not_elem_of_nil|].
  destruct (s_ctx s) as [b|].
  - destruct (decide (a = b)) as [->|Hne].
    + rewrite lookup_delete_eq, decide_True by (by left). done.
    + rewrite lookup_delete_ne, IH by done. do 2 case_decide; try done; set_solver.
  - rewrite IH. do 2 case_decide; try done; set_solver.
Qed.

Lemma mini_close_ok d st : heap_ok st → is_Some (conns st !! d) → ∃ st', mini_conn_close d st = Some st' ∧ heap_ok st'.
Proof.
  intros Hok [c Hc]. unfold mini_conn_close. rewrite Hc. cbn [mbind option_bind].
  assert (skels st !! d = Some (skel c)) as Hd by (unfold skels; by rewrite lookup_fmap, Hc).
  destruct (ho_conn _ Hok d _ Hd) as (p & m & Ex & Hp & Hm). rewrite Ex in Hd. injection Ex as Ec Ecl Em. rewrite Ecl.
  unfold app_on_conn_closed. rewrite Ec. cbn [mbind option_bind conns sess strs sent]. eexists. split; [done|].
  assert (∀ a, Some a ∈ map (λ kv, s_ctx (snd kv)) (map_to_list (streams c)) ↔ ∃ sid, m !! sid = Some (Some a)) as Hin.
  { intros a. rewrite <- Em. split.
    - intros Ha. apply list_elem_of_In, in_map_iff in Ha as ([sid s] & Hs & Hx). apply list_elem_of_In, elem_of_map_to_list in Hx.
      exists sid. rewrite lookup_fmap, Hx. cbn. by rewrite <- Hs.
    - intros [sid Hx]. rewrite lookup_fmap in Hx. destruct (streams c !! sid) as [s|] eqn:Es; [|done]. injection Hx as Hx.
      apply list_elem_of_In, in_map_iff. exists (sid, s). split; [done|]. by apply list_elem_of_In, elem_of_map_to_list. }
  destruct Hok as [H1 H2 H3 H4 H5]. split; unfold skels; cbn; rewrite ?fmap_delete, ?dom_delete_L; fold (skels st).
  - intros d' x [Hne Hx]%lookup_delete_Some. destruct (H1 d' x Hx) as (p' & m' & -> & Hp' & Hm'). exists p', m'.
    assert (p' ≠ p) as Hpp by (intros ->; by apply Hne; eapply H2). split_and!; [done|set_solver|]. intros sid ctx Hy.
    destruct (Hm' sid ctx Hy) as (a & -> & Ha). exists a. split; [done|]. rewrite freed_lookup, decide_False; [done|].
    rewrite Hin. intros [sid' Hz]. destruct (Hm sid' _ Hz) as (a' & [= <-] & Ha'). congruence.
  - intros d1 d2 p' m1 m2 [_ Hx]%lookup_delete_Some [_ Hy]%lookup_delete_Some. by eapply H2.
  - intros d' x m' sid sid' a [_ Hx]%lookup_delete_Some. by eapply H3.
  - intros p' [Hp' Hne]%elem_of_difference. destruct (H4 p' Hp') as (d' & m' & Hx). exists d', m'. rewrite lookup_delete_ne; [done|].
    intros <-. rewrite Hd in Hx. injection Hx as <- _. set_solver.
  - intros a p'. rewrite freed_lookup. case_decide as Hna; [done|]. intros Ha. destruct (H5 a p' Ha) as (d' & m' & sid & Hx & Hy).
    exists d', m', sid. split; [|done]. rewrite lookup_delete_ne; [done|]. intros <-. rewrite Hd in Hx. injection Hx as <- <-.
    apply Hna, Hin. by exists sid.
Qed.

Lemma packet_in_ok data st : heap_ok st → ∃ r st', mini_engine_packet_in data st = Some (r, st') ∧ heap_ok st'.
Proof.
  intros Hok. unfold mini_engine_packet_in. destruct (drop 4 data) as [|sid [|type payload]]; [by eexists _, _..|].
  destruct (find_conn_ok (take 4 data) st Hok) as [Hok1 Hc].
  destruct (find_stream_ok _ (code sid) _ Hok1 Hc) as (st1 & E1 & Hok2 & Hp). rewrite E1. cbn [mbind option_bind].
  destruct (deposit_ok _ _ type payload _ Hok2 Hp) as (st2 & E2 & Hs2). rewrite E2. cbn [mbind option_bind].
  pose proof (heap_ok_same _ _ Hs2 Hok2) as Hok3. destruct (process_ok st2 Hok3) as (st3 & E3 & Hs3). rewrite E3.
  eexists _, _. split; [done|]. by eapply heap_ok_same.
Qed.

Lemma wantread_ok d sid want st : heap_ok st → present d sid st → ∃ st', wantread d sid want st = Some st' ∧ heap_ok st'.
Proof.
  intros Hok (c & s & Hc & Hs). unfold wantread. rewrite Hc. cbn. rewrite Hs. cbn. eexists. split; [done|].
  eapply heap_ok_same; [|done]. split_and!; [|done|done]. unfold set_conn, skels. cbn. apply (skels_set d c); [done|]. by eapply skel_set_stream.
Qed.

Lemma init_ok : heap_ok init.
Proof. split; unfold skels; cbn; set_solver. Qed.

(** ** The engine in use

    A program that uses the engine feeds it packets, any bytes, turns reading
    on and off, runs the timer, and closes connections that are open. *)

Inductive call :=
  | PacketIn (data : bytes)
  | WantRead (d : bytes) (sid : Z) (want : bool)
  | ProcessConns
  | ConnClose (d : bytes).

Definition allowed (k : call) (st : state) : Prop :=
  match k with
  | PacketIn _ | ProcessConns => True
  | WantRead d sid _ => present d sid st
  | ConnClose d => is_Some (conns st !! d)
  end.

Definition perform (k : call) (st : state) : option state :=
  match k with
  | PacketIn data => snd <$> mini_engine_packet_in data st
  | WantRead d sid want => wantread d sid want st
  | ProcessConns => mini_engine_process_conns st
  | ConnClose d => mini_conn_close d st
  end.

Inductive in_use : state → Prop :=
  | use_init : in_use init
  | use_call k st st' : in_use st → allowed k st → perform k st = Some st' → in_use st'.

Lemma perform_ok k st : heap_ok st → allowed k st → ∃ st', perform k st = Some st' ∧ heap_ok st'.
Proof.
  intros Hok Ha. destruct k as [data|d sid want| |d]; cbn in *.
  - destruct (packet_in_ok data st Hok) as (r & st' & -> & H). by exists st'.
  - by apply wantread_ok.
  - destruct (process_ok st Hok) as (st' & E & Hs). exists st'. split; [done|]. by eapply heap_ok_same.
  - by apply mini_close_ok.
Qed.

Lemma in_use_ok st : in_use st → heap_ok st.
Proof.
  induction 1 as [|k st st' _ IH Ha E]; [apply init_ok|]. destruct (perform_ok k st IH Ha) as (st2 & E2 & H). congruence.
Qed.

Definition after (k : call) (st : state) : state := default st (perform k st).

Lemma in_use_after k st : in_use st → allowed k st → in_use (after k st).
Proof.
  intros Hu Ha. destruct (perform_ok k st (in_use_ok _ Hu) Ha) as (st' & E & _). unfold after. rewrite E. by eapply use_call.
Qed.

(** However the miniature engine is used, no call meets a context that was
    freed or never set: every call that is allowed returns.  And no context
    leaks: each session object on the heap belongs to one open connection, each
    stream object to one stream of one open connection, whose session it points
    to. *)
Theorem mini_contexts_safe st : in_use st →
  (∀ k, allowed k st → is_Some (perform k st)) ∧
  (∀ p, p ∈ dom (sess st) → exists! d, ∃ c, conns st !! d = Some c ∧ c_ctx c = Some p) ∧
  (∀ a p, strs st !! a = Some p → ∃ d c sid s, conns st !! d = Some c ∧ c_ctx c = Some p ∧ streams c !! sid = Some s ∧ s_ctx s = Some a).
Proof.
  intros Hu%in_use_ok. split; [intros k Ha; destruct (perform_ok k st Hu Ha) as (st' & E & _); by exists st'|].
  assert (∀ d x, skels st !! d = Some x → ∃ c, conns st !! d = Some c ∧ skel c = x) as Hsk.
  { intros d x Hx. unfold skels in Hx. rewrite lookup_fmap in Hx. destruct (conns st !! d) as [c|]; [|done]. exists c. by injection Hx. }
  split.
  - intros p Hp. destruct (ho_sess _ Hu p Hp) as (d & m & Hd). exists d. split.
    + destruct (Hsk _ _ Hd) as (c & Hc & Ec). injection Ec as Ec _ _. by exists c.
    + intros d' (c & Hc & Ec). assert (skels st !! d' = Some (skel c)) as Hd' by (unfold skels; by rewrite lookup_fmap, Hc).
      destruct (ho_conn _ Hu _ _ Hd') as (p' & m' & Ex & _). rewrite Ex in Hd'. injection Ex as Ep _ _.
      assert (p' = p) as -> by congruence. by eapply ho_own.
  - intros a p Ha. destruct (ho_strs _ Hu a p Ha) as (d & m & sid & Hd & Hm). destruct (Hsk _ _ Hd) as (c & Hc & Ec). injection Ec as Ec _ <-.
    rewrite lookup_fmap in Hm. destruct (streams c !! sid) as [s|] eqn:Es; [|done]. injection Hm as Hm. by exists d, c, sid, s.
Qed.

(** After two packets, a close of the first connection. *)
Definition closed_one : state :=
  after (ConnClose #"ABCD") (after (PacketIn (packet #"WXYZ" 0 "D" #"x")) (after (PacketIn (packet #"ABCD" 0 "F" [])) init)).

Lemma mini_contexts_safe_witness : (size (sess closed_one), size (strs closed_one)) = (1, 1) ∧ ∀ k, allowed k closed_one → is_Some (perform k closed_one).
Proof.
  split; [vm_compute; reflexivity|]. apply (mini_contexts_safe closed_one). apply in_use_after; [|vm_compute; by eexists].
  apply in_use_after; [|done]. apply in_use_after; [apply use_init|done].
Defined.

(** ** The end of a stream that arrives while reading is off *)

(** A stream whose only news is its FIN is not ticked: [process_conns] looks at
    the buffer alone, so when reading is turned on later the application never
    learns of the end. *)
Lemma fin_not_ticked d sid c s st : conns st !! d = Some c → streams c !! sid = Some s → s_buf s = [] → tick d sid st = Some st.
Proof. intros Hc Hs Hb. unfold tick. rewrite Hc. cbn. rewrite Hs. cbn. by rewrite Hb, bool_decide_true, andb_false_r. Qed.

(** F then wantread then process_conns: nothing is echoed. *)
Example fin_lost : (st1 ← perform (PacketIn (packet #"ABCD" 0 "F" [])) init; st2 ← perform (WantRead #"ABCD" 0 true) st1;
  st3 ← perform ProcessConns st2; Some (sent st3)) = Some [].
Proof. vm_compute. reflexivity. Qed.

(** D then wantread then process_conns: the data is echoed. *)
Example data_ticked : (st1 ← perform (PacketIn (packet #"ABCD" 0 "D" #"hi")) init; st2 ← perform (WantRead #"ABCD" 0 true) st1;
  st3 ← perform ProcessConns st2; Some (sent st3)) = Some [(#"ABCD", #"echo:hi" ++ [LF])].
Proof. vm_compute. reflexivity. Qed.
