(* ===== verification/HeaderSet.v ===== *)
(** * The HTTP/3 header set lsquic decodes into
    (src/src/transport/quic_transport.{h,cpp}, [QuicH3HeaderSet] and the HSI)

    lsquic's QPACK decoder asks for room ([hsi_prepare_decode]), decodes one
    field into it, hands the field over ([hsi_process]) and discards the set on
    failure.  The header descriptor [lsxpack_header] and its accessors belong to
    lsquic: they are arguments here.  What the decoder does between two calls is
    the step [decoder_ran] of the environment. *)

From S2P Require Import Prelude CppStd Transport.

(** [decode_buf.size()]. *)
Definition kDecodeBuf : Z := (64 * 1024)%Z.

Section header_set.
(** The descriptor, zero-initialised and after [lsxpack_header_prepare_decode]
    with an offset and a length; its accessors: the size of what was decoded,
    where in the buffer name and value are, and their lengths. *)
Context {lsxpack_header : Type} (zero_header : lsxpack_header)
  (lsxpack_header_prepare_decode : Z → Z → lsxpack_header)
  (lsxpack_header_get_dec_size : lsxpack_header → Z)
  (lsxpack_header_get_name lsxpack_header_get_value : lsxpack_header → option nat)
  (name_len val_len : lsxpack_header → nat).

Record QuicH3HeaderSet := HeaderSet {
  decode_buf : bytes;
  headers : HeaderList;
  xhdr : lsxpack_header;
  decode_off : Z;
  have_xhdr : bool;
}.

Definition hsi_create : QuicH3HeaderSet := HeaderSet (replicate (Z.to_nat kDecodeBuf) zero) [] zero_header 0 false.

(** [hdr]: whether a descriptor to grow is passed.  The first result is the
    region granted; [None] is the null pointer. *)
Definition hsi_prepare_decode (hdr : bool) (space : Z) (hs : QuicH3HeaderSet) : option (Z * Z) * QuicH3HeaderSet :=
  if hdr then (None, hs)
  else
    let off := if have_xhdr hs then u64 (decode_off hs + lsxpack_header_get_dec_size (xhdr hs)) else decode_off hs in
    if (kDecodeBuf <? u64 (off + space))%Z
    then (None, HeaderSet (decode_buf hs) (headers hs) (xhdr hs) off true)
    else
      let len := u64 (kDecodeBuf - off) in
      (Some (off, len), HeaderSet (decode_buf hs) (headers hs) (lsxpack_header_prepare_decode off len) off true).

(** [std::string(p, n)] for a pointer into the buffer. *)
Definition text (buf : bytes) (p n : nat) : bytes := take n (drop p buf).

Definition hsi_process (hdr : option lsxpack_header) (hs : QuicH3HeaderSet) : Z * QuicH3HeaderSet :=
  match hdr with
  | None => (0%Z, hs)
  | Some h =>
      match lsxpack_header_get_name h, lsxpack_header_get_value h with
      | Some name, Some value =>
          (0%Z, HeaderSet (decode_buf hs)
                  (headers hs ++ [(text (decode_buf hs) name (name_len h), text (decode_buf hs) value (val_len h))])
                  (xhdr hs) (decode_off hs) (have_xhdr hs))
      | _, _ => ((-1)%Z, hs)
      end
  end.

(** [delete]: the set is gone. *)
Definition hsi_discard (_ : QuicH3HeaderSet) : option QuicH3HeaderSet := None.

(** ** Decoding a header block

    Where the decoder is with the set: between fields, with room granted, with a
    field decoded, or failed. *)

Inductive stage := Between | Granted (off len : Z) | Decoded (name value : bytes) | Failed.

Record decoding := Decoding {
  hset : QuicH3HeaderSet;
  at_stage : stage;
  regions : list (Z * Z);       (** the regions used so far, newest first *)
  fields : HeaderList;          (** the fields handed over so far, in wire order *)
}.

Definition begin_decoding : decoding := Decoding hsi_create Between [] [].

Definition set_decoded (h : lsxpack_header) (buf : bytes) (hs : QuicH3HeaderSet) : QuicH3HeaderSet :=
  HeaderSet buf (headers hs) h (decode_off hs) (have_xhdr hs).

(** The decoder writes a field [name], [value] into the region granted, and
    nothing outside it; where the descriptor has pointers, they are to the two
    strings. *)
Record decoder_ran (off len : Z) (buf buf' : bytes) (h : lsxpack_header) (name value : bytes) : Prop := {
  ran_size : (0 ≤ lsxpack_header_get_dec_size h ≤ len)%Z;
  ran_length : length buf' = length buf;
  ran_frame : ∀ i, (Z.of_nat i < off ∨ off + len ≤ Z.of_nat i)%Z → buf' !! i = buf !! i;
  ran_name : ∀ p, lsxpack_header_get_name h = Some p → text buf' p (name_len h) = name;
  ran_value : ∀ p, lsxpack_header_get_value h = Some p → text buf' p (val_len h) = value;
}.

Inductive decode_step : decoding → decoding → Prop :=
  | step_prepare d space r hs : at_stage d = Between → (0 ≤ space < 2 ^ 63)%Z →
      hsi_prepare_decode false space (hset d) = (r, hs) →
      decode_step d (Decoding hs (match r with Some (off, len) => Granted off len | None => Failed end) (regions d) (fields d))
  | step_grow d off len space : at_stage d = Granted off len →
      decode_step d (Decoding (snd (hsi_prepare_decode true space (hset d))) Failed (regions d) (fields d))
  | step_decode d off len h buf' name value : at_stage d = Granted off len →
      decoder_ran off len (decode_buf (hset d)) buf' h name value →
      decode_step d (Decoding (set_decoded h buf' (hset d)) (Decoded name value)
        ((off, lsxpack_header_get_dec_size h) :: regions d) (fields d))
  | step_process d name value hs : at_stage d = Decoded name value →
      hsi_process (Some (xhdr (hset d))) (hset d) = (0%Z, hs) →
      decode_step d (Decoding hs Between (regions d) (fields d ++ [(name, value)]))
  | step_reject d name value hs : at_stage d = Decoded name value →
      hsi_process (Some (xhdr (hset d))) (hset d) = ((-1)%Z, hs) →
      decode_step d (Decoding hs Failed (regions d) (fields d)).

Definition decode_reachable : decoding → Prop := rtc decode_step begin_decoding.

(** ** The invariant *)

(** Regions, newest first, that follow one another from 0 to [e]. *)
Fixpoint laid_out (l : list (Z * Z)) (e : Z) : Prop :=
  match l with
  | [] => e = 0%Z
  | (o, n) :: l' => e = (o + n)%Z ∧ (0 ≤ n)%Z ∧ laid_out l' o
  end.

Definition used (l : list (Z * Z)) : Z := fold_right (λ p acc, (snd p + acc)%Z) 0%Z l.

Lemma used_cons o n l : used ((o, n) :: l) = (n + used l)%Z.
Proof. done. Qed.

(** The buffer is used up to [e], the end of the last field. *)
Definition used_to (hs : QuicH3HeaderSet) (e : Z) : Prop :=
  (0 ≤ decode_off hs)%Z ∧ (e ≤ kDecodeBuf)%Z ∧
  if have_xhdr hs then e = (decode_off hs + lsxpack_header_get_dec_size (xhdr hs))%Z ∧ (decode_off hs ≤ e)%Z
  else e = decode_off hs.

Record decode_inv (d : decoding) : Prop := {
  di_headers : headers (hset d) = fields d;
  di_laid : laid_out (regions d) (used (regions d));
  di_stage : match at_stage d with
    | Between => used_to (hset d) (used (regions d))
    | Granted off len => off = used (regions d) ∧ off = decode_off (hset d) ∧ have_xhdr (hset d) = true ∧
                         (0 ≤ off)%Z ∧ (0 ≤ len)%Z ∧ (off + len = kDecodeBuf)%Z
    | Decoded name value => used_to (hset d) (used (regions d)) ∧
        (∀ p, lsxpack_header_get_name (xhdr (hset d)) = Some p → text (decode_buf (hset d)) p (name_len (xhdr (hset d))) = name) ∧
        (∀ p, lsxpack_header_get_value (xhdr (hset d)) = Some p → text (decode_buf (hset d)) p (val_len (xhdr (hset d))) = value)
    | Failed => True
    end;
}.

Lemma laid_out_region l : ∀ e o n, laid_out l e → (o, n) ∈ l → (0 ≤ o)%Z ∧ (0 ≤ n)%Z ∧ (o + n ≤ e)%Z.
Proof.
  assert (∀ l e, laid_out l e → (0 ≤ e)%Z) as Hpos.
  { clear. induction l as [|[o n] l IH]; cbn; [lia|]. intros e (-> & Hn & H%IH). lia. }
  induction l as [|[o' n'] l IH]; intros e o n; cbn; [by intros _ ?%not_elem_of_nil|].
  intros (-> & Hn & Hl) [[= -> ->]|Hin]%elem_of_cons; [specialize (Hpos _ _ Hl); lia|].
  destruct (IH o' o n Hl Hin) as (? & ? & ?). lia.
Qed.

(** The room a set between two fields grants. *)
Lemma prepare_spec hs e space : used_to hs e → (0 ≤ space < 2 ^ 63)%Z →
  hsi_prepare_decode false space hs =
  if (kDecodeBuf <? e + space)%Z then (None, HeaderSet (decode_buf hs) (headers hs) (xhdr hs) e true)
  else (Some (e, (kDecodeBuf - e)%Z),
        HeaderSet (decode_buf hs) (headers hs) (lsxpack_header_prepare_decode e (kDecodeBuf - e)) e true).
Proof.
  intros (H0 & He & H) Hs. unfold hsi_prepare_decode, kDecodeBuf, u64 in *.
  assert ((if have_xhdr hs then ((decode_off hs + lsxpack_header_get_dec_size (xhdr hs)) mod 2 ^ 64)%Z else decode_off hs) = e) as ->.
  { destruct (have_xhdr hs); [|done]. destruct H as [-> H]. apply Z.mod_small. lia. }
  assert (0 ≤ e)%Z as He0 by (destruct (have_xhdr hs); lia).
  rewrite !Z.mod_small by lia. done.
Qed.

Lemma process_spec hs h name value : xhdr hs = h →
  (∀ p, lsxpack_header_get_name h = Some p → text (decode_buf hs) p (name_len h) = name) →
  (∀ p, lsxpack_header_get_value h = Some p → text (decode_buf hs) p (val_len h) = value) →
  ∀ hs', hsi_process (Some h) hs = (0%Z, hs') →
  hs' = HeaderSet (decode_buf hs) (headers hs ++ [(name, value)]) (xhdr hs) (decode_off hs) (have_xhdr hs).
Proof.
  intros Hx Hn Hv hs'. unfold hsi_process. destruct (lsxpack_header_get_name h) as [p|]; [|done].
  destruct (lsxpack_header_get_value h) as [q|]; [|done]. intros [= <-]. by rewrite (Hn p), (Hv q).
Qed.

Lemma decode_step_inv d d' : decode_step d d' → decode_inv d → decode_inv d'.
Proof.
  intros Hs [H1 H2 H3]. destruct Hs as [d space r hs Hst Hsp Hp|d off len space Hst|d off len h buf' name value Hst Hr
    |d name value hs Hst Hp|d name value hs Hst Hp]; rewrite Hst in H3.
  - pose proof H3 as (Ho & He & Hu). rewrite (prepare_spec _ _ _ H3 Hsp) in Hp.
    assert (0 ≤ used (regions d))%Z by (destruct (have_xhdr (hset d)); lia).
    destruct (kDecodeBuf <? _)%Z eqn:E; injection Hp as <- <-; split; try done; cbn. split_and!; [done..|lia|lia|lia].
  - split; done.
  - destruct H3 as (-> & Hd & Hx & H0 & Hl & HK). destruct Hr as [R1 R2 R3 R4 R5]. split; cbn [hset regions at_stage fields]; [done|rewrite used_cons; cbn; split_and!; try done; lia|].
    rewrite used_cons. split_and!; [|done|done]. unfold used_to. cbn. rewrite <- Hd, Hx. lia.
  - destruct H3 as (Hu & Hn & Hv). apply (process_spec _ _ _ _ eq_refl Hn Hv) in Hp as ->. split; cbn; [by rewrite H1|done|exact Hu].
  - assert (hs = hset d) as -> by (unfold hsi_process in Hp; split_cases). by split.
Qed.

Lemma decode_reachable_inv d : decode_reachable d → decode_inv d.
Proof.
  unfold decode_reachable. intros Hr. remember begin_decoding as d0 eqn:E. assert (decode_inv d0) as Hi.
  { subst. by split. }
  clear E. induction Hr as [|d0 d1 d2 Hs _ IH]; [done|]. apply IH. by eapply decode_step_inv.
Qed.

(** ** Properties *)

(** C28: QPACK decoding stays in the 64 KiB buffer and in order: the room granted for
    a field lies in the buffer and after every field decoded before it, so no
    two fields overlap; room is refused exactly when the block would outgrow the
    buffer; and the set holds the fields handed over, in wire order. *)
Theorem header_set_bounds d : decode_reachable d →
  headers (hset d) = fields d ∧
  (∀ off len, at_stage d = Granted off len →
    (0 ≤ off ∧ 0 ≤ len ∧ off + len = kDecodeBuf)%Z ∧ ∀ o n, (o, n) ∈ regions d → (0 ≤ o ∧ 0 ≤ n ∧ o + n ≤ off)%Z) ∧
  (∀ space, at_stage d = Between → (0 ≤ space < 2 ^ 63)%Z →
    (fst (hsi_prepare_decode false space (hset d)) = None ↔ (kDecodeBuf < used (regions d) + space)%Z) ∧
    ∀ off len, fst (hsi_prepare_decode false space (hset d)) = Some (off, len) → (space ≤ len)%Z).
Proof.
  intros [H1 H2 H3]%decode_reachable_inv. split_and!; [done|..].
  - intros off len E. rewrite E in H3. destruct H3 as (-> & _ & _ & H4). split; [done|].
    intros o n Hin. destruct (laid_out_region _ _ _ _ H2 Hin). lia.
  - intros space E Hsp. rewrite E in H3. rewrite (prepare_spec _ _ _ H3 Hsp).
    destruct (Z.ltb_spec kDecodeBuf (used (regions d) + space)) as [Hlt|Hle]; cbn.
    + done.
    + split; [|intros off len [= <- <-]; lia]. split; [done|lia].
Qed.
End header_set.

(** ** A decoder in the style of lsquic's: the name, then the value, at the
    start of the region *)

Module SampleDecoder.
(** Offset, lengths of name and value. *)
Abbreviation header := (Z * nat * nat)%type.
Definition prepare (off len : Z) : header := (off, 0, Z.to_nat len).
Definition dec_size (h : header) : Z := let '(_, n, v) := h in Z.of_nat (n + v).
Definition name_at (h : header) : option nat := let '(off, n, _) := h in if decide (n = 0) then None else Some (Z.to_nat off).
Definition value_at (h : header) : option nat := let '(off, n, _) := h in Some (Z.to_nat off + n).
Definition name_len (h : header) : nat := let '(_, n, _) := h in n.
Definition val_len (h : header) : nat := let '(_, _, v) := h in v.
Definition decode (off : Z) (name value buf : bytes) : bytes :=
  let o := Z.to_nat off in take o buf ++ name ++ value ++ drop (o + length name + length value) buf.

Lemma decode_ran off len name value buf : length buf = Z.to_nat kDecodeBuf → (0 ≤ off)%Z → name ≠ [] →
  (Z.of_nat (length name + length value) ≤ len)%Z → (off + len = kDecodeBuf)%Z →
  decoder_ran dec_size name_at value_at name_len val_len off len buf (decode off name value buf)
    (off, length name, length value) name value.
Proof.
  intros Hb Ho Hn Hl HK. unfold kDecodeBuf in *. set (o := Z.to_nat off). assert (o + length name + length value ≤ length buf) as Hle by lia.
  assert (length (take o buf) = o) as Ht by (rewrite length_take; lia).
  split; cbn [dec_size name_at value_at name_len val_len]; unfold decode, text; fold o.
  - lia.
  - rewrite !length_app, length_take, length_drop. lia.
  - intros i Hi. destruct (decide (i < o)) as [Hlt|Hge].
    + rewrite lookup_app_l by lia. by rewrite lookup_take_lt by lia.
    + rewrite !lookup_app_r by lia. rewrite Ht, lookup_drop. f_equal. lia.
  - intros p. case_decide as E; [by apply length_zero_nil in E|]. intros [= <-].
    rewrite drop_app_length' by done. by rewrite take_app_length.
  - intros p [= <-]. rewrite drop_app, Ht. rewrite (drop_ge (take o buf)) by lia. cbn.
    replace (o + length name - o) with (length name) by lia. rewrite drop_app_length. by rewrite take_app_length.
Qed.
End SampleDecoder.

(** One field decoded and handed over, then room for the next. *)
Definition second_field (d : decoding (lsxpack_header := SampleDecoder.header)) : Prop :=
  decode_reachable (0%Z, 0, 0) SampleDecoder.prepare SampleDecoder.dec_size SampleDecoder.name_at SampleDecoder.value_at
    SampleDecoder.name_len SampleDecoder.val_len d ∧
  at_stage d = Granted 10 (kDecodeBuf - 10) ∧ fields d = [(#":method", #"GET")].

Lemma second_field_exists : ∃ d, second_field d.
Proof.
  unfold second_field, decode_reachable, begin_decoding, hsi_create. pose proof (length_replicate (Z.to_nat kDecodeBuf) zero) as Hb.
  revert Hb. generalize (replicate (Z.to_nat kDecodeBuf) zero) as buf. intros buf Hb.
  set (K := kDecodeBuf). set (name := #":method"). set (value := #"GET").
  set (d0 := Decoding (HeaderSet buf [] (0%Z, 0, 0) 0 false) Between [] []).
  set (d1 := Decoding (HeaderSet buf [] (SampleDecoder.prepare 0 K) 0 true) (Granted 0 K) [] []).
  set (b2 := SampleDecoder.decode 0 name value buf).
  set (d2 := Decoding (HeaderSet b2 [] (0%Z, 7, 3) 0 true) (Decoded name value) [(0, 10)]%Z []).
  set (d3 := Decoding (HeaderSet b2 [(name, value)] (0%Z, 7, 3) 0 true) Between [(0, 10)]%Z [(name, value)]).
  set (d4 := Decoding (HeaderSet b2 [(name, value)] (SampleDecoder.prepare 10 (K - 10)) 10 true) (Granted 10 (K - 10))
    [(0, 10)]%Z [(name, value)]).
  exists d4. split; [|done].
  eapply (rtc_l _ _ d1); [by apply (step_prepare _ _ _ _ _ _ d0 32 (Some (0%Z, K)) (hset d1))|].
  eapply (rtc_l _ _ d2); [apply (step_decode _ SampleDecoder.dec_size _ _ _ _ d1 0 K (0%Z, 7, 3) b2 name value); [done|by apply SampleDecoder.decode_ran]|].
  eapply (rtc_l _ _ d3); [by apply (step_process _ _ _ _ _ _ d2 name value (hset d3))|].
  eapply (rtc_l _ _ d4); [by apply (step_prepare _ _ _ _ _ _ d3 32 (Some (10%Z, (K - 10)%Z)) (hset d4))|apply rtc_refl].
Qed.

Lemma header_set_bounds_witness : ∃ d, second_field d ∧ headers (hset d) = [(#":method", #"GET")] ∧
  (∀ o n, (o, n) ∈ regions d → (o + n ≤ 10)%Z).
Proof.
  destruct second_field_exists as [d (Hr & Hs & Hf)]. exists d. split; [by split|].
  destruct (header_set_bounds _ _ _ _ _ _ _ d Hr) as (H1 & H2 & _). split; [by rewrite H1|].
  intros o n Hin. destruct (H2 _ _ Hs) as [_ H]. by apply H.
Defined.
