(* ===== verification/QuicStream.v ===== *)
(** * The QUIC stream (src/src/transport/quic_transport.{h,cpp},
    [QuicTransportStream])

    The stream wraps an lsquic stream handle and completes its pending
    operations from lsquic's callbacks.  Callbacks are handles ([nat]); every
    operation returns the next state and, in order, what it did: callbacks it
    called and calls into lsquic.  What lsquic answers is an argument.
    Calling [lsquic_stream_shutdown] on the null handle is [NullShutdown]. *)

From S2P Require Import Prelude CppStd Transport.

Record WriteOp := Op {
  op_data : bytes;
  op_offset : nat;
  op_cb : nat;
}.

Record QuicTransportStream := QStream {
  stream_ : bool;                           (** whether the handle is set *)
  read_cb_ : option (Z * nat);              (** [read_buf_]'s size and [read_cb_] *)
  headers_cb_ : option nat;
  write_queue_ : list WriteOp;
  writing_ : bool;
  shutdown_cb_ : option nat;
}.

Definition new_stream : QuicTransportStream := QStream true None None [] false None.

Inductive output :=
  | CallRead (cb : nat) (r : read_result)
  | CallWrite (cb : nat) (ec : option error_code) (n : nat)
  | CallShutdown (cb : nat)
  | CallHeaders (cb : nat) (raw : HeaderList)
  | WantRead (on : bool)
  | WantWrite (on : bool)
  | LsquicWrite (data : bytes)              (** the bytes lsquic accepted *)
  | LsquicShutdown
  | NullShutdown.

(** The outcome of [lsquic_stream_write], [lsquic_stream_read]. *)
Inductive write_outcome := Accepted (n : nat) | WriteFailed (reset : bool).
Inductive read_outcome := Got (data : bytes) | ReadAgain | ReadFailed (reset : bool).

Definition set_read (x : option (Z * nat)) (s : QuicTransportStream) : QuicTransportStream :=
  QStream (stream_ s) x (headers_cb_ s) (write_queue_ s) (writing_ s) (shutdown_cb_ s).
Definition set_headers (x : option nat) (s : QuicTransportStream) : QuicTransportStream :=
  QStream (stream_ s) (read_cb_ s) x (write_queue_ s) (writing_ s) (shutdown_cb_ s).
Definition set_queue (x : list WriteOp) (s : QuicTransportStream) : QuicTransportStream :=
  QStream (stream_ s) (read_cb_ s) (headers_cb_ s) x (writing_ s) (shutdown_cb_ s).
Definition set_writing (x : bool) (s : QuicTransportStream) : QuicTransportStream :=
  QStream (stream_ s) (read_cb_ s) (headers_cb_ s) (write_queue_ s) x (shutdown_cb_ s).
Definition set_shutdown (x : option nat) (s : QuicTransportStream) : QuicTransportStream :=
  QStream (stream_ s) (read_cb_ s) (headers_cb_ s) (write_queue_ s) (writing_ s) x.

(** ** Operations *)

Definition async_read_some (cap : Z) (cb : nat) (s : QuicTransportStream) : QuicTransportStream * list output :=
  if stream_ s then (set_read (Some (cap, cb)) s, [WantRead true])
  else (s, [CallRead cb (ReadErr eof)]).

(** Completing the whole queue with an error. *)
Definition flush_queue (ec : error_code) (s : QuicTransportStream) : QuicTransportStream * list output :=
  (set_queue [] s, map (λ op, CallWrite (op_cb op) (Some ec) 0) (write_queue_ s)).

Definition pump_write (wr : bytes → write_outcome) (s : QuicTransportStream) : QuicTransportStream * list output :=
  if stream_ s then
    if writing_ s then (s, [])
    else
      match write_queue_ s with
      | [] => (s, [])
      | op :: rest =>
          let remaining := drop (op_offset op) (op_data op) in
          match wr remaining with
          | Accepted (S _ as n) =>
              let offset := op_offset op + n in
              if decide (length (op_data op) ≤ offset)
              then (set_queue rest s, [LsquicWrite (take n remaining); CallWrite (op_cb op) None offset])
              else (set_writing true (set_queue (Op (op_data op) offset (op_cb op) :: rest) s),
                    [LsquicWrite (take n remaining); WantWrite true])
          | Accepted O => (set_writing true s, [LsquicWrite []; WantWrite true])
          | WriteFailed reset =>
              (set_queue rest s, [CallWrite (op_cb op) (Some (if reset then connection_reset else eof)) 0])
          end
      end
  else flush_queue eof s.

Definition async_write_some (wr : bytes → write_outcome) (data : bytes) (cb : nat) (s : QuicTransportStream) :
  QuicTransportStream * list output :=
  pump_write wr (set_queue (write_queue_ s ++ [Op data 0 cb]) s).

Definition on_writeable (wr : bytes → write_outcome) (s : QuicTransportStream) : QuicTransportStream * list output :=
  pump_write wr (set_writing false s).

(** [ok]: whether [lsquic_stream_shutdown] returned 0. *)
Definition async_shutdown (ok : bool) (cb : nat) (s : QuicTransportStream) : QuicTransportStream * list output :=
  if stream_ s then
    if ok then (set_shutdown None s, [LsquicShutdown; CallShutdown cb])
    else (set_shutdown (Some cb) s, [LsquicShutdown])
  else (set_shutdown (Some cb) s, [NullShutdown]).

(** [hset]: what [lsquic_stream_get_hset] returns. *)
Definition try_take_headers (hset : option HeaderList) (s : QuicTransportStream) : QuicTransportStream * list output :=
  match headers_cb_ s with
  | None => (s, [])
  | Some cb =>
      if stream_ s then
        match hset with
        | None => (s, [])
        | Some raw => (set_headers None s, [CallHeaders cb raw])
        end
      else (s, [])
  end.

(** The flag is the returned value. *)
Definition async_take_headers (hset : option HeaderList) (cb : nat) (s : QuicTransportStream) :
  bool * QuicTransportStream * list output :=
  if negb (stream_ s) || bool_decide (headers_cb_ s ≠ None) then (false, s, [])
  else
    let '(s', out) := try_take_headers hset (set_headers (Some cb) s) in
    (true, s', WantRead true :: out).

Definition on_readable (hset : option HeaderList) (rd : Z → read_outcome) (s : QuicTransportStream) :
  QuicTransportStream * list output :=
  match headers_cb_ s with
  | Some _ => try_take_headers hset s
  | None =>
      match read_cb_ s with
      | None => (s, [])
      | Some (cap, cb) =>
          match rd cap with
          | Got data => (set_read None s, [WantRead false; CallRead cb (ReadOk data)])
          | ReadAgain => (s, [WantRead false; WantRead true])
          | ReadFailed reset =>
              (set_read None s, [WantRead false; CallRead cb (ReadErr (if reset then connection_reset else eof))])
          end
      end
  end.

Definition header_total (headers : HeaderList) : Z :=
  fold_right (λ kv acc, Z.of_nat (length (fst kv)) + Z.of_nat (length (snd kv)) + acc)%Z 0%Z headers.

(** The block handed to lsquic, names in lower case. *)
Definition wire_headers (headers : HeaderList) : HeaderList := map (λ kv, (lower_string (fst kv), snd kv)) headers.

(** [sent]: whether [lsquic_stream_send_headers] returned 0.  The results are
    the returned flag, the callback's error and the block handed over. *)
Definition async_send_headers (sent : bool) (headers : HeaderList) (s : QuicTransportStream) :
  bool * option error_code * option HeaderList :=
  if stream_ s then
    if (64 * 1024 <? header_total headers)%Z then (true, Some message_size, None)
    else (true, if sent then None else Some eof, Some (wire_headers headers))
  else (false, Some eof, None).

Definition on_close (s : QuicTransportStream) : QuicTransportStream * list output :=
  let out_read := match read_cb_ s with Some (_, cb) => [CallRead cb (ReadErr eof)] | None => [] end in
  let out_write := map (λ op, CallWrite (op_cb op) (Some eof) 0) (write_queue_ s) in
  let out_shutdown := match shutdown_cb_ s with Some cb => [CallShutdown cb] | None => [] end in
  (QStream false None (headers_cb_ s) [] false None, out_read ++ out_write ++ out_shutdown).

(** [how]: 0 read, 1 write, 2 both. *)
Definition on_reset (how : Z) (s : QuicTransportStream) : QuicTransportStream * list output :=
  let '(s1, out1) :=
    if (how =? 0)%Z || (how =? 2)%Z then
      match read_cb_ s with
      | Some (_, cb) => (set_read None s, [CallRead cb (ReadErr connection_reset)])
      | None => (s, [])
      end
    else (s, []) in
  if (how =? 1)%Z || (how =? 2)%Z then
    let '(s2, out2) := flush_queue connection_reset s1 in (set_writing false s2, out1 ++ out2)
  else (s1, out1).

(** ** Sequences of operations and lsquic events *)

Inductive stream_op :=
  | ORead (cap : Z) (cb : nat)
  | OWrite (wr : bytes → write_outcome) (data : bytes) (cb : nat)
  | OShutdown (ok : bool) (cb : nat)
  | OTakeHeaders (hset : option HeaderList) (cb : nat)
  | EReadable (hset : option HeaderList) (rd : Z → read_outcome)
  | EWriteable (wr : bytes → write_outcome)
  | EReset (how : Z)
  | EClose.

Definition run_op (o : stream_op) (s : QuicTransportStream) : QuicTransportStream * list output :=
  match o with
  | ORead cap cb => async_read_some cap cb s
  | OWrite wr data cb => async_write_some wr data cb s
  | OShutdown ok cb => async_shutdown ok cb s
  | OTakeHeaders hset cb => let '(_, s', out) := async_take_headers hset cb s in (s', out)
  | EReadable hset rd => on_readable hset rd s
  | EWriteable wr => on_writeable wr s
  | EReset how => on_reset how s
  | EClose => on_close s
  end.

Fixpoint run (ops : list stream_op) (s : QuicTransportStream) : QuicTransportStream * list output :=
  match ops with
  | [] => (s, [])
  | o :: ops' =>
      let '(s1, out1) := run_op o s in
      let '(s2, out2) := run ops' s1 in (s2, out1 ++ out2)
  end.

(** ** The write queue against a FIFO of messages

    A stream with what was submitted to it, the bytes lsquic accepted, what the
    write callbacks were told, in order, and whether lsquic is to call back when
    the stream is writable: what the last [lsquic_stream_wantwrite] said. *)
Record write_system := WSys {
  ws : QuicTransportStream;
  submitted : list (bytes * nat);
  accepted : bytes;
  reports : list (nat * option error_code * nat);
  wanting : bool;
}.

Definition write_init : write_system := WSys new_stream [] [] [] false.

Fixpoint accepted_in (out : list output) : bytes :=
  match out with [] => [] | LsquicWrite d :: out' => d ++ accepted_in out' | _ :: out' => accepted_in out' end.
Definition report_of (o : output) : option (nat * option error_code * nat) :=
  match o with CallWrite cb ec n => Some (cb, ec, n) | _ => None end.
Definition want_after (was : bool) (out : list output) : bool :=
  fold_left (λ b o, match o with WantWrite b' => b' | _ => b end) out was.

Definition submits (op : stream_op) : list (bytes * nat) := match op with OWrite _ data cb => [(data, cb)] | _ => [] end.

Definition observe (r : QuicTransportStream * list output) (sub : list (bytes * nat)) (w : write_system) : write_system :=
  WSys (fst r) (submitted w ++ sub) (accepted w ++ accepted_in (snd r)) (reports w ++ omap report_of (snd r)) (want_after (wanting w) (snd r)).

(** lsquic accepts some prefix of what it is offered, or fails. *)
Definition sane (wr : bytes → write_outcome) : Prop := ∀ d n, wr d = Accepted n → n ≤ length d.

Definition sane_op (op : stream_op) : Prop :=
  match op with OWrite wr _ _ | EWriteable wr => sane wr | _ => True end.

(** Any call of the stream's user and any event of lsquic. *)
Inductive write_step : write_system → write_system → Prop :=
  | write_op w op : sane_op op → write_step w (observe (run_op op (ws w)) (submits op) w).

Definition op_msg (op : WriteOp) : bytes * nat := (op_data op, op_cb op).

(** The part of the front message already accepted. *)
Definition front_part (q : list WriteOp) : bytes :=
  match q with [] => [] | op :: _ => take (op_offset op) (op_data op) end.

Definition queue_bytes (q : list WriteOp) : bytes := concat (map (λ op, drop (op_offset op) (op_data op)) q).

(** A message that has left the queue: what lsquic took of it and what its
    callback was told. *)
Record outcome := Outcome {
  o_msg : bytes * nat;
  o_part : bytes;
  o_ec : option error_code;
  o_n : nat;
}.

Definition o_report (o : outcome) : nat * option error_code * nat := (snd (o_msg o), o_ec o, o_n o).

(** Success is reported with the length of a message that was taken whole. *)
Definition outcome_ok (o : outcome) : Prop :=
  o_part o `prefix_of` fst (o_msg o) ∧ (o_ec o = None → o_part o = fst (o_msg o) ∧ o_n o = length (fst (o_msg o))).

(** Only the front message may be begun. *)
Definition queue_ok (q : list WriteOp) : Prop :=
  match q with
  | [] => True
  | op :: rest => (op_offset op = 0 ∨ op_offset op < length (op_data op)) ∧ Forall (λ op, op_offset op = 0) rest
  end.

Definition history (w : write_system) (outs : list outcome) : Prop :=
  Forall outcome_ok outs ∧ submitted w = map o_msg outs ++ map op_msg (write_queue_ (ws w)) ∧
  reports w = map o_report outs ∧ accepted w = concat (map o_part outs) ++ front_part (write_queue_ (ws w)).

Record write_inv (w : write_system) : Prop := {
  wi_queue : queue_ok (write_queue_ (ws w));
  wi_fifo : ∃ outs, history w outs;
  wi_want : write_queue_ (ws w) ≠ [] → stream_ (ws w) = true ∧ wanting w = true;
  wi_writing : writing_ (ws w) = true → write_queue_ (ws w) ≠ [];
}.

Lemma queue_ok_tail op q : queue_ok (op :: q) → queue_ok q ∧ front_part q = [].
Proof.
  intros [_ Ho]. destruct q as [|op' q]; [done|]. inversion_clear Ho as [|? ? Ho1 Ho2]. cbn. rewrite Ho1. split; [|done]. split; [by left|done].
Qed.

Lemma queue_ok_snoc q data cb : queue_ok q → queue_ok (q ++ [Op data 0 cb]) ∧ front_part (q ++ [Op data 0 cb]) = front_part q.
Proof.
  intros Ho. destruct q as [|op q]; cbn; [split; [by split; [left|]|done]|]. split; [|done]. destruct Ho as [H1 H2].
  split; [done|]. apply Forall_app. split; [done|]. by constructor.
Qed.

Lemma front_queue_bytes q : queue_ok q → front_part q ++ queue_bytes q = concat (map op_data q).
Proof.
  intros Hq. unfold queue_bytes. destruct q as [|op q]; [done|]. cbn. rewrite app_assoc, take_drop. f_equal.
  destruct Hq as [_ Hz]. induction Hz as [|op' q Ho Hz IH]; [done|]. cbn. rewrite Ho, drop_0. by f_equal.
Qed.

Lemma omap_map {A B C} (f : B → option C) (g : A → B) (h : A → option C) l :
  (∀ a, f (g a) = h a) → omap f (map g l) = omap h l.
Proof. intros Hf. induction l as [|a l IH]; [done|]. cbn. rewrite Hf. by rewrite IH. Qed.

Lemma omap_some {A C} (h : A → C) l : omap (λ a, Some (h a)) l = map h l.
Proof. induction l as [|a l IH]; [done|]. cbn. by rewrite IH. Qed.

Lemma omap_none {A C} (l : list A) : omap (λ _, @None C) l = [].
Proof. by induction l. Qed.

(** *** Completing the queue with an error *)

Definition failed (ec : error_code) (op : WriteOp) : outcome := Outcome (op_msg op) (take (op_offset op) (op_data op)) (Some ec) 0.
Definition failures (ec : error_code) (q : list WriteOp) : list output := map (λ op, CallWrite (op_cb op) (Some ec) 0) q.

Lemma failures_seen ec q b : accepted_in (failures ec q) = [] ∧ omap report_of (failures ec q) = map o_report (map (failed ec) q) ∧
  want_after b (failures ec q) = b.
Proof.
  unfold failures. split_and!; [by induction q| |by induction q].
  rewrite (omap_map _ _ (λ op, Some (op_cb op, Some ec, 0))) by done. by rewrite omap_some, map_map.
Qed.

Lemma failed_parts ec q : queue_ok q → concat (map o_part (map (failed ec) q)) = front_part q.
Proof.
  destruct q as [|op q]; [done|]. intros [_ Hz]. cbn. rewrite <- (app_nil_r (take _ _)) at 2. f_equal.
  induction Hz as [|op' q Ho Hz IH]; [done|]. cbn. by rewrite Ho, IH.
Qed.

Lemma failed_ok ec q : Forall outcome_ok (map (failed ec) q).
Proof. apply Forall_forall. intros o (op & <- & _)%in_map_iff. split; [apply prefix_take|done]. Qed.

(** The queue is given up: [pre] and [post] are what else the operation did. *)
Lemma failed_inv ec s' pre post w : write_inv w → write_queue_ s' = [] → writing_ s' = false →
  accepted_in pre = [] → omap report_of pre = [] → accepted_in post = [] → omap report_of post = [] →
  write_inv (observe (s', pre ++ failures ec (write_queue_ (ws w)) ++ post) [] w).
Proof.
  intros [Hq (outs & F1 & F2 & F3 & F4) _ _] Es Ew P1 P2 P3 P4.
  assert (∀ l l', accepted_in (l ++ l') = accepted_in l ++ accepted_in l') as Happ.
  { intros l l'. induction l as [|[]]; cbn; try done. rewrite <- app_assoc. by f_equal. }
  destruct (failures_seen ec (write_queue_ (ws w)) (wanting w)) as (S1 & S2 & _).
  split; cbn; rewrite ?Es, ?Ew; try done. exists (outs ++ map (failed ec) (write_queue_ (ws w))). unfold history. cbn. rewrite Es. split_and!.
  - apply Forall_app. split; [done|apply failed_ok].
  - rewrite !app_nil_r, map_app, F2. f_equal. by rewrite map_map.
  - rewrite !omap_app, P2, P4, S2, app_nil_r, F3. cbn. by rewrite map_app.
  - rewrite !Happ, P1, P3, S1, F4, map_app, concat_app, failed_parts by done. cbn. by rewrite !app_nil_r.
Qed.

(** *** One attempt to write *)

Lemma pump_write_step wr s outs w : sane wr → stream_ s = true → queue_ok (write_queue_ s) →
  history (WSys s (submitted w) (accepted w) (reports w) (wanting w)) outs →
  (write_queue_ s ≠ [] → wanting w = true ∨ writing_ s = false ∧ length (write_queue_ s) ≤ 1) →
  (writing_ s = true → write_queue_ s ≠ []) →
  write_inv (observe (pump_write wr s) [] w).
Proof.
  intros Ha Hs Hq (F1 & F2 & F3 & F4) Hw Hwq. unfold pump_write. cbn in F2, F3, F4. rewrite Hs.
  destruct (writing_ s) eqn:Ew.
  { split; cbn; try done; [|intros Hne; destruct (Hw Hne) as [?|[? _]]; [by split|congruence]|by rewrite Ew].
    exists outs. unfold history. cbn. by rewrite !app_nil_r. }
  destruct (write_queue_ s) as [|op rest] eqn:Eq.
  { split; cbn; rewrite ?Eq, ?Ew; try done. exists outs. unfold history. cbn. by rewrite Eq, !app_nil_r in *. }
  destruct (queue_ok_tail _ _ Hq) as [Hqt Hft]. pose proof Hq as [Hlt Hz].
  assert (rest ≠ [] → wanting w = true) as Hrest by (intros Hne; destruct (Hw ltac:(done)) as [?|[_ Hl]]; [done|destruct rest; [done|cbn in Hl; lia]]).
  destruct (wr (drop (op_offset op) (op_data op))) as [[|n]|reset] eqn:Ewr.
  - split; cbn; rewrite ?Eq; try done. exists outs. unfold history. cbn. by rewrite Eq, !app_nil_r.
  - apply Ha in Ewr. rewrite length_drop in Ewr. case_decide as Hge.
    + split; cbn; try done; [|intros Hne; split; [done|by apply Hrest]|by rewrite Ew].
      exists (outs ++ [Outcome (op_msg op) (op_data op) None (op_offset op + S n)]). unfold history. cbn. rewrite app_nil_r, F2, F3, F4, !map_app, concat_app.
      cbn. rewrite <- !app_assoc, Hft, !app_nil_r. split_and!; [|done|done|].
      * apply Forall_app. split; [done|]. constructor; [|constructor]. split; cbn; [done|]. intros _. split; [done|]. lia.
      * f_equal. rewrite (take_ge (drop _ _)) by (rewrite length_drop; lia). apply take_drop.
    + split; cbn; try done; [split; [right; cbn; lia|done]|].
      exists outs. unfold history. cbn. rewrite !app_nil_r, F2, F4. split_and!; [done..|]. rewrite <- app_assoc. f_equal. cbn [front_part]. by rewrite take_take_drop.
  - split; cbn; try done; [|intros Hne; split; [done|by apply Hrest]|by rewrite Ew].
    exists (outs ++ [failed (if reset then connection_reset else eof) op]). unfold history. cbn. rewrite !app_nil_r, F2, F3, F4, !map_app, concat_app.
    cbn. rewrite <- !app_assoc, Hft, !app_nil_r. split_and!; [|done..].
    apply Forall_app. split; [done|]. apply (failed_ok _ [op]).
Qed.

(** Operations that leave the write side alone. *)
Lemma quiet_inv s' outs w : write_inv w → stream_ s' = stream_ (ws w) → write_queue_ s' = write_queue_ (ws w) → writing_ s' = writing_ (ws w) →
  accepted_in outs = [] → omap report_of outs = [] → want_after (wanting w) outs = wanting w →
  write_inv (observe (s', outs) [] w).
Proof.
  intros [Hq (l & F) Hw Hwr] E1 E2 E3 O1 O2 O3. unfold want_after in O3. split; cbn; rewrite ?E1, ?E2, ?E3, ?O3; try done.
  exists l. unfold history in *. cbn. by rewrite E2, O1, O2, !app_nil_r.
Qed.

Lemma write_submit_inv wr data cb w : sane wr → write_inv w →
  write_inv (observe (async_write_some wr data cb (ws w)) [(data, cb)] w).
Proof.
  intros Ha Hi. pose proof Hi as [Hq (outs & F1 & F2 & F3 & F4) Hw Hwr]. unfold async_write_some.
  set (s' := set_queue (write_queue_ (ws w) ++ [Op data 0 cb]) (ws w)). destruct (queue_ok_snoc _ data cb Hq) as [Hq' Hfp].
  set (w' := WSys s' (submitted w ++ [(data, cb)]) (accepted w) (reports w) (wanting w)).
  assert (history w' outs) as Hh by (unfold history; cbn; rewrite map_app, app_assoc, <- F2, Hfp; done).
  assert (observe (pump_write wr s') [(data, cb)] w = observe (pump_write wr s') [] w') as -> by (unfold observe; cbn; by rewrite app_nil_r).
  destruct (stream_ (ws w)) eqn:Es.
  - apply (pump_write_step wr s' outs w'); try done; cbn.
    + intros _. destruct (write_queue_ (ws w)) as [|op q] eqn:E; [|left; by apply Hw]. right. split; [|cbn; lia].
      by destruct (writing_ (ws w)); [destruct (Hwr eq_refl)|].
    + intros _ E. by apply app_nil in E as [_ ?].
  - assert (write_queue_ (ws w) = []) as E by (destruct (write_queue_ (ws w)); [done|]; by destruct (Hw ltac:(done))).
    unfold pump_write. cbn. rewrite Es. unfold flush_queue. cbn. rewrite E in *. cbn in *.
    assert (writing_ (ws w) = false) as Ew by (destruct (writing_ (ws w)); [by destruct (Hwr eq_refl)|done]).
    split; cbn; rewrite ?Ew; try done. exists (outs ++ [failed eof (Op data 0 cb)]). unfold history. cbn.
    rewrite !app_nil_r, F2, F3, F4, !map_app, concat_app. cbn. rewrite !app_nil_r. split_and!; [|done..].
    apply Forall_app. split; [done|]. apply (failed_ok _ [Op data 0 cb]).
Qed.

Lemma write_ready_inv wr w : sane wr → write_inv w → write_inv (observe (on_writeable wr (ws w)) [] w).
Proof.
  intros Ha Hi. pose proof Hi as [Hq (outs & F) Hw Hwr]. unfold on_writeable. destruct (stream_ (ws w)) eqn:Es.
  - apply (pump_write_step wr (set_writing false (ws w)) outs w); try done. intros Hne. left. by apply Hw.
  - assert (write_queue_ (ws w) = []) as E by (destruct (write_queue_ (ws w)); [done|]; by destruct (Hw ltac:(done))).
    unfold pump_write. cbn. rewrite Es. unfold flush_queue. cbn. rewrite E. cbn.
    assert (writing_ (ws w) = false) as Ew by (destruct (writing_ (ws w)); [by destruct (Hwr eq_refl)|done]).
    by apply quiet_inv.
Qed.

Lemma write_step_inv w w' : write_inv w → write_step w w' → write_inv w'.
Proof.
  intros Hi Hs. revert Hi. destruct Hs as [w0 op Hop]. intros Hi. destruct op; cbn [run_op submits] in *.
  - unfold async_read_some. by destruct (stream_ (ws w0)) eqn:E; apply quiet_inv.
  - by apply write_submit_inv.
  - unfold async_shutdown. by destruct (stream_ (ws w0)) eqn:E; [destruct ok|]; apply quiet_inv.
  - unfold async_take_headers, try_take_headers. destruct (_ || _) eqn:E; [by apply quiet_inv|]. cbn. by destruct (stream_ (ws w0)) eqn:Es, hset; apply quiet_inv.
  - unfold on_readable, try_take_headers. destruct (headers_cb_ (ws w0)); [by destruct (stream_ (ws w0)) eqn:Es, hset; apply quiet_inv|].
    destruct (read_cb_ (ws w0)) as [[cap cb]|]; [|by apply quiet_inv]. by destruct (rd cap); apply quiet_inv.
  - by apply write_ready_inv.
  - unfold on_reset, flush_queue. set (part := if (how =? 0)%Z || (how =? 2)%Z then _ else _).
    assert (write_queue_ (fst part) = write_queue_ (ws w0) ∧ writing_ (fst part) = writing_ (ws w0) ∧ stream_ (fst part) = stream_ (ws w0) ∧
      accepted_in (snd part) = [] ∧ omap report_of (snd part) = [] ∧ want_after (wanting w0) (snd part) = wanting w0) as (P1 & P2 & P3 & P4 & P5 & P6).
    { unfold part. destruct (_ || _); [|done]. by destruct (read_cb_ (ws w0)) as [[cap cb]|]. }
    destruct part as [s1 out1]. cbn in P1, P2, P3, P4, P5, P6. destruct ((how =? 1)%Z || (how =? 2)%Z); [|by apply quiet_inv].
    rewrite P1. pose proof (failed_inv connection_reset (set_writing false (set_queue [] s1)) out1 [] w0 Hi) as H. rewrite app_nil_r in H. by apply H.
  - unfold on_close. apply (failed_inv eof); try done; [by destruct (read_cb_ (ws w0)) as [[]|]..|by destruct (shutdown_cb_ (ws w0))|by destruct (shutdown_cb_ (ws w0))].
Qed.

Lemma write_init_inv : write_inv write_init.
Proof. split; cbn; try done. by exists []. Qed.

Lemma write_reachable_inv w : rtc write_step write_init w → write_inv w.
Proof.
  intros Hr. remember write_init as w0 eqn:E. assert (write_inv w0) as Hi by (subst; apply write_init_inv). clear E.
  induction Hr as [|? ? ? Hs Hr IH]; [done|]. by eapply IH, write_step_inv.
Qed.

(** What a call back from lsquic does to a queue in order. *)
Lemma writeable_progress wr s op rest : sane wr → stream_ s = true → write_queue_ s = op :: rest → queue_ok (op :: rest) →
  let q' := write_queue_ (fst (on_writeable wr s)) in
  match wr (drop (op_offset op) (op_data op)) with
  | Accepted n => queue_bytes q' = drop n (queue_bytes (op :: rest))
  | WriteFailed _ => q' = rest
  end.
Proof.
  intros Ha Hs Hq Hok q'. unfold q', on_writeable, pump_write. cbn [stream_ writing_ set_writing write_queue_]. rewrite Hs, Hq.
  destruct (wr _) as [[|n]|reset] eqn:Ewr; [cbn; by rewrite Hq| |done]. apply Ha in Ewr. rewrite length_drop in Ewr.
  unfold queue_bytes. cbn [map concat]. rewrite drop_app_le by (rewrite length_drop; lia). rewrite drop_drop. case_decide as Hge; cbn.
  - rewrite (drop_ge (op_data op)) by lia. done.
  - done.
Qed.

(** A closed stream stays closed and hands out no headers. *)
Lemma run_op_closed o s : stream_ s = false →
  stream_ (fst (run_op o s)) = false ∧ ∀ cb raw, CallHeaders cb raw ∉ snd (run_op o s).
Proof.
  intros Hs. destruct o; cbn [run_op].
  - unfold async_read_some. rewrite Hs. split; [done|]. set_solver.
  - unfold async_write_some, pump_write. cbn. rewrite Hs. split; [done|]. cbn. intros cb' raw Hin.
    apply list_elem_of_In, in_map_iff in Hin as (? & ? & _). discriminate.
  - unfold async_shutdown. rewrite Hs. split; [done|]. set_solver.
  - unfold async_take_headers. rewrite Hs. split; [done|]. cbn. set_solver.
  - unfold on_readable, try_take_headers. rewrite Hs. destruct (headers_cb_ s); [split; [done|]; set_solver|].
    destruct (read_cb_ s) as [[cap cb]|]; [|split; [done|]; set_solver].
    destruct (rd cap); (split; [done|]); set_solver.
  - unfold on_writeable, pump_write. cbn. rewrite Hs. split; [done|]. cbn. intros cb' raw Hin.
    apply list_elem_of_In, in_map_iff in Hin as (? & ? & _). discriminate.
  - unfold on_reset, flush_queue.
    assert (∀ q cb' raw, CallHeaders cb' raw ∉ map (λ op, CallWrite (op_cb op) (Some connection_reset) 0) q) as Hq.
    { intros q cb' raw Hin. apply list_elem_of_In, in_map_iff in Hin as (? & ? & _). discriminate. }
    destruct (_ || _); [destruct (read_cb_ s) as [[cap cb]|]|]; destruct (_ || _); cbn; (split; [done|]); intros cb' raw;
      rewrite ?elem_of_cons; specialize (Hq (write_queue_ s) cb' raw); set_solver.
  - cbn. split; [done|]. intros cb' raw. rewrite !elem_of_app. intros [Hin|[Hin|Hin]].
    + destruct (read_cb_ s) as [[]|]; set_solver.
    + apply list_elem_of_In, in_map_iff in Hin as (? & ? & _). discriminate.
    + destruct (shutdown_cb_ s); set_solver.
Qed.

Lemma run_closed ops : ∀ s, stream_ s = false → ∀ cb raw, CallHeaders cb raw ∉ snd (run ops s).
Proof.
  induction ops as [|o ops IH]; intros s Hs cb raw; cbn; [by apply not_elem_of_nil|].
  destruct (run_op_closed o s Hs) as [H1 H2]. destruct (run_op o s) as [s1 out1]. cbn in *.
  specialize (IH s1 H1 cb raw). destruct (run ops s1) as [s2 out2]. cbn in *. rewrite elem_of_app.
  intros [?|?]; [by eapply H2|done].
Qed.

(** ** Properties *)


Definition take_two (d : bytes) : write_outcome := Accepted (length d `min` 2).

Lemma take_two_sane : sane take_two.
Proof. intros d n [= <-]. lia. Qed.

Definition two_writes : write_system :=
  let w1 := observe (run_op (OWrite take_two #"abc" 1) (ws write_init)) [(#"abc", 1)] write_init in
  let w2 := observe (run_op (OWrite take_two #"de" 2) (ws w1)) [(#"de", 2)] w1 in
  observe (run_op (EWriteable take_two) (ws w2)) [] w2.

Lemma two_writes_reachable : rtc write_step write_init two_writes.
Proof.
  eapply rtc_l; [apply (write_op _ (OWrite take_two #"abc" 1)), take_two_sane|].
  eapply rtc_l; [apply (write_op _ (OWrite take_two #"de" 2)), take_two_sane|].
  eapply rtc_l; [apply (write_op _ (EWriteable take_two)), take_two_sane|]. apply rtc_refl.
Qed.


(** Closing completes what is pending, with one exception: every pending
    read, queued write and shutdown callback is called exactly once, but a
    pending header take is forgotten; its callback is not called by the close
    or by anything that happens to the stream afterwards. *)
Theorem close_forgets_header_take (s : QuicTransportStream) :
  (∃ outs, snd (on_close s) = outs ∧
     omap (λ o, match o with CallRead cb _ => Some cb | _ => None end) outs = option_list (snd <$> read_cb_ s) ∧
     omap (λ o, match o with CallWrite cb _ _ => Some cb | _ => None end) outs = map op_cb (write_queue_ s) ∧
     omap (λ o, match o with CallShutdown cb => Some cb | _ => None end) outs = option_list (shutdown_cb_ s)) ∧
  ∀ ops cb raw, CallHeaders cb raw ∉ snd (on_close s) ++ snd (run ops (fst (on_close s))).
Proof.
  split.
  - eexists. split; [reflexivity|]. cbn [snd on_close]. rewrite !omap_app.
    rewrite (omap_map _ _ (λ op, None)), (omap_map _ _ (λ op, Some (op_cb op))), (omap_map _ _ (λ op, None)) by done.
    rewrite omap_some, !omap_none.
    destruct (read_cb_ s) as [[cap cb]|], (shutdown_cb_ s) as [cb'|]; cbn; rewrite ?app_nil_r; done.
  - intros ops cb raw. rewrite elem_of_app. intros [Hin|Hin]; [|by eapply run_closed; [|exact Hin]].
    change (snd (on_close s)) with (snd (run_op EClose (QStream false (read_cb_ s) (headers_cb_ s) (write_queue_ s) (writing_ s) (shutdown_cb_ s)))) in Hin.
    by eapply run_op_closed; [|exact Hin].
Qed.

(** Shutting down a stream that lsquic already closed dereferences the null
    handle: [async_shutdown] is the one operation that does not test it, and it
    is what the codec and the relay call when a write or read reports the
    closure. *)
Theorem shutdown_after_close (s : QuicTransportStream) (ops : list stream_op) (ok : bool) (cb : nat) :
  NullShutdown ∈ snd (async_shutdown ok cb (fst (run ops (fst (on_close s))))).
Proof.
  assert (∀ ops s, stream_ s = false → stream_ (fst (run ops s)) = false) as Hrun.
  { clear. induction ops as [|o ops IH]; intros s Hs; cbn; [done|].
    destruct (run_op_closed o s Hs) as [H1 _]. destruct (run_op o s) as [s1 out1]. cbn in *.
    specialize (IH s1 H1). by destruct (run ops s1). }
  unfold async_shutdown. rewrite Hrun by done. cbn. by left.
Qed.

(** Header names go out in lower case, in order, with their values, in blocks
    of at most 64 KiB; a larger block is refused with [message_size] and
    nothing is sent. *)
Theorem quic_headers_lowercase (sent : bool) (headers : HeaderList) (s : QuicTransportStream) :
  stream_ s = true →
  match async_send_headers sent headers s with
  | (flag, ec, block) => flag = true ∧
      ((header_total headers ≤ 65536)%Z →
         ec = (if sent then None else Some eof) ∧
         ∃ b, block = Some b ∧ map snd b = map snd headers ∧ length b = length headers ∧
              Forall (λ kv, lower_string (fst kv) = fst kv) b) ∧
      ((65536 < header_total headers)%Z → ec = Some message_size ∧ block = None)
  end.
Proof.
  intros Hs. unfold async_send_headers. rewrite Hs. change (64 * 1024)%Z with 65536%Z.
  destruct (Z.ltb_spec 65536 (header_total headers)); (split; [done|]); (split; [|intros; try lia; by split]); [lia|].
  intros _. split; [done|]. eexists. split; [reflexivity|]. unfold wire_headers. rewrite map_map, length_map.
  split_and!; [by apply map_ext|done|]. apply List.Forall_forall. intros kv Hin.
  apply in_map_iff in Hin as (kv' & <- & _). cbn. apply lower_string_idemp.
Qed.

Lemma quic_headers_lowercase_witness :
  async_send_headers true [(#"Server", #"X")] new_stream = (true, None, Some [(#"server", #"X")]) ∧
  (header_total [(#"Server", #"X")] ≤ 65536)%Z.
Proof.
  assert (header_total [(#"Server", #"X")] ≤ 65536)%Z as Hl by (vm_compute; discriminate).
  split; [|exact Hl].
  pose proof (quic_headers_lowercase true [(#"Server", #"X")] new_stream eq_refl) as H.
  destruct H as (_ & H & _). destruct (H Hl) as (_ & b & Hb & _). reflexivity.
Defined.
