(* ===== verification/QuicTransport.v ===== *)
(** * The QUIC stream as a transport (src/src/transport/quic_transport.{h,cpp})

    [QuicStream] models [QuicTransportStream] operation by operation and event
    by event.  Here lsquic drives it: an operation is followed by the events of
    lsquic that complete it, so that the stream becomes an instance of the
    interface [TransportStream] the codecs are written against, as the TCP
    stream is, and keeps its promises.  lsquic's side of a stream is a parameter
    ([LsquicStream]) with its documented behaviour ([LsquicStreamOk]).  An
    operation lsquic never completes is completed by the close of the stream. *)

From S2P Require Import Prelude CppStd Transport HttpMessage.
From S2P Require QuicStream.
Import QuicStream (QuicTransportStream, QStream, output, write_outcome, Accepted, WriteFailed, read_outcome, Got, ReadAgain,
  ReadFailed, CallRead, CallWrite, CallHeaders, CallShutdown, wire_headers, header_total).

(** ** lsquic's side: a parameter *)

Class LsquicStream (L : Type) := {
  lsquic_stream_read : Z → L → read_outcome * L;
  lsquic_stream_write : bytes → L → write_outcome * L;
  lsquic_stream_shutdown : L → bool * L;                      (** returned 0 *)
  lsquic_stream_get_hset : L → option HeaderList * L;         (** once decoded, if ever *)
  lsquic_stream_send_headers : HeaderList → L → bool * L;     (** returned 0 *)
}.

(** A read delivers the next bytes in order, none at the end of the input; a
    write takes a prefix of what it is offered, and something when lsquic has
    called back; [ls_headers] are the header blocks sent, [ls_fin] whether the
    sending side was shut down. *)
Class LsquicStreamOk (L : Type) `{LsquicStream L} := {
  ls_input : L → bytes;
  ls_output : L → bytes;
  ls_headers : L → list HeaderList;
  ls_fin : L → bool;
  ls_read_ok cap l d l' : (0 < cap)%Z → lsquic_stream_read cap l = (Got d, l') →
    ls_input l = d ++ ls_input l' ∧ (Z.of_nat (length d) ≤ cap)%Z ∧ ls_output l' = ls_output l;
  ls_read_end cap l l' : (0 < cap)%Z → lsquic_stream_read cap l = (Got [], l') → ls_input l = [];
  ls_read_none cap l r l' : (0 < cap)%Z → lsquic_stream_read cap l = (r, l') → r = ReadAgain ∨ r = ReadFailed false →
    ls_input l = [] ∧ ls_input l' = [];
  ls_write_ok d l n l' : lsquic_stream_write d l = (Accepted n, l') →
    n ≤ length d ∧ ls_output l' = ls_output l ++ take n d ∧ ls_input l' = ls_input l ∧
    ls_headers l' = ls_headers l ∧ ls_fin l' = ls_fin l;
  ls_shutdown_ok l l' : lsquic_stream_shutdown l = (true, l') →
    ls_fin l' = true ∧ ls_output l' = ls_output l ∧ ls_headers l' = ls_headers l;
  ls_headers_ok hs l l' : lsquic_stream_send_headers hs l = (true, l') →
    ls_headers l' = ls_headers l ++ [hs] ∧ ls_output l' = ls_output l ∧ ls_input l' = ls_input l ∧ ls_fin l' = ls_fin l;
}.

(** ** The stream driven by lsquic *)

(** A stream object with nothing pending, and lsquic's stream. *)
Record quic_stream (L : Type) := Quic { q_open : bool; q_ls : L }.
Arguments Quic {L} _ _.
Arguments q_open {L} _.
Arguments q_ls {L} _.

Definition idle (open : bool) : QuicTransportStream := QStream open None None [] false None.

(** What the callbacks of the operation under way were called with. *)
Fixpoint read_done (outs : list output) : option read_result :=
  match outs with [] => None | CallRead _ r :: _ => Some r | _ :: outs' => read_done outs' end.
Fixpoint write_done (outs : list output) : option (option error_code) :=
  match outs with [] => None | CallWrite _ ec _ :: _ => Some ec | _ :: outs' => write_done outs' end.
Fixpoint headers_done (outs : list output) : option HeaderList :=
  match outs with [] => None | CallHeaders _ raw :: _ => Some raw | _ :: outs' => headers_done outs' end.

Section drive.
Context {L : Type} `{LsquicStream L}.
Implicit Types (l : L) (q : quic_stream L).

(** The read is armed, then completed by the next [on_readable]; a false alarm
    leaves it pending, and the close of the stream completes it. *)
Definition read (cap : Z) (q : quic_stream L) : read_result * quic_stream L :=
  let '(s1, o1) := QuicStream.async_read_some cap 0 (idle (q_open q)) in
  match read_done o1 with
  | Some r => (r, q)
  | None =>
      let '(rd, l) := lsquic_stream_read cap (q_ls q) in
      let '(s2, o2) := QuicStream.on_readable None (λ _, rd) s1 in
      match read_done o2 with
      | Some r => (r, Quic (QuicStream.stream_ s2) l)
      | None => let '(s3, o3) := QuicStream.on_close s2 in (default (ReadErr eof) (read_done o3), Quic (QuicStream.stream_ s3) l)
      end
  end.

(** What [pump_write] offers next. *)
Definition remaining (s : QuicTransportStream) : bytes :=
  match QuicStream.write_queue_ s with [] => [] | op :: _ => drop (QuicStream.op_offset op) (QuicStream.op_data op) end.

(** One attempt to write, [pump_write], against lsquic. *)
Definition attempt (s : QuicTransportStream) l : QuicTransportStream * list output * L :=
  let '(r, l') := lsquic_stream_write (remaining s) l in
  (QuicStream.pump_write (λ _, r) s, l').

(** [on_writeable] until the callback was called; [fuel] is how often lsquic
    calls before the stream is closed. *)
Fixpoint write_until (fuel : nat) (s : QuicTransportStream) (outs : list output) l : option error_code * quic_stream L :=
  match write_done outs with
  | Some ec => (ec, Quic (QuicStream.stream_ s) l)
  | None =>
      match fuel with
      | O => let '(s', o) := QuicStream.on_close s in (default (Some eof) (write_done o), Quic (QuicStream.stream_ s') l)
      | S fuel' => let '(s', o, l') := attempt (QuicStream.set_writing false s) l in write_until fuel' s' o l'
      end
  end.

(** [async_write_some], which attempts to write at once. *)
Definition write (d : bytes) (q : quic_stream L) : option error_code * quic_stream L :=
  let s := QuicStream.set_queue [QuicStream.Op d 0 0] (idle (q_open q)) in
  if q_open q then let '(s', o, l') := attempt s (q_ls q) in write_until (length d) s' o l'
  else let '(s', o) := QuicStream.pump_write (λ _, WriteFailed false) s in write_until 0 s' o (q_ls q).

(** An unsuccessful shutdown is completed by the close. *)
Definition shutdown (q : quic_stream L) : option error_code * quic_stream L :=
  let '(ok, l) := lsquic_stream_shutdown (q_ls q) in
  let '(s1, o1) := QuicStream.async_shutdown ok 0 (idle (q_open q)) in
  if ok then (None, Quic (QuicStream.stream_ s1) l) else (None, Quic (QuicStream.stream_ (fst (QuicStream.on_close s1))) l).

(** The headers are claimed at once or at the [on_readable] at which they are
    decoded; a close before that drops the callback. *)
Definition take_headers (q : quic_stream L) : header_result (error_code + HeaderList) * quic_stream L :=
  let '(hset, l) := lsquic_stream_get_hset (q_ls q) in
  let '(flag, s1, o1) := QuicStream.async_take_headers hset 0 (idle (q_open q)) in
  (HeaderResult flag (inr <$> headers_done o1), if flag then Quic (bool_decide (hset ≠ None)) l else q).

Definition send_headers (hs : HeaderList) (q : quic_stream L) : header_result (option error_code) * quic_stream L :=
  let '(sent, l) := lsquic_stream_send_headers (wire_headers hs) (q_ls q) in
  let '(flag, ec, block) := QuicStream.async_send_headers sent hs (idle (q_open q)) in
  (HeaderResult flag (Some ec), match block with Some _ => Quic (q_open q) l | None => q end).

#[global] Instance quic_transport : TransportStream (quic_stream L) := {|
  stream_read := read;
  stream_write := write;
  stream_shutdown := shutdown;
  stream_take_headers := take_headers;
  stream_send_headers := send_headers;
|}.
End drive.

(** ** The QUIC stream keeps the interface's promises *)

Section laws.
Context {L : Type} `{LsquicStreamOk L}.
Implicit Types (l : L) (q : quic_stream L).

(** A read on an open stream is lsquic's answer. *)
Lemma read_open cap l : read cap (Quic true l) =
  let '(rd, l') := lsquic_stream_read cap l in
  match rd with
  | Got d => (ReadOk d, Quic true l')
  | ReadAgain => (ReadErr eof, Quic false l')
  | ReadFailed reset => (ReadErr (if reset then connection_reset else eof), Quic true l')
  end.
Proof. unfold read. cbn. by destruct (lsquic_stream_read cap l) as [[d| |reset] l']. Qed.

Lemma read_closed cap l : read cap (Quic false l) = (ReadErr eof, Quic false l).
Proof. done. Qed.

(** The operation being written, [off] bytes of which lsquic has. *)
Definition writing_op (d : bytes) (off : nat) (w : bool) : QuicTransportStream :=
  QStream true None None [QuicStream.Op d off 0] w None.

Lemma attempt_eq d off l : attempt (writing_op d off false) l =
  let '(r, l') := lsquic_stream_write (drop off d) l in
  (match r with
   | Accepted (S n') => let n := S n' in
       if decide (length d ≤ off + n) then (idle true, [QuicStream.LsquicWrite (take n (drop off d)); CallWrite 0 None (off + n)])
       else (writing_op d (off + n) true, [QuicStream.LsquicWrite (take n (drop off d)); QuicStream.WantWrite true])
   | Accepted O => (writing_op d off true, [QuicStream.LsquicWrite []; QuicStream.WantWrite true])
   | WriteFailed reset => (idle true, [CallWrite 0 (Some (if reset then connection_reset else eof)) 0])
   end, l').
Proof. unfold attempt, remaining, QuicStream.pump_write. cbn. by destruct (lsquic_stream_write (drop off d) l) as [[[|n]|reset] l']. Qed.

Lemma write_until_done_eq fuel s outs ec l : write_done outs = Some ec →
  write_until fuel s outs l = (ec, Quic (QuicStream.stream_ s) l).
Proof. intros E. destruct fuel; cbn [write_until]; by rewrite E. Qed.

(** A successful write has handed over the rest of the message, whole. *)
Lemma write_until_ok fuel d off outs l q : off ≤ length d → write_done outs = None →
  write_until fuel (writing_op d off true) outs l = (None, q) →
  q_open q = true ∧ ls_output (q_ls q) = ls_output l ++ drop off d ∧ ls_input (q_ls q) = ls_input l ∧
  ls_headers (q_ls q) = ls_headers l ∧ ls_fin (q_ls q) = ls_fin l.
Proof.
  revert off outs l. induction fuel as [|fuel IH]; intros off outs l Hoff Hn; cbn [write_until]; rewrite Hn; [done|].
  change (QuicStream.set_writing false (writing_op d off true)) with (writing_op d off false). rewrite attempt_eq.
  destruct (lsquic_stream_write (drop off d) l) as [r l'] eqn:E.
  destruct r as [[|n]|reset].
  - apply ls_write_ok in E as (_ & Ho & Hi & Hh & Hf). rewrite take_0, app_nil_r in Ho.
    intros (K1 & K2 & K3 & K4 & K5)%IH; [|done..]. by rewrite K2, K3, K4, K5, Ho, Hi, Hh, Hf.
  - apply ls_write_ok in E as (Hl & Ho & Hi & Hh & Hf). rewrite length_drop in Hl. cbv zeta. case_decide.
    + rewrite (write_until_done_eq _ _ _ None) by done. intros [= <-]. cbn. rewrite Ho, Hi, Hh, Hf.
      split_and!; [done| |done..]. f_equal. apply take_ge. rewrite length_drop. lia.
    + intros (K1 & K2 & K3 & K4 & K5)%IH; [|lia|done].
      rewrite K2, K3, K4, K5, Ho, Hi, Hh, Hf. split_and!; [done| |done..]. rewrite <- app_assoc. f_equal.
      by rewrite <- (take_drop (S n) (drop off d)) at 2; rewrite drop_drop.
  - by rewrite (write_until_done_eq _ _ _ (Some (if reset then connection_reset else eof))).
Qed.

Lemma write_ok d q q' : write d q = (None, q') →
  q_open q = true ∧ q_open q' = true ∧ ls_output (q_ls q') = ls_output (q_ls q) ++ d ∧ ls_input (q_ls q') = ls_input (q_ls q) ∧
  ls_headers (q_ls q') = ls_headers (q_ls q) ∧ ls_fin (q_ls q') = ls_fin (q_ls q).
Proof.
  destruct q as [[|] l]; unfold write; cbn [q_open q_ls]; [|done].
  change (QuicStream.set_queue _ (idle true)) with (writing_op d 0 false). rewrite attempt_eq, drop_0.
  destruct (lsquic_stream_write d l) as [r l'] eqn:E. destruct r as [[|n]|reset].
  - apply ls_write_ok in E as (_ & Ho & Hi & Hh & Hf). rewrite take_0, app_nil_r in Ho.
    intros (K1 & K2 & K3 & K4 & K5)%write_until_ok; [|lia|done]. by rewrite K2, K3, K4, K5, Ho, Hi, Hh, Hf.
  - apply ls_write_ok in E as (Hl & Ho & Hi & Hh & Hf). cbv zeta. case_decide.
    + rewrite (write_until_done_eq _ _ _ None) by done. intros [= <-]. cbn. rewrite Ho, Hi, Hh, Hf.
      split_and!; [done..| |done|done|done]. f_equal. apply take_ge. lia.
    + intros (K1 & K2 & K3 & K4 & K5)%write_until_ok; [|lia|done]. rewrite K2, K3, K4, K5, Ho, Hi, Hh, Hf.
      split_and!; [done..| |done|done|done]. rewrite <- app_assoc. f_equal. cbn. apply take_drop.
  - by rewrite (write_until_done_eq _ _ _ (Some (if reset then connection_reset else eof))).
Qed.

(** A closed stream delivers nothing further. *)
#[global, program] Instance quic_transport_ok : TransportStreamOk (quic_stream L) := {|
  stream_input q := if q_open q then ls_input (q_ls q) else [];
  stream_output q := ls_output (q_ls q);
|}.
Next Obligation.
  intros cap [[|] l] d q' Hc; cbn [stream_read quic_transport]; [|by rewrite read_closed]. rewrite read_open.
  destruct (lsquic_stream_read cap l) as [[d'| |reset] l'] eqn:E; intros; simplify_eq/=. by eapply ls_read_ok.
Qed.
Next Obligation.
  intros cap [[|] l] q' Hc; cbn [stream_read quic_transport]; [|done]. rewrite read_open.
  destruct (lsquic_stream_read cap l) as [[d'| |reset] l'] eqn:E; intros; simplify_eq/=. by eapply ls_read_end.
Qed.
Next Obligation.
  intros cap [[|] l] q' Hc; cbn [stream_read quic_transport]; [|rewrite read_closed; by intros [= <-]]. rewrite read_open.
  destruct (lsquic_stream_read cap l) as [[d'| |[|]] l'] eqn:E; intros; simplify_eq/=;
    (eapply ls_read_none in E as [-> E2]; [|done|by auto]); [done|by rewrite E2].
Qed.
Next Obligation.
  intros d q q' (E1 & E2 & Ho & Hi & _)%write_ok. by rewrite E1, E2, Ho, Hi.
Qed.

(** Headers that fit are sent in lower case; a success says they were. *)
Lemma send_headers_ok hs q q' : send_headers hs q = (HeaderResult true (Some None), q') →
  q_open q = true ∧ q_open q' = true ∧ (header_total hs ≤ 65536)%Z ∧ ls_headers (q_ls q') = ls_headers (q_ls q) ++ [wire_headers hs] ∧
  ls_output (q_ls q') = ls_output (q_ls q) ∧ ls_input (q_ls q') = ls_input (q_ls q) ∧ ls_fin (q_ls q') = ls_fin (q_ls q).
Proof.
  unfold send_headers, QuicStream.async_send_headers. destruct q as [[|] l]; cbn [q_open q_ls idle QuicStream.stream_];
    destruct (lsquic_stream_send_headers _ l) as [sent l'] eqn:E; [|done].
  destruct (Z.ltb_spec (64 * 1024) (header_total hs)); [done|]. destruct sent; [|done]. intros [= <-].
  apply ls_headers_ok in E as (E1 & E2 & E3 & E4). cbn. by split_and!; [| |lia|..].
Qed.
End laws.

(** ** When lsquic takes what it is offered *)

Section reliable.
Context {L : Type} {HL : LsquicStream L} {HO : LsquicStreamOk L}.

(** lsquic never fails a write, and takes something of what it is offered. *)
Class Reliable := {
  reliable_write d (l : L) : d ≠ [] → ∃ n l', lsquic_stream_write d l = (Accepted (S n), l');
  reliable_headers hs (l : L) : fst (lsquic_stream_send_headers hs l) = true;
  reliable_shutdown (l : L) : fst (lsquic_stream_shutdown l) = true;
}.
Context {HR : Reliable}.

Lemma write_until_done fuel d off outs (l : L) : off < length d → length d - off ≤ fuel → write_done outs = None →
  fst (write_until fuel (writing_op d off true) outs l) = None.
Proof using HR.
  revert off outs l. induction fuel as [|fuel IH]; intros off outs l Hoff Hf Hn; [lia|]. cbn [write_until]. rewrite Hn.
  change (QuicStream.set_writing false (writing_op d off true)) with (writing_op d off false). rewrite attempt_eq.
  destruct (reliable_write (drop off d) l) as (n & l' & E).
  { intros Hd%(f_equal length). rewrite length_drop in Hd. cbn in Hd. lia. }
  rewrite E. cbv zeta. case_decide; [by rewrite (write_until_done_eq _ _ _ None)|]. apply IH; [lia|lia|done].
Qed.

(** A write of at least a byte on an open stream succeeds: it ends after at most
    one event per byte. *)
Lemma write_succeeds d (l : L) : d ≠ [] → fst (write d (Quic true l)) = None.
Proof using HR.
  intros Hd. unfold write. cbn [q_open q_ls]. change (QuicStream.set_queue _ (idle true)) with (writing_op d 0 false).
  rewrite attempt_eq, drop_0. destruct (reliable_write d l Hd) as (n & l' & E). rewrite E. cbv zeta. case_decide.
  - by rewrite (write_until_done_eq _ _ _ None).
  - apply write_until_done; [lia|lia|done].
Qed.

Lemma send_headers_succeeds hs (l : L) : (header_total hs ≤ 65536)%Z → ∃ l', send_headers hs (Quic true l) = (HeaderResult true (Some None), Quic true l').
Proof using HR.
  intros Hh. unfold send_headers, QuicStream.async_send_headers. cbn [q_open q_ls idle QuicStream.stream_].
  pose proof (reliable_headers (wire_headers hs) l). destruct (lsquic_stream_send_headers _ l) as [sent l']. cbn in *. subst sent.
  destruct (Z.ltb_spec (64 * 1024) (header_total hs)); [lia|]. by eexists.
Qed.

Lemma shutdown_succeeds (l : L) : ∃ l', shutdown (Quic true l) = (None, Quic true l') ∧ ls_fin l' = true ∧
  ls_output l' = ls_output l ∧ ls_headers l' = ls_headers l.
Proof using HR.
  unfold shutdown. pose proof (reliable_shutdown l). destruct (lsquic_stream_shutdown _) as [ok l'] eqn:E. cbn in *. subst ok.
  exists l'. split; [done|]. by apply ls_shutdown_ok.
Qed.
End reliable.
Arguments Reliable L {_}.

(** ** A concrete lsquic stream: the peer's headers and input to deliver, and a
    sender that takes at most two bytes at a time. *)

Record pipe := Pipe { p_hset : HeaderList; p_in : bytes; p_out : bytes; p_headers : list HeaderList; p_fin : bool }.

#[global] Instance pipe_lsquic : LsquicStream pipe := {|
  lsquic_stream_read cap p :=
    (Got (take (Z.to_nat cap) (p_in p)), Pipe (p_hset p) (drop (Z.to_nat cap) (p_in p)) (p_out p) (p_headers p) (p_fin p));
  lsquic_stream_write d p :=
    (Accepted (length d `min` 2), Pipe (p_hset p) (p_in p) (p_out p ++ take (length d `min` 2) d) (p_headers p) (p_fin p));
  lsquic_stream_shutdown p := (true, Pipe (p_hset p) (p_in p) (p_out p) (p_headers p) true);
  lsquic_stream_get_hset p := (Some (p_hset p), p);
  lsquic_stream_send_headers hs p := (true, Pipe (p_hset p) (p_in p) (p_out p) (p_headers p ++ [hs]) (p_fin p));
|}.

#[global, program] Instance pipe_lsquic_ok : LsquicStreamOk pipe := {|
  ls_input := p_in; ls_output := p_out; ls_headers := p_headers; ls_fin := p_fin;
|}.
Next Obligation. intros cap p d p' Hc [= <- <-]. cbn. rewrite take_drop, length_take. split_and!; [done|lia|done]. Qed.
Next Obligation.
  intros cap [hs i o h f] p' Hc [= E _]. cbn in *. destruct i as [|c i]; [done|]. destruct (Z.to_nat cap) eqn:Ec; [lia|done].
Qed.
Next Obligation. intros cap p r p' Hc [= <- <-] [?|?]; done. Qed.
Next Obligation. intros d p n p' [= <- <-]. cbn. split_and!; [lia|done..]. Qed.
Next Obligation. by intros p p' [= <-]. Qed.
Next Obligation. by intros hs p p' [= <-]. Qed.

#[global] Instance pipe_reliable : Reliable pipe.
Proof. split; [|done|done]. intros [|c d] p Hd; [done|]. destruct d as [|c' d]; by do 2 eexists. Qed.
