(* ===== verification/H3Min.v ===== *)
(** * The minimal HTTP/3 server (examples/lsquic_h3_server_min.cpp)

    A stand-alone harness around lsquic: it answers every stream with one fixed
    response, logs the connection ids it sees on outgoing packets, and runs the
    engine from a [select] loop.  lsquic's side of a stream is the parameter of
    [QuicTransport] and [lsquic_stream_flush]; its engine is a parameter of the
    loop, and so are the operating system's calls. *)

From S2P Require Import Prelude CppStd Transport QuicTransport DemuxDemo.
Import QuicStream (Got, ReadAgain, ReadFailed, Accepted, WriteFailed).

(** ** Logging connection ids *)

Definition digits : bytes := #"0123456789abcdef".

(** [None] is an index outside the table. *)
Definition hexstr (p : list Z) : option bytes :=
  @concat _ <$> mapM (λ b, hi ← digits !! Z.to_nat (Z.shiftr b 4); lo ← digits !! Z.to_nat (Z.land b 15); Some [hi; lo]) p.

(** The outer [None] is a read outside the packet, the inner one a packet that
    is not logged. *)
Definition dump_wire_scid (p : list Z) : option (option (nat * bytes)) :=
  let len := length p in
  if decide (len < 7) then Some None
  else
    p0 ← p !! 0;
    if decide (Z.land p0 0x80 = 0%Z) then Some None
    else
      p5 ← p !! 5;
      let pos := 6 + Z.to_nat p5 in
      if decide (len ≤ pos) then Some None
      else
        sclen ← p !! pos;
        if decide (20 < sclen ∨ Z.of_nat len < Z.of_nat pos + 1 + sclen)%Z then Some None
        else
          scid ← hexstr (take (Z.to_nat sclen) (drop (pos + 1) p));
          Some (Some (Z.to_nat sclen, scid)).

(** [on_new_scids] and [on_old_scids] log each id with its length. *)
Definition log_scids (cids : list (list Z)) : option (list (nat * bytes)) :=
  mapM (λ c, h ← hexstr c; Some (length c, h)) cids.

(** ** Sending packets

    A packet is an address and its pieces; [sendmsg]'s result is ignored.  The
    result is lsquic's count, what was logged and what was handed to the
    socket; [None] is a packet without a first piece. *)
Fixpoint send_specs {A : Type} (specs : list (A * list (list Z))) : option (list (nat * bytes) * list (A * list Z)) :=
  match specs with
  | [] => Some ([], [])
  | (dest, iov) :: rest =>
      first ← head iov;
      logged ← dump_wire_scid first;
      '(logs, out) ← send_specs rest;
      Some (option_list logged ++ logs, (dest, concat iov) :: out)
  end.

Definition packets_out {A : Type} (specs : list (A * list (list Z))) : option (nat * list (nat * bytes) * list (A * list Z)) :=
  '(logs, out) ← send_specs specs; Some (length specs, logs, out).

(** ** The header set

    [dec_size] is the size lsquic reports for the descriptor. *)

Definition kBuf : Z := (64 * 1024)%Z.

Record Hset := MkHset { dec_size : Z; dec_off : Z; have_xhdr : bool }.

Definition hsi_create : Hset := MkHset 0 0 false.

(** The region granted; [None] is the null pointer. *)
Definition hsi_prepare (hdr : bool) (hs : Hset) : option (Z * Z) * Hset :=
  if hdr then (None, hs)
  else
    let off := if have_xhdr hs then u64 (dec_off hs + dec_size hs) else dec_off hs in
    (Some (off, u64 (kBuf - off)), MkHset 0 off true).

Definition hsi_process : Z := 0.

(** The decoder fills part of each region it is granted before it asks for the
    next: the regions it used. *)
Fixpoint decode_all (sizes : list Z) (hs : Hset) : list (Z * Z) :=
  match sizes with
  | [] => []
  | n :: sizes' =>
      match hsi_prepare false hs with
      | (Some (off, len), hs') => (off, len) :: decode_all sizes' (MkHset (Z.min n len) (dec_off hs') (have_xhdr hs'))
      | (None, _) => []
      end
  end.

(** ** The response *)

Record xhdr := Xhdr { name_off : nat; name_len : nat; val_off : nat; val_len : nat }.

(** The two loops of [send_response]: the room reserved, then the fields one
    behind another and a descriptor for each. *)
Definition reserved (fields : HeaderList) : nat := sum_list (map (λ f, length (fst f) + length (snd f)) fields).

Fixpoint lay_out (fields : HeaderList) (off : nat) (nv : bytes) : bytes * list xhdr :=
  match fields with
  | [] => (nv, [])
  | (n, v) :: rest =>
      let nv' := nv ++ n ++ v in
      let h := Xhdr off (length n) (off + length n) (length v) in
      let '(nv'', arr) := lay_out rest (off + (length n + length v)) nv' in
      (nv'', h :: arr)
  end.

(** The field a descriptor denotes. *)
Definition resolve (nv : bytes) (h : xhdr) : bytes * bytes :=
  (take (name_len h) (drop (name_off h) nv), take (val_len h) (drop (val_off h) nv)).

Definition response_fields (bodylen : nat) : HeaderList :=
  [(#":status", #"200"); (#"content-type", #"text/plain"); (#"content-length", to_string (Z.of_nat bodylen))].

Definition kBody : bytes := #"handshake-ok".

Section stream.
Context {L : Type} `{LsquicStream L} (lsquic_stream_flush : L → L).
Implicit Types l : L.

Definition send_response (body : bytes) (l : L) : L :=
  let '(nv, arr) := lay_out (response_fields (length body)) 0 [] in
  let l1 := snd (lsquic_stream_send_headers (map (resolve nv) arr) l) in
  let l2 := snd (lsquic_stream_write body l1) in
  let l3 := snd (lsquic_stream_shutdown l2) in
  lsquic_stream_flush l3.

(** [while (lsquic_stream_read(...) > 0) {}], 2048 bytes at a time. *)
Fixpoint discard_input (fuel : nat) (l : L) : L :=
  match fuel with
  | O => l
  | S fuel' => match lsquic_stream_read 2048 l with (Got (_ :: _), l') => discard_input fuel' l' | (_, l') => l' end
  end.

(** The header sets discarded, [responded], and lsquic's stream. *)
Definition on_read (fuel : nat) (ctx : bool * nat) (l : L) : (bool * nat) * L :=
  let '(responded, discarded) := ctx in
  let '(hset, l1) := lsquic_stream_get_hset l in
  let discarded' := match hset with Some _ => S discarded | None => discarded end in
  let l2 := discard_input fuel l1 in
  if responded then ((true, discarded'), l2)
  else ((true, discarded'), send_response kBody l2).

Definition on_new_stream : bool * nat := (false, 0).

Fixpoint on_reads (k fuel : nat) (ctx : bool * nat) (l : L) : (bool * nat) * L :=
  match k with
  | O => (ctx, l)
  | S k' => let '(ctx', l') := on_read fuel ctx l in on_reads k' fuel ctx' l'
  end.
End stream.

(** ** The contexts of the streams

    lsquic hands each callback the context [on_new_stream] allocated; [on_close]
    frees it.  [None] is the use of a context that is not there. *)
Abbreviation contexts := (gmap nat (bool * nat)).

Definition alloc_ctx (a : nat) (h : contexts) : contexts := <[a := on_new_stream]> h.

Definition on_close (a : nat) (h : contexts) : option contexts := _ ← h !! a; Some (delete a h).

Section contexts.
Context {L : Type} `{LsquicStream L} (flush : L → L).

Definition read_at (fuel a : nat) (h : contexts) (l : L) : option (contexts * L) :=
  ctx ← h !! a; let '(ctx', l') := on_read flush fuel ctx l in Some (<[a := ctx']> h, l').

(** A stream's life: it is opened, read from any number of times, and closed. *)
Fixpoint reads_at (k fuel a : nat) (h : contexts) (l : L) : option (contexts * L) :=
  match k with
  | O => Some (h, l)
  | S k' => '(h', l') ← read_at fuel a h l; reads_at k' fuel a h' l'
  end.

Definition stream_life (k fuel a : nat) (h : contexts) (l : L) : option (contexts * L) :=
  '(h', l') ← reads_at k fuel a (alloc_ctx a h) l; h'' ← on_close a h'; Some (h'', l').
End contexts.

(** ** TLS *)

(** The ALPN callback: [negotiated] is whether [SSL_select_next_proto] finds a
    protocol the two lists have in common; the result is whether the handshake
    goes on. *)
Definition alpn : bytes := ascii_of_nat 2 :: #"h3" ++ ascii_of_nat 5 :: #"h3-29".
Definition alpn_select (negotiated : bytes → bytes → bool) (offered : bytes) : bool := negotiated offered alpn.

(** ** The loop *)

(** Seconds and microseconds [select] waits. *)
Definition timeout (diff : Z) : Z * Z :=
  if (diff <? 0)%Z then (0, 0)%Z else (Z.quot diff 1000, Z.rem diff 1000 * 1000)%Z.

Section loop.
Context {E : Type} (earliest_adv_tick : E → option Z) (packet_in : list Z → E → E) (process_conns : E → E).

(** One round: [select] reports a datagram or not, and [recvfrom] fills at most
    the buffer; the result is how long [select] was told to wait. *)
Definition round (datagram : option (list Z)) (engine : E) : (Z * Z) * E :=
  let diff := default 0%Z (earliest_adv_tick engine) in
  let engine1 :=
    match datagram with
    | Some d => let n := take 65536 d in match n with [] => engine | _ => packet_in n engine end
    | None => engine
    end in
  (timeout diff, process_conns engine1).
End loop.

(** The arguments, and how far [main] gets: the status it returns, or [None]
    when it enters the loop. *)
Definition arguments (argv : list bytes) : Z * bytes * bytes :=
  (match argv !! 1 with Some a => u16 (strtol a) | None => 8443%Z end,
   default #"certs/cert.pem" (argv !! 2), default #"certs/key.pem" (argv !! 3)).

Definition main (global_init ssl_new cert_loads key_loads binds engine_new : bool) : option Z :=
  if negb global_init then Some 1%Z
  else if negb ssl_new then Some 1%Z
  else if negb cert_loads || negb key_loads then Some 1%Z
  else if negb binds then Some 1%Z
  else if negb engine_new then Some 1%Z
  else None.

(** ** Lemmas *)

(** The table and the format [%02x] of the prototype agree. *)
Lemma digits_hex b : (0 ≤ b < 16)%Z → digits !! Z.to_nat b = Some (hex_digit b).
Proof.
  intros Hb. rewrite <- (Z2Nat.id b) by lia. rewrite Nat2Z.id. assert (Z.to_nat b < 16) as Hn by lia. revert Hn. generalize (Z.to_nat b) as n.
  intros n Hn. do 16 (destruct n as [|n]; [reflexivity|]). lia.
Qed.

Lemma hexstr_hex p : Forall (λ b, 0 ≤ b < 256)%Z p → hexstr p = Some (hex p).
Proof.
  intros Hp. unfold hexstr. set (f := λ b : Z, _). assert (mapM f p = Some (map hex_octet p)) as ->; [|done].
  apply mapM_Some. induction Hp as [|b p Hb _ IH]; [constructor|]. cbn [map]. constructor; [|done]. unfold f.
  change 15%Z with (Z.ones 4). rewrite Z.shiftr_div_pow2, Z.land_ones by lia.
  rewrite !digits_hex by (change (2 ^ 4)%Z with 16%Z; Z.to_euclidean_division_equations; lia). done.
Qed.

Lemma lay_out_fst fields : ∀ off nv, fst (lay_out fields off nv) = nv ++ concat (map (λ f, fst f ++ snd f) fields).
Proof.
  induction fields as [|[n v] fields IH]; intros off nv; cbn; [by rewrite app_nil_r|].
  specialize (IH (off + (length n + length v)) (nv ++ n ++ v)). destruct (lay_out fields _ _) as [nv' arr]. cbn in *. rewrite IH. by norm_app.
Qed.

Lemma lay_out_resolve fields : ∀ off nv, off = length nv →
  map (resolve (fst (lay_out fields off nv))) (snd (lay_out fields off nv)) = fields.
Proof.
  induction fields as [|[n v] fields IH]; intros off nv ->; cbn; [done|].
  pose proof (lay_out_fst fields (length nv + (length n + length v)) (nv ++ n ++ v)) as Hf.
  specialize (IH (length nv + (length n + length v)) (nv ++ n ++ v) ltac:(rewrite !length_app; lia)).
  destruct (lay_out fields _ _) as [nv' arr]. cbn in *. f_equal; [|done]. rewrite Hf. unfold resolve. cbn. norm_app. f_equal.
  - by rewrite drop_app_length, take_app_length.
  - rewrite <- length_app, app_assoc, drop_app_length. by rewrite take_app_length.
Qed.

(** The text fits the room reserved, so the descriptors' pointers stay valid. *)
Lemma lay_out_fits fields : length (fst (lay_out fields 0 [])) = reserved fields.
Proof.
  rewrite lay_out_fst. cbn. unfold reserved. induction fields as [|[n v] fields IH]; [done|]. cbn. rewrite !length_app, IH. lia.
Qed.

Section answers.
Context {L : Type} `{LsquicStreamOk L} {HR : Reliable L} (flush : L → L)
  (flush_keeps : ∀ l : L, ls_headers (flush l) = ls_headers l ∧ ls_output (flush l) = ls_output l ∧ ls_fin (flush l) = ls_fin l)
  (read_keeps : ∀ cap (l : L), let l' := snd (lsquic_stream_read cap l) in
    ls_headers l' = ls_headers l ∧ ls_output l' = ls_output l ∧ ls_fin l' = ls_fin l)
  (hset_keeps : ∀ l : L, let l' := snd (lsquic_stream_get_hset l) in
    ls_headers l' = ls_headers l ∧ ls_output l' = ls_output l ∧ ls_fin l' = ls_fin l).

Lemma discard_keeps fuel (l : L) : let l' := discard_input fuel l in
  ls_headers l' = ls_headers l ∧ ls_output l' = ls_output l ∧ ls_fin l' = ls_fin l.
Proof using read_keeps.
  revert l. induction fuel as [|fuel IH]; intros l; [done|]. cbn [discard_input]. pose proof (read_keeps 2048 l) as (E1 & E2 & E3).
  destruct (lsquic_stream_read 2048 l) as [[[|c d]| |r] l1]; cbn in *; [done| |done|done].
  destruct (IH l1) as (F1 & F2 & F3). split_and!; congruence.
Qed.

(** The loop ends by itself: each round but the last takes a byte of the input,
    so more rounds than there are bytes change nothing. *)
Lemma discard_ends fuel fuel' (l : L) : length (ls_input l) < fuel → length (ls_input l) < fuel' →
  discard_input fuel l = discard_input fuel' l.
Proof using Type.
  revert fuel' l. induction fuel as [|fuel IH]; intros [|fuel'] l Hf Hf'; [lia..|]. cbn [discard_input].
  destruct (lsquic_stream_read 2048 l) as [[[|c d]| |r] l1] eqn:E; [done| |done|done].
  pose proof (ls_read_ok 2048 l (c :: d) l1 ltac:(lia) E) as (Hi & _). rewrite Hi, length_app in Hf, Hf'. cbn in Hf, Hf'. apply IH; lia.
Qed.

Lemma send_response_once body (l : L) : body ≠ [] → let l' := send_response flush body l in
  ls_headers l' = ls_headers l ++ [response_fields (length body)] ∧ ls_fin l' = true ∧
  ∃ n, 0 < n ≤ length body ∧ ls_output l' = ls_output l ++ take n body.
Proof using flush_keeps HR.
  intros Hb. unfold send_response. pose proof (lay_out_resolve (response_fields (length body)) 0 [] eq_refl) as Hr.
  destruct (lay_out _ _ _) as [nv arr]. cbn [fst snd] in Hr. rewrite Hr. cbv zeta.
  pose proof (reliable_headers (response_fields (length body)) l) as Rh.
  destruct (lsquic_stream_send_headers _ l) as [r1 l1] eqn:E1. cbn in Rh. subst r1. apply ls_headers_ok in E1 as (A1 & A2 & A3 & A4).
  cbn [snd]. destruct (reliable_write body l1 Hb) as (n & l2 & E2). rewrite E2. apply ls_write_ok in E2 as (B0 & B1 & B2 & B3 & B4).
  cbn [snd]. pose proof (reliable_shutdown l2) as Rs. destruct (lsquic_stream_shutdown l2) as [r3 l3] eqn:E3. cbn in Rs. subst r3.
  apply ls_shutdown_ok in E3 as (C1 & C2 & C3). cbn [snd]. destruct (flush_keeps l3) as (D1 & D2 & D3).
  split; [congruence|]. split; [congruence|]. exists (S n). split; [lia|congruence].
Qed.

Lemma on_reads_responded k fuel x (l : L) : let '(ctx, l') := on_reads flush k fuel (true, x) l in
  fst ctx = true ∧ ls_headers l' = ls_headers l ∧ ls_output l' = ls_output l ∧ ls_fin l' = ls_fin l.
Proof using read_keeps hset_keeps.
  revert x l. induction k as [|k IH]; intros x l; [done|]. cbn [on_reads on_read]. pose proof (hset_keeps l) as (A1 & A2 & A3).
  destruct (lsquic_stream_get_hset l) as [hs l1]. cbn in A1, A2, A3. destruct (discard_keeps fuel l1) as (B1 & B2 & B3).
  specialize (IH (match hs with Some _ => S x | None => x end) (discard_input fuel l1)).
  destruct (on_reads _ _ _ _ _) as [ctx l']. destruct IH as (C0 & C1 & C2 & C3). split; [done|]. split_and!; congruence.
Qed.

(** However often lsquic reports a stream readable, the server answers it
    once: one header block, whose [content-length] is the length of the body,
    written from descriptors into one buffer and read back from there exactly;
    then the FIN.  The body is written by one call whose result is ignored, so
    what is sent of it is the prefix lsquic accepted there. *)
Theorem answered_once k fuel (l : L) : let '(ctx, l') := on_reads flush (S k) fuel on_new_stream l in
  fst ctx = true ∧ ls_headers l' = ls_headers l ++ [response_fields (length kBody)] ∧ ls_fin l' = true ∧
  ∃ n, 0 < n ≤ length kBody ∧ ls_output l' = ls_output l ++ take n kBody.
Proof using read_keeps hset_keeps flush_keeps HR.
  cbn [on_reads on_new_stream on_read]. pose proof (hset_keeps l) as (A1 & A2 & A3).
  destruct (lsquic_stream_get_hset l) as [hs l1]. cbn in A1, A2, A3. destruct (discard_keeps fuel l1) as (B1 & B2 & B3).
  destruct (send_response_once kBody (discard_input fuel l1)) as (C1 & C2 & n & Hn & C3); [done|].
  pose proof (on_reads_responded k fuel (match hs with Some _ => 1 | None => 0 end) (send_response flush kBody (discard_input fuel l1))) as Hr.
  destruct (on_reads _ _ _ _ _) as [ctx l']. destruct Hr as (D0 & D1 & D2 & D3). split; [done|]. split; [congruence|]. split; [congruence|].
  exists n. split; [done|congruence].
Qed.
End answers.

(** A stream's life uses its context while it is there, frees it once and leaves
    the others alone; to lsquic it is the reads of [answered_once]. *)
Lemma stream_life_clean `{LsquicStream L} (flush : L → L) k fuel a h l : h !! a = None →
  stream_life flush k fuel a h l = Some (h, snd (on_reads flush k fuel on_new_stream l)).
Proof.
  intros Ha. unfold stream_life, alloc_ctx. assert (∀ ctx l, reads_at flush k fuel a (<[a := ctx]> h) l =
    Some (<[a := fst (on_reads flush k fuel ctx l)]> h, snd (on_reads flush k fuel ctx l))) as Hr.
  { clear l. induction k as [|k IH]; intros ctx l; [done|]. cbn [reads_at on_reads]. unfold read_at. rewrite lookup_insert_eq. cbn [mbind option_bind].
    destruct (on_read flush fuel ctx l) as [ctx' l']. cbn [mbind option_bind]. by rewrite insert_insert_eq, IH. }
  rewrite Hr. cbn [mbind option_bind]. unfold on_close. rewrite lookup_insert_eq. cbn. by rewrite delete_insert_id.
Qed.

(** lsquic that takes two bytes at a time: the rest of the body is never sent. *)
Definition slow_stream : (bool * nat) * pipe := on_reads (λ l : pipe, l) 3 10 on_new_stream (Pipe [] #"GET" [] [] false).

Lemma answered_once_witness : p_out (snd slow_stream) = #"ha" ∧ let '(ctx, l') := slow_stream in
  fst ctx = true ∧ ls_headers l' = [] ++ [response_fields (length kBody)] ∧ ls_fin l' = true ∧
  ∃ n, 0 < n ≤ length kBody ∧ ls_output l' = [] ++ take n kBody.
Proof.
  split; [vm_compute; reflexivity|]. exact (answered_once (λ l : pipe, l) ltac:(done) ltac:(done) ltac:(done) 2 10 (Pipe [] #"GET" [] [] false)).
Defined.

(** ** The ids logged *)

(** Every id lsquic reports is logged, in full. *)
Lemma log_scids_total cids : Forall (Forall (λ b, 0 ≤ b < 256)%Z) cids → log_scids cids = Some (map (λ c, (length c, hex c)) cids).
Proof.
  intros Hc. unfold log_scids. apply mapM_Some. induction Hc as [|c cids Hb _ IH]; [constructor|]. cbn [map]. constructor; [|done].
  by rewrite hexstr_hex.
Qed.

Lemma octet_slice (p : list Z) n m : Forall (λ b, 0 ≤ b < 256)%Z p → Forall (λ b, 0 ≤ b < 256)%Z (take n (drop m p)).
Proof. intros. by apply Forall_take, Forall_drop. Qed.

Lemma dump_wire_scid_total p : Forall (λ b, 0 ≤ b < 256)%Z p → is_Some (dump_wire_scid p).
Proof.
  intros Hp. unfold dump_wire_scid. case_decide; [done|]. destruct (lookup_lt_is_Some_2 p 0) as [p0 ->]; [lia|]. cbn [mbind option_bind].
  case_decide; [done|]. destruct (lookup_lt_is_Some_2 p 5) as [p5 E5]; [lia|]. rewrite E5. cbn [mbind option_bind].
  case_decide; [done|]. destruct (lookup_lt_is_Some_2 p (6 + Z.to_nat p5)) as [sl ->]; [lia|]. cbn [mbind option_bind].
  case_decide; [done|]. rewrite hexstr_hex by (by apply octet_slice). by eexists.
Qed.

(** Logging an outgoing packet reads only within it, whatever its octets are,
    and what is logged of a long-header packet is its source connection id, in
    the notation of the prototype. *)
Theorem scid_logged (p : list Z) : Forall (λ b, 0 ≤ b < 256)%Z p →
  is_Some (dump_wire_scid p) ∧
  ∀ b0 ver dcid scid rest, p = b0 :: ver ++ Z.of_nat (length dcid) :: dcid ++ Z.of_nat (length scid) :: scid ++ rest →
    Z.land b0 0x80 ≠ 0%Z → length ver = 4 → length scid ≤ 20 → dump_wire_scid p = Some (Some (length scid, hex scid)).
Proof.
  intros Hp. split; [by apply dump_wire_scid_total|]. intros b0 ver dcid scid rest E Hb Hv Hs.
  assert (length p = 7 + length dcid + length scid + length rest) as Hl by (rewrite E; cbn; rewrite !length_app; cbn; rewrite !length_app; cbn; rewrite length_app; lia).
  unfold dump_wire_scid. rewrite decide_False by lia.
  assert (p !! 0 = Some b0) as -> by (by rewrite E). cbn [mbind option_bind]. rewrite decide_False by done.
  do 4 (destruct ver as [|? ver]; [done|]). destruct ver; [|done].
  assert (p !! 5 = Some (Z.of_nat (length dcid))) as -> by (by rewrite E). cbn [mbind option_bind]. rewrite Nat2Z.id, decide_False by lia.
  assert (drop (6 + length dcid) p = Z.of_nat (length scid) :: scid ++ rest) as Hd by (rewrite E; cbn; by rewrite drop_app_length).
  assert (p !! (6 + length dcid) = Some (Z.of_nat (length scid))) as -> by (rewrite <- (Nat.add_0_r (6 + length dcid)), <- lookup_drop, Hd; done).
  cbn [mbind option_bind]. rewrite decide_False by lia.
  assert (drop (6 + length dcid + 1) p = scid ++ rest) as -> by (rewrite <- drop_drop, Hd; done).
  rewrite Nat2Z.id, take_app_length, hexstr_hex; [done|]. rewrite E in Hp. decompose_Forall. done.
Qed.

Definition long_packet : list Z := (0xC3 :: [0; 0; 0; 1] ++ 2 :: [9; 9] ++ 3 :: [1; 0xAB; 255] ++ [7; 7])%Z.

Lemma scid_logged_witness : dump_wire_scid long_packet = Some (Some (3, #"01abff")).
Proof.
  apply (proj2 (scid_logged long_packet ltac:(by_eval)) 0xC3 [0; 0; 0; 1] [9; 9] [1; 0xAB; 255] [7; 7])%Z; [reflexivity|done|done|cbn; lia].
Defined.

Lemma send_specs_total {A} (specs : list (A * list (list Z))) :
  Forall (λ sp, snd sp ≠ [] ∧ Forall (Forall (λ b, 0 ≤ b < 256)%Z) (snd sp)) specs →
  ∃ logs, send_specs specs = Some (logs, map (λ sp, (fst sp, concat (snd sp))) specs).
Proof.
  induction 1 as [|[dest iov] specs [Hne Hb] _ [logs IH]]; [by eexists|]. cbn [send_specs]. destruct iov as [|first iov]; [done|].
  cbn [head mbind option_bind]. inversion Hb; subst. destruct (dump_wire_scid_total first) as [lg ->]; [done|]. cbn [mbind option_bind].
  rewrite IH. by eexists.
Qed.

(** Every packet is handed to the socket, in order, and counted as sent. *)
Lemma packets_out_all {A} (specs : list (A * list (list Z))) :
  Forall (λ sp, snd sp ≠ [] ∧ Forall (Forall (λ b, 0 ≤ b < 256)%Z) (snd sp)) specs →
  ∃ logs, packets_out specs = Some (length specs, logs, map (λ sp, (fst sp, concat (snd sp))) specs).
Proof. intros [logs E]%send_specs_total. unfold packets_out. rewrite E. by exists logs. Qed.

(** ** The header set *)

(** [u64] on what fits. *)
Lemma u64_in_buffer z : (0 ≤ z ≤ kBuf)%Z → u64 z = z.
Proof. intros Hz. unfold u64. apply Z.mod_small. unfold kBuf in Hz. lia. Qed.

Definition hset_used (hs : Hset) : Z := if have_xhdr hs then (dec_off hs + dec_size hs)%Z else dec_off hs.

(** Each region runs from the end of what the last one used to the end of the
    buffer: nothing decoded is overwritten, although the room asked for is not
    looked at. *)
Lemma decode_all_in_buffer sizes hs : Forall (λ n, 0 ≤ n)%Z sizes → (0 ≤ hset_used hs ≤ kBuf)%Z →
  Forall (λ r, hset_used hs ≤ fst r ∧ 0 ≤ snd r ∧ fst r + snd r = kBuf)%Z (decode_all sizes hs).
Proof.
  intros Hs. revert hs. induction Hs as [|n sizes Hn _ IH]; intros hs Hu; [constructor|]. cbn [decode_all hsi_prepare].
  set (off := if have_xhdr hs then _ else _). assert (off = hset_used hs) as ->.
  { unfold off, hset_used in *. destruct (have_xhdr hs); [by apply u64_in_buffer|done]. }
  rewrite u64_in_buffer by lia. constructor; [cbn; lia|]. cbn [dec_off have_xhdr].
  set (hs' := MkHset _ _ _). assert (hset_used hs' = hset_used hs + Z.min n (kBuf - hset_used hs))%Z as E by done.
  eapply Forall_impl; [|apply (IH hs'); lia]. intros r Hr. cbn in Hr. lia.
Qed.

(** ** The wait *)

(** [select] is told a proper [timeval]: [diff] thousandths of a second. *)
Lemma timeout_value diff : (0 ≤ diff < 2 ^ 31)%Z → let '(s, us) := timeout diff in
  (0 ≤ us < 1000000)%Z ∧ (s * 1000000 + us = diff * 1000)%Z.
Proof.
  intros Hd. unfold timeout. destruct (Z.ltb_spec diff 0); [lia|]. rewrite Z.quot_div_nonneg, Z.rem_mod_nonneg by lia.
  Z.to_euclidean_division_equations; lia.
Qed.
