(* ===== verification/Exchange.v ===== *)
(** * One exchange across two protocols (src/src/codec/icodec.h, with
    proxy_core.cpp and relay_session.cpp where codecs are chosen and called)

    [ICodec] is the codec interface as a record of operations; the HTTP/1 and
    HTTP/3 codecs are its two implementations, chosen by the protocol of the
    session or of the endpoint.  A request is parsed with the client's codec and
    written with the backend's, a response the other way round: the theorems say
    what arrives when the two differ. *)

From S2P Require Import Prelude CppStd Transport HttpMessage Config Router Stats RelaySession RelayTheorems QuicTransport.
From S2P Require H1Codec H3Codec.
From S2P Require Import QuicStream.
Import H1Codec (parse_result, ParseOk, ParseErr, body_src, NullBody, BufferSrc, StreamSrc, EofSrc, ChunkedSrc,
  request_header_str, response_header_str, wf_request, wf_field, response_body, find_blank_line, BLANK_LINE).
Import H3Codec (codec_result, CodecResult, cr_called, cr_threw, request_head_from_headers, response_head_from_headers,
  request_header_list, kept_fields, sent_status, end_to_end, is_hop_by_hop, regular, or_default, host_key).

(** ** The interface *)

(** [class ICodec]: what the callback is called with, if it is, whether the call
    threw, and the stream (and body source) afterwards; [None] only when the
    fuel of a reading loop is spent. *)
Record ICodec (S B : Type) := Codec {
  async_parse_request : nat → S → option (codec_result (parse_result HttpRequestHead) * S);
  async_parse_response : nat → S → option (codec_result (parse_result HttpResponseHead) * S);
  async_write_request : nat → S → HttpRequestHead → option B → option (codec_result (option error_code) * S * option B);
  async_write_response : nat → S → HttpResponseHead → option B → option (codec_result (option error_code) * S * option B);
}.
Arguments Codec {S B} _ _ _ _.
Arguments async_parse_request {S B} _ _ _.
Arguments async_parse_response {S B} _ _ _.
Arguments async_write_request {S B} _ _ _ _ _.
Arguments async_write_response {S B} _ _ _ _ _.

Section codecs.
Context {S B : Type} `{TransportStream S} `{BodySource B}.

Definition called {R A} (p : R * A) : codec_result R * A := (CodecResult (Some (fst p)) false, snd p).
Definition called_write {A C} (p : option error_code * A * C) : codec_result (option error_code) * A * C :=
  let '(ec, s, b) := p in (CodecResult (Some ec) false, s, b).

Definition h1_codec : ICodec S B := Codec
  (λ fuel s, called <$> H1Codec.async_parse_request fuel s)
  (λ fuel s, called <$> H1Codec.async_parse_response fuel s)
  (λ fuel s head body, called_write <$> H1Codec.async_write_request fuel s head body)
  (λ fuel s head body, called_write <$> H1Codec.async_write_response fuel s head body).

(** The body behind HTTP/3 headers is the stream's payload up to FIN. *)
Definition of_h3 {H} (r : H3Codec.h3_parse H) : parse_result H :=
  match r with H3Codec.H3Err ec => ParseErr ec | H3Codec.H3Ok head keep_alive => ParseOk head EofSrc keep_alive end.
Definition of_h3_result {H A} (p : codec_result (H3Codec.h3_parse H) * A) : codec_result (parse_result H) * A :=
  (CodecResult (of_h3 <$> cr_called (fst p)) (cr_threw (fst p)), snd p).

Definition h3_codec : ICodec S B := Codec
  (λ _ s, Some (of_h3_result (H3Codec.async_parse_request s)))
  (λ _ s, Some (of_h3_result (H3Codec.async_parse_response s)))
  H3Codec.async_write_request H3Codec.async_write_response.

(** The choice of [on_session] and of [use_backend]. *)
Definition codec_for (protocol : TransportProtocol) : ICodec S B :=
  if decide (protocol = QUIC) then h3_codec else h1_codec.
End codecs.

(** ** Body sources

    What a parse hands out, as an object over the stream it reads from. *)
Inductive BodyOf (S : Type) :=
  | Buffered (b : BufferBodySource)
  | Sized (b : StreamBodySource S)
  | UntilEof (b : StreamEofBodySource S).
Arguments Buffered {S} _.
Arguments Sized {S} _.
Arguments UntilEof {S} _.

Definition over_source {S A B} (c : B → BodyOf S) (r : A * B) : A * BodyOf S := (fst r, c (snd r)).

#[global] Instance body_of_source {S} `{TransportStream S} : BodySource (BodyOf S) := {|
  body_read cap b := match b with
    | Buffered b => over_source Buffered (body_read cap b)
    | Sized b => over_source Sized (body_read cap b)
    | UntilEof b => over_source UntilEof (body_read cap b)
    end;
  body_content_length b := match b with
    | Buffered b => body_content_length b
    | Sized b => body_content_length b
    | UntilEof b => body_content_length b
    end;
|}.

#[global, program] Instance body_of_ok {S} `{TransportStreamOk S} : BodySourceOk (BodyOf S) := {|
  body_wf b := match b with Buffered b => body_wf b | Sized b => body_wf b | UntilEof b => body_wf b end;
  body_rest b := match b with Buffered b => body_rest b | Sized b => body_rest b | UntilEof b => body_rest b end;
|}.
Next Obligation.
  intros S HS HO cap b d b' Hc Hw E. destruct b as [b|b|b]; cbn [body_read body_of_source] in E;
    destruct (body_read cap b) as [r b0] eqn:Er; injection E as -> <-; by eapply body_read_ok in Er.
Qed.
Next Obligation.
  intros S HS HO cap b b' Hc Hw E. destruct b as [b|b|b]; cbn [body_read body_of_source] in E;
    destruct (body_read cap b) as [r b0] eqn:Er; injection E as -> <-; by eapply body_read_end in Er.
Qed.

(** [None] for [nullptr]; a request body is never chunked. *)
Definition source {S} (src : body_src) (s : S) : option (BodyOf S) :=
  match src with
  | NullBody | ChunkedSrc => None
  | BufferSrc data => Some (Buffered (new_buffer_body data))
  | StreamSrc n => Some (Sized (StreamBody s n))
  | EofSrc => Some (UntilEof (StreamEofBody s))
  end.

(** ** The two halves of an exchange *)

Section exchange.
Context {S T : Type} `{TransportStream S} `{TransportStream T}.

(** From the parsed request to the outcome of [send_backend_request]. *)
Definition relay_request (client backend : TransportProtocol) (fuel : nat) (s : S) (t : T) :
  option (parse_result HttpRequestHead * option (codec_result (option error_code) * T * option (BodyOf S))) :=
  match async_parse_request (codec_for (B := BodyOf S) client) fuel s with
  | Some (CodecResult (Some (ParseOk head src ka)) _, s') =>
      Some (ParseOk head src ka, async_write_request (codec_for backend) fuel t head (source src s'))
  | _ => None
  end.

(** From the header list of an HTTP/3 backend to the outcome of writing the
    response to the client: what [response_phase]'s callback hands to the
    client's codec, the body source reading on from the backend's stream. *)
Definition relay_h3_response (client : TransportProtocol) (us : Z) (r : RelaySession) (fuel : nat) (t : T) (s : S) :
  option (HttpResponseHead * body_src * option (codec_result (option error_code) * S * option (BodyOf T))) :=
  match async_parse_response (codec_for (B := BodyOf T) QUIC) fuel t with
  | Some (CodecResult (Some res) _, t') =>
      match log (on_response us res r) with
      | WriteResponse head src :: _ => Some (head, src, async_write_response (codec_for client) fuel s head (source src t'))
      | _ => None
      end
  | _ => None
  end.
End exchange.

(** ** Lemmas: names in lower case *)

Lemma tolower_colon c : c ≠ COLON → tolower c ≠ COLON.
Proof. destruct c as [[] [] [] [] [] [] [] []]; intros Hc E; try (vm_compute in E; discriminate); by apply Hc. Qed.

Lemma lower_regular n : regular n → regular (lower_string n).
Proof. intros (c & n' & -> & Hc). exists (tolower c), (lower_string n'). split; [done|]. by apply tolower_colon. Qed.

Lemma wire_regular l : Forall (λ e, regular (fst e)) l → Forall (λ e, regular (fst e)) (wire_headers l).
Proof. intros Hl. apply Forall_map. eapply Forall_impl; [|exact Hl]. intros [n v]. apply lower_regular. Qed.

Lemma lower_hop_by_hop n : is_hop_by_hop (lower_string n) = is_hop_by_hop n.
Proof. unfold is_hop_by_hop. by rewrite lower_string_idemp. Qed.

Lemma wire_clean h : Forall (λ e, is_hop_by_hop (fst e) = false) (wire_headers (end_to_end h)).
Proof.
  apply Forall_map, List.Forall_forall. intros e He. cbn. rewrite lower_hop_by_hop. by apply H3Codec.end_to_end_clean in He.
Qed.

(** Reading a field does not depend on the case it was sent in. *)
Lemma wire_get l k : HeaderMap.get k (HeaderMap.Map (wire_headers l)) = HeaderMap.get k (HeaderMap.Map l).
Proof.
  unfold HeaderMap.get. cbn. induction l as [|[n v] l IH]; [done|]. cbn. unfold HeaderMap.lower. rewrite lower_string_idemp.
  case_decide; [done|exact IH].
Qed.

(** What the peer of an HTTP/3 request reads. *)
Lemma request_at_peer h : Forall (λ e, regular (fst e)) (HeaderMap.entries (req_headers h)) →
  let h' := request_head_from_headers (wire_headers (request_header_list h)) in
  let auth := match authority h with [] => default [] (HeaderMap.get host_key (req_headers h)) | a => a end in
  method h' = or_default (method h) #"GET" ∧ scheme h' = or_default (scheme h) #"http" ∧ path h' = or_default (path h) #"/" ∧
  authority h' = auth ∧ HeaderMap.entries (req_headers h') = (host_key, auth) :: wire_headers (end_to_end (req_headers h)).
Proof.
  intros Hreg h' auth.
  assert (h' = H3Codec.set_cl_req (RequestHead (or_default (method h) #"GET") #"HTTP/3" (or_default (path h) #"/")
    (or_default (scheme h) #"http") auth false
    (HeaderMap.Map ((host_key, auth) :: wire_headers (end_to_end (req_headers h)))) None)) as ->.
  { unfold h', request_head_from_headers, request_header_list, wire_headers. rewrite map_app, fold_left_app.
    rewrite H3Codec.fold_request_regular by (by apply wire_regular, H3Codec.end_to_end_regular). reflexivity. }
  unfold H3Codec.set_cl_req. cbn [req_headers].
  by destruct (HeaderMap.get #"content-length" _).
Qed.

(** A response as the HTTP/3 codec reads it, whatever the header list. *)
Lemma response_read raw : response_head_from_headers raw =
  ResponseHead (sent_status raw) [] #"HTTP/3" (HeaderMap.Map (kept_fields raw))
    (H1Codec.header_content_length (HeaderMap.Map (kept_fields raw))).
Proof.
  unfold response_head_from_headers. rewrite H3Codec.response_fields.
  unfold H3Codec.set_cl_resp, H1Codec.header_content_length. cbn [resp_headers]. by destruct (HeaderMap.get #"content-length" _).
Qed.

Lemma sent_status_int raw : (sent_status raw < 2 ^ 31)%Z.
Proof. unfold sent_status. destruct (list.last _) as [e|]; [apply (i32_range (strtol (snd e)))|lia]. Qed.

(** Which body the session passes on: none for [HEAD] or a switch of protocols. *)
Definition bodiless (r : RelaySession) (status : Z) : bool :=
  bool_decide (request_method_ r = #"HEAD") || request_is_upgrade_ r && (status =? 101)%Z.

Lemma response_handed_on us resp src ka r : ∃ as_,
  log (on_response us (ParseOk resp src ka) r) =
    WriteResponse (relay_head (client_version_ r) resp) (if bodiless r (status_code resp) then NullBody else src) :: as_.
Proof.
  destruct (count_response_fields us resp r) as (_ & _ & F3 & F4 & F5 & _). cbn [on_response]. unfold relay_response, bodiless.
  rewrite F3, F4, F5. assert (status_code (relay_head (client_version_ r) resp) = status_code resp) as ->
    by (unfold relay_head; by destruct (client_version_ r)).
  destruct (request_is_upgrade_ r && _) eqn:E.
  - rewrite orb_true_r. by eexists.
  - rewrite orb_false_r. case_decide; [rewrite bool_decide_true by done|rewrite bool_decide_false by done]; by eexists.
Qed.

(** A message written by the HTTP/1 codec, with or without a body. *)
Lemma response_written {S B : Type} `{TransportStreamOk S} `{BodySourceOk B} fuel (s : S) hdr (body : option B) :
  (∀ b, body = Some b → body_wf b ∧ length (body_rest b) < fuel) →
  ∃ ec s' b', H1Codec.write_message fuel s hdr body = Some (ec, s', b') ∧
    (ec = None → stream_output s' = stream_output s ++ hdr ++ match body with Some b => body_rest b | None => [] end).
Proof.
  intros Hb. destruct body as [b|].
  - destruct (Hb b eq_refl) as [Hw Hf]. destruct (H1Codec.write_message_correct fuel s hdr b Hw Hf) as (ec & s' & b' & E & Ho).
    exists ec, s', (Some b'). split; [exact E|]. intros Hec. exact (proj1 (Ho Hec)).
  - unfold H1Codec.write_message. destruct (stream_write hdr s) as [[e|] s0] eqn:E; [by eexists _, _, _|].
    apply stream_write_ok in E as [Eo _]. exists None, s0, None. split; [done|]. intros _. by rewrite app_nil_r.
Qed.

(** ** Lemmas: the body over a reliable QUIC stream *)

Section pump.
Context {L B : Type} {HL : LsquicStream L} {HO : LsquicStreamOk L} {HR : Reliable L} {HB : BodySource B} {HBO : BodySourceOk B}.

(** Everything that is read is sent, in order; the pump stops short only when
    the source fails. *)
Lemma pump_reliable fuel (l : L) (b : B) ec q b' : body_wf b → pump_body_to_stream fuel (Quic true l) b = Some (ec, q, b') →
  ∃ l' sent, q = Quic true l' ∧ ls_output l' = ls_output l ++ sent ∧ sent `prefix_of` body_rest b ∧ ls_headers l' = ls_headers l ∧
    (sent = body_rest b ∨ ∃ b0 e, body_read 8192 b0 = (ReadErr e, b')).
Proof using HL HO HR HB HBO.
  revert l b. induction fuel as [|fuel IH]; intros l b Hw; [done|]. cbn [pump_body_to_stream].
  destruct (body_read 8192 b) as [[[|c d]|e] b1] eqn:E.
  - intros [= <- <- <-]. apply body_read_end in E; [|lia|done]. exists l, []. rewrite E, app_nil_r. split_and!; [done..|]. by left.
  - pose proof E as (Hr & _ & Hw')%body_read_ok; [|lia|done].
    cbn [stream_write quic_transport]. destruct (write (c :: d) (Quic true l)) as [[e|] [o1 l1]] eqn:Ew.
    { pose proof (write_succeeds (c :: d) l ltac:(done)) as Hs. by rewrite Ew in Hs. }
    apply write_ok in Ew as (_ & Eo & Ho & _ & Hh & _). cbn in Eo, Ho, Hh. subst o1.
    intros (l2 & sent & -> & Ho2 & Hp & Hh2 & Hf)%IH; [|done]. exists l2, ((c :: d) ++ sent). rewrite Hr, Ho2, Ho, Hh2, Hh.
    split_and!; [done|by rewrite <- app_assoc|by apply prefix_app|done|]. destruct Hf as [->|Hf]; [by left|by right].
  - intros [= <- <- <-]. exists l, []. rewrite app_nil_r. split_and!; [done..|apply prefix_nil|done|]. right. by exists b, e.
Qed.

(** A message written by the HTTP/3 codec: headers, body, FIN, success. *)
Lemma h3_message_sent fuel (l : L) hs (body : option B) :
  (header_total hs ≤ 65536)%Z → (∀ b, body = Some b → body_wf b ∧ length (body_rest b) < fuel) →
  ∃ l' body' sent, H3Codec.send_message fuel (Quic true l) hs body = Some (CodecResult (Some None) false, Quic true l', body') ∧
    ls_headers l' = ls_headers l ++ [wire_headers hs] ∧ ls_fin l' = true ∧ ls_output l' = ls_output l ++ sent ∧
    match body with
    | None => sent = []
    | Some b => ∃ b', body' = Some b' ∧ sent `prefix_of` body_rest b ∧
        (sent = body_rest b ∨ ∃ b0 e, body_read 8192 b0 = (ReadErr e, b'))
    end.
Proof using HL HO HR HB HBO.
  intros Hs Hb. unfold H3Codec.send_message. cbn [stream_send_headers quic_transport].
  destruct (send_headers_succeeds hs l Hs) as [l1 E1]. rewrite E1. cbn [hr_called hr_ok negb].
  apply send_headers_ok in E1 as (_ & _ & _ & Hh & Ho & _). cbn in Hh, Ho. unfold H3Codec.finish. cbn [stream_shutdown quic_transport].
  destruct body as [b|].
  - destruct (Hb b eq_refl) as [Hw Hf]. destruct (pump_terminates fuel (Quic true l1) b Hw Hf) as [[[ec q] b'] Hp]. rewrite Hp.
    destruct (pump_reliable _ _ _ _ _ _ Hw Hp) as (l2 & sent & -> & Ho2 & Hpre & Hh2 & Hend).
    destruct (shutdown_succeeds l2) as (l3 & E3 & Hfin & Ho3 & Hh3). rewrite E3. exists l3, (Some b'), sent.
    rewrite Ho3, Hh3, Ho2, Hh2, Ho, Hh. split_and!; [done..|]. by exists b'.
  - destruct (shutdown_succeeds l1) as (l3 & E3 & Hfin & Ho3 & Hh3). rewrite E3. exists l3, None, [].
    rewrite Ho3, Hh3, Ho, Hh, app_nil_r. by split_and!.
Qed.
End pump.

(** ** Properties *)

(** C14: An HTTP/1.1 request is forwarded to an HTTP/3 backend without loss.
    When lsquic accepts what it is offered, a well-formed request whose body, of
    the announced length, was not read along with its head reaches the backend's
    stream as one header block, the body and a FIN; the body is cut short only
    when reading the client fails.  The backend reads the method, path and host
    of the request, and exactly its end-to-end fields, in order and in lower
    case, none of them hop-by-hop. *)
Theorem h1_request_over_quic {S L : Type} `{TransportStreamOk S} `{LsquicStreamOk L} `{!Reliable L}
  (fuel : nat) (client client' : S) (l : L) (head head' : HttpRequestHead) (rest : bytes) (n : Z) (body : body_src) (ka : bool) :
  wf_request head → Forall (λ e, regular (fst e)) (HeaderMap.entries (req_headers head)) →
  H1Codec.header_content_length (req_headers head) = Some n → (0 < n)%Z → (header_total (request_header_list head) ≤ 65536)%Z →
  stream_input client = request_header_str head ++ rest →
  H1Codec.async_parse_request fuel client = Some (ParseOk head' body ka, client') → stream_input client' = rest → length rest < fuel →
  ∃ l' b' sent,
    relay_request TCP QUIC fuel client (Quic true l) =
      Some (ParseOk head (StreamSrc n) ka, Some (CodecResult (Some None) false, Quic true l', Some b')) ∧
    ls_headers l' = ls_headers l ++ [wire_headers (request_header_list head)] ∧ ls_fin l' = true ∧
    ls_output l' = ls_output l ++ sent ∧ sent `prefix_of` take (Z.to_nat n) rest ∧
    (sent = take (Z.to_nat n) rest ∨ ∃ b0 e, body_read 8192 b0 = (ReadErr e, b')) ∧
    let peer := request_head_from_headers (wire_headers (request_header_list head)) in
    method peer = method head ∧ path peer = path head ∧
    HeaderMap.get host_key (req_headers peer) = Some (default [] (HeaderMap.get host_key (req_headers head))) ∧
    HeaderMap.entries (req_headers peer) = (host_key, authority head) :: wire_headers (end_to_end (req_headers head)) ∧
    Forall (λ e, is_hop_by_hop (fst e) = false) (HeaderMap.entries (req_headers peer)).
Proof.
  intros Hwf Hreg Hn Hpos Hsize Hin Hparse Hrest Hfuel.
  destruct (H1Codec.parse_request_apart fuel client client' head rest head' body ka Hwf Hin Hparse Hrest) as [-> ->].
  destruct Hwf as [Hm Hp _ _ _ _ (_ & _ & Hau & Hcl)]. rewrite Hn in Hcl.
  assert (H1Codec.request_body head [] = StreamSrc n) as Hb.
  { unfold H1Codec.request_body, H1Codec.sized_body. rewrite Hcl. by destruct (Z.ltb_spec 0 n); [|lia]. }
  rewrite Hb in Hparse.
  destruct (h3_message_sent (B := BodyOf S) fuel l (request_header_list head) (Some (Sized (StreamBody client' n))))
    as (l' & body' & sent & E & Hh & Hf & Ho & b' & -> & Hpre & Hend); [done| |].
  { intros b [= <-]. cbn. rewrite Hrest, length_take. split; [lia|]. lia. }
  exists l', b', sent. cbn in Hpre, Hend. rewrite Hrest in Hpre, Hend. split_and!; [|done..|].
  { unfold relay_request. change (codec_for TCP) with (h1_codec (S := S) (B := BodyOf S)). cbn [async_parse_request h1_codec].
    rewrite Hparse. cbn. f_equal. f_equal. exact E. }
  destruct (request_at_peer head Hreg) as (E1 & E2 & E3 & E4 & E5). cbv zeta. rewrite E1, E3, E5.
  assert (match authority head with [] => default [] (HeaderMap.get host_key (req_headers head)) | a => a end = authority head) as Hauth.
  { rewrite Hau. change (#"host") with host_key. by destruct (default [] _). }
  rewrite Hauth. split_and!.
  - unfold or_default. by destruct (method head).
  - unfold or_default. by destruct (path head).
  - unfold HeaderMap.get at 1. change (HeaderMap.entries_ (req_headers ?h)) with (HeaderMap.entries (req_headers h)). rewrite E5, Hauth.
    cbn. rewrite Hau. done.
  - done.
  - constructor; [by vm_compute|apply wire_clean].
Qed.

(** ** Responses on a kept-alive connection *)

(** A response head that the HTTP/1 codec can put on one block of lines; its
    reason may be missing, as it is behind an HTTP/3 backend. *)
Record wf_relayed (head : HttpResponseHead) : Prop := {
  wl_status : (0 < status_code head < 2 ^ 31)%Z;
  wl_reason : LF ∉ reason head;
  wl_version : is_token (resp_version head) = true;
  wl_h1 : starts_with #"HTTP/1." (resp_version head) = true;
  wl_fields : Forall wf_field (HeaderMap.entries_ (resp_headers head));
}.

(** Its status and fields are what an HTTP/1 peer reads. *)
Lemma relayed_block head rest : wf_relayed head →
  ∃ pos rs, find_sub BLANK_LINE (response_header_str head ++ rest) = Some pos ∧
    take (pos + 4) (response_header_str head ++ rest) = response_header_str head ∧
    drop (pos + 4) (response_header_str head ++ rest) = rest ∧
    H1Codec.parse_response_block (response_header_str head) =
      inr (ResponseHead (status_code head) rs (resp_version head) (resp_headers head)
             (H1Codec.header_content_length (resp_headers head)), resp_version head).
Proof.
  intros [Hst Hr Hv Hh1 Hf].
  pose proof (H1Codec.status_line_wire _ (status_code head) _ Hv ltac:(lia) Hr) as Hl.
  rewrite (H1Codec.response_str_shape head Hh1). set (es := HeaderMap.entries_ (resp_headers head)) in *.
  remember (resp_version head ++ SP :: to_string (status_code head) ++ SP :: reason head) as L eqn:HL.
  destruct (H1Codec.message_block L es rest Hl Hf) as (pos & Hpos & Hlen).
  exists pos, (trim_leading (SP :: reason head)). rewrite <- !app_assoc. split_and!; [done| | |].
  - by rewrite Hlen, (H1Codec.message_take L es rest).
  - rewrite Hlen, !app_assoc. apply drop_app_length.
  - unfold H1Codec.parse_response_block. rewrite H1Codec.message_first_line by apply Hl.
    destruct (L ++ [CR]) as [|? ?] eqn:E; [by destruct L|].
    rewrite <- E, strip_cr_app, HL, extract_token_sp, extract_int_to_string by (done || lia).
    destruct (Z.leb_spec (status_code head) 0); [lia|].
    rewrite H1Codec.getline_all by (done || (rewrite not_elem_of_cons; by split)).
    rewrite H1Codec.parse_header_lines_wire by done. cbn. by destruct (resp_headers head).
Qed.

(** C30: What an HTTP/1.1 client gets of an HTTP/3 backend's response.  For any
    header list the backend sends whose last [:status] reads as a positive number
    and whose other fields can be put on a line (no colon or line feed in the
    name; a value that is not empty, does not begin with a blank and has no line
    feed: none of this is checked by the code), the session writes one head and
    the bytes of the stream up to its end, unless the request was a [HEAD] or the
    protocol is switched, when it writes no body.  The client reads the status,
    its own version, and every field of the backend that is no pseudo-header, in
    order and unchanged: nothing is added or stripped on this path, hop-by-hop
    fields included.  The bytes are on the client's stream when the write
    succeeds. *)
Theorem h3_response_over_h1 {S L : Type} `{TransportStreamOk S} `{LsquicStreamOk L}
  (us : Z) (r : RelaySession) (fuel : nat) (l l' : L) (raw : HeaderList) (s : S) :
  lsquic_stream_get_hset l = (Some raw, l') → (0 < sent_status raw)%Z → Forall wf_field (kept_fields raw) →
  is_token (client_version_ r) = true → starts_with #"HTTP/1." (client_version_ r) = true → length (ls_input l') < fuel →
  let fields := HeaderMap.Map (kept_fields raw) in
  let body := if bodiless r (sent_status raw) then [] else ls_input l' in
  ∃ head src ec s' b',
    relay_h3_response TCP us r fuel (Quic true l) s = Some (head, src, Some (CodecResult (Some ec) false, s', b')) ∧
    (ec = None → stream_output s' = stream_output s ++ response_header_str head ++ body) ∧
    ∃ pos rs, find_sub BLANK_LINE (response_header_str head ++ body) = Some pos ∧
      drop (pos + 4) (response_header_str head ++ body) = body ∧
      H1Codec.parse_response_block (take (pos + 4) (response_header_str head ++ body)) =
        inr (ResponseHead (sent_status raw) rs (client_version_ r) fields (H1Codec.header_content_length fields), client_version_ r).
Proof.
  intros Hset Hst Hf Hv Hh1 Hfuel fields body.
  set (head := ResponseHead (sent_status raw) [] (client_version_ r) fields (H1Codec.header_content_length fields)).
  assert (relay_head (client_version_ r) (response_head_from_headers raw) = head) as Eh.
  { rewrite response_read. unfold relay_head. by destruct (client_version_ r). }
  destruct (response_handed_on us (response_head_from_headers raw) EofSrc false r) as [as_ Hlog]. rewrite Eh in Hlog.
  destruct (response_written fuel s (response_header_str head)
    (if bodiless r (sent_status raw) then None else Some (UntilEof (StreamEofBody (Quic true l'))))) as (ec & s' & b' & Ew & Hw).
  { intros b. destruct (bodiless _ _); [done|]. intros [= <-]. cbn. done. }
  eexists head, _, ec, s', b'. split_and!.
  - unfold relay_h3_response. change (codec_for QUIC) with (h3_codec (S := quic_stream L) (B := BodyOf (quic_stream L))).
    cbn [async_parse_response h3_codec]. unfold of_h3_result, H3Codec.async_parse_response, H3Codec.take_and_interpret.
    cbn [stream_take_headers quic_transport]. unfold take_headers. cbn [q_ls q_open]. rewrite Hset. cbn -[response_head_from_headers on_response].
    rewrite Hlog. rewrite response_read. cbn [status_code]. f_equal. f_equal.
    change (codec_for TCP) with (h1_codec (S := S) (B := BodyOf (quic_stream L))). cbn [async_write_response h1_codec].
    unfold H1Codec.async_write_response. by destruct (bodiless r (sent_status raw)); cbn [source]; rewrite Ew.
  - intros Hec. rewrite (Hw Hec). unfold body. by destruct (bodiless _ _).
  - destruct (relayed_block head body) as (pos & rs & P1 & P2 & P3 & P4).
    { split; cbn; try done; [split; [done|apply sent_status_int]|apply not_elem_of_nil]. }
    exists pos, rs. split_and!; [done..|]. by rewrite P2, P4.
Qed.

(** C38: A response without framing makes a kept-alive client lose its place.
    When the end of the backend's connection or stream delimits a response (it
    has neither a length nor a transfer coding), the relay copies it to an
    HTTP/1.1 keep-alive client as it is and waits for the next request on the
    same connection, without closing it; the client, for which such a response
    ends when the connection does, reads whatever is sent after the body, the
    next response included, as part of the body. *)
Theorem unframed_response_kept_alive us resp bka ec r b body next :
  pending r = [] → backend_ r = Some b → done_ r = false → draining_ r = false → client_is_h1 r = true →
  client_keep_alive_ r = true → (request_is_upgrade_ r = false ∨ status_code resp ≠ 101%Z) → client_version_ r ≠ [] →
  request_method_ r ≠ #"HEAD" → wf_relayed (relay_head (client_version_ r) resp) →
  HeaderMap.get #"content-length" (resp_headers resp) = None → HeaderMap.get #"transfer-encoding" (resp_headers resp) = None →
  (status_code resp ÷ 100 ≠ 1 ∧ status_code resp ≠ 204 ∧ status_code resp ≠ 304)%Z →
  let r1 := on_response us (ParseOk resp EofSrc bka) r in
  ∃ r2 head bye, resume (KWriteResponse bka) (Written ec) (set_pending [] r1) = Some r2 ∧
    pending r2 = [KParseRequest] ∧ phase_ r2 = kRequest ∧ log r2 = [ParseRequest; bye; WriteResponse head EofSrc] ++ log r ∧
    bye ≠ ShutdownClient ∧
    ∃ pos parsed, find_sub BLANK_LINE (response_header_str head ++ body ++ next) = Some pos ∧
      H1Codec.response_complete (take (pos + 4) (response_header_str head ++ body ++ next))
        (drop (pos + 4) (response_header_str head ++ body ++ next)) = ParseOk parsed EofSrc false ∧
      drop (pos + 4) (response_header_str head ++ body ++ next) = body ++ next.
Proof.
  intros Hp Hb Hd Hdr Hh1 Hka Hup Hv Hm Hwf Hcl Hte Hst r1.
  destruct (response_loop us resp EofSrc bka ec r b Hp Hb Hd Hdr Hh1 Hka Hup Hv) as (_ & r2 & E & P & Ph & _ & El).
  rewrite decide_False in El by done. eexists r2, _, _. split_and!; [exact E|exact P|exact Ph|exact El|by destruct bka|].
  set (head := ResponseHead _ _ _ _ _). assert (relay_head (client_version_ r) resp = head) as Er by (by destruct (client_version_ r)).
  rewrite Er in Hwf. destruct (relayed_block head (body ++ next) Hwf) as (pos & rs & H1 & H2 & H3 & H4).
  exists pos. eexists. split_and!; [done| |done]. rewrite H2. unfold H1Codec.response_complete. rewrite H4.
  unfold response_body. cbn [status_code resp_headers resp_content_length head].
  destruct Hst as (S1 & S2 & S3). rewrite (proj2 (Z.eqb_neq _ _) S1), (proj2 (Z.eqb_neq _ _) S2), (proj2 (Z.eqb_neq _ _) S3). cbn [orb].
  rewrite Hte. unfold H1Codec.header_content_length. by rewrite Hcl.
Qed.

(** ** Witnesses *)

Definition quiet : pipe := Pipe [] [] [] [] false.
Definition posting : Tcp.TcpTransportStream script_socket :=
  script_stream [ReadOk (request_header_str H1Codec.example_request); ReadOk #"hello"].

Ltac solve_regular := repeat (apply Forall_cons_2; [do 2 eexists; split; [reflexivity|discriminate]|]); apply Forall_nil_2.

Lemma h1_request_over_quic_witness : ∃ l' b' sent,
  relay_request TCP QUIC 90 posting (Quic true quiet) =
    Some (ParseOk H1Codec.example_request (StreamSrc 5) false, Some (CodecResult (Some None) false, Quic true l', Some b')) ∧
  ls_fin l' = true ∧ sent `prefix_of` #"hello".
Proof.
  destruct (H1Codec.async_parse_request 90 posting) as [[[e|head' body ka] client']|] eqn:E;
    [vm_compute in E; congruence| |vm_compute in E; congruence].
  assert (stream_input client' = #"hello" ∧ ka = false) as [Hr ->] by (vm_compute in E; simplify_eq; done).
  destruct (h1_request_over_quic 90 posting client' quiet H1Codec.example_request head' #"hello" 5 body false
    H1Codec.example_request_wf) as (l' & b' & sent & H1 & _ & H3 & _ & H5 & _);
    [solve_regular|reflexivity|reflexivity|vm_compute; discriminate|reflexivity|exact E|exact Hr|vm_compute; lia|].
  exists l', b', sent. split_and!; [exact H1|exact H3|exact H5].
Defined.

(** A backend's answer with a hop-by-hop field, and its body. *)
Definition h3_answer : HeaderList := [(#":status", #"200"); (#"server", #"x"); (#"connection", #"close")].
Definition answering : pipe := Pipe h3_answer #"body" [] [] false.
Definition asked : RelaySession := set_client_version #"HTTP/1.1" at_response.

Lemma h3_response_over_h1_witness : ∃ head src s' b' pos rs,
  relay_h3_response TCP 250 asked 9 (Quic true answering) (script_stream []) =
    Some (head, src, Some (CodecResult (Some None) false, s', b')) ∧
  stream_output s' = response_header_str head ++ #"body" ∧
  H1Codec.parse_response_block (take (pos + 4) (response_header_str head ++ #"body")) =
    inr (ResponseHead 200 rs #"HTTP/1.1" (HeaderMap.Map [(#"server", #"x"); (#"connection", #"close")]) None, #"HTTP/1.1").
Proof.
  destruct (h3_response_over_h1 250 asked 9 answering answering h3_answer (script_stream []))
    as (head & src & ec & s' & b' & E & Ho & pos & rs & _ & _ & Hp); [reflexivity|reflexivity| |reflexivity|reflexivity|vm_compute; lia|].
  { change (kept_fields h3_answer) with [(#"server", #"x"); (#"connection", #"close")]. H1Codec.solve_fields. }
  assert (ec = None) as -> by (vm_compute in E; congruence).
  exists head, src, s', b', pos, rs. split_and!; [exact E|exact (Ho eq_refl)|exact Hp].
Defined.

(** A response delimited by the close of the backend's connection. *)
Definition until_close : HttpResponseHead := ResponseHead 200 #"OK" #"HTTP/1.1" HeaderMap.empty_map None.

Lemma unframed_response_kept_alive_witness : ∃ r2 head bye,
  resume (KWriteResponse false) (Written None) (set_pending []
    (on_response 250 (ParseOk until_close EofSrc false) (set_pending [] at_response))) = Some r2 ∧
  pending r2 = [KParseRequest] ∧ log r2 = [ParseRequest; bye; WriteResponse head EofSrc] ++ log at_response.
Proof.
  destruct (unframed_response_kept_alive 250 until_close false None (set_pending [] at_response) 7 #"abc" #"HTTP/1.1 404 Not Found")
    as (r2 & head & bye & E & P & _ & El & _); try reflexivity.
  - left. reflexivity.
  - discriminate.
  - discriminate.
  - split; [split; reflexivity|by_eval|reflexivity|reflexivity|constructor].
  - split_and!; discriminate.
  - exists r2, head, bye. split_and!; [exact E|exact P|exact El].
Defined.
