(* ===== verification/QuicSession.v ===== *)
(** * QUIC connections and their sessions (src/src/transport/quic_transport.{h,cpp},
    [QuicTransportSession] and the callbacks lsquic calls)

    lsquic keeps one context pointer per connection and per stream; the glue
    stores in it the address of the [QuicTransportSession] or
    [QuicTransportStream] and casts it back in every callback.  Both objects own
    themselves ([self_]) until lsquic's last callback for them.

    [world] is the heap of these objects together with lsquic's side: its live
    connections and streams with their context pointers.  A pointer is a [nat];
    using one whose object is gone is [None].  [holders] and [stream_holders]
    are the shared pointers kept outside, one entry each.  A new object or
    handle has any address not in use. *)

From S2P Require Import Prelude CppStd Transport Config QuicStream.

(** What is installed as [new_stream_cb_]: the worker's handler of client
    streams, or the pool's handler of an opened stream, which captures the
    session's own shared pointer and the connect callback. *)
Inductive NewStreamCallback := OnStream | OpenQuic (cb : nat).

(** What is installed as [closed_cb_]: the server engine's, or the pool's. *)
Inductive ClosedCallback := EraseLive | RemoveQuicConn (ep : BackendEndpoint).

Record QuicTransportSession := Session {
  conn_ : option nat;
  remote_addr_ : bytes;
  new_stream_cb_ : option NewStreamCallback;
  endpoint_ : option BackendEndpoint;
  closed_cb_ : option ClosedCallback;
  closed_ : bool;
  self_ : bool;
}.

(** A stream object: lsquic's handle (meaningful while [stream_] is set), its
    state, its self-reference. *)
Record wrapper := Wrapper {
  w_handle : nat;
  w_state : QuicTransportStream;
  w_self : bool;
}.

(** Calls out of the glue, newest first in [calls]. *)
Inductive call :=
  | MakeStream (c : nat)
  | ConnClose (c : nat)
  | GoingAway (c : nat)
  | NewSession (s : nat)
  | NewStream (s : nat) (cb : NewStreamCallback) (stream : option nat)
  | Closed (s : nat) (cb : ClosedCallback)
  | StreamOut (o : nat) (out : list output).

Record world := World {
  conns : gmap nat (option nat);            (** lsquic's connections, with [conn_ctx] *)
  lstreams : gmap nat (nat * option nat);   (** lsquic's streams: connection and context *)
  sessions : gmap nat QuicTransportSession;
  wrappers : gmap nat wrapper;
  holders : list nat;
  stream_holders : list nat;
  live_sessions_ : list nat;                (** of the server engine: weak pointers *)
  calls : list call;
}.

Definition set_conns (x : gmap nat (option nat)) (w : world) : world :=
  World x (lstreams w) (sessions w) (wrappers w) (holders w) (stream_holders w) (live_sessions_ w) (calls w).
Definition set_lstreams (x : gmap nat (nat * option nat)) (w : world) : world :=
  World (conns w) x (sessions w) (wrappers w) (holders w) (stream_holders w) (live_sessions_ w) (calls w).
Definition set_sessions (x : gmap nat QuicTransportSession) (w : world) : world :=
  World (conns w) (lstreams w) x (wrappers w) (holders w) (stream_holders w) (live_sessions_ w) (calls w).
Definition set_wrappers (x : gmap nat wrapper) (w : world) : world :=
  World (conns w) (lstreams w) (sessions w) x (holders w) (stream_holders w) (live_sessions_ w) (calls w).
Definition set_holders (x : list nat) (w : world) : world :=
  World (conns w) (lstreams w) (sessions w) (wrappers w) x (stream_holders w) (live_sessions_ w) (calls w).
Definition set_stream_holders (x : list nat) (w : world) : world :=
  World (conns w) (lstreams w) (sessions w) (wrappers w) (holders w) x (live_sessions_ w) (calls w).
Definition set_live (x : list nat) (w : world) : world :=
  World (conns w) (lstreams w) (sessions w) (wrappers w) (holders w) (stream_holders w) x (calls w).
Definition out (x : call) (w : world) : world :=
  World (conns w) (lstreams w) (sessions w) (wrappers w) (holders w) (stream_holders w) (live_sessions_ w) (x :: calls w).

Definition put (s : nat) (q : QuicTransportSession) (w : world) : world := set_sessions (<[s := q]> (sessions w)) w.
Definition put_wrapper (o : nat) (x : wrapper) (w : world) : world := set_wrappers (<[o := x]> (wrappers w)) w.

(** [lsquic_conn_set_ctx], [lsquic_stream_set_ctx] on a live handle. *)
Definition conn_set_ctx (c : nat) (ctx : option nat) (w : world) : world := set_conns (alter (λ _, ctx) c (conns w)) w.
Definition stream_set_ctx (t : nat) (ctx : option nat) (w : world) : world :=
  set_lstreams (alter (λ p, (fst p, ctx)) t (lstreams w)) w.

(** ** The session's members *)

(** The constructor, in memory at [s]. *)
Definition new_session (s c : nat) (addr : bytes) (w : world) : world :=
  conn_set_ctx c (Some s) (put s (Session (Some c) addr None None None false false) w).

Definition with_conn (x : option nat) (q : QuicTransportSession) : QuicTransportSession :=
  Session x (remote_addr_ q) (new_stream_cb_ q) (endpoint_ q) (closed_cb_ q) (closed_ q) (self_ q).
Definition with_new_stream_cb (x : option NewStreamCallback) (q : QuicTransportSession) : QuicTransportSession :=
  Session (conn_ q) (remote_addr_ q) x (endpoint_ q) (closed_cb_ q) (closed_ q) (self_ q).
Definition with_endpoint (x : BackendEndpoint) (q : QuicTransportSession) : QuicTransportSession :=
  Session (conn_ q) (remote_addr_ q) (new_stream_cb_ q) (Some x) (closed_cb_ q) (closed_ q) (self_ q).
Definition with_closed_cb (x : option ClosedCallback) (q : QuicTransportSession) : QuicTransportSession :=
  Session (conn_ q) (remote_addr_ q) (new_stream_cb_ q) (endpoint_ q) x (closed_ q) (self_ q).
Definition with_closed (x : bool) (q : QuicTransportSession) : QuicTransportSession :=
  Session (conn_ q) (remote_addr_ q) (new_stream_cb_ q) (endpoint_ q) (closed_cb_ q) x (self_ q).
Definition with_self (x : bool) (q : QuicTransportSession) : QuicTransportSession :=
  Session (conn_ q) (remote_addr_ q) (new_stream_cb_ q) (endpoint_ q) (closed_cb_ q) (closed_ q) x.

Definition protocol (_ : QuicTransportSession) : TransportProtocol := QUIC.

Definition on_session_at (s : nat) (f : QuicTransportSession → QuicTransportSession) (w : world) : option world :=
  q ← sessions w !! s; Some (put s (f q) w).

Definition set_new_stream_cb (s : nat) (cb : NewStreamCallback) : world → option world :=
  on_session_at s (with_new_stream_cb (Some cb)).
Definition set_endpoint (s : nat) (ep : BackendEndpoint) : world → option world := on_session_at s (with_endpoint ep).
Definition set_closed_cb (s : nat) (cb : ClosedCallback) : world → option world :=
  on_session_at s (with_closed_cb (Some cb)).
Definition adopt_self (s : nat) : world → option world := on_session_at s (with_self true).
Definition release_self (s : nat) : world → option world := on_session_at s (with_self false).

(** The stream is delivered later: the null pointer is returned. *)
Definition open_stream (s : nat) (w : world) : option (option nat * world) :=
  q ← sessions w !! s;
  Some (None, match conn_ q with Some c => out (MakeStream c) w | None => w end).

Definition async_open_stream (s cb : nat) (w : world) : option world :=
  w1 ← set_new_stream_cb s (OpenQuic cb) w;
  q ← sessions w1 !! s;
  Some (match conn_ q with Some c => out (MakeStream c) w1 | None => w1 end).

Definition close (s : nat) (w : world) : option world :=
  q ← sessions w !! s;
  Some (match conn_ q with
        | Some c => if closed_ q then w else out (ConnClose c) (put s (with_closed true q) w)
        | None => w
        end).

(** The constructor of the stream object, and [adopt_self]. *)
Definition new_wrapper (o t : nat) (w : world) : world :=
  stream_set_ctx t (Some o) (put_wrapper o (Wrapper t new_stream true) w).

(** The callback keeps the shared pointer it is given. *)
Definition on_new_stream (s : nat) (stream : option nat) (o : nat) (w : world) : option world :=
  q ← sessions w !! s;
  Some (match new_stream_cb_ q with
        | None => w
        | Some cb =>
            match stream with
            | Some t => set_stream_holders (o :: stream_holders w) (out (NewStream s cb (Some o)) (new_wrapper o t w))
            | None => out (NewStream s cb None) w
            end
        end).

(** Running [closed_cb_]: the server engine erases its weak pointer. *)
Definition run_closed_cb (s : nat) (cb : ClosedCallback) (w : world) : world :=
  match cb with
  | EraseLive => out (Closed s cb) (set_live (filter (λ x, x ≠ s) (live_sessions_ w)) w)
  | RemoveQuicConn _ => out (Closed s cb) w
  end.

Definition on_closed (s : nat) (w : world) : option world :=
  q ← sessions w !! s;
  let w1 := match conn_ q with
            | Some c => conn_set_ctx c None (put s (with_conn None (with_closed true q)) w)
            | None => put s (with_closed true q) w
            end in
  Some (match closed_cb_ q with
        | Some cb => run_closed_cb s cb
            (put s (with_closed_cb None (with_conn None (with_closed true q))) w1)
        | None => w1
        end).

(** ** Shared pointers *)

(** The session's [new_stream_cb_] captures the session itself. *)
Definition captures_itself (q : QuicTransportSession) : bool :=
  match new_stream_cb_ q with Some (OpenQuic _) => true | _ => false end.

Definition referenced (s : nat) (q : QuicTransportSession) (w : world) : bool :=
  self_ q || captures_itself q || bool_decide (s ∈ holders w).

(** A shared pointer to [s] went away: with the last one the destructor runs. *)
Definition collect (s : nat) (w : world) : world :=
  match sessions w !! s with
  | Some q =>
      if referenced s q w then w
      else
        let w1 := match conn_ q with Some c => conn_set_ctx c None w | None => w end in
        set_sessions (delete s (sessions w1)) w1
  | None => w
  end.

Definition collect_wrapper (o : nat) (w : world) : world :=
  match wrappers w !! o with
  | Some x =>
      if w_self x || bool_decide (o ∈ stream_holders w) then w
      else
        let w1 := if stream_ (w_state x) then stream_set_ctx (w_handle x) None w else w in
        set_wrappers (delete o (wrappers w1)) w1
  | None => w
  end.

(** ** The callbacks lsquic calls *)

(** [conn]: what [lsquic_stream_conn] returns. *)
Definition new_stream_cb (conn : nat) (stream : option nat) (o : nat) (w : world) : option world :=
  ctx ← conns w !! conn;
  match ctx with
  | Some s => on_new_stream s stream o w
  | None => Some w
  end.

Definition conn_closed_cb (conn : nat) (w : world) : option world :=
  ctx ← conns w !! conn;
  match ctx with
  | None => Some w
  | Some s => w1 ← on_closed s w; w2 ← release_self s w1; Some (collect s w2)
  end.

(** The context lsquic passes with a stream event; a null one is ignored. *)
Definition at_stream (t : nat) (f : QuicTransportStream → QuicTransportStream * list output) (w : world) : option world :=
  p ← lstreams w !! t;
  match snd p with
  | None => Some w
  | Some o =>
      x ← wrappers w !! o;
      let '(st, outs) := f (w_state x) in
      Some (out (StreamOut o outs) (put_wrapper o (Wrapper (w_handle x) st (w_self x)) w))
  end.

Definition read_cb (hset : option HeaderList) (rd : Z → read_outcome) (t : nat) : world → option world :=
  at_stream t (on_readable hset rd).
Definition write_cb (wr : bytes → write_outcome) (t : nat) : world → option world := at_stream t (on_writeable wr).
Definition reset_cb (how : Z) (t : nat) : world → option world := at_stream t (on_reset how).

(** [on_close] ends with [release_self]; the copy kept across it is the last to go. *)
Definition close_cb (t : nat) (w : world) : option world :=
  p ← lstreams w !! t;
  match snd p with
  | None => Some w
  | Some o =>
      x ← wrappers w !! o;
      let '(st, outs) := on_close (w_state x) in
      Some (collect_wrapper o (out (StreamOut o outs) (put_wrapper o (Wrapper (w_handle x) st false) w)))
  end.

(** ** The engines' part of a new connection *)

(** [lsquic_conn_get_sockaddr]: no address, or a family and the text
    [inet_ntop] makes of it. *)
Inductive peer_addr := NoPeer | PeerV4 (text : bytes) | PeerV6 (text : bytes) | OtherFamily.

Definition conn_peer_addr (p : peer_addr) : bytes :=
  match p with
  | PeerV4 ((_ :: _) as text) | PeerV6 ((_ :: _) as text) => text
  | _ => #"unknown"
  end.

(** [QuicServerEngine::on_new_conn_cb].  [registered]: whether [new_session_cb_]
    is set; the worker's handler installs its callback and keeps no pointer. *)
Definition server_new_conn_cb (registered : bool) (s conn : nat) (peer : peer_addr) (w : world) : option world :=
  let w1 := new_session s conn (conn_peer_addr peer) w in
  w2 ← adopt_self s w1;
  w3 ← set_closed_cb s EraseLive (set_live (s :: live_sessions_ w2) w2);
  if registered then set_new_stream_cb s OnStream (out (NewSession s) w3) else Some w3.

(** [QuicClientEngine::on_new_conn_cb] with the endpoint it took over.
    [registered]: whether [new_session_cb_] is set; [pend]: the pool's pending
    connect.  The pool's handler installs its close handler and opens a stream,
    or ignores a connection nobody asked for. *)
Definition client_new_conn_cb (registered : bool) (s conn : nat) (peer : peer_addr) (ep : BackendEndpoint)
    (pend : option (BackendEndpoint * nat)) (w : world) : option world :=
  let w1 := new_session s conn (conn_peer_addr peer) w in
  w2 ← set_endpoint s ep w1;
  w3 ← adopt_self s w2;
  if negb registered then Some w3 else
  match pend with
  | None => Some (out (NewSession s) w3)
  | Some (target, cb) =>
      w4 ← set_closed_cb s (RemoveQuicConn target) (out (NewSession s) w3);
      async_open_stream s cb w4
  end.

(** ** What happens to the objects of one engine

    lsquic's events: a connection, a stream, stream events, the close of a
    stream and, after its streams, of a connection.  The worker keeps no pointer
    to a server session; the pool keeps and drops pointers to its client
    sessions and opens streams on those it holds.  Relays use and drop the
    streams they were given. *)

Inductive role := ServerRole | ClientRole.

Definition init_world : world := World ∅ ∅ ∅ ∅ [] [] [] [].

Definition accept_conn (c : nat) (w : world) : world := set_conns (<[c := None]> (conns w)) w.
Definition accept_stream (c t : nat) (w : world) : world := set_lstreams (<[t := (c, None)]> (lstreams w)) w.
Definition free_conn (c : nat) (w : world) : world := set_conns (delete c (conns w)) w.
Definition free_stream (t : nat) (w : world) : world := set_lstreams (delete t (lstreams w)) w.
Definition no_streams (c : nat) (w : world) : Prop := ∀ t x, lstreams w !! t ≠ Some (c, x).

(** What a relay calls on a stream it holds. *)
Definition by_relay (op : stream_op) : Prop :=
  match op with ORead _ _ | OWrite _ _ _ | OShutdown _ _ | OTakeHeaders _ _ => True | _ => False end.

(** [async_shutdown] does not test the handle, which is null once lsquic has
    closed the stream. *)
Definition null_call (op : stream_op) (s : QuicTransportStream) : bool :=
  match op with OShutdown _ _ => negb (stream_ s) | _ => false end.

(** [None]: the object is gone, or the null handle is passed to lsquic. *)
Definition use_stream (op : stream_op) (o : nat) (w : world) : option world :=
  x ← wrappers w !! o;
  if null_call op (w_state x) then None
  else
    let '(st, outs) := run_op op (w_state x) in
    Some (out (StreamOut o outs) (put_wrapper o (Wrapper (w_handle x) st (w_self x)) w)).

Inductive ls_step (rl : role) : world → world → Prop :=
  | ls_server_conn w w' reg c s addr : rl = ServerRole → conns w !! c = None → sessions w !! s = None →
      server_new_conn_cb reg s c addr (accept_conn c w) = Some w' → ls_step rl w w'
  | ls_client_conn w w' reg c s addr ep pend : rl = ClientRole → conns w !! c = None → sessions w !! s = None →
      client_new_conn_cb reg s c addr ep pend (accept_conn c w) = Some w' → ls_step rl w w'
  | ls_new_stream w w' c t o : is_Some (conns w !! c) → lstreams w !! t = None → wrappers w !! o = None →
      new_stream_cb c (Some t) o (accept_stream c t w) = Some w' → ls_step rl w w'
  | ls_read w w' t hset rd : is_Some (lstreams w !! t) → read_cb hset rd t w = Some w' → ls_step rl w w'
  | ls_write w w' t wr : is_Some (lstreams w !! t) → write_cb wr t w = Some w' → ls_step rl w w'
  | ls_reset w w' t how : is_Some (lstreams w !! t) → reset_cb how t w = Some w' → ls_step rl w w'
  | ls_stream_close w w' t : is_Some (lstreams w !! t) → close_cb t w = Some w' → ls_step rl w (free_stream t w')
  | ls_conn_closed w w' c : is_Some (conns w !! c) → no_streams c w → conn_closed_cb c w = Some w' →
      ls_step rl w (free_conn c w')
  | app_retain w s : rl = ClientRole → is_Some (sessions w !! s) → ls_step rl w (set_holders (s :: holders w) w)
  | app_drop w s rest : holders w ≡ₚ s :: rest → ls_step rl w (collect s (set_holders rest w))
  | app_open w w' s cb : s ∈ holders w → async_open_stream s cb w = Some w' → ls_step rl w w'
  | app_close w w' s : s ∈ holders w → close s w = Some w' → ls_step rl w w'
  | app_use w w' o op : o ∈ stream_holders w → by_relay op → use_stream op o w = Some w' → ls_step rl w w'
  | app_drop_stream w o rest : stream_holders w ≡ₚ o :: rest → ls_step rl w (collect_wrapper o (set_stream_holders rest w)).

Definition ls_reachable (rl : role) : world → Prop := rtc (ls_step rl) init_world.

(** ** The invariant *)

(** Objects are kept by some shared pointer, [ex] and [exw] excepted: the ones
    whose last pointer may just have gone. *)
Record session_ok (rl : role) (ex : option nat) (s : nat) (q : QuicTransportSession) (w : world) : Prop := {
  so_conn : ∀ c, conn_ q = Some c → conns w !! c = Some (Some s) ∧ self_ q = true;
  so_gone : conn_ q = None → self_ q = false ∧ closed_ q = true ∧ closed_cb_ q = None;
  so_owned : ex ≠ Some s → referenced s q w = true;
  so_live : s ∈ live_sessions_ w ↔ rl = ServerRole ∧ conn_ q ≠ None;
  so_erases : rl = ServerRole → conn_ q ≠ None → closed_cb_ q = Some EraseLive;
  so_role : rl = ServerRole → captures_itself q = false;
}.

Definition wrapper_ok (exw : option nat) (o : nat) (x : wrapper) (w : world) : Prop :=
  if stream_ (w_state x) then w_self x = true ∧ ∃ c, lstreams w !! w_handle x = Some (c, Some o)
  else w_self x = false ∧ (exw ≠ Some o → o ∈ stream_holders w).

Record world_inv_but (ex exw : option nat) (rl : role) (w : world) : Prop := {
  wv_conns : ∀ c ctx, conns w !! c = Some ctx → ∃ s q, ctx = Some s ∧ sessions w !! s = Some q ∧ conn_ q = Some c;
  wv_sessions : ∀ s q, sessions w !! s = Some q → session_ok rl ex s q w;
  wv_streams : ∀ t c ctx, lstreams w !! t = Some (c, ctx) → is_Some (conns w !! c) ∧
    ∀ o, ctx = Some o → ∃ x, wrappers w !! o = Some x ∧ w_handle x = t ∧ stream_ (w_state x) = true;
  wv_wrappers : ∀ o x, wrappers w !! o = Some x → wrapper_ok exw o x w;
  wv_holders : ∀ s, s ∈ holders w → is_Some (sessions w !! s);
  wv_stream_holders : ∀ o, o ∈ stream_holders w → is_Some (wrappers w !! o);
  wv_live : (∀ s, s ∈ live_sessions_ w → is_Some (sessions w !! s)) ∧ NoDup (live_sessions_ w);
  wv_role : rl = ServerRole → holders w = [];
}.

Abbreviation world_inv := (world_inv_but None None).

(** ** Lemmas *)

(** Calls are only recorded. *)
Lemma inv_out rl x w : world_inv rl w → world_inv rl (out x w).
Proof. intros [H1 H2 H3 H4 H5 H6 H7 H8]. split; try done. intros s q Hs. by destruct (H2 s q Hs). Qed.

(** A session assigns members that its ownership does not depend on. *)
Lemma inv_assign rl s q q' w : world_inv rl w → sessions w !! s = Some q →
  conn_ q' = conn_ q → self_ q' = self_ q → closed_cb_ q' = closed_cb_ q → (conn_ q = None → closed_ q' = closed_ q) →
  (captures_itself q = true → captures_itself q' = true) → (rl = ServerRole → captures_itself q' = captures_itself q) →
  world_inv rl (put s q' w).
Proof.
  intros [H1 H2 H3 H4 H5 H6 [H7a H7b] H8] Hs E1 E2 E3 E4 E5 E6.
  assert (∀ s', is_Some (sessions w !! s') → is_Some (<[s:=q']> (sessions w) !! s')) as Hsome.
  { intros s' Hs'. destruct (decide (s = s')) as [<-|]; [by rewrite lookup_insert_eq|by rewrite lookup_insert_ne]. }
  split; cbn; [| |done|done| |done| |done]; eauto.
  - intros c ctx Hc. destruct (H1 c ctx Hc) as (s' & q0 & -> & Hs' & Hq0). exists s'. destruct (decide (s = s')) as [<-|Hne].
    + exists q'. rewrite lookup_insert_eq. simplify_eq. by rewrite E1.
    + exists q0. by rewrite lookup_insert_ne.
  - intros s' q0. destruct (decide (s = s')) as [<-|Hne]; [|rewrite lookup_insert_ne by done; intros Hs'; by destruct (H2 s' q0 Hs')].
    rewrite lookup_insert_eq. intros [= <-]. destruct (H2 s q Hs) as [K1 K2 K3 K4 K5 K6]. split; rewrite ?E1, ?E2, ?E3; try done.
    + intros Hn. rewrite (E4 Hn). by apply K2.
    + intros _. specialize (K3 ltac:(done)). unfold referenced in *. rewrite E2. destruct (self_ q); [done|]. cbn in *. destruct (captures_itself q); [by rewrite E5|].
      destruct (captures_itself q'); done.
    + intros Hr. rewrite E6 by done. by apply K6.
Qed.

(** A connection comes up with its session. *)
Lemma inv_add rl s c q lv w : world_inv rl w → conns w !! c = None → sessions w !! s = None →
  conn_ q = Some c → self_ q = true → lv = (match rl with ServerRole => s :: live_sessions_ w | ClientRole => live_sessions_ w end) →
  (rl = ServerRole → closed_cb_ q = Some EraseLive ∧ captures_itself q = false) →
  ∀ cs, world_inv rl (World (<[c := Some s]> (conns w)) (lstreams w) (<[s := q]> (sessions w)) (wrappers w) (holders w)
    (stream_holders w) lv cs).
Proof.
  intros [H1 H2 H3 H4 H5 H6 [H7a H7b] H8] Hc Hs Ec Es -> Er cs.
  assert (∀ s', is_Some (sessions w !! s') → is_Some (<[s:=q]> (sessions w) !! s')) as Hsome.
  { intros s' Hs'. destruct (decide (s = s')) as [<-|]; [by rewrite lookup_insert_eq|by rewrite lookup_insert_ne]. }
  assert (s ∉ live_sessions_ w) as Hnl by (intros [? Hx]%H7a; congruence).
  split; cbn; [| | |done| |done| |done]; eauto.
  - intros c' ctx. destruct (decide (c = c')) as [<-|Hne].
    + rewrite lookup_insert_eq. intros [= <-]. exists s, q. by rewrite lookup_insert_eq.
    + rewrite lookup_insert_ne by done. intros Hc'. destruct (H1 c' ctx Hc') as (s' & q0 & -> & Hs' & Hq0).
      exists s', q0. rewrite lookup_insert_ne; [done|]. intros ->. congruence.
  - intros s' q0. destruct (decide (s = s')) as [<-|Hne].
    + rewrite lookup_insert_eq. intros [= <-]. split; cbn; try done.
      * intros c'. rewrite Ec. intros [= <-]. by rewrite lookup_insert_eq.
      * by rewrite Ec.
      * intros _. unfold referenced. by rewrite Es.
      * rewrite Ec. destruct rl; [split; [done|by left]|]. split; [done|]. by intros [? _].
      * intros Hr _. by apply Er.
      * intros Hr. by apply Er.
    + rewrite lookup_insert_ne by done. intros Hs'. destruct (H2 s' q0 Hs') as [K1 K2 K3 K4 K5 K6]. split; cbn; try done.
      * intros c' Hc'. destruct (K1 c' Hc') as [K1a K1b]. split; [|done]. rewrite lookup_insert_ne; [done|]. intros ->. congruence.
      * destruct rl; [|done]. rewrite elem_of_cons. rewrite <- K4. split; [by intros [->|?]|by right].
  - intros t c' ctx Ht. destruct (H3 t c' ctx Ht) as [Hx Hy]. split; [|done]. destruct (decide (c = c')) as [<-|];
      [by rewrite lookup_insert_eq|by rewrite lookup_insert_ne].
  - destruct rl; [|split; [intros s' Hs'; by apply Hsome, H7a|done]]. split; [|by constructor]. intros s' [->|Hin]%elem_of_cons; [by rewrite lookup_insert_eq|by apply Hsome, H7a].
Qed.

Lemma server_new_conn_eq reg s c addr w : ∃ ns cs,
  server_new_conn_cb reg s c addr (accept_conn c w) =
  Some (World (<[c := Some s]> (conns w)) (lstreams w)
    (<[s := Session (Some c) (conn_peer_addr addr) ns None (Some EraseLive) false true]> (sessions w)) (wrappers w) (holders w)
    (stream_holders w) (s :: live_sessions_ w) cs) ∧ (ns = None ∨ ns = Some OnStream).
Proof.
  unfold server_new_conn_cb, adopt_self, set_closed_cb, set_new_stream_cb, on_session_at, new_session, put.
  destruct reg; repeat (cbn; rewrite lookup_insert_eq); cbn; unfold conn_set_ctx, accept_conn, set_sessions, set_conns; cbn;
    rewrite alter_insert_eq, !insert_insert_eq; eexists _, _; (split; [done|auto]).
Qed.

Lemma client_new_conn_eq reg s c addr ep pend w :
  ∃ q cs, client_new_conn_cb reg s c addr ep pend (accept_conn c w) =
    Some (World (<[c := Some s]> (conns w)) (lstreams w) (<[s := q]> (sessions w)) (wrappers w) (holders w)
      (stream_holders w) (live_sessions_ w) cs) ∧ conn_ q = Some c ∧ self_ q = true ∧ endpoint_ q = Some ep ∧
    match (if reg then pend else None) with
    | None => closed_cb_ q = None ∧ new_stream_cb_ q = None
    | Some (target, cb) => closed_cb_ q = Some (RemoveQuicConn target) ∧ new_stream_cb_ q = Some (OpenQuic cb) ∧
                           cs = MakeStream c :: NewSession s :: calls w
    end.
Proof.
  unfold client_new_conn_cb, async_open_stream, adopt_self, set_closed_cb, set_endpoint, set_new_stream_cb, on_session_at, new_session, put.
  destruct reg; [destruct pend as [[target cb]|]|]; repeat (cbn; rewrite lookup_insert_eq); cbn; unfold conn_set_ctx, accept_conn, set_sessions, set_conns; cbn;
    rewrite alter_insert_eq, !insert_insert_eq; eexists _, _; done.
Qed.


(** Without a pointer left there is no connection either: the object goes. *)
Lemma inv_collect rl s exw w : world_inv_but (Some s) exw rl w → world_inv_but None exw rl (collect s w).
Proof.
  intros [H1 H2 H3 H4 H5 H6 [H7a H7b] H8]. unfold collect. destruct (sessions w !! s) as [q|] eqn:Hs.
  2: { split; try done. intros s' q' Hs'. destruct (H2 s' q' Hs') as [K1 K2 K3 K4 K5 K6]. split; try done.
       intros _. apply K3. intros [= ->]. congruence. }
  destruct (referenced s q w) eqn:Hr.
  { split; try done. intros s' q' Hs'. destruct (H2 s' q' Hs') as [K1 K2 K3 K4 K5 K6]. split; try done.
    intros _. destruct (decide (s = s')) as [<-|Hne]; [by simplify_eq|]. apply K3. congruence. }
  destruct (H2 s q Hs) as [K1 K2 _ K4 _ _]. unfold referenced in Hr.
  apply orb_false_iff in Hr as [[Hself _]%orb_false_iff Hh%bool_decide_eq_false].
  assert (conn_ q = None) as Hc by (destruct (conn_ q) as [c|]; [destruct (K1 c eq_refl); congruence|done]).
  assert (s ∉ live_sessions_ w) as Hl by (rewrite K4, Hc; by intros [_ ?]).
  assert (∀ s' (P : nat → Prop), (P s' → is_Some (sessions w !! s')) → ¬ P s → P s' → is_Some (delete s (sessions w) !! s')) as Hkeep.
  { intros s' P HP HnP Hs'. rewrite lookup_delete_ne; [by apply HP|]. intros ->. done. }
  rewrite Hc. split; cbn; try done.
  - intros c ctx Hx. destruct (H1 c ctx Hx) as (s' & q' & -> & Hs' & Hq'). exists s', q'. rewrite lookup_delete_ne; [done|].
    intros ->. simplify_eq.
  - intros s' q' [Hne Hs']%lookup_delete_Some. destruct (H2 s' q' Hs') as [L1 L2 L3 L4 L5 L6]. split; try done.
    intros _. apply L3. congruence.
  - intros s' Hs'. eapply (Hkeep s' (λ x, x ∈ holders w)); [apply H5|done..].
  - split; [|done]. intros s' Hs'. eapply (Hkeep s' (λ x, x ∈ live_sessions_ w)); [apply H7a|done..].
Qed.

(** A pointer outside goes away. *)
Lemma inv_drop rl s rest w : world_inv rl w → holders w ≡ₚ s :: rest → world_inv_but (Some s) None rl (set_holders rest w).
Proof.
  intros [H1 H2 H3 H4 H5 H6 H7 H8] Hh. split; cbn; try done.
  - intros s' q Hs'. destruct (H2 s' q Hs') as [K1 K2 K3 K4 K5 K6]. split; try done. intros Hne. specialize (K3 ltac:(done)).
    unfold referenced in *. destruct (self_ q); [done|]. destruct (captures_itself q); [done|]. cbn in *.
    apply bool_decide_eq_true in K3. apply bool_decide_eq_true. rewrite Hh in K3. apply elem_of_cons in K3 as [->|]; [done|done].
  - intros s' Hs'. apply H5. rewrite Hh. by right.
  - intros Hr. rewrite (H8 Hr) in Hh. by apply Permutation_nil_cons in Hh.
Qed.

Lemma inv_retain s w : world_inv ClientRole w → is_Some (sessions w !! s) → world_inv ClientRole (set_holders (s :: holders w) w).
Proof.
  intros [H1 H2 H3 H4 H5 H6 H7 H8] Hs. split; cbn; try done.
  - intros s' q Hs'. destruct (H2 s' q Hs') as [K1 K2 K3 K4 K5 K6]. split; try done. intros Hne. specialize (K3 ltac:(done)).
    unfold referenced in *. destruct (self_ q); [done|]. destruct (captures_itself q); [done|]. cbn in *.
    apply bool_decide_eq_true in K3. apply bool_decide_eq_true. by right.
  - intros s' [->|Hs']%elem_of_cons; [done|by apply H5].
Qed.

(** What is left of a session when lsquic is done with its connection. *)
Definition after_close (q : QuicTransportSession) : QuicTransportSession :=
  Session None (remote_addr_ q) (new_stream_cb_ q) (endpoint_ q) None true false.

Definition erased (s : nat) (q : QuicTransportSession) (l : list nat) : list nat :=
  match closed_cb_ q with Some EraseLive => filter (λ x, x ≠ s) l | _ => l end.

Definition notified (s : nat) (q : QuicTransportSession) : list call :=
  match closed_cb_ q with Some cb => [Closed s cb] | None => [] end.

Definition closed_world (c s : nat) (q : QuicTransportSession) (w : world) : world :=
  World (delete c (conns w)) (lstreams w) (<[s := after_close q]> (sessions w)) (wrappers w) (holders w) (stream_holders w)
    (erased s q (live_sessions_ w)) (notified s q ++ calls w).

Lemma conn_closed_eq c s q w : conns w !! c = Some (Some s) → sessions w !! s = Some q → conn_ q = Some c →
  ∃ w', conn_closed_cb c w = Some w' ∧ conns w' !! c = Some None ∧ free_conn c w' = collect s (closed_world c s q w).
Proof.
  intros Hc Hs Hq. unfold conn_closed_cb. rewrite Hc. cbn. unfold on_closed. rewrite Hs. cbn. rewrite Hq.
  assert (∀ l cs, ∃ w', (w2 ← release_self s (World (alter (λ _, None) c (conns w)) (lstreams w)
      (<[s := with_closed_cb None (with_conn None (with_closed true q))]> (sessions w)) (wrappers w) (holders w) (stream_holders w) l cs);
      Some (collect s w2)) = Some w' ∧ conns w' !! c = Some None ∧
      free_conn c w' = collect s (World (delete c (conns w)) (lstreams w) (<[s := after_close q]> (sessions w)) (wrappers w) (holders w)
        (stream_holders w) l cs)) as Hrel.
  { intros l cs. unfold release_self, on_session_at, put. cbn. rewrite lookup_insert_eq. cbn. eexists. split; [reflexivity|].
    unfold collect, set_sessions. cbn. rewrite !insert_insert_eq, !lookup_insert_eq.
    change (with_self false _) with (after_close q). unfold referenced. cbn.
    destruct (_ || _); cbn; rewrite lookup_alter_eq, Hc; (split; [done|]); unfold free_conn, set_conns; cbn; by rewrite delete_alter_eq. }
  destruct (closed_cb_ q) as [[|ep]|] eqn:Ecb; cbn; unfold closed_world, erased, notified; rewrite Ecb;
    unfold conn_set_ctx, put, set_sessions, set_conns, run_closed_cb; cbn; rewrite ?insert_insert_eq; try apply Hrel.
  assert (with_conn None (with_closed true q) = with_closed_cb None (with_conn None (with_closed true q))) as ->
    by (unfold with_closed_cb, with_conn, with_closed; cbn; by rewrite Ecb).
  apply Hrel.
Qed.

Lemma inv_closed rl c s q w : world_inv rl w → conns w !! c = Some (Some s) → sessions w !! s = Some q → conn_ q = Some c →
  no_streams c w → world_inv_but (Some s) None rl (closed_world c s q w).
Proof.
  intros [H1 H2 H3 H4 H5 H6 [H7a H7b] H8] Hc Hs Hq Hn. destruct (H2 s q Hs) as [K1 K2 K3 K4 K5 K6].
  assert (∀ s', is_Some (sessions w !! s') → is_Some (<[s:=after_close q]> (sessions w) !! s')) as Hsome.
  { intros s' Hs'. destruct (decide (s = s')) as [<-|]; [by rewrite lookup_insert_eq|by rewrite lookup_insert_ne]. }
  assert (∀ x, x ∈ erased s q (live_sessions_ w) ↔ x ∈ live_sessions_ w ∧ x ≠ s) as Hlive.
  { intros x. unfold erased. destruct rl.
    - rewrite K5 by (by rewrite ?Hq). rewrite list_elem_of_filter. tauto.
    - assert (x ∉ live_sessions_ w) as Hx by (intros Hx; destruct (H7a x Hx) as [qx Hqx]; destruct (H2 x qx Hqx) as [_ _ _ L4 _ _]; destruct (proj1 L4 Hx); done).
      split; [|tauto]. intros Hin. exfalso. apply Hx. destruct (closed_cb_ q) as [[]|]; try done. by apply list_elem_of_filter in Hin as [_ ?]. }
  split; cbn; try done.
  - intros c' ctx [Hne Hc']%lookup_delete_Some. destruct (H1 c' ctx Hc') as (s' & q' & -> & Hs' & Hq'). exists s', q'.
    rewrite lookup_insert_ne; [done|]. intros ->. simplify_eq.
  - intros s' q'. destruct (decide (s = s')) as [<-|Hne].
    + rewrite lookup_insert_eq. intros [= <-]. split; cbn; try done. rewrite Hlive. split; [by intros [_ ?]|by intros [_ ?]].
    + rewrite lookup_insert_ne by done. intros Hs'. destruct (H2 s' q' Hs') as [L1 L2 L3 L4 L5 L6]. split; try done; cbn.
      * intros c' Hc'. destruct (L1 c' Hc') as [L1a L1b]. split; [|done]. rewrite lookup_delete_ne; [done|]. intros ->. congruence.
      * intros _. by apply L3.
      * rewrite Hlive, L4. split; [by intros [? _]|by intros ?].
  - intros t c' ctx Ht. destruct (H3 t c' ctx Ht) as [Hx Hy]. split; [|done]. rewrite lookup_delete_ne; [done|]. intros ->. by apply (Hn t ctx).
  - eauto.
  - split; [intros s' [Hs' _]%Hlive; eauto|]. unfold erased. destruct (closed_cb_ q) as [[]|]; try done. by apply list.NoDup_filter.
Qed.

(** Nothing but [on_close] touches the handle of a stream. *)
Lemma run_op_stream op s : op ≠ EClose → stream_ (fst (run_op op s)) = stream_ s.
Proof.
  assert (∀ wr s, stream_ (fst (pump_write wr s)) = stream_ s) as Hp.
  { clear. intros wr s. unfold pump_write, flush_queue. by split_cases. }
  assert (∀ hset s, stream_ (fst (try_take_headers hset s)) = stream_ s) as Ht.
  { clear. intros hset s. unfold try_take_headers. by split_cases. }
  intros Hop. destruct op; cbn; try done.
  - unfold async_read_some. by destruct (stream_ s) eqn:E.
  - unfold async_write_some. by rewrite Hp.
  - unfold async_shutdown. destruct (stream_ s) eqn:E; [destruct ok|]; by cbn.
  - unfold async_take_headers. destruct (_ || _); [done|]. pose proof (Ht hset (set_headers (Some cb) s)) as E.
    by destruct (try_take_headers _ _).
  - unfold on_readable. destruct (headers_cb_ s); [apply Ht|]. destruct (read_cb_ s) as [[cap cb]|]; [|done]. by destruct (rd cap).
  - unfold on_writeable. by rewrite Hp.
  - unfold on_reset, flush_queue. by split_cases.
Qed.

(** A stream object changes its state, not its handle. *)
Lemma inv_wrapper rl o x st w : world_inv rl w → wrappers w !! o = Some x → stream_ st = stream_ (w_state x) →
  world_inv rl (put_wrapper o (Wrapper (w_handle x) st (w_self x)) w).
Proof.
  intros [H1 H2 H3 H4 H5 H6 H7 H8] Ho Hst.
  assert (∀ o', is_Some (wrappers w !! o') → is_Some (<[o:=Wrapper (w_handle x) st (w_self x)]> (wrappers w) !! o')) as Hsome.
  { intros o' Hs'. destruct (decide (o = o')) as [<-|]; [by rewrite lookup_insert_eq|by rewrite lookup_insert_ne]. }
  split; try done; cbn; eauto.
  - intros s q Hs. by destruct (H2 s q Hs).
  - intros t c ctx Ht. destruct (H3 t c ctx Ht) as [Hc Hx]. split; [done|]. intros o' ->. destruct (Hx o' eq_refl) as (x' & Ho' & Hh & Hs').
    destruct (decide (o = o')) as [<-|]; [|by exists x'; rewrite lookup_insert_ne].
    eexists. rewrite lookup_insert_eq. split; [done|]. cbn. simplify_eq. by rewrite Hst.
  - intros o' x'. destruct (decide (o = o')) as [<-|]; [|rewrite lookup_insert_ne by done; apply H4].
    rewrite lookup_insert_eq. intros [= <-]. specialize (H4 o x Ho). unfold wrapper_ok in *. cbn. by rewrite Hst.
Qed.

(** A stream comes up with its object, held by the callback's owner. *)
Lemma inv_stream rl c t o w : world_inv rl w → is_Some (conns w !! c) → lstreams w !! t = None → wrappers w !! o = None →
  world_inv rl (set_stream_holders (o :: stream_holders w) (new_wrapper o t (accept_stream c t w))).
Proof.
  intros [H1 H2 H3 H4 H5 H6 H7 H8] Hc Ht Ho. unfold new_wrapper, stream_set_ctx, accept_stream, put_wrapper, set_wrappers, set_lstreams. cbn.
  rewrite alter_insert_eq. cbn. split; cbn; try done.
  - intros s q Hs. by destruct (H2 s q Hs).
  - intros t' c' ctx. destruct (decide (t = t')) as [<-|Hne].
    + rewrite lookup_insert_eq. intros [= <- <-]. split; [done|]. intros o' [= <-]. eexists. by rewrite lookup_insert_eq.
    + rewrite lookup_insert_ne by done. intros Ht'. destruct (H3 t' c' ctx Ht') as [Hc' Hx]. split; [done|]. intros o' ->.
      destruct (Hx o' eq_refl) as (x & Ho' & Hy). exists x. rewrite lookup_insert_ne; [done|]. intros ->. congruence.
  - intros o' x. destruct (decide (o = o')) as [<-|Hne].
    + rewrite lookup_insert_eq. intros [= <-]. unfold wrapper_ok. cbn. split; [done|]. exists c. by rewrite lookup_insert_eq.
    + rewrite lookup_insert_ne by done. intros Ho'. specialize (H4 o' x Ho'). unfold wrapper_ok in *. cbn.
      destruct (stream_ (w_state x)).
      * destruct H4 as [H4a [c' Hc']]. split; [done|]. exists c'. rewrite lookup_insert_ne; [done|]. intros ->. congruence.
      * destruct H4 as [H4a H4b]. split; [done|]. intros _. right. by apply H4b.
  - intros o' [->|Ho']%elem_of_cons; [by rewrite lookup_insert_eq|].
    destruct (decide (o = o')) as [<-|]; [by rewrite lookup_insert_eq|rewrite lookup_insert_ne by done; by apply H6].
Qed.

(** A stream without a session to announce it to keeps no context. *)
Lemma inv_bare_stream rl c t w : world_inv rl w → is_Some (conns w !! c) → lstreams w !! t = None →
  world_inv rl (accept_stream c t w).
Proof.
  intros [H1 H2 H3 H4 H5 H6 H7 H8] Hc Ht. split; cbn; try done.
  - intros s q Hs. by destruct (H2 s q Hs).
  - intros t' c' ctx. destruct (decide (t = t')) as [<-|Hne]; [|rewrite lookup_insert_ne by done; apply H3].
    rewrite lookup_insert_eq. intros [= <- <-]. split; [done|]. by intros o [=].
  - intros o x Ho. specialize (H4 o x Ho). unfold wrapper_ok in *. cbn. destruct (stream_ (w_state x)); [|done].
    destruct H4 as [H4a [c' Hc']]. split; [done|]. exists c'. rewrite lookup_insert_ne; [done|]. intros ->. congruence.
Qed.

(** A stream object whose stream is gone and that nobody holds goes. *)
Lemma inv_collect_wrapper rl o w : world_inv_but None (Some o) rl w → world_inv rl (collect_wrapper o w).
Proof.
  intros [H1 H2 H3 H4 H5 H6 H7 H8]. unfold collect_wrapper.
  assert (∀ o' x, o ≠ o' → wrapper_ok (Some o) o' x w → wrapper_ok None o' x w) as Hok.
  { intros o' x Hne. unfold wrapper_ok. destruct (stream_ _); [done|]. intros [Ha Hb]. split; [done|]. intros _. apply Hb. congruence. }
  destruct (wrappers w !! o) as [x|] eqn:Ho.
  2: { split; try done. intros o' x' Ho'. apply Hok; [|by apply H4]. intros ->. congruence. }
  pose proof (H4 o x Ho) as Hx. destruct (w_self x || _) eqn:E.
  { split; try done. intros o' x' Ho'. destruct (decide (o = o')) as [<-|]; [|by apply Hok, H4]. simplify_eq.
    unfold wrapper_ok in *. destruct (stream_ (w_state x)); [done|]. destruct Hx as [Hs _]. rewrite Hs in E. apply bool_decide_eq_true in E. done. }
  apply orb_false_iff in E as [Es Eh%bool_decide_eq_false]. unfold wrapper_ok in Hx.
  destruct (stream_ (w_state x)) eqn:Est; [destruct Hx; congruence|]. split; cbn; try done.
  - intros s q Hs. by destruct (H2 s q Hs).
  - intros t c ctx Ht. destruct (H3 t c ctx Ht) as [Hc Hy]. split; [done|]. intros o' ->. destruct (Hy o' eq_refl) as (x' & Ho' & Hz).
    exists x'. rewrite lookup_delete_ne; [done|]. intros ->. destruct Hz as [_ Hz]. simplify_eq. congruence.
  - intros o' x' [Hne Ho']%lookup_delete_Some. apply (Hok o' x' Hne). by apply H4.
  - intros o' Ho'. rewrite lookup_delete_ne; [by apply H6|]. intros ->. done.
Qed.

Lemma inv_drop_stream rl o rest w : world_inv rl w → stream_holders w ≡ₚ o :: rest →
  world_inv_but None (Some o) rl (set_stream_holders rest w).
Proof.
  intros [H1 H2 H3 H4 H5 H6 H7 H8] Hh. split; cbn; try done.
  - intros s q Hs. by destruct (H2 s q Hs).
  - intros o' x Ho. specialize (H4 o' x Ho). unfold wrapper_ok in *. cbn. destruct (stream_ (w_state x)); [done|].
    destruct H4 as [H4a H4b]. split; [done|]. intros Hne. specialize (H4b ltac:(done)). rewrite Hh in H4b.
    apply elem_of_cons in H4b as [->|]; done.
  - intros o' Ho'. apply H6. rewrite Hh. by right.
Qed.

(** lsquic closes a stream. *)
Lemma inv_stream_close rl t c o x st w : world_inv rl w → lstreams w !! t = Some (c, Some o) → wrappers w !! o = Some x →
  stream_ st = false →
  world_inv_but None (Some o) rl (free_stream t (put_wrapper o (Wrapper (w_handle x) st false) w)).
Proof.
  intros [H1 H2 H3 H4 H5 H6 H7 H8] Ht Ho Hst. destruct (H3 t c _ Ht) as [_ Hx]. destruct (Hx o eq_refl) as (x' & Ho' & Hh & Hs'). simplify_eq.
  split; cbn; try done.
  - intros s q Hs. by destruct (H2 s q Hs).
  - intros t' c' ctx [Hne Ht']%lookup_delete_Some. destruct (H3 t' c' ctx Ht') as [Hc Hy]. split; [done|]. intros o' ->.
    destruct (Hy o' eq_refl) as (x' & Ho1 & Hh' & Hs1). exists x'. rewrite lookup_insert_ne; [done|]. intros ->. congruence.
  - intros o' x'. destruct (decide (o = o')) as [<-|Hne].
    + rewrite lookup_insert_eq. intros [= <-]. unfold wrapper_ok. cbn. rewrite Hst. done.
    + rewrite lookup_insert_ne by done. intros Ho1. specialize (H4 o' x' Ho1). unfold wrapper_ok in *. cbn.
      destruct (stream_ (w_state x')); [|split; [apply H4|]; intros _; by apply H4]. destruct H4 as [H4a [c' Hc']]. split; [done|]. exists c'.
      rewrite lookup_delete_ne; [done|]. intros E. rewrite <- E in Hc'. congruence.
  - intros o' Hin. destruct (decide (o = o')) as [<-|]; [by rewrite lookup_insert_eq|rewrite lookup_insert_ne by done; by apply H6].
Qed.

(** ** The callbacks find their objects and keep the invariant *)

Lemma at_stream_ok rl t f w : world_inv rl w → is_Some (lstreams w !! t) → (∀ s, stream_ (fst (f s)) = stream_ s) →
  ∃ w', at_stream t f w = Some w' ∧ world_inv rl w'.
Proof.
  intros Hinv [[c ctx] Ht] Hf. unfold at_stream. rewrite Ht. cbn. destruct ctx as [o|]; [|by exists w].
  destruct (proj2 (wv_streams _ _ _ _ Hinv t c _ Ht) o eq_refl) as (x & Ho & _). rewrite Ho. cbn.
  specialize (Hf (w_state x)). destruct (f (w_state x)) as [st outs]. eexists. split; [done|]. by apply inv_out, inv_wrapper.
Qed.

(** What a call on a stream leaves: the object with its handle as it was. *)
Lemma use_stream_eq op o w w' : by_relay op → use_stream op o w = Some w' →
  ∃ x st outs, wrappers w !! o = Some x ∧ null_call op (w_state x) = false ∧ stream_ st = stream_ (w_state x) ∧
    w' = out (StreamOut o outs) (put_wrapper o (Wrapper (w_handle x) st (w_self x)) w).
Proof.
  intros Hop. unfold use_stream. destruct (wrappers w !! o) as [x|]; [|done]. cbn. destruct (null_call op (w_state x)) eqn:En; [done|].
  pose proof (run_op_stream op (w_state x)) as Hst. destruct (run_op op (w_state x)) as [st outs]. intros [= <-].
  exists x, st, outs. split_and!; [done..| |done]. apply Hst. by destruct op.
Qed.

Lemma use_stream_inv rl op o w w' : world_inv rl w → by_relay op → use_stream op o w = Some w' → world_inv rl w'.
Proof.
  intros Hinv Hop (x & st & outs & Hx & _ & Hst & ->)%use_stream_eq; [|done]. by apply inv_out, inv_wrapper.
Qed.

Lemma use_stream_ok rl op o w : world_inv rl w → o ∈ stream_holders w → by_relay op →
  ∃ x, wrappers w !! o = Some x ∧ (null_call op (w_state x) = false → ∃ w', use_stream op o w = Some w') ∧
    (null_call op (w_state x) = true → use_stream op o w = None).
Proof.
  intros Hinv Ho Hop. destruct (wv_stream_holders _ _ _ _ Hinv o Ho) as [x Hx]. exists x. split; [done|]. unfold use_stream. rewrite Hx. cbn.
  split; intros ->; [|done]. destruct (run_op op (w_state x)). by eexists.
Qed.

Lemma close_cb_ok rl t w : world_inv rl w → is_Some (lstreams w !! t) →
  ∃ w', close_cb t w = Some w' ∧ world_inv rl (free_stream t w').
Proof.
  intros Hinv [[c ctx] Ht]. unfold close_cb. rewrite Ht. cbn [mbind option_bind snd]. destruct ctx as [o|].
  - destruct (proj2 (wv_streams _ _ _ _ Hinv t c _ Ht) o eq_refl) as (x & Ho & Hh & Hs). rewrite Ho. cbn [mbind option_bind].
    destruct (on_close (w_state x)) as [st outs] eqn:E. assert (stream_ st = false) as Hst by (by injection E as <- <-).
    eexists. split; [done|]. pose proof (inv_collect_wrapper _ _ _ (inv_stream_close rl t c o x st w Hinv Ht Ho Hst)) as Hi.
    revert Hi. unfold collect_wrapper. cbn. rewrite !lookup_insert_eq. cbn. rewrite Hst.
    destruct (bool_decide _); cbn; intros Hi; exact (inv_out _ (StreamOut o outs) _ Hi).
  - eexists. split; [done|]. destruct Hinv as [H1 H2 H3 H4 H5 H6 H7 H8]. split; cbn; try done.
    + intros s q Hs. by destruct (H2 s q Hs).
    + intros t' c' ctx [Hne Ht']%lookup_delete_Some. by apply H3.
    + intros o x Ho. specialize (H4 o x Ho). unfold wrapper_ok in *. cbn. destruct (stream_ (w_state x)); [|done].
      destruct H4 as [H4a [c' Hc']]. split; [done|]. exists c'. rewrite lookup_delete_ne; [done|]. intros E. rewrite <- E in Hc'. congruence.
Qed.

Lemma new_stream_ok rl c t o w : world_inv rl w → is_Some (conns w !! c) → lstreams w !! t = None → wrappers w !! o = None →
  ∃ w', new_stream_cb c (Some t) o (accept_stream c t w) = Some w' ∧ world_inv rl w'.
Proof.
  intros Hinv [ctx Hc] Ht Ho. destruct (wv_conns _ _ _ _ Hinv c ctx Hc) as (s & q & -> & Hs & Hq).
  unfold new_stream_cb, on_new_stream. cbn. rewrite Hc. cbn. rewrite Hs. cbn.
  destruct (new_stream_cb_ q) as [cb|]; eexists; (split; [done|]); [|by apply inv_bare_stream].
  apply (inv_out _ (NewStream s cb (Some o)) (set_stream_holders (o :: stream_holders w) (new_wrapper o t (accept_stream c t w)))). by apply inv_stream.
Qed.

Lemma conn_closed_ok rl c w : world_inv rl w → is_Some (conns w !! c) →
  ∃ w', conn_closed_cb c w = Some w' ∧ conns w' !! c = Some None ∧ (no_streams c w → world_inv rl (free_conn c w')).
Proof.
  intros Hinv [ctx Hc]. destruct (wv_conns _ _ _ _ Hinv c ctx Hc) as (s & q & -> & Hs & Hq).
  destruct (conn_closed_eq c s q w Hc Hs Hq) as (w' & H1 & H2 & H3). exists w'. split_and!; [done..|]. intros Hn.
  rewrite H3. by apply inv_collect, inv_closed.
Qed.

Lemma open_stream_ok rl s cb w : world_inv rl w → s ∈ holders w →
  ∃ w', async_open_stream s cb w = Some w' ∧ world_inv rl w'.
Proof.
  intros Hinv Hs. destruct (wv_holders _ _ _ _ Hinv s Hs) as [q Hq].
  assert (rl ≠ ServerRole) as Hr by (intros Hr; rewrite (wv_role _ _ _ _ Hinv Hr) in Hs; by apply not_elem_of_nil in Hs).
  unfold async_open_stream, set_new_stream_cb, on_session_at. rewrite Hq. cbn. rewrite lookup_insert_eq. cbn.
  assert (world_inv rl (put s (with_new_stream_cb (Some (OpenQuic cb)) q) w)) as Hi by (by eapply inv_assign).
  destruct (conn_ q); eexists; (split; [done|]); [by apply inv_out|done].
Qed.

Lemma close_ok rl s w : world_inv rl w → s ∈ holders w → ∃ w', close s w = Some w' ∧ world_inv rl w'.
Proof.
  intros Hinv Hs. destruct (wv_holders _ _ _ _ Hinv s Hs) as [q Hq]. unfold close. rewrite Hq. cbn.
  destruct (conn_ q) as [c|] eqn:Ec; [|by exists w]. destruct (closed_ q); [by exists w|]. eexists. split; [done|].
  apply inv_out. eapply inv_assign; try done. congruence.
Qed.


Lemma ls_step_inv rl w w' : ls_step rl w w' → world_inv rl w → world_inv rl w'.
Proof.
  intros Hs Hinv. destruct Hs as [w w' reg c s addr -> Hc Hs Hx|w w' reg c s addr ep pend -> Hc Hs Hx|w w' c t o Hc Ht Ho Hx
    |w w' t hset rd Ht Hx|w w' t wr Ht Hx|w w' t how Ht Hx|w w' t Ht Hx|w w' c Hc Hn Hx|w s -> Hs|w s rest Hh|w w' s cb Hs Hx|w w' s Hs Hx
    |w w' o op Ho Hop Hx|w o rest Hh].
  - destruct (server_new_conn_eq reg s c addr w) as (ns & cs & E & Hns). rewrite E in Hx. injection Hx as <-.
    apply inv_add; try done. intros _. split; [done|]. by destruct Hns as [-> | ->].
  - destruct (client_new_conn_eq reg s c addr ep pend w) as (q & cs & E & H1 & H2 & _). rewrite E in Hx. injection Hx as <-.
    by apply inv_add.
  - destruct (new_stream_ok rl c t o w) as (w1 & E & Hi); try done. congruence.
  - destruct (at_stream_ok rl t (on_readable hset rd) w) as (w1 & E & Hi); try done; [|unfold read_cb in Hx; congruence].
    intros s. by apply (run_op_stream (EReadable hset rd)).
  - destruct (at_stream_ok rl t (on_writeable wr) w) as (w1 & E & Hi); try done; [|unfold write_cb in Hx; congruence].
    intros s. by apply (run_op_stream (EWriteable wr)).
  - destruct (at_stream_ok rl t (on_reset how) w) as (w1 & E & Hi); try done; [|unfold reset_cb in Hx; congruence].
    intros s. by apply (run_op_stream (EReset how)).
  - destruct (close_cb_ok rl t w) as (w1 & E & Hi); try done. congruence.
  - destruct (conn_closed_ok rl c w) as (w1 & E & _ & Hi); try done. assert (w1 = w') as <- by congruence. by apply Hi.
  - by apply inv_retain.
  - by apply inv_collect, inv_drop.
  - destruct (open_stream_ok rl s cb w) as (w1 & E & Hi); try done. congruence.
  - destruct (close_ok rl s w) as (w1 & E & Hi); try done. congruence.
  - by eapply use_stream_inv.
  - by apply inv_collect_wrapper, inv_drop_stream.
Qed.

Lemma ls_reachable_inv rl w : ls_reachable rl w → world_inv rl w.
Proof.
  unfold ls_reachable. intros Hr. remember init_world as w0 eqn:E. assert (world_inv rl w0) as Hi.
  { subst. split; cbn; try done; try (by intros ? ?%not_elem_of_nil). split; [by intros ? ?%not_elem_of_nil|constructor]. }
  clear E. induction Hr as [|w0 w1 w2 Hs _ IH]; [done|]. apply IH. by eapply ls_step_inv.
Qed.

(** ** Properties *)

(** C16: No callback of lsquic uses a dangling context pointer: in every reachable
    state each event on a live stream or connection finds its object, and a
    shared pointer kept outside is never dangling.  When lsquic is done with a
    connection, the callback has cleared its context pointer, as lsquic asserts
    before it frees it, has notified the installed close handler once, and has
    removed it. *)
Theorem quic_callbacks_safe rl w : ls_reachable rl w →
  (∀ t, is_Some (lstreams w !! t) →
    (∀ hset rd, is_Some (read_cb hset rd t w)) ∧ (∀ wr, is_Some (write_cb wr t w)) ∧
    (∀ how, is_Some (reset_cb how t w)) ∧ is_Some (close_cb t w)) ∧
  (∀ c, is_Some (conns w !! c) →
    (∀ t o, is_Some (new_stream_cb c (Some t) o w)) ∧
    ∃ s q w', conns w !! c = Some (Some s) ∧ sessions w !! s = Some q ∧ conn_closed_cb c w = Some w' ∧
      conns w' !! c = Some None ∧ calls w' = notified s q ++ calls w ∧
      ∀ q', sessions w' !! s = Some q' → closed_cb_ q' = None ∧ conn_ q' = None) ∧
  (∀ s, s ∈ holders w → is_Some (sessions w !! s)) ∧ (∀ o, o ∈ stream_holders w → is_Some (wrappers w !! o)).
Proof.
  intros Hinv%ls_reachable_inv. split_and!; [| |apply Hinv|apply Hinv].
  - intros t Ht. split_and!.
    + intros hset rd. destruct (at_stream_ok rl t (on_readable hset rd) w) as (w' & E & _); [done..| |by exists w'].
      intros s. by apply (run_op_stream (EReadable hset rd)).
    + intros wr. destruct (at_stream_ok rl t (on_writeable wr) w) as (w' & E & _); [done..| |by exists w'].
      intros s. by apply (run_op_stream (EWriteable wr)).
    + intros how. destruct (at_stream_ok rl t (on_reset how) w) as (w' & E & _); [done..| |by exists w'].
      intros s. by apply (run_op_stream (EReset how)).
    + destruct (close_cb_ok rl t w) as (w' & E & _); [done..|by exists w'].
  - intros c [ctx Hc]. destruct (wv_conns _ _ _ _ Hinv c ctx Hc) as (s & q & -> & Hs & Hq). split.
    + intros t o. unfold new_stream_cb, on_new_stream. rewrite Hc. cbn. rewrite Hs. by eexists.
    + destruct (conn_closed_eq c s q w Hc Hs Hq) as (w' & H1 & H2 & H3). exists s, q, w'. split_and!; try done.
      * change (calls w') with (calls (free_conn c w')). rewrite H3. unfold collect. cbn. rewrite lookup_insert_eq.
        by destruct (referenced _ _ _).
      * intros q'. change (sessions w') with (sessions (free_conn c w')). rewrite H3. unfold collect. cbn. rewrite lookup_insert_eq.
        destruct (referenced _ _ _); cbn; [rewrite lookup_insert_eq; by intros [= <-]|by rewrite lookup_delete_eq].
Qed.

(** A client's connection 1 with session 5 and stream 8, wrapped by object 9. *)
Definition one_client : world :=
  World {[1 := Some 5]} {[8 := (1, Some 9)]}
    {[5 := Session (Some 1) #"10.0.0.1" (Some OnStream) None (Some EraseLive) false true]}
    {[9 := Wrapper 8 new_stream true]} [] [9] [5] [NewStream 5 OnStream (Some 9); NewSession 5].

Lemma one_client_reachable : ls_reachable ServerRole one_client.
Proof.
  eapply rtc_l; [eapply (ls_server_conn _ init_world _ true 1 5 (PeerV4 #"10.0.0.1")); [done..|vm_compute; reflexivity]|].
  eapply rtc_l; [eapply (ls_new_stream _ _ _ 1 8 9); [by eexists|done..|vm_compute; reflexivity]|]. apply rtc_refl.
Qed.

Lemma quic_callbacks_safe_witness : is_Some (close_cb 8 one_client) ∧
  ∃ w', conn_closed_cb 1 one_client = Some w' ∧ conns w' !! 1 = Some None ∧ calls w' = Closed 5 EraseLive :: calls one_client.
Proof.
  destruct (quic_callbacks_safe ServerRole one_client one_client_reachable) as (H1 & H2 & _). split.
  - destruct (H1 8) as (_ & _ & _ & H); [by eexists|exact H].
  - destruct (H2 1) as (_ & s & q & w' & E1 & E2 & E3 & E4 & E5 & _); [by eexists|].
    vm_compute in E1. injection E1 as <-. vm_compute in E2. injection E2 as <-. exists w'. done.
Defined.

(** Client connections do not leak: the server engine has exactly one session
    per live connection, listed once in its live set, and none for a connection
    that is gone; when lsquic has closed them all, none is left. *)
Theorem server_sessions_freed w : ls_reachable ServerRole w →
  (∀ c, is_Some (conns w !! c) → ∃ s q, conns w !! c = Some (Some s) ∧ sessions w !! s = Some q ∧ conn_ q = Some c ∧ s ∈ live_sessions_ w) ∧
  (∀ s q, sessions w !! s = Some q → ∃ c, conn_ q = Some c ∧ conns w !! c = Some (Some s)) ∧
  (∀ s, s ∈ live_sessions_ w → is_Some (sessions w !! s)) ∧ NoDup (live_sessions_ w) ∧
  (conns w = ∅ → sessions w = ∅).
Proof.
  intros Hinv%ls_reachable_inv.
  assert (∀ s q, sessions w !! s = Some q → ∃ c, conn_ q = Some c ∧ conns w !! c = Some (Some s)) as Hup.
  2: split_and!; [|exact Hup|apply Hinv|apply Hinv|].
  2: { intros c [ctx Hc]. destruct (wv_conns _ _ _ _ Hinv c ctx Hc) as (s & q & -> & Hs & Hq). exists s, q. split_and!; [done..|].
    apply (so_live _ _ _ _ _ (wv_sessions _ _ _ _ Hinv s q Hs)). by rewrite Hq. }
  2: { intros E. apply map_empty. intros s. destruct (sessions w !! s) as [q|] eqn:Hs; [|done].
    destruct (Hup s q Hs) as (c & _ & Hc). by rewrite E in Hc. }
  - intros s q Hs. destruct (wv_sessions _ _ _ _ Hinv s q Hs) as [K1 K2 K3 K4 K5 K6]. specialize (K3 ltac:(done)).
    destruct (conn_ q) as [c|] eqn:Ec; [exists c; split; [done|by apply K1]|]. exfalso.
    unfold referenced in K3. rewrite (K6 eq_refl), (wv_role _ _ _ _ Hinv eq_refl) in K3.
    destruct (K2 eq_refl) as [E _]. rewrite E in K3. discriminate.
Qed.

Lemma server_sessions_freed_witness : ∃ c, conn_ (Session (Some 1) #"10.0.0.1" (Some OnStream) None (Some EraseLive) false true) = Some c ∧
  conns one_client !! c = Some (Some 5).
Proof. exact (proj1 (proj2 (server_sessions_freed one_client one_client_reachable)) 5 _ eq_refl). Defined.

(** The session is on the heap and its own callback keeps it there. *)
Definition kept (s : nat) (w : world) : Prop := ∃ q, sessions w !! s = Some q ∧ captures_itself q = true.

Lemma kept_collect s s' w : kept s w → kept s (collect s' w).
Proof.
  intros (q & Hs & Hq). unfold collect. destruct (sessions w !! s') as [q'|] eqn:Hs'; [|by exists q].
  destruct (referenced s' q' w) eqn:Hr; [by exists q|]. exists q. split; [|done]. cbn.
  assert (s' ≠ s) as Hne.
  { intros ->. simplify_eq. unfold referenced in Hr. rewrite Hq, orb_true_r in Hr. discriminate. }
  destruct (conn_ q'); cbn; by rewrite lookup_delete_ne.
Qed.

Lemma kept_insert s s' q' w f : kept s w → (s = s' → captures_itself q' = true) →
  sessions f = <[s' := q']> (sessions w) → kept s f.
Proof.
  intros (q & Hs & Hq) Hc E. unfold kept. rewrite E. destruct (decide (s' = s)) as [->|Hne].
  - exists q'. rewrite lookup_insert_eq. auto.
  - exists q. by rewrite lookup_insert_ne.
Qed.

Lemma kept_same s w f : kept s w → sessions f = sessions w → kept s f.
Proof. unfold kept. by intros ? ->. Qed.

Lemma at_stream_sessions t f w w' : at_stream t f w = Some w' → sessions w' = sessions w.
Proof.
  unfold at_stream. destruct (lstreams w !! t) as [[c [o|]]|]; cbn; try (by intros [= <-]).
  destruct (wrappers w !! o); [|done]. cbn. destruct (f _). by intros [= <-].
Qed.

Lemma collect_wrapper_sessions o w : sessions (collect_wrapper o w) = sessions w.
Proof. unfold collect_wrapper. destruct (wrappers w !! o) as [x|]; [|done]. destruct (_ || _); [done|]. by destruct (stream_ _). Qed.

Lemma close_cb_sessions t w w' : close_cb t w = Some w' → sessions w' = sessions w.
Proof.
  unfold close_cb. destruct (lstreams w !! t) as [[c [o|]]|]; cbn [mbind option_bind snd]; try (by intros [= <-]).
  destruct (wrappers w !! o); [|done]. cbn [mbind option_bind]. destruct (on_close _). intros [= <-]. by rewrite collect_wrapper_sessions.
Qed.

Lemma new_stream_sessions c t o w w' : new_stream_cb c (Some t) o w = Some w' → sessions w' = sessions w.
Proof.
  unfold new_stream_cb, on_new_stream. destruct (conns w !! c) as [[s|]|]; cbn; try (by intros [= <-]).
  destruct (sessions w !! s) as [q|]; [|done]. cbn. destruct (new_stream_cb_ q); by intros [= <-].
Qed.

Lemma kept_step s w w' : world_inv ClientRole w → ls_step ClientRole w w' → kept s w → kept s w'.
Proof.
  intros Hinv Hs Hk. destruct Hs as [w w' reg c s' addr ? Hc Hs Hx|w w' reg c s' addr ep pend _ Hc Hs Hx|w w' c t o Hc Ht Ho Hx
    |w w' t hset rd Ht Hx|w w' t wr Ht Hx|w w' t how Ht Hx|w w' t Ht Hx|w w' c Hc Hn Hx|w s' _ Hs|w s' rest Hh|w w' s' cb Hs Hx|w w' s' Hs Hx
    |w w' o op Ho Hop Hx|w o rest Hh]; [done|..].
  - destruct (client_new_conn_eq reg s' c addr ep pend w) as (q & cs & E & _). rewrite E in Hx. injection Hx as <-.
    eapply kept_insert; [done| |done]. intros ->. destruct Hk as (? & ? & _). congruence.
  - eapply kept_same; [done|]. by rewrite (new_stream_sessions _ _ _ _ _ Hx).
  - eapply kept_same; [done|]. by apply at_stream_sessions in Hx.
  - eapply kept_same; [done|]. by apply at_stream_sessions in Hx.
  - eapply kept_same; [done|]. by apply at_stream_sessions in Hx.
  - eapply kept_same; [done|]. exact (close_cb_sessions _ _ _ Hx).
  - destruct Hc as [ctx Hc]. destruct (wv_conns _ _ _ _ Hinv c ctx Hc) as (s' & q & -> & Hs' & Hq).
    destruct (conn_closed_eq c s' q w Hc Hs' Hq) as (w1 & E1 & _ & E2). assert (w1 = w') as -> by congruence. rewrite E2.
    apply kept_collect. eapply kept_insert; [done| |done]. intros <-. destruct Hk as (q0 & Hq0 & Hc0). by simplify_eq.
  - by eapply kept_same.
  - apply kept_collect. by eapply kept_same.
  - unfold async_open_stream, set_new_stream_cb, on_session_at in Hx. destruct (sessions w !! s') as [q|] eqn:Hq; [|done].
    cbn in Hx. rewrite lookup_insert_eq in Hx. cbn in Hx. injection Hx as <-.
    apply (kept_insert s s' (with_new_stream_cb (Some (OpenQuic cb)) q) w); [done|done|by destruct (conn_ q)].
  - unfold close in Hx. destruct (sessions w !! s') as [q|] eqn:Hq; [|done]. cbn in Hx. injection Hx as <-.
    destruct (conn_ q); [|done]. destruct (closed_ q); [done|]. apply (kept_insert s s' (with_closed true q) w); [done| |done].
    intros <-. destruct Hk as (q0 & Hq0 & Hc0). by simplify_eq.
  - eapply kept_same; [done|]. by apply use_stream_eq in Hx as (x & st & outs & _ & _ & _ & ->).
  - eapply kept_same; [done|]. by rewrite collect_wrapper_sessions.
Qed.

(** C39: Upstream connections leak: once the pool has opened a stream on a client
    session, the session stays on the heap for good, also when its connection is
    closed and nobody else keeps a pointer to it, because the callback the pool
    installed in it captures it. *)
Theorem client_sessions_leak s q cb w w' : ls_reachable ClientRole w → sessions w !! s = Some q →
  new_stream_cb_ q = Some (OpenQuic cb) → rtc (ls_step ClientRole) w w' → is_Some (sessions w' !! s).
Proof.
  intros Hinv%ls_reachable_inv Hs Hcb Hr. assert (kept s w) as Hk by (exists q; unfold captures_itself; by rewrite Hcb).
  clear Hs Hcb. induction Hr as [w|w w1 w2 Hst _ IH]; [destruct Hk as (? & -> & _); by eexists|].
  apply IH; [by eapply ls_step_inv|by eapply kept_step].
Qed.

(** A connection to an upstream that came up and was closed again. *)
Definition upstream : BackendEndpoint := Endpoint #"h3" #"10.0.0.2" 443 1 QUIC.
Definition upstream_open : world :=
  World {[1 := Some 5]} ∅
    {[5 := Session (Some 1) #"10.0.0.2" (Some (OpenQuic 3)) (Some upstream) (Some (RemoveQuicConn upstream)) false true]}
    ∅ [] [] [] [MakeStream 1; NewSession 5].

Lemma upstream_open_reachable : ls_reachable ClientRole upstream_open.
Proof.
  eapply rtc_l; [eapply (ls_client_conn _ init_world _ true 1 5 (PeerV4 #"10.0.0.2") upstream (Some (upstream, 3))); [done..|vm_compute; reflexivity]|].
  apply rtc_refl.
Qed.

Lemma client_sessions_leak_witness : ∃ w', rtc (ls_step ClientRole) upstream_open w' ∧ conns w' = ∅ ∧ holders w' = [] ∧
  is_Some (sessions w' !! 5).
Proof.
  destruct (conn_closed_cb 1 upstream_open) as [w1|] eqn:E; [|vm_compute in E; discriminate]. exists (free_conn 1 w1).
  assert (rtc (ls_step ClientRole) upstream_open (free_conn 1 w1)) as Hr.
  { apply rtc_once, ls_conn_closed; [by eexists|by intros t x|exact E]. }
  split; [exact Hr|]. split_and!; [by vm_compute in E; injection E as <-..|].
  exact (client_sessions_leak 5 _ 3 upstream_open (free_conn 1 w1) upstream_open_reachable eq_refl eq_refl Hr).
Defined.
