(* ===== verification/EngineDestroy.v ===== *)
(** * The end of an engine (src/src/transport/quic_transport.cpp, the destructors
    of [QuicServerEngine] and [QuicClientEngine])

    Both destructors call [lsquic_engine_destroy], which ends every stream and
    every connection, with the callbacks for each.  The order is lsquic's: the
    events are an argument, and what is documented of them is that each stream
    and each connection ends once and a connection after its streams
    ([orderly]).  The callbacks the application installed are recorded as calls;
    [destroy_with_owner] says when running them is defined. *)

From S2P Require Import Prelude CppStd Transport Config QuicStream QuicSession.

Inductive ending := EndStream (t : nat) | EndConn (c : nat).

(** [lsquic_engine_destroy]: a use of an object that is gone is [None]. *)
Fixpoint lsquic_engine_destroy (evs : list ending) (w : world) : option world :=
  match evs with
  | [] => Some w
  | EndStream t :: evs' => w1 ← close_cb t w; lsquic_engine_destroy evs' (free_stream t w1)
  | EndConn c :: evs' => w1 ← conn_closed_cb c w; lsquic_engine_destroy evs' (free_conn c w1)
  end.

(** [engine_]: whether lsquic made an engine.  A use of an engine's object that is
    gone is [None]. *)
Definition destroy_engine (engine_ : bool) (evs : list ending) (w : world) : option world :=
  if engine_ then lsquic_engine_destroy evs w else Some w.

Fixpoint orderly (evs : list ending) (streams : gmap nat nat) (conns : gset nat) : Prop :=
  match evs with
  | [] => streams = ∅ ∧ conns = ∅
  | EndStream t :: evs' => is_Some (streams !! t) ∧ orderly evs' (delete t streams) conns
  | EndConn c :: evs' => c ∈ conns ∧ (∀ t, streams !! t ≠ Some c) ∧ orderly evs' streams (conns ∖ {[c]})
  end.

Definition ends (evs : list ending) (w : world) : Prop := orderly evs (fst <$> lstreams w) (dom (conns w)).

(** Calls that leave the engine: the pool's close handler, which locks the pool's
    mutex and edits its table, and the completions of stream operations, which
    run relays.  [EraseLive] is the engine's own. *)
Definition foreign (x : call) : bool :=
  match x with
  | Closed _ (RemoveQuicConn _) => true
  | StreamOut _ (_ :: _) => true
  | _ => false
  end.

(** An engine is destroyed with its owner, after the members its owner declares
    behind it: of the pool, the mutex and the reuse table; of the worker, the
    codecs, the router and the pool.  A call that leaves the engine then uses
    them: [None]. *)
Definition destroy_with_owner (engine_ : bool) (evs : list ending) (w : world) : option world :=
  w' ← destroy_engine engine_ evs w;
  if existsb foreign (take (length (calls w') - length (calls w)) (calls w')) then None else Some w'.

(** The calls that ending everything in [w] makes. *)
Definition ending_call (w : world) (x : call) : Prop :=
  match x with
  | Closed s cb => ∃ q, sessions w !! s = Some q ∧ conn_ q ≠ None ∧ closed_cb_ q = Some cb
  | StreamOut o outs => ∃ t c y, lstreams w !! t = Some (c, Some o) ∧ wrappers w !! o = Some y ∧ outs = snd (on_close (w_state y))
  | _ => False
  end.

(** ** Lemmas *)

(** There is always such an order: the streams, then the connections. *)
Lemma orderly_conns (cs : gset nat) : ∃ evs, orderly evs ∅ cs.
Proof.
  induction cs as [|c cs Hc [evs IH]] using set_ind_L; [by exists []|]. exists (EndConn c :: evs). cbn. split_and!; [set_solver|done|].
  by replace (({[c]} ∪ cs) ∖ {[c]}) with cs by set_solver.
Qed.

Lemma orderly_exists (m : gmap nat nat) cs : ∃ evs, orderly evs m cs.
Proof.
  induction m as [|t c m Ht [evs IH]] using map_ind; [apply orderly_conns|]. exists (EndStream t :: evs). cbn.
  rewrite lookup_insert_eq, delete_insert_id by done. done.
Qed.

Lemma ends_exists w : ∃ evs, ends evs w.
Proof. apply orderly_exists. Qed.

Lemma close_cb_frame t w w' : close_cb t w = Some w' →
  lstreams w' = lstreams w ∧ conns w' = conns w ∧ sessions w' = sessions w ∧
  (∀ o c, lstreams w !! t = Some (c, Some o) → ∃ y, wrappers w !! o = Some y ∧ calls w' = StreamOut o (snd (on_close (w_state y))) :: calls w ∧
     ∀ o', o' ≠ o → wrappers w' !! o' = wrappers w !! o') ∧
  (∀ c, lstreams w !! t = Some (c, None) → w' = w).
Proof.
  unfold close_cb. intros E. destruct (lstreams w !! t) as [[c [o|]]|] eqn:Et; cbn -[on_close] in E; [|by injection E as <-|done].
  destruct (wrappers w !! o) as [x|] eqn:Eo; [|done]. cbn -[on_close] in E. destruct (on_close (w_state x)) as [st outs] eqn:Ec. injection E as <-.
  unfold collect_wrapper. cbn -[on_close]. rewrite lookup_insert_eq. cbn -[on_close].
  destruct (bool_decide _), (stream_ st) eqn:Es; cbn -[on_close]; split_and!; try done; try (by injection Ec as <- _);
    intros o2 c2 [= -> ->]; exists x; rewrite Ec; (split_and!; [done..|]); intros o' Hne; by rewrite ?lookup_delete_ne, lookup_insert_ne.
Qed.

Lemma end_stream rl t w : world_inv rl w → is_Some (lstreams w !! t) →
  ∃ w' new, close_cb t w = Some w' ∧ world_inv rl (free_stream t w') ∧ lstreams (free_stream t w') = delete t (lstreams w) ∧
    conns w' = conns w ∧ sessions w' = sessions w ∧ calls w' = new ++ calls w ∧
    ∀ x, ending_call w x ↔ x ∈ new ∨ ending_call (free_stream t w') x.
Proof.
  intros Hinv Ht. destruct (close_cb_ok rl t w Hinv Ht) as (w' & E & Hi). destruct (close_cb_frame t w w' E) as (E1 & E2 & E3 & E4 & E5).
  destruct Ht as [[c ctx] Ht]. destruct ctx as [o|].
  - destruct (E4 o c Ht) as (y & Hy & Ec & Hw). exists w', [StreamOut o (snd (on_close (w_state y)))]. split_and!; try done; [cbn; by rewrite E1|].
    assert (∀ t' c' o', lstreams w !! t' = Some (c', Some o') → t' ≠ t → o' ≠ o) as Hne.
    { intros t' c' o' Ht' Hne ->. destruct (proj2 (wv_streams _ _ _ _ Hinv t' c' _ Ht') o eq_refl) as (x & Hx & Hh & _).
      destruct (proj2 (wv_streams _ _ _ _ Hinv t c _ Ht) o eq_refl) as (x' & Hx' & Hh' & _). congruence. }
    intros x. rewrite list_elem_of_singleton. destruct x as [| | | | |s cb|o' outs]; cbn -[on_close]; try (split; [done|by intros [?|?]]).
    + rewrite E3. split; [by right|by intros [?|?]].
    + split.
      * intros (t' & c' & z & Ht' & Hz & ->). destruct (decide (t' = t)) as [->|Hn]; [left; congruence|right].
        exists t', c', z. rewrite E1, lookup_delete_ne by done. split_and!; [done| |done]. rewrite Hw; [done|by eapply Hne].
      * intros [[= -> ->]|(t' & c' & z & Ht' & Hz & ->)]; [by exists t, c, y|]. rewrite E1 in Ht'. apply lookup_delete_Some in Ht' as [Hn Ht'].
        exists t', c', z. split_and!; [done| |done]. rewrite <- Hw; [done|]. eapply Hne; [exact Ht'|done].
  - pose proof (E5 c Ht) as ->. exists w, []. split_and!; try done. intros x. rewrite elem_of_nil.
    destruct x as [| | | | |s cb|o' outs]; cbn -[on_close]; try (split; [done|by intros [?|?]]); [split; [by right|by intros [?|?]]|].
    split; [|intros [[]|(t' & c' & z & [_ Ht']%lookup_delete_Some & Hz)]; by exists t', c', z].
    intros (t' & c' & z & Ht' & Hz). right. exists t', c', z. rewrite lookup_delete_ne; [done|]. intros <-. congruence.
Qed.

(** What the end of a connection leaves: the other sessions are untouched, and
    its own was told. *)
Lemma end_conn rl c w : world_inv rl w → is_Some (conns w !! c) → no_streams c w →
  ∃ w' new, conn_closed_cb c w = Some w' ∧ world_inv rl (free_conn c w') ∧ lstreams (free_conn c w') = lstreams w ∧
    conns (free_conn c w') = delete c (conns w) ∧ calls (free_conn c w') = new ++ calls w ∧
    ∀ x, ending_call w x ↔ x ∈ new ∨ ending_call (free_conn c w') x.
Proof.
  intros Hinv [ctx Hc] Hn. destruct (wv_conns _ _ _ _ Hinv c ctx Hc) as (s & q & -> & Hs & Hq).
  destruct (conn_closed_eq c s q w Hc Hs Hq) as (w' & E & _ & Ew). exists w', (notified s q). split; [done|]. rewrite Ew.
  split; [by apply inv_collect, inv_closed|].
  assert (∃ ss, collect s (closed_world c s q w) = World (delete c (conns w)) (lstreams w) ss (wrappers w) (holders w) (stream_holders w)
      (erased s q (live_sessions_ w)) (notified s q ++ calls w) ∧ (∀ s', s' ≠ s → ss !! s' = sessions w !! s') ∧
      (∀ q', ss !! s = Some q' → conn_ q' = None)) as (ss & -> & Hss & Hown).
  { unfold collect. cbn. rewrite lookup_insert_eq. cbn. destruct (referenced _ _ _); (eexists; split; [reflexivity|]); split.
    - intros s' Hne. by rewrite lookup_insert_ne.
    - intros q'. rewrite lookup_insert_eq. by intros [= <-].
    - intros s' Hne. by rewrite lookup_delete_ne, lookup_insert_ne.
    - intros q'. by rewrite lookup_delete_eq. }
  split_and!; try done. intros x. destruct x as [| | | | |s' cb|o' outs]; cbn -[on_close]; try (split; [done|by intros [Hx|?]; [|done]; unfold notified in Hx;
    destruct (closed_cb_ q); [apply list_elem_of_singleton in Hx|apply not_elem_of_nil in Hx]]).
  - split.
    + intros (q' & Hs' & Hq' & Hcb). destruct (decide (s' = s)) as [->|Hne]; [left|right; exists q'; by rewrite Hss].
      assert (q' = q) as -> by congruence. unfold notified. rewrite Hcb. by left.
    + intros [Hx|(q' & Hs' & Hq' & Hcb)].
      * unfold notified in Hx. destruct (closed_cb_ q) as [cb'|] eqn:Ecb; [|by apply not_elem_of_nil in Hx].
        apply list_elem_of_singleton in Hx as [= -> ->]. exists q. split_and!; [done|congruence|done].
      * exists q'. destruct (decide (s' = s)) as [->|Hne]; [by rewrite (Hown q' Hs') in Hq'|]. by rewrite <- Hss.
  - split; [by right|]. intros [Hx|?]; [|done]. exfalso. unfold notified in Hx.
    destruct (closed_cb_ q); [apply list_elem_of_singleton in Hx|apply not_elem_of_nil in Hx]; done.
Qed.

(** Every stream and every connection ends, and these are the calls made. *)
Lemma destroy_ok rl evs : ∀ w, world_inv rl w → ends evs w → ∃ w' new, lsquic_engine_destroy evs w = Some w' ∧ world_inv rl w' ∧
  conns w' = ∅ ∧ lstreams w' = ∅ ∧ calls w' = new ++ calls w ∧ ∀ x, x ∈ new ↔ ending_call w x.
Proof.
  unfold ends. induction evs as [|[t|c] evs IH]; intros w Hinv Ho; cbn [lsquic_engine_destroy orderly] in *.
  - destruct Ho as [E1%fmap_empty_inv E2%dom_empty_inv_L]. exists w, []. split_and!; try done. intros x. rewrite elem_of_nil. split; [done|].
    destruct x as [| | | | |s cb|o outs]; cbn -[on_close]; try done; [|intros (t & c & y & Ht & _); by rewrite E1 in Ht].
    intros (q & Hs & Hq & _). destruct (conn_ q) as [c|] eqn:Ec; [|done]. destruct (so_conn _ _ _ _ _ (wv_sessions _ _ _ _ Hinv s q Hs) c Ec) as [H _].
    by rewrite E2 in H.
  - destruct Ho as [Ht Ho]. rewrite lookup_fmap in Ht. destruct (lstreams w !! t) as [p|] eqn:Et; [|by destruct Ht].
    destruct (end_stream rl t w Hinv) as (w1 & new1 & E & Hi & E1 & E2 & E3 & E4 & E5); [by rewrite Et|]. rewrite E. cbn [mbind option_bind].
    destruct (IH (free_stream t w1) Hi) as (w' & new & F & Fi & F1 & F2 & F3 & F4). { rewrite E1, fmap_delete. cbn. by rewrite E2. }
    exists w', (new ++ new1). split_and!; try done; [cbn in F3; by rewrite F3, E4, app_assoc|]. intros x. rewrite elem_of_app, F4, E5. tauto.
  - destruct Ho as (Hc & Hn & Ho). apply elem_of_dom in Hc.
    destruct (end_conn rl c w Hinv Hc) as (w1 & new1 & E & Hi & E1 & E2 & E3 & E4).
    { intros t x Ht. apply (Hn t). by rewrite lookup_fmap, Ht. }
    rewrite E. cbn [mbind option_bind].
    destruct (IH (free_conn c w1) Hi) as (w' & new & F & Fi & F1 & F2 & F3 & F4). { by rewrite E1, E2, dom_delete_L. }
    exists w', (new ++ new1). split_and!; try done; [by rewrite F3, E3, app_assoc|]. intros x. rewrite elem_of_app, F4, E4. tauto.
Qed.

(** No call leaves the engine when no pool waits for a close and no operation
    is pending on a stream. *)
Definition quiescent (w : world) : Prop :=
  (∀ s q ep, sessions w !! s = Some q → conn_ q ≠ None → closed_cb_ q ≠ Some (RemoveQuicConn ep)) ∧
  (∀ t c o y, lstreams w !! t = Some (c, Some o) → wrappers w !! o = Some y →
     read_cb_ (w_state y) = None ∧ write_queue_ (w_state y) = [] ∧ shutdown_cb_ (w_state y) = None).

Lemma quiescent_calls w : quiescent w ↔ ∀ x, ending_call w x → foreign x = false.
Proof.
  assert (∀ st, snd (on_close st) = [] ↔ read_cb_ st = None ∧ write_queue_ st = [] ∧ shutdown_cb_ st = None) as Hout.
  { intros st. cbn. destruct (read_cb_ st) as [[cap cb]|], (write_queue_ st), (shutdown_cb_ st); cbn; naive_solver. }
  split.
  - intros [H1 H2] [| | | | |s cb|o outs]; cbn -[on_close]; try done.
    + intros (q & Hs & Hq & Hcb). destruct cb as [|ep]; [done|]. by destruct (H1 s q ep Hs Hq).
    + intros (t & c & y & Ht & Hy & ->). by rewrite (proj2 (Hout _) (H2 t c o y Ht Hy)).
  - intros H. split.
    + intros s q ep Hs Hq Hcb. specialize (H (Closed s (RemoveQuicConn ep)) ltac:(by exists q)). done.
    + intros t c o y Ht Hy. apply Hout. specialize (H (StreamOut o (snd (on_close (w_state y)))) ltac:(by exists t, c, y)).
      cbn [foreign] in H. by destruct (snd (on_close (w_state y))).
Qed.

Lemma destroy_with_owner_ok evs w w' new : destroy_engine true evs w = Some w' → calls w' = new ++ calls w →
  (∀ x, x ∈ new ↔ ending_call w x) → quiescent w ↔ destroy_with_owner true evs w = Some w'.
Proof.
  intros E Ec Hnew. unfold destroy_with_owner. rewrite E. cbn [mbind option_bind].
  replace (take (length (calls w') - length (calls w)) (calls w')) with new.
  2:{ rewrite Ec, length_app, Nat.add_sub. by rewrite take_app_length. }
  rewrite quiescent_calls. destruct (existsb foreign new) eqn:Ex.
  - split; [|done]. intros H. apply existsb_exists in Ex as (x & Hx & Hf). apply list_elem_of_In in Hx. by rewrite (H x (proj1 (Hnew x) Hx)) in Hf.
  - split; [done|]. intros _ x Hx. destruct (foreign x) eqn:Hf; [|done]. rewrite <- Ex. symmetry. apply existsb_exists.
    exists x. split; [by apply list_elem_of_In, Hnew|done].
Qed.

(** A session without its connection is closed; the server engine keeps none. *)
Lemma unconnected rl w : world_inv rl w → conns w = ∅ → ∀ s q, sessions w !! s = Some q → conn_ q = None.
Proof.
  intros Hi E s q Hs. destruct (conn_ q) as [c|] eqn:Ec; [|done].
  destruct (so_conn _ _ _ _ _ (wv_sessions _ _ _ _ Hi s q Hs) c Ec) as [H _]. by rewrite E in H.
Qed.

Lemma server_left_empty w : world_inv ServerRole w → conns w = ∅ → sessions w = ∅ ∧ live_sessions_ w = [].
Proof.
  intros Hi E. assert (sessions w = ∅) as Hs.
  { apply map_empty. intros s. destruct (sessions w !! s) as [q|] eqn:Hs; [|done]. exfalso.
    destruct (wv_sessions _ _ _ _ Hi s q Hs) as [_ K2 K3 _ _ K6]. specialize (K3 ltac:(done)). unfold referenced in K3.
    rewrite (K6 eq_refl), (wv_role _ _ _ _ Hi eq_refl), (proj1 (K2 (unconnected _ _ Hi E s q Hs))) in K3. discriminate. }
  split; [done|]. destruct (live_sessions_ w) as [|s l] eqn:El; [done|]. exfalso.
  destruct (proj1 (wv_live _ _ _ _ Hi) s) as [q Hq]; [rewrite El; by left|]. by rewrite Hs in Hq.
Qed.


