(* ===== verification/QuicEngine.v ===== *)
(** * The QUIC engines (src/src/transport/quic_transport.{h,cpp},
    [QuicServerEngine], [QuicClientEngine], the TLS contexts)

    Each worker has one server engine, fed by the demultiplexer, and at most one
    client engine with sockets of its own.  Both drive lsquic from packets and
    from a tick timer.  What lsquic does while it is driven is a sequence of the
    steps of [QuicSession]; an operation takes the world lsquic leaves behind as
    an argument, and the step relations say that it is one lsquic can reach. *)

From S2P Require Import Prelude CppStd Transport Config QuicStream QuicDemux QuicSession.

(** ** The tick timer

    [waiting] is the pending wait with its delay in milliseconds; [expired] and
    [aborted] count the completions on their way to [on_tick] with success and
    with [operation_aborted].  Setting a new expiry aborts a pending wait. *)

Record tick_timer := Timer {
  waiting : option Z;
  expired : nat;
  aborted : nat;
}.

Definition new_timer : tick_timer := Timer None 0 0.

(** [expires_after] and [async_wait]. *)
Definition arm (delay : Z) (t : tick_timer) : tick_timer :=
  Timer (Some delay) (expired t) (match waiting t with Some _ => S (aborted t) | None => aborted t end).

(** What [lsquic_engine_earliest_adv_tick] reports: its result and [diff]. *)
Record advice := Advice { adv_next : bool; adv_diff : Z }.

Definition tick_again (a : advice) (t : tick_timer) : tick_timer := arm (schedule_tick (adv_next a) (adv_diff a)) t.

Definition on_tick (ec : option error_code) (a : advice) (t : tick_timer) : tick_timer :=
  match ec with Some _ => t | None => tick_again a t end.

(** The timer of an engine that is driven by packets and by its own ticks. *)
Inductive timer_step : tick_timer → tick_timer → Prop :=
  | timer_driven t a : timer_step t (tick_again a t)
  | timer_expires t d : waiting t = Some d → timer_step t (Timer None (S (expired t)) (aborted t))
  | timer_tick t n a : expired t = S n → timer_step t (on_tick None a (Timer (waiting t) n (aborted t)))
  | timer_abort t n a : aborted t = S n → timer_step t (on_tick (Some operation_aborted) a (Timer (waiting t) (expired t) n)).

Definition ticking (t : tick_timer) : Prop :=
  match waiting t with Some d => (0 ≤ d ≤ 500)%Z | None => expired t ≠ 0 end.

Lemma schedule_tick_range next diff : (0 ≤ schedule_tick next diff ≤ 500)%Z.
Proof.
  unfold schedule_tick. destruct (Z.ltb_spec diff 0); [lia|]. destruct (negb next); cbn; [lia|].
  destruct (Z.ltb_spec 500 diff); lia.
Qed.

Lemma ticking_again a t : ticking (tick_again a t).
Proof. apply schedule_tick_range. Qed.

Lemma timer_step_ticking t t' : timer_step t t' → ticking t → ticking t'.
Proof. intros [t0 a|t0 d Hd|t0 n a Hn|t0 n a Hn] H; [apply schedule_tick_range|done|apply schedule_tick_range|exact H]. Qed.

(** ** The server engine *)

Module Server.
Record engine := Srv {
  srv_scids : QuicServerEngine;        (** [worker_idx_] *)
  srv_timer : tick_timer;
  srv_world : world;                   (** with [live_sessions_] *)
  srv_session_cb : bool;               (** whether [new_session_cb_] is set *)
  srv_ssl_ctx : option nat;
}.

(** The members of [lsquic_engine_settings] the constructor assigns, over the
    defaults lsquic fills in. *)
Record settings := Settings {
  es_scid_len : nat;
  es_init_max_streams_bidi : Z;
  es_max_streams_in : Z;
}.

Definition engine_settings (defaults : settings) (max_streams_in : Z) : settings :=
  if (0 <? max_streams_in)%Z then Settings kServerCidLen max_streams_in max_streams_in
  else Settings kServerCidLen (es_init_max_streams_bidi defaults) (es_max_streams_in defaults).

(** [created]: whether [lsquic_engine_new] returned an engine; the constructor
    throws otherwise. *)
Definition new_engine (created : bool) (ssl_ctx : option nat) : option engine :=
  if created then Some (Srv (Engine (-1)) new_timer init_world false ssl_ctx) else None.

Definition with_timer (t : tick_timer) (e : engine) : engine :=
  Srv (srv_scids e) t (srv_world e) (srv_session_cb e) (srv_ssl_ctx e).
Definition with_world (w : world) (e : engine) : engine :=
  Srv (srv_scids e) (srv_timer e) w (srv_session_cb e) (srv_ssl_ctx e).

Definition set_new_session_cb (e : engine) : engine := Srv (srv_scids e) (srv_timer e) (srv_world e) true (srv_ssl_ctx e).
Definition set_worker_idx (idx : Z) (e : engine) : engine :=
  Srv (Engine idx) (srv_timer e) (srv_world e) (srv_session_cb e) (srv_ssl_ctx e).

Definition start (a : advice) (e : engine) : engine := with_timer (tick_again a (srv_timer e)) e.

(** [w]: the world after [lsquic_engine_packet_in] and [lsquic_engine_process_conns]. *)
Definition deliver_packet (w : world) (a : advice) (e : engine) : engine :=
  with_timer (tick_again a (srv_timer e)) (with_world w e).

Definition tick (ec : option error_code) (w : world) (a : advice) (e : engine) : engine :=
  match ec with
  | Some _ => with_timer (on_tick ec a (srv_timer e)) e
  | None => with_timer (on_tick None a (srv_timer e)) (with_world w e)
  end.

(** [w]: the world after [lsquic_engine_send_unsent_packets]. *)
Definition flush_unsent_packets (w : world) (e : engine) : engine := with_world w e.

(** [weak_ptr::lock]. *)
Definition lock (s : nat) (w : world) : option QuicTransportSession := sessions w !! s.

(** The loop over [live_sessions_]: the connections of the sessions that still
    exist ([None] is a null pointer), and the set without the others. *)
Fixpoint collect_conns (w : world) (live : list nat) : list (option nat) * list nat :=
  match live with
  | [] => ([], [])
  | s :: live' =>
      let '(cs, kept) := collect_conns w live' in
      match lock s w with
      | Some q => (conn_ q :: cs, s :: kept)
      | None => (cs, kept)
      end
  end.

(** A call of lsquic on each connection; on a null pointer it is undefined. *)
Fixpoint call_each (f : nat → call) (cs : list (option nat)) (w : world) : option world :=
  match cs with
  | [] => Some w
  | Some c :: cs' => call_each f cs' (QuicSession.out (f c) w)
  | None :: _ => None
  end.

(** The part of [graceful_shutdown] and [force_close_all] before
    [lsquic_engine_process_conns]. *)
Definition graceful_shutdown (e : engine) : option engine :=
  let w := srv_world e in
  let '(goaway, live) := collect_conns w (live_sessions_ w) in
  w' ← call_each GoingAway goaway (set_live live w); Some (with_world w' e).

Definition force_close_all (e : engine) : option engine :=
  let w := srv_world e in
  let '(to_close, live) := collect_conns w (live_sessions_ w) in
  w' ← call_each ConnClose to_close (set_live live w); Some (with_world w' e).

(** Both hand out the engine's context. *)
Definition lookup_cert_cb (e : engine) : option nat := srv_ssl_ctx e.
Definition get_ssl_ctx_cb (peer_ctx : engine) : option nat := srv_ssl_ctx peer_ctx.

(** [send_specs] on the demultiplexer's descriptors; a blocked send asks it to
    watch for writability. *)
Definition on_packets_out_cb (v4_fd v6_fd : Z) (specs : list out_spec) (d : QuicPacketDemux) : nat * QuicPacketDemux :=
  let '(sent, blocked) := send_specs v4_fd v6_fd specs in
  (sent, if blocked then arm_send_retry d else d).

Abbreviation lsquic_ran := (rtc (ls_step ServerRole)).

Inductive step : engine → engine → Prop :=
  | step_packet e w a : lsquic_ran (srv_world e) w → step e (deliver_packet w a e)
  | step_flush e w : lsquic_ran (srv_world e) w → step e (flush_unsent_packets w e)
  | step_expires e d : waiting (srv_timer e) = Some d →
      step e (with_timer (Timer None (S (expired (srv_timer e))) (aborted (srv_timer e))) e)
  | step_tick e n w a : expired (srv_timer e) = S n → lsquic_ran (srv_world e) w →
      step e (tick None w a (with_timer (Timer (waiting (srv_timer e)) n (aborted (srv_timer e))) e))
  | step_abort e n w a : aborted (srv_timer e) = S n →
      step e (tick (Some operation_aborted) w a (with_timer (Timer (waiting (srv_timer e)) (expired (srv_timer e)) n) e))
  | step_goaway e e' w : graceful_shutdown e = Some e' → lsquic_ran (srv_world e') w → step e (with_world w e')
  | step_force e e' w : force_close_all e = Some e' → lsquic_ran (srv_world e') w → step e (with_world w e').

(** An engine that was created, given its callback and its index, and started. *)
Definition started (idx : Z) (ssl_ctx : option nat) (a : advice) (e : engine) : Prop :=
  ∃ e0, new_engine true ssl_ctx = Some e0 ∧ e = start a (set_worker_idx idx (set_new_session_cb e0)).

Definition reachable (idx : Z) (ssl_ctx : option nat) (e : engine) : Prop :=
  ∃ a e0, started idx ssl_ctx a e0 ∧ rtc step e0 e.

(** ** Lemmas *)

Definition engine_inv (e : engine) : Prop := ticking (srv_timer e) ∧ world_inv ServerRole (srv_world e).

Lemma lsquic_ran_inv rl w w' : rtc (ls_step rl) w w' → world_inv rl w → world_inv rl w'.
Proof. induction 1; eauto using ls_step_inv. Qed.

Lemma collect_conns_ok w : world_inv ServerRole w → ∀ live, (∀ s, s ∈ live → s ∈ live_sessions_ w) →
  ∃ cs, collect_conns w live = (map Some cs, live) ∧
    Forall2 (λ s c, conns w !! c = Some (Some s)) live cs.
Proof.
  intros Hinv live. induction live as [|s live IH]; intros Hl; [by exists []|].
  destruct IH as (cs & E & HF). { intros x Hx. apply Hl. by right. }
  destruct (proj1 (wv_live _ _ _ _ Hinv) s (Hl s ltac:(by left))) as [q Hq].
  destruct (wv_sessions _ _ _ _ Hinv s q Hq) as [K1 _ _ K4 _ _].
  destruct (proj1 K4 (Hl s ltac:(by left))) as [_ Hc]. destruct (conn_ q) as [c|] eqn:Ec; [|done].
  exists (c :: cs). cbn. rewrite E. unfold lock. rewrite Hq, Ec. split; [done|]. constructor; [by apply K1|done].
Qed.

(** The contexts are the sessions: one entry of the live set per connection. *)
Lemma live_conns w cs : world_inv ServerRole w → Forall2 (λ s c, conns w !! c = Some (Some s)) (live_sessions_ w) cs →
  cs ≡ₚ map fst (map_to_list (conns w)).
Proof.
  intros Hinv HF. apply list.NoDup_Permutation.
  - pose proof (proj2 (wv_live _ _ _ _ Hinv)) as Hn. clear Hinv. revert Hn. induction HF as [|s c live cs Hc HF IH]; intros Hn; [constructor|].
    apply list.NoDup_cons in Hn as [Hs Hn]. apply list.NoDup_cons. split; [|by apply IH]. intros Hin.
    apply list_elem_of_lookup in Hin as [i Hi]. destruct (Forall2_lookup_r _ _ _ _ _ HF Hi) as (s' & Hs' & Hc').
    assert (s' = s) as -> by congruence. apply Hs. by eapply list_elem_of_lookup_2.
  - apply NoDup_fst_map_to_list.
  - intros c. rewrite list_elem_of_fmap. split.
    + intros [i Hi]%list_elem_of_lookup. destruct (Forall2_lookup_r _ _ _ _ _ HF Hi) as (s & _ & Hc).
      exists (c, Some s). split; [done|]. by apply elem_of_map_to_list.
    + intros ([c' ctx] & -> & Hin%elem_of_map_to_list). cbn. destruct (wv_conns _ _ _ _ Hinv c' ctx Hin) as (s & q & -> & Hs & Hq).
      assert (s ∈ live_sessions_ w) as Hl.
      { apply (so_live _ _ _ _ _ (wv_sessions _ _ _ _ Hinv s q Hs)). by rewrite Hq. }
      apply list_elem_of_lookup in Hl as [i Hi]. destruct (Forall2_lookup_l _ _ _ _ _ HF Hi) as (c & Hc & Hcs).
      destruct (wv_conns _ _ _ _ Hinv c _ Hcs) as (s1 & q1 & [= <-] & Hs1 & Hq1). simplify_eq. by eapply list_elem_of_lookup_2.
Qed.

Lemma call_each_ok rl f cs w : world_inv rl w → ∃ w', call_each f (map Some cs) w = Some w' ∧ world_inv rl w' ∧
  calls w' = rev (map f cs) ++ calls w ∧ conns w' = conns w.
Proof.
  revert w. induction cs as [|c cs IH]; intros w Hinv; [by exists w|]. cbn.
  destruct (IH (QuicSession.out (f c) w)) as (w' & E & Hi & Hc & Hcs); [by apply inv_out|]. exists w'. split_and!; [done..| |done].
  rewrite Hc. cbn. by rewrite <- app_assoc.
Qed.

Lemma shutdown_ok f e : engine_inv e →
  ∃ w' cs, (let w := srv_world e in let '(x, live) := collect_conns w (live_sessions_ w) in
    w' ← call_each f x (set_live live w); Some (with_world w' e)) = Some (with_world w' e) ∧
    world_inv ServerRole w' ∧ calls w' = rev (map f cs) ++ calls (srv_world e) ∧
    cs ≡ₚ map fst (map_to_list (conns (srv_world e))) ∧ conns w' = conns (srv_world e).
Proof.
  intros [Ht Hinv]. destruct (collect_conns_ok _ Hinv (live_sessions_ (srv_world e))) as (cs & E & HF); [done|].
  cbn zeta. rewrite E. assert (set_live (live_sessions_ (srv_world e)) (srv_world e) = srv_world e) as -> by (by destruct (srv_world e)).
  destruct (call_each_ok ServerRole f cs (srv_world e) Hinv) as (w' & Ew & Hi & Hc & Hcs). exists w', cs. rewrite Ew. cbn.
  split_and!; [done..| |done]. by apply live_conns.
Qed.

Lemma server_engine_step e e' : step e e' → engine_inv e → engine_inv e'.
Proof.
  intros Hs Hinv. pose proof Hinv as [Ht Hw]. destruct Hs as [e w a Hr|e w Hr|e d Hd|e n w a Hn Hr|e n w a Hn|e e' w He Hr|e e' w He Hr].
  - split; [apply schedule_tick_range|by eapply lsquic_ran_inv].
  - split; [exact Ht|by eapply lsquic_ran_inv].
  - split; [|done]. by eapply (timer_step_ticking (srv_timer e)), Ht; eapply timer_expires.
  - split; [apply schedule_tick_range|by eapply lsquic_ran_inv].
  - split; [exact Ht|exact Hw].
  - destruct (shutdown_ok GoingAway e Hinv) as (w' & cs & E & Hi & _). unfold graceful_shutdown in He.
    cbn zeta in E. rewrite E in He. injection He as <-. split; [exact Ht|by eapply lsquic_ran_inv].
  - destruct (shutdown_ok ConnClose e Hinv) as (w' & cs & E & Hi & _). unfold force_close_all in He.
    cbn zeta in E. rewrite E in He. injection He as <-. split; [exact Ht|by eapply lsquic_ran_inv].
Qed.

Lemma server_engine_inv idx ssl_ctx e : reachable idx ssl_ctx e → engine_inv e.
Proof.
  intros (a & e0 & (e1 & [= <-] & ->) & Hr). assert (engine_inv (start a (set_worker_idx idx (set_new_session_cb
    (Srv (Engine (-1)) new_timer init_world false ssl_ctx))))) as Hi.
  { split; [apply schedule_tick_range|]. apply ls_reachable_inv, rtc_refl. }
  revert Hi. induction Hr as [|e0 e1 e2 Hs _ IH]; [done|]. intros Hi. apply IH. by eapply server_engine_step.
Qed.
End Server.

(** ** Properties of the server engine *)

(** A server engine is never left without a tick: once started, whatever the
    order of packets, expiries, aborted waits and shutdowns, a wait of at most
    half a second is pending or an expiry is on its way to [on_tick]. *)
Theorem server_tick_bounds idx ssl_ctx e : Server.reachable idx ssl_ctx e →
  match waiting (Server.srv_timer e) with
  | Some d => (0 ≤ d ≤ 500)%Z
  | None => expired (Server.srv_timer e) ≠ 0
  end.
Proof. intros Hr. exact (proj1 (Server.server_engine_inv _ _ _ Hr)). Qed.

(** On shutdown every live client connection is told to go away, and later
    closed: the calls go to exactly lsquic's live connections, each once, and
    never to a null one. *)
Theorem quic_shutdown_exact idx ssl_ctx e : Server.reachable idx ssl_ctx e →
  (∃ e' cs, Server.graceful_shutdown e = Some e' ∧ cs ≡ₚ map fst (map_to_list (conns (Server.srv_world e))) ∧
    calls (Server.srv_world e') = rev (map GoingAway cs) ++ calls (Server.srv_world e)) ∧
  (∃ e' cs, Server.force_close_all e = Some e' ∧ cs ≡ₚ map fst (map_to_list (conns (Server.srv_world e))) ∧
    calls (Server.srv_world e') = rev (map ConnClose cs) ++ calls (Server.srv_world e)).
Proof.
  intros Hr%Server.server_engine_inv. split.
  - destruct (Server.shutdown_ok GoingAway e Hr) as (w' & cs & E & _ & Hc & Hcs & _). by exists (Server.with_world w' e), cs.
  - destruct (Server.shutdown_ok ConnClose e Hr) as (w' & cs & E & _ & Hc & Hcs & _). by exists (Server.with_world w' e), cs.
Qed.

(** An engine with the client of [one_client]. *)
Definition serving_one : Server.engine :=
  Server.deliver_packet one_client (Advice true 20) (Server.start (Advice false 0)
    (Server.set_worker_idx 0 (Server.set_new_session_cb (Server.Srv (Engine (-1)) new_timer init_world false (Some 3))))).

Lemma serving_engine : Server.reachable 0 (Some 3) serving_one.
Proof.
  exists (Advice false 0), (Server.start (Advice false 0) (Server.set_worker_idx 0 (Server.set_new_session_cb
    (Server.Srv (Engine (-1)) new_timer init_world false (Some 3))))). split; [by eexists|].
  apply rtc_once, Server.step_packet. exact one_client_reachable.
Qed.

Lemma server_tick_bounds_witness : waiting (Server.srv_timer serving_one) = Some 20%Z ∧ (0 ≤ 20 ≤ 500)%Z.
Proof. split; [reflexivity|]. exact (server_tick_bounds 0 (Some 3) serving_one serving_engine). Defined.

Lemma quic_shutdown_exact_witness : ∃ e', Server.graceful_shutdown serving_one = Some e' ∧
  calls (Server.srv_world e') = GoingAway 1 :: calls (Server.srv_world serving_one).
Proof.
  destruct (quic_shutdown_exact 0 (Some 3) serving_one serving_engine) as [(e' & cs & E & Hp & Hc) _]. exists e'. split; [exact E|].
  assert (cs = [1]) as -> by (vm_compute in Hp; by apply Permutation_singleton_r in Hp). exact Hc.
Defined.

(** ** The client engine *)

Module Client.
(** [recvs], [recvs6]: pending receives on the two sockets; [watches],
    [watches6]: pending waits for writability.  [current_connect_ep_] is [None]
    when empty or moved from; [cli_session_cb] is whether [new_session_cb_] is
    set.  The IPv4 socket is opened by the constructor and stays open. *)
Record engine := Cli {
  started_ : bool;
  raw_fd_ : Z;
  socket6_is_open : bool;
  raw6_fd_ : Z;
  recvs : nat;
  recvs6 : nat;
  send_retry_armed : bool;
  send_retry6_armed : bool;
  watches : nat;
  watches6 : nat;
  current_connect_ep_ : option BackendEndpoint;
  cli_timer : tick_timer;
  cli_world : world;
  cli_session_cb : bool;
  cli_ssl_ctx : option nat;
}.

(** [created]: whether [lsquic_engine_new] returned an engine. *)
Definition new_engine (created : bool) (fd : Z) (ssl_ctx : option nat) : option engine :=
  if created then Some (Cli false fd false (-1) 0 0 false false 0 0 None new_timer init_world false ssl_ctx) else None.

Definition with_timer (t : tick_timer) (e : engine) : engine :=
  Cli (started_ e) (raw_fd_ e) (socket6_is_open e) (raw6_fd_ e) (recvs e) (recvs6 e) (send_retry_armed e) (send_retry6_armed e)
    (watches e) (watches6 e) (current_connect_ep_ e) t (cli_world e) (cli_session_cb e) (cli_ssl_ctx e).
Definition with_world (w : world) (e : engine) : engine :=
  Cli (started_ e) (raw_fd_ e) (socket6_is_open e) (raw6_fd_ e) (recvs e) (recvs6 e) (send_retry_armed e) (send_retry6_armed e)
    (watches e) (watches6 e) (current_connect_ep_ e) (cli_timer e) w (cli_session_cb e) (cli_ssl_ctx e).
Definition with_started (e : engine) : engine :=
  Cli true (raw_fd_ e) (socket6_is_open e) (raw6_fd_ e) (recvs e) (recvs6 e) (send_retry_armed e) (send_retry6_armed e)
    (watches e) (watches6 e) (current_connect_ep_ e) (cli_timer e) (cli_world e) (cli_session_cb e) (cli_ssl_ctx e).
Definition with_recvs (n n6 : nat) (e : engine) : engine :=
  Cli (started_ e) (raw_fd_ e) (socket6_is_open e) (raw6_fd_ e) n n6 (send_retry_armed e) (send_retry6_armed e)
    (watches e) (watches6 e) (current_connect_ep_ e) (cli_timer e) (cli_world e) (cli_session_cb e) (cli_ssl_ctx e).
Definition with_socket6 (b : bool) (fd : Z) (e : engine) : engine :=
  Cli (started_ e) (raw_fd_ e) b fd (recvs e) (recvs6 e) (send_retry_armed e) (send_retry6_armed e)
    (watches e) (watches6 e) (current_connect_ep_ e) (cli_timer e) (cli_world e) (cli_session_cb e) (cli_ssl_ctx e).
Definition with_connect_ep (x : option BackendEndpoint) (e : engine) : engine :=
  Cli (started_ e) (raw_fd_ e) (socket6_is_open e) (raw6_fd_ e) (recvs e) (recvs6 e) (send_retry_armed e) (send_retry6_armed e)
    (watches e) (watches6 e) x (cli_timer e) (cli_world e) (cli_session_cb e) (cli_ssl_ctx e).
Definition with_watch (v6 armed : bool) (n : nat) (e : engine) : engine :=
  if v6 then
    Cli (started_ e) (raw_fd_ e) (socket6_is_open e) (raw6_fd_ e) (recvs e) (recvs6 e) (send_retry_armed e) armed
      (watches e) n (current_connect_ep_ e) (cli_timer e) (cli_world e) (cli_session_cb e) (cli_ssl_ctx e)
  else
    Cli (started_ e) (raw_fd_ e) (socket6_is_open e) (raw6_fd_ e) (recvs e) (recvs6 e) armed (send_retry6_armed e)
      n (watches6 e) (current_connect_ep_ e) (cli_timer e) (cli_world e) (cli_session_cb e) (cli_ssl_ctx e).

Definition set_new_session_cb (e : engine) : engine :=
  Cli (started_ e) (raw_fd_ e) (socket6_is_open e) (raw6_fd_ e) (recvs e) (recvs6 e) (send_retry_armed e) (send_retry6_armed e)
    (watches e) (watches6 e) (current_connect_ep_ e) (cli_timer e) (cli_world e) true (cli_ssl_ctx e).

Definition do_recv (e : engine) : engine := with_recvs (S (recvs e)) (recvs6 e) e.
Definition do_recv6 (e : engine) : engine := with_recvs (recvs e) (S (recvs6 e)) e.

Definition schedule_tick (a : advice) (e : engine) : engine := with_timer (tick_again a (cli_timer e)) e.

Definition start (a : advice) (e : engine) : engine := schedule_tick a (do_recv e).

(** [ok]: whether the socket was opened and bound; [fd]: its descriptor. *)
Definition ensure_v6_socket (ok : bool) (fd : Z) (e : engine) : bool * engine :=
  if socket6_is_open e then (true, e)
  else if ok then (true, do_recv6 (with_socket6 true fd e))
  else (false, with_socket6 false (-1) e).

(** [on_new_conn_cb] for a session at [s] on [conn]. *)
Definition on_new_conn_cb (s conn : nat) (addr : peer_addr) (pend : option (BackendEndpoint * nat)) (e : engine) : option engine :=
  let ep := default (Endpoint [] [] 0 1 TCP) (current_connect_ep_ e) in
  w ← client_new_conn_cb (cli_session_cb e) s conn addr ep pend (accept_conn conn (cli_world e));
  Some (with_connect_ep None (with_world w e)).

(** What [lsquic_engine_connect] does: refuse, or make a connection and call
    [on_new_conn_cb] for it before it returns. *)
Inductive connect_outcome := Refused | Connected (conn s : nat) (addr : peer_addr).

(** [connect] up to the return of [lsquic_engine_connect].  [resolved]: the
    family of the first address, if any ([true] for IPv6). *)
Definition connect_attempt (ep : BackendEndpoint) (pend : option (BackendEndpoint * nat)) (resolved : option bool)
    (v6_ok : bool) (fd6 : Z) (o : connect_outcome) (a : advice) (e : engine) : option (bool * engine) :=
  let e1 := if started_ e then e else with_started (start a e) in
  match resolved with
  | None => Some (false, e1)
  | Some is_v6 =>
      let '(ok, e2) := if is_v6 then ensure_v6_socket v6_ok fd6 e1 else (true, e1) in
      if ok then
        let e3 := with_connect_ep (Some ep) e2 in
        match o with
        | Refused => Some (false, with_connect_ep None e3)
        | Connected conn s addr => e4 ← on_new_conn_cb s conn addr pend e3; Some (true, e4)
        end
      else Some (false, e2)
  end.

(** The rest: [lsquic_engine_process_conns], which leaves the world [w], and the
    tick. *)
Definition connect_rest (w : world) (a : advice) (e : engine) : engine := schedule_tick a (with_world w e).

(** A receive completed; [w]: the world lsquic leaves. *)
Definition on_packet (ec : option error_code) (is_v6 : bool) (w : world) (a : advice) (e : engine) : engine :=
  let e1 := if is_v6 then with_recvs (recvs e) (pred (recvs6 e)) e else with_recvs (pred (recvs e)) (recvs6 e) e in
  match ec with
  | Some err =>
      if decide (err = operation_aborted) then e1
      else if is_v6 then (if socket6_is_open e then do_recv6 e1 else e1) else do_recv e1
  | None =>
      let e2 := schedule_tick a (with_world w e1) in
      if is_v6 then do_recv6 e2 else do_recv e2
  end.

Definition on_tick (ec : option error_code) (w : world) (a : advice) (e : engine) : engine :=
  match ec with Some _ => e | None => schedule_tick a (with_world w e) end.

Definition arm_write_watch (v6 : bool) (e : engine) : engine :=
  let armed := if v6 then send_retry6_armed e else send_retry_armed e in
  let is_open := if v6 then socket6_is_open e else true in
  if armed || negb is_open then e
  else with_watch v6 true (S (if v6 then watches6 e else watches e)) e.

Definition arm_send_retry (e : engine) : engine :=
  let e1 := arm_write_watch false e in
  if socket6_is_open e1 then arm_write_watch true e1 else e1.

(** The completion of a wait; [unsent]: whether lsquic still has packets after
    it was asked to send them, leaving the world [w]. *)
Definition on_writable (v6 : bool) (ec : option error_code) (unsent : bool) (w : world) (e : engine) : engine :=
  let e1 := with_watch v6 false (pred (if v6 then watches6 e else watches e)) e in
  match ec with
  | Some _ => e1
  | None => let e2 := with_world w e1 in if unsent then arm_send_retry e2 else e2
  end.

Definition on_packets_out_cb (specs : list out_spec) (e : engine) : nat * engine :=
  let '(sent, blocked) := send_specs (raw_fd_ e) (raw6_fd_ e) specs in
  (sent, if blocked then arm_send_retry e else e).

Definition get_ssl_ctx_cb (peer_ctx : engine) : option nat := cli_ssl_ctx peer_ctx.

Abbreviation lsquic_ran := (rtc (ls_step ClientRole)).

(** The pool registers its handler when it makes the engine.  Nothing cancels the sockets or the timer but the destructor. *)
Inductive step : engine → engine → Prop :=
  | step_connect e e' ep pend resolved v6_ok fd6 o a w b (ok : bool) : (0 ≤ fd6)%Z →
      (∀ c s addr, o = Connected c s addr → conns (cli_world e) !! c = None ∧ sessions (cli_world e) !! s = None) →
      connect_attempt ep pend resolved v6_ok fd6 o a e = Some (ok, e') → lsquic_ran (cli_world e') w →
      step e (if ok then connect_rest w b e' else e')
  | step_packet e (is_v6 : bool) ec w a : (if is_v6 then recvs6 e else recvs e) ≠ 0 → ec ≠ Some operation_aborted →
      lsquic_ran (cli_world e) w → step e (on_packet ec is_v6 w a e)
  | step_expires e d : waiting (cli_timer e) = Some d →
      step e (with_timer (Timer None (S (expired (cli_timer e))) (aborted (cli_timer e))) e)
  | step_tick e n w a : expired (cli_timer e) = S n → lsquic_ran (cli_world e) w →
      step e (on_tick None w a (with_timer (Timer (waiting (cli_timer e)) n (aborted (cli_timer e))) e))
  | step_abort e n w a : aborted (cli_timer e) = S n →
      step e (on_tick (Some operation_aborted) w a (with_timer (Timer (waiting (cli_timer e)) (expired (cli_timer e)) n) e))
  | step_out e specs : step e (snd (on_packets_out_cb specs e))
  | step_writable e (v6 : bool) ec unsent w : (if v6 then watches6 e else watches e) ≠ 0 → lsquic_ran (cli_world e) w →
      step e (on_writable v6 ec unsent w e)
  | step_pool e w : lsquic_ran (cli_world e) w → step e (with_world w e).

Definition reachable (fd : Z) (ssl_ctx : option nat) (e : engine) : Prop :=
  ∃ e0, new_engine true fd ssl_ctx = Some e0 ∧ rtc step (set_new_session_cb e0) e.

(** ** Lemmas *)

Record client_inv (e : engine) : Prop := {
  cv_recv : recvs e = Nat.b2n (started_ e);
  cv_recv6 : recvs6 e = Nat.b2n (socket6_is_open e);
  cv_fd6 : (0 ≤ raw6_fd_ e)%Z ↔ socket6_is_open e = true;
  cv_watch : watches e = Nat.b2n (send_retry_armed e);
  cv_watch6 : watches6 e = Nat.b2n (send_retry6_armed e);
  cv_tick : started_ e = true → ticking (cli_timer e);
  cv_world : world_inv ClientRole (cli_world e);
  cv_ep : current_connect_ep_ e = None;
  cv_cb : cli_session_cb e = true;
}.

Lemma inv_world e w : client_inv e → world_inv ClientRole w → client_inv (with_world w e).
Proof. intros [H1 H2 H3 H4 H5 H6 H7 H8 H9] Hw. by split. Qed.

Lemma inv_schedule e a : client_inv e → client_inv (schedule_tick a e).
Proof. intros [H1 H2 H3 H4 H5 H6 H7 H8 H9]. split; try done. intros _. apply schedule_tick_range. Qed.

Lemma inv_started e a : client_inv e → client_inv (if started_ e then e else with_started (start a e)).
Proof.
  intros Hi. destruct (started_ e) eqn:E; [done|]. destruct Hi as [H1 H2 H3 H4 H5 H6 H7 H8 H9]. split; try done; cbn.
  - by rewrite H1, E.
  - intros _. apply schedule_tick_range.
Qed.

Lemma inv_ensure e ok fd : client_inv e → (0 ≤ fd)%Z → client_inv (snd (ensure_v6_socket ok fd e)).
Proof.
  intros Hi Hfd. unfold ensure_v6_socket. destruct (socket6_is_open e) eqn:E; [done|].
  destruct Hi as [H1 H2 H3 H4 H5 H6 H7 H8 H9]. destruct ok; split; try done; cbn; rewrite ?H2, ?E; done.
Qed.

Lemma inv_arm_watch v6 e : client_inv e → client_inv (arm_write_watch v6 e).
Proof.
  intros Hi. unfold arm_write_watch. destruct ((if v6 then send_retry6_armed e else send_retry_armed e) || _) eqn:E; [done|].
  apply orb_false_iff in E as [E _]. destruct Hi as [H1 H2 H3 H4 H5 H6 H7 H8 H9].
  destruct v6; split; try done; cbn; [by rewrite H5, E|by rewrite H4, E].
Qed.

Lemma inv_retry e : client_inv e → client_inv (arm_send_retry e).
Proof. intros Hi. unfold arm_send_retry. destruct (socket6_is_open _); [by apply inv_arm_watch, inv_arm_watch|by apply inv_arm_watch]. Qed.

(** What an attempt to connect does, by outcome. *)
Lemma attempt_inv ep pend resolved v6_ok fd6 o a e ok e' : client_inv e → (0 ≤ fd6)%Z →
  (∀ c s addr, o = Connected c s addr → conns (cli_world e) !! c = None ∧ sessions (cli_world e) !! s = None) →
  connect_attempt ep pend resolved v6_ok fd6 o a e = Some (ok, e') → client_inv e'.
Proof.
  intros Hi Hfd Ho. unfold connect_attempt. pose proof (inv_started e a Hi) as H1.
  assert (cli_world (if started_ e then e else with_started (start a e)) = cli_world e) as Hw1 by (by destruct (started_ e)).
  destruct resolved as [is_v6|]; [|by intros [= <- <-]].
  set (e1 := if started_ e then e else with_started (start a e)) in *.
  assert (∃ ok2 e2, (if is_v6 then ensure_v6_socket v6_ok fd6 e1 else (true, e1)) = (ok2, e2) ∧ client_inv e2 ∧ cli_world e2 = cli_world e)
    as (ok2 & e2 & -> & H2 & Hw2).
  { destruct is_v6; [|by exists true, e1]. pose proof (inv_ensure e1 v6_ok fd6 H1 Hfd) as H2.
    destruct (ensure_v6_socket v6_ok fd6 e1) as [ok2 e2] eqn:E. exists ok2, e2. split_and!; [done..|].
    revert E. unfold ensure_v6_socket. rewrite <- Hw1. destruct (socket6_is_open e1); [|destruct v6_ok]; by intros [= <- <-]. }
  destruct ok2; [|by intros [= <- <-]]. destruct o as [|c s addr].
  - intros [= <- <-]. destruct H2 as [K1 K2 K3 K4 K5 K6 K7 K8 K9]. by split.
  - destruct (Ho c s addr eq_refl) as [Hc Hs]. rewrite <- Hw2 in Hc, Hs. unfold on_new_conn_cb. cbn.
    destruct (client_new_conn_eq (cli_session_cb e2) s c addr ep pend (cli_world e2)) as (q & cs & -> & E1 & E2 & _). cbn. intros [= <- <-].
    destruct H2 as [K1 K2 K3 K4 K5 K6 K7 K8 K9]. split; try done. cbn. by apply inv_add.
Qed.

Lemma inv_packet (is_v6 : bool) ec w a e : client_inv e → (if is_v6 then recvs6 e else recvs e) ≠ 0 → ec ≠ Some operation_aborted →
  world_inv ClientRole w → client_inv (on_packet ec is_v6 w a e).
Proof.
  intros [H1 H2 H3 H4 H5 H6 H7 H8 H9] Hr He Hw. unfold on_packet. destruct is_v6.
  - rewrite H2 in Hr. destruct (socket6_is_open e) eqn:E6; [|done]. destruct ec as [err|].
    + rewrite decide_False by congruence. split; cbn; rewrite ?H2, ?E6; done.
    + split; cbn; rewrite ?H2, ?E6; try done. intros _. apply schedule_tick_range.
  - rewrite H1 in Hr. destruct (started_ e) eqn:E; [|done]. destruct ec as [err|].
    + rewrite decide_False by congruence. split; cbn; rewrite ?H1, ?E; done.
    + split; cbn; rewrite ?H1, ?E; try done. intros _. apply schedule_tick_range.
Qed.

Lemma inv_writable (v6 : bool) ec unsent w e : client_inv e → (if v6 then watches6 e else watches e) ≠ 0 →
  world_inv ClientRole w → client_inv (on_writable v6 ec unsent w e).
Proof.
  intros Hi Hn Hw. unfold on_writable.
  assert (client_inv (with_watch v6 false (pred (if v6 then watches6 e else watches e)) e)) as H1.
  { destruct Hi as [H1 H2 H3 H4 H5 H6 H7 H8 H9]. destruct v6; split; try done; cbn; [rewrite H5; by destruct (send_retry6_armed e)|rewrite H4; by destruct (send_retry_armed e)]. }
  destruct ec; [done|]. apply (inv_world _ w) in H1; [|done]. destruct unsent; [by apply inv_retry|done].
Qed.

Lemma client_engine_step e e' : step e e' → client_inv e → client_inv e'.
Proof.
  intros Hs Hi. pose proof (cv_world _ Hi) as Hw. destruct Hs as [e e' ep pend resolved v6_ok fd6 o a w b ok Hfd Ho He Hr
    |e is_v6 ec w a Hn He Hr|e d Hd|e n w a Hn Hr|e n w a Hn|e specs|e v6 ec unsent w Hn Hr|e w Hr].
  - pose proof (attempt_inv _ _ _ _ _ _ _ _ _ _ Hi Hfd Ho He) as Hi'. destruct ok; [|done].
    apply inv_schedule, inv_world; [done|]. eapply Server.lsquic_ran_inv; [done|apply Hi'].
  - apply inv_packet; try done. by eapply Server.lsquic_ran_inv.
  - destruct Hi as [H1 H2 H3 H4 H5 H6 H7 H8 H9]. by split.
  - apply (Server.lsquic_ran_inv _ _ _ Hr) in Hw. destruct Hi as [H1 H2 H3 H4 H5 H6 H7 H8 H9]. split; try done.
    intros _. apply schedule_tick_range.
  - destruct Hi as [H1 H2 H3 H4 H5 H6 H7 H8 H9]. by split.
  - unfold on_packets_out_cb. destruct (send_specs _ _ _) as [sent [|]]; [by apply inv_retry|done].
  - apply inv_writable; try done. by eapply Server.lsquic_ran_inv.
  - apply inv_world; [done|by eapply Server.lsquic_ran_inv].
Qed.

Lemma client_engine_inv fd ssl_ctx e : reachable fd ssl_ctx e → client_inv e.
Proof.
  intros (e0 & [= <-] & Hr). match type of Hr with rtc _ ?x _ => assert (client_inv x) as Hi end.
  { split; try done. apply ls_reachable_inv, rtc_refl. }
  revert Hi. induction Hr as [|e0 e1 e2 Hs _ IH]; [done|]. intros Hi. apply IH. by eapply client_engine_step.
Qed.
End Client.

(** ** Properties of the client engine *)

(** The client engine listens on each socket with one receive at a time: in
    every reachable state exactly one receive is pending on the IPv4 socket once
    the engine is started and exactly one on the IPv6 socket once that is open,
    so that no two receives share a buffer; at most one wait for writability per
    socket is pending, when its flag says so; the descriptor for IPv6 is valid
    exactly while the socket is open; and a started engine keeps ticking. *)
Theorem client_receives_once fd ssl_ctx e : Client.reachable fd ssl_ctx e →
  Client.recvs e = Nat.b2n (Client.started_ e) ∧ Client.recvs6 e = Nat.b2n (Client.socket6_is_open e) ∧
  Client.watches e = Nat.b2n (Client.send_retry_armed e) ∧ Client.watches6 e = Nat.b2n (Client.send_retry6_armed e) ∧
  ((0 ≤ Client.raw6_fd_ e)%Z ↔ Client.socket6_is_open e = true) ∧
  (Client.started_ e = true → ticking (Client.cli_timer e)).
Proof. intros [H1 H2 H3 H4 H5 H6 H7 H8 H9]%Client.client_engine_inv. done. Qed.

(** Connecting to an upstream hands the pool a session for that very upstream:
    when lsquic accepts, the session it makes carries the endpoint asked for,
    has the pool's two handlers and a stream requested; when the host does not
    resolve, the IPv6 socket cannot be had, or lsquic refuses, the answer is
    [false] and no session is made.  Either way no endpoint is left behind for a
    later connection. *)
Theorem connect_delivers_endpoint fd ssl_ctx e ep cb resolved v6_ok fd6 o a :
  Client.reachable fd ssl_ctx e → (0 ≤ fd6)%Z →
  (∀ c s addr, o = Client.Connected c s addr →
    conns (Client.cli_world e) !! c = None ∧ sessions (Client.cli_world e) !! s = None) →
  ∃ ok e', Client.connect_attempt ep (Some (ep, cb)) resolved v6_ok fd6 o a e = Some (ok, e') ∧
    Client.current_connect_ep_ e' = None ∧
    (if ok then ∃ c s addr q, o = Client.Connected c s addr ∧ sessions (Client.cli_world e') !! s = Some q ∧
       conn_ q = Some c ∧ endpoint_ q = Some ep ∧ closed_cb_ q = Some (RemoveQuicConn ep) ∧
       new_stream_cb_ q = Some (OpenQuic cb) ∧ head (calls (Client.cli_world e')) = Some (MakeStream c)
     else Client.cli_world e' = Client.cli_world e ∧
       (resolved = None ∨ o = Client.Refused ∨ (v6_ok = false ∧ Client.socket6_is_open e = false))).
Proof.
  intros Hr Hfd Ho. apply Client.client_engine_inv in Hr. pose proof (Client.cv_ep _ Hr) as Hep. pose proof (Client.cv_cb _ Hr) as Hcb.
  unfold Client.connect_attempt. set (e1 := if Client.started_ e then e else Client.with_started (Client.start a e)).
  assert (Client.current_connect_ep_ e1 = None ∧ Client.cli_world e1 = Client.cli_world e ∧ Client.socket6_is_open e1 = Client.socket6_is_open e ∧
    Client.cli_session_cb e1 = true) as (Hep1 & Hw1 & H61 & Hcb1) by (subst e1; by destruct (Client.started_ e)).
  destruct resolved as [is_v6|]; [|exists false, e1; by auto].
  assert (∃ ok2 e2, (if is_v6 then Client.ensure_v6_socket v6_ok fd6 e1 else (true, e1)) = (ok2, e2) ∧
    Client.current_connect_ep_ e2 = None ∧ Client.cli_world e2 = Client.cli_world e ∧ Client.cli_session_cb e2 = true ∧
    (ok2 = false → v6_ok = false ∧ Client.socket6_is_open e = false)) as (ok2 & e2 & -> & Hep2 & Hw2 & Hcb2 & Hf2).
  { destruct is_v6; [|by exists true, e1]. unfold Client.ensure_v6_socket. rewrite H61.
    destruct (Client.socket6_is_open e) eqn:E6; [by exists true, e1|]. destruct v6_ok; by eexists _, _. }
  destruct ok2; [|exists false, e2; split_and!; [done..|]; right; right; by apply Hf2]. destruct o as [|c s addr].
  - eexists false, _. split; [done|]. split; [done|]. split; [done|]. by auto.
  - destruct (Ho c s addr eq_refl) as [Hc Hs]. unfold Client.on_new_conn_cb. cbn. rewrite Hcb2.
    destruct (client_new_conn_eq true s c addr ep (Some (ep, cb)) (Client.cli_world e2)) as (q & cs & E & E1 & E2 & E3 & E4 & E5 & ->).
    rewrite E. cbn. eexists true, _. split; [done|]. split; [done|]. exists c, s, addr, q. cbn.
    rewrite lookup_insert_eq. done.
Qed.

(** A client engine that was asked for an IPv6 upstream and refused. *)
Definition refused_client : Client.engine :=
  Client.Cli true 7 true 9 1 1 false false 0 0 None (Timer (Some 500%Z) 0 0) init_world true None.

Lemma refused_client_reachable : Client.reachable 7 None refused_client.
Proof.
  eexists. split; [reflexivity|]. apply rtc_once.
  eapply (Client.step_connect _ refused_client upstream (Some (upstream, 3)) (Some true) true 9 Client.Refused (Advice false 0)
    init_world (Advice false 0) false); [done|done|reflexivity|apply rtc_refl].
Qed.

Lemma client_receives_once_witness : Client.recvs refused_client = 1 ∧ Client.recvs6 refused_client = 1.
Proof. destruct (client_receives_once 7 None refused_client refused_client_reachable) as (H1 & H2 & _). exact (conj H1 H2). Defined.

Lemma connect_delivers_endpoint_witness : ∃ e' q,
  Client.connect_attempt upstream (Some (upstream, 3)) (Some false) true 9 (Client.Connected 1 5 (PeerV4 #"10.0.0.2")) (Advice false 0) refused_client =
    Some (true, e') ∧ sessions (Client.cli_world e') !! 5 = Some q ∧ endpoint_ q = Some upstream.
Proof.
  destruct (connect_delivers_endpoint 7 None refused_client upstream 3 (Some false) true 9 (Client.Connected 1 5 (PeerV4 #"10.0.0.2")) (Advice false 0)
    refused_client_reachable) as (ok & e' & E & _ & H); [done|by intros c s addr [= <- <- <-]|].
  destruct ok; [|destruct H as [_ [H|[H|[H _]]]]; discriminate].
  destruct H as (c & s & addr & q & Ho & Hs & _ & Hq & _). injection Ho as <- <- <-. by exists e', q.
Defined.

(** ** TLS contexts *)

Module Tls.
(** [std::call_once]: whether the initialisation was done, and the outcome of
    [lsquic_global_init]; [None] when the exception leaves it undone. *)
Definition ensure_quic_global_init (inited ok : bool) : option bool :=
  if inited then Some true else if ok then Some true else None.

Definition TLS1_3_VERSION : Z := 0x0304.

Record ssl_ctx := SslCtx {
  min_proto : Z;
  max_proto : Z;
  certificate : option (bytes * bytes);     (** chain file and key file *)
  alpn : option bytes;                      (** the list its callback selects from *)
}.

(** The protocol list in wire format. *)
Definition kAlpn : bytes := ascii_of_nat 2 :: #"h3" ++ ascii_of_nat 5 :: #"h3-29".

(** [inited], [init_ok]: as for [ensure_quic_global_init], whose exception is
    [None]; then the outcomes of [SSL_CTX_new] and of loading the two files. *)
Definition make_server_ssl_ctx (inited init_ok : bool) (cert_file key_file : bytes) (new_ok cert_ok key_ok : bool) :
  option (option ssl_ctx) :=
  _ ← ensure_quic_global_init inited init_ok;
  Some (match cert_file, key_file with
        | [], _ | _, [] => None
        | _, _ =>
            if negb new_ok then None
            else if negb cert_ok then None
            else if negb key_ok then None
            else Some (SslCtx TLS1_3_VERSION TLS1_3_VERSION (Some (cert_file, key_file)) (Some kAlpn))
        end).

Definition make_client_ssl_ctx (inited init_ok new_ok : bool) : option (option ssl_ctx) :=
  _ ← ensure_quic_global_init inited init_ok;
  Some (if new_ok then Some (SslCtx TLS1_3_VERSION TLS1_3_VERSION None None) else None).

(** The ALPN callback the server's context gets: [negotiated] is whether
    [SSL_select_next_proto] finds a protocol of the two lists in common. *)
Inductive alpn_result := SSL_TLSEXT_ERR_OK | SSL_TLSEXT_ERR_ALERT_FATAL.
Definition alpn_select (negotiated : bytes → bytes → bool) (offered : bytes) : alpn_result :=
  if negotiated offered kAlpn then SSL_TLSEXT_ERR_OK else SSL_TLSEXT_ERR_ALERT_FATAL.

(** The wire format: each name after its length. *)
Fixpoint alpn_names (fuel : nat) (l : bytes) : option (list bytes) :=
  match fuel with
  | O => None
  | S fuel' =>
      match l with
      | [] => Some []
      | n :: rest =>
          let len := nat_of_ascii n in
          if decide (len = 0 ∨ length rest < len) then None
          else names ← alpn_names fuel' (drop len rest); Some (take len rest :: names)
      end
  end.

(** The list is well formed and names the two HTTP/3 versions. *)
Lemma alpn_list_ok : alpn_names (S (length kAlpn)) kAlpn = Some (#"h3" :: #"h3-29" :: nil).
Proof. reflexivity. Qed.

(** A server context needs both files and offers nothing below TLS 1.3. *)
Lemma server_ctx_requires i ok cert key a b c ctx : make_server_ssl_ctx i ok cert key a b c = Some (Some ctx) →
  cert ≠ [] ∧ key ≠ [] ∧ b = true ∧ c = true ∧ min_proto ctx = TLS1_3_VERSION ∧ certificate ctx = Some (cert, key).
Proof. unfold make_server_ssl_ctx. destruct i, ok, cert, key, a, b, c; try discriminate; cbn; by intros [= <-]. Qed.
End Tls.
