(* ===== verification/QuicPool.v ===== *)
(** * The pool and its client engine
    (src/src/proxy/upstream_pool.cpp and src/src/transport/quic_transport.cpp)

    [UpstreamPool] knows its QUIC sessions by name and records what it asks of
    them as effects; [QuicSession] has the session objects, with lsquic's
    connections and the callbacks installed in them.  Here the two run together:
    an effect of the pool is carried out on the objects ([realize]), and an event
    of lsquic runs the pool's handler.  The pointers the reuse table holds are
    the [holders] of the objects. *)

From S2P Require Import Prelude CppStd Transport Config QuicStream QuicSession.
From S2P Require UpstreamPool.
Import UpstreamPool (system, sys_pool, asked, opening, watched, opening_req, Opening, o_session, o_cb, o_ep, pooled, quic_conns_,
  effect, Called, TcpConnect, OpenStream, WatchClosed, Threw, drop_session, async_connect, async_connect_fresh,
  on_stream_opened, on_session_closed, fresh_stream, ask, close_session, set_opening, quic_key, remove_quic_conn).

(** ** Carrying out the pool's effects *)

(** A pointer of the reuse table goes away. *)
Definition drop_holder (s : nat) (w : world) : world :=
  if decide (s ∈ holders w) then collect s (set_holders (drop_session s (holders w)) w) else w.

(** [conn] and [peer]: the connection of a new session, made by
    [QuicClientEngine::connect] within the call.  A reused session moves from the
    table into the callback. *)
Definition carry_out (conn : nat) (peer : peer_addr) (e : effect) (w : world) : option world :=
  match e with
  | WatchClosed s ep =>
      w1 ← client_new_conn_cb false s conn peer ep None (accept_conn conn w);
      set_closed_cb s (RemoveQuicConn ep) (out (NewSession s) w1)
  | OpenStream s _ from_pool cb =>
      w1 ← async_open_stream s cb w;
      Some (if from_pool then drop_holder s w1 else w1)
  | Called _ _ _ _ | TcpConnect _ _ | Threw _ => Some w
  end.

Definition realize (conn : nat) (peer : peer_addr) (effs : list effect) (w : world) : option world :=
  fold_left (λ o e, w ← o; carry_out conn peer e w) effs (Some w).

(** A stream is delivered to the session of a connection, and the pool keeps the
    session for reuse. *)
Definition deliver_stream (s conn t o : nat) (w : world) : option world :=
  w1 ← new_stream_cb conn (Some t) o (accept_stream conn t w); Some (set_holders (s :: holders w1) w1).

(** A connection closes, and the pool forgets its session. *)
Definition deliver_close (s conn : nat) (w : world) : option world :=
  w1 ← conn_closed_cb conn w; Some (drop_holder s (free_conn conn w1)).

Section steps.
Context (resolvable : BackendEndpoint → bool).

Definition new_names (eng : option nat) (conn : nat) (w : world) : Prop :=
  conns w !! conn = None ∧ ∀ s, eng = Some s → sessions w !! s = None.

Inductive qp_step : system * world → system * world → Prop :=
  | qp_connect sy w w' eng id cb conn peer : cb ∉ asked sy → new_names eng conn w →
      let r := async_connect resolvable eng id cb (sys_pool sy) in
      realize conn peer (snd r) w = Some w' → qp_step (sy, w) (UpstreamPool.perform r (ask cb sy), w')
  | qp_connect_fresh sy w w' eng ep cb conn peer : cb ∉ asked sy → new_names eng conn w →
      let r := async_connect_fresh resolvable eng ep cb (sys_pool sy) in
      realize conn peer (snd r) w = Some w' → qp_step (sy, w) (UpstreamPool.perform r (ask cb sy), w')
  | qp_stream sy w w' conn s t o ep fp cb rest : conns w !! conn = Some (Some s) → lstreams w !! t = None → wrappers w !! o = None →
      opening sy ≡ₚ Opening s ep fp cb :: rest → fresh_stream sy o →
      deliver_stream s conn t o w = Some w' →
      qp_step (sy, w) (UpstreamPool.perform (on_stream_opened None s ep fp cb (Some o) (sys_pool sy)) (set_opening rest sy), w')
  | qp_closed sy w w' conn s ep rest : conns w !! conn = Some (Some s) → no_streams conn w →
      watched sy ≡ₚ (s, ep) :: rest → deliver_close s conn w = Some w' →
      qp_step (sy, w) (UpstreamPool.perform (on_session_closed s ep (sys_pool sy)) (close_session s rest sy), w')
  | qp_backend sy w b : qp_step (sy, w) (UpstreamPool.set_pool (UpstreamPool.add_backend b (sys_pool sy)) sy, w)
  | qp_tcp_done sy w cb target r rest : UpstreamPool.connecting sy ≡ₚ (cb, target) :: rest → (∀ st, r = inr (Some st) → fresh_stream sy st) →
      qp_step (sy, w) (UpstreamPool.perform (UpstreamPool.on_tcp_connected target cb r (sys_pool sy)) (UpstreamPool.set_connecting rest sy), w)
  | qp_release sy w ep st rest : UpstreamPool.held sy ≡ₚ st :: rest →
      qp_step (sy, w) (UpstreamPool.set_pool (UpstreamPool.release ep st (sys_pool sy)) (UpstreamPool.set_held rest sy), w)
  | qp_drop sy w st rest : UpstreamPool.held sy ≡ₚ st :: rest → qp_step (sy, w) (UpstreamPool.set_held rest sy, w)
  | qp_io sy w w' : ls_step ClientRole w w' → sessions w' = sessions w → holders w' = holders w → qp_step (sy, w) (sy, w').

Definition qp_reachable : system * world → Prop := rtc qp_step (UpstreamPool.init, init_world).
End steps.

(** ** The coupling *)

Definition serves (s : nat) (P : QuicTransportSession → Prop) (w : world) : Prop := ∃ q, sessions w !! s = Some q ∧ P q.

Record coupled (sy : system) (w : world) : Prop := {
  cp_holders : holders w ≡ₚ pooled (quic_conns_ (sys_pool sy));
  cp_watched : ∀ s ep, (s, ep) ∈ watched sy → serves s (λ q, conn_ q ≠ None ∧ closed_cb_ q = Some (RemoveQuicConn ep)) w;
  cp_opening : ∀ o, o ∈ opening sy → serves (o_session o) (λ q, new_stream_cb_ q = Some (OpenQuic (o_cb o))) w;
  cp_closed : ∀ s, s ∈ UpstreamPool.closed sy → serves s (λ q, conn_ q = None) w;
  cp_kept : ∀ s q, sessions w !! s = Some q → captures_itself q = true;
  cp_known : ∀ s, is_Some (sessions w !! s) → s ∈ map fst (watched sy) ++ UpstreamPool.closed sy;
}.

(** ** Lemmas *)

Lemma collect_kept s w : (∀ q, sessions w !! s = Some q → captures_itself q = true) → collect s w = w.
Proof.
  intros Hk. unfold collect. destruct (sessions w !! s) as [q|] eqn:E; [|done]. unfold referenced. rewrite (Hk q eq_refl). by rewrite orb_true_r.
Qed.

Lemma drop_holder_kept s w : (∀ q, sessions w !! s = Some q → captures_itself q = true) →
  drop_holder s w = set_holders (drop_session s (holders w)) w.
Proof.
  intros Hk. unfold drop_holder. case_decide as Hin; [by apply collect_kept|].
  destruct (UpstreamPool.drop_session_spec s (holders w)) as [[_ ->]|[? _]]; [by destruct w|done].
Qed.

(** Systems that differ only in their TCP part. *)
Lemma coupled_tcp sy sy' w : coupled sy w → quic_conns_ (sys_pool sy') = quic_conns_ (sys_pool sy) → watched sy' = watched sy →
  opening sy' = opening sy → UpstreamPool.closed sy' = UpstreamPool.closed sy → coupled sy' w.
Proof. intros [] E1 E2 E3 E4. split; rewrite ?E1, ?E2, ?E3, ?E4; done. Qed.

(** Worlds that differ only in their streams. *)
Lemma coupled_io sy w w' : coupled sy w → sessions w' = sessions w → holders w' = holders w → coupled sy w'.
Proof. intros [] E1 E2. split; unfold serves; rewrite ?E1, ?E2; done. Qed.

(** A new address is a new name for the pool: no object that the pool ever knew
    has been freed. *)
Lemma coupled_fresh sy w eng conn : UpstreamPool.inv sy → coupled sy w → new_names eng conn w → UpstreamPool.fresh_eng sy eng.
Proof.
  intros Hinv Hc [_ Hn] s Hs. specialize (Hn s Hs).
  assert (∀ P, ¬ serves s P w) as Hno by (intros P (q & Hq & _); congruence).
  assert (s ∉ map fst (watched sy)) as Hw.
  { intros ([s' ep] & -> & Hin)%list_elem_of_fmap. exact (Hno _ (cp_watched _ _ Hc _ _ Hin)). }
  split_and!; [done|..].
  - intros Hin. exact (Hno _ (cp_closed _ _ Hc _ Hin)).
  - intros (o & -> & Hin)%list_elem_of_fmap. exact (Hno _ (cp_opening _ _ Hc _ Hin)).
  - intros [k Hk]%UpstreamPool.elem_of_pooled. destruct (UpstreamPool.inv_alive _ _ Hinv k s Hk) as [_ (ep & Hin & _)].
    apply Hw, list_elem_of_fmap. by exists (s, ep).
Qed.

(** A fresh connect is [QuicClientEngine::on_new_conn_cb] with its pending request. *)
Lemma realize_fresh conn peer s ep cb w :
  realize conn peer [WatchClosed s ep; OpenStream s ep false cb] w =
  client_new_conn_cb true s conn peer ep (Some (ep, cb)) (accept_conn conn w).
Proof.
  unfold realize, carry_out, client_new_conn_cb. cbn [fold_left mbind option_bind negb].
  destruct (set_endpoint _ _ _) as [w1|]; [|done]. cbn [mbind option_bind]. destruct (adopt_self _ _) as [w2|]; [|done]. cbn [mbind option_bind].
  destruct (set_closed_cb _ _ _) as [w3|]; [|done]. cbn [mbind option_bind]. by destruct (async_open_stream _ _ _).
Qed.

Lemma session_of_conn w conn s : world_inv ClientRole w → conns w !! conn = Some (Some s) →
  ∃ q, sessions w !! s = Some q ∧ conn_ q = Some conn.
Proof. intros Hw Hc. destruct (wv_conns _ _ _ _ Hw conn _ Hc) as (s' & q & [= <-] & Hs & Hq). by exists q. Qed.

(** What a new session adds. *)
Lemma fresh_coupled sy w p s ep cb conn peer : coupled sy w → world_inv ClientRole w → new_names (Some s) conn w →
  quic_conns_ p = quic_conns_ (sys_pool sy) →
  ∃ w', realize conn peer [WatchClosed s ep; OpenStream s ep false cb] w = Some w' ∧ rtc (ls_step ClientRole) w w' ∧
    coupled (UpstreamPool.perform (p, [WatchClosed s ep; OpenStream s ep false cb]) sy) w'.
Proof.
  intros [H1 H2 H3 H4 H5 H6] Hw [Hn Hs] Hp. specialize (Hs s eq_refl). rewrite realize_fresh.
  destruct (client_new_conn_eq true s conn peer ep (Some (ep, cb)) w) as (q & cs & E & E1 & E2 & E3 & E4 & E5 & _). eexists. split; [exact E|].
  split; [by eapply rtc_once, ls_client_conn|].
  assert (∀ s' P, serves s' P w → s' ≠ s ∧ <[s := q]> (sessions w) !! s' = sessions w !! s') as Hother.
  { intros s' P (q' & Hq' & _). assert (s' ≠ s) by congruence. by rewrite lookup_insert_ne. }
  assert (∀ s' P, serves s' P w → ∃ q', <[s := q]> (sessions w) !! s' = Some q' ∧ P q') as Hkeep.
  { intros s' P Hx. destruct (Hother _ _ Hx) as [_ ->]. exact Hx. }
  split; unfold serves; cbn.
  - by rewrite Hp.
  - intros s' ep' [[= -> ->]|Hin]%elem_of_cons; [exists q; rewrite lookup_insert_eq; split_and!; [done|congruence|done]|by apply Hkeep, H2].
  - intros o [->|Hin]%elem_of_cons; [exists q; by rewrite lookup_insert_eq|by apply Hkeep, H3].
  - intros s' Hin. by apply Hkeep, H4.
  - intros s' q' [[<- <-]|[Hne Hq']]%lookup_insert_Some; [unfold captures_itself; by rewrite E5|by eapply H5].
  - intros s' [q' [[<- <-]|[Hne Hq']]%lookup_insert_Some]; [by left|right]. apply H6. by exists q'.
Qed.

(** What taking a session out of the table for another stream changes: its
    callback, and nothing else. *)
Lemma reuse_coupled sy w p s m ep cb conn peer : UpstreamPool.inv sy → coupled sy w → world_inv ClientRole w →
  quic_conns_ p = quic_conns_ (sys_pool sy) → UpstreamPool.pop_quic_conn (quic_key ep) (quic_conns_ p) = Some (s, m) →
  ∃ w', realize conn peer [OpenStream s ep true cb] w = Some w' ∧ rtc (ls_step ClientRole) w w' ∧
    coupled (UpstreamPool.perform (UpstreamPool.set_conns m p, [OpenStream s ep true cb]) sy) w'.
Proof.
  intros Hinv [H1 H2 H3 H4 H5 H6] Hw Hp Hpop. rewrite Hp in Hpop.
  destruct (UpstreamPool.inv_pop _ _ _ _ _ Hinv Hpop) as (_ & Hno & _ & ep' & Hwat & _).
  assert (pooled (quic_conns_ (sys_pool sy)) ≡ₚ s :: pooled m) as Hpool.
  { apply UpstreamPool.pop_spec in Hpop as (rest & Hk & ->). rewrite UpstreamPool.pooled_put, (UpstreamPool.pooled_split _ _ _ Hk). done. }
  destruct (H2 s ep' Hwat) as (q & Hq & Hqc & Hqcb). set (q' := with_new_stream_cb (Some (OpenQuic cb)) q).
  assert (s ∈ holders w) as Hin by (rewrite H1, Hpool; by left).
  assert (∃ w1, async_open_stream s cb w = Some w1 ∧ sessions w1 = <[s := q']> (sessions w) ∧ holders w1 = holders w) as (w1 & E & Es & Eh).
  { unfold async_open_stream, set_new_stream_cb, on_session_at. rewrite Hq. cbn. rewrite lookup_insert_eq. cbn.
    destruct (conn_ q); [by eexists|done]. }
  assert (∀ q0, sessions w1 !! s = Some q0 → captures_itself q0 = true) as Hcap.
  { intros q0. rewrite Es, lookup_insert_eq. by intros [= <-]. }
  exists (set_holders (drop_session s (holders w)) w1). split.
  { unfold realize, carry_out. cbn [fold_left mbind option_bind]. rewrite E. cbn [mbind option_bind]. by rewrite (drop_holder_kept _ _ Hcap), Eh. }
  destruct (UpstreamPool.drop_session_spec s (holders w)) as [[? _]|[_ Hperm]]; [done|]. split.
  { eapply rtc_l; [by eapply app_open|]. eapply rtc_once. rewrite <- (collect_kept s (set_holders (drop_session s (holders w)) w1)) by done.
    apply app_drop. by rewrite Eh. }
  assert (∀ s' (P : QuicTransportSession → Prop), serves s' P w → (s' = s → P q → P q') → ∃ q0, sessions w1 !! s' = Some q0 ∧ P q0) as Hkeep.
  { intros s' P (q0 & Hq0 & HP) Hs. rewrite Es. destruct (decide (s = s')) as [<-|Hne].
    - rewrite lookup_insert_eq. exists q'. split; [done|]. apply Hs; [done|]. congruence.
    - rewrite lookup_insert_ne by done. by exists q0. }
  split; unfold serves; cbn.
  - apply (Permutation_cons_inv (a := s)). by rewrite <- Hperm, H1.
  - intros s' ep0 Hx. apply Hkeep; [by apply H2|done].
  - intros o [->|Hx]%elem_of_cons; [exists q'; rewrite Es; by rewrite lookup_insert_eq|]. apply Hkeep; [by apply H3|].
    intros Eo. exfalso. apply Hno. rewrite <- Eo. apply list_elem_of_fmap. by exists o.
  - intros s' Hx. apply Hkeep; [by apply H4|done].
  - intros s' q0. rewrite Es. intros [[<- <-]|[Hne Hq0]]%lookup_insert_Some; [done|by eapply H5].
  - intros s'. rewrite Es. intros [q0 [[<- <-]|[Hne Hq0]]%lookup_insert_Some]; apply H6; by eexists.
Qed.

(** Effects that concern no session. *)
Definition plain (e : effect) : Prop := match e with OpenStream _ _ _ _ | WatchClosed _ _ => False | _ => True end.

Lemma plain_coupled sy w p e conn peer : coupled sy w → plain e → quic_conns_ p = quic_conns_ (sys_pool sy) →
  ∃ w', realize conn peer [e] w = Some w' ∧ rtc (ls_step ClientRole) w w' ∧ coupled (UpstreamPool.perform (p, [e]) sy) w'.
Proof.
  intros Hc He Hp. exists w. destruct e; try done; (split; [done|]); (split; [done|]); by eapply coupled_tcp.
Qed.

Lemma outcome_coupled sy w p r eng ep cb conn peer : UpstreamPool.inv sy → coupled sy w → world_inv ClientRole w →
  new_names eng conn w → quic_conns_ p = quic_conns_ (sys_pool sy) → UpstreamPool.quic_outcome eng ep cb p r →
  ∃ w', realize conn peer (snd r) w = Some w' ∧ rtc (ls_step ClientRole) w w' ∧ coupled (UpstreamPool.perform r (ask cb sy)) w'.
Proof.
  intros Hinv Hc Hw Hn Hp Ho. assert (coupled (ask cb sy) w) as Hc' by (by eapply coupled_tcp).
  destruct Ho as [e|s ->|s m Hpop]; cbn [snd].
  - by apply plain_coupled.
  - by apply fresh_coupled.
  - destruct (reuse_coupled sy w p s m ep cb conn peer Hinv Hc Hw Hp Hpop) as (w' & E & Hr & H). exists w'. split_and!; [done..|].
    by eapply coupled_tcp.
Qed.

Lemma connect_coupled resolvable sy w eng id cb conn peer : UpstreamPool.inv sy → coupled sy w → world_inv ClientRole w → new_names eng conn w →
  let r := async_connect resolvable eng id cb (sys_pool sy) in
  ∃ w', realize conn peer (snd r) w = Some w' ∧ rtc (ls_step ClientRole) w w' ∧ coupled (UpstreamPool.perform r (ask cb sy)) w'.
Proof.
  intros Hinv Hc Hw Hn r. assert (coupled (ask cb sy) w) as Hc' by (by eapply coupled_tcp). subst r.
  destruct (decide (UpstreamPool.candidates id (sys_pool sy) = [])) as [Hcand|Hcand].
  { unfold async_connect. rewrite Hcand. by apply plain_coupled. }
  destruct (UpstreamPool.async_connect_pick resolvable eng id cb _ (UpstreamPool.inv_rr _ _ Hinv) Hcand) as (i & e & _ & _ & _ & ->).
  set (p1 := UpstreamPool.set_rr _ _). case_decide.
  - eapply (outcome_coupled sy w p1); try done. apply UpstreamPool.quic_connect_outcome. apply Hinv.
  - destruct (UpstreamPool.idle e) as [|st rest]; [|by apply plain_coupled]. unfold UpstreamPool.connect_fresh_to. cbn [snd].
    apply plain_coupled; [done| |done]. by destruct (resolvable _).
Qed.

Lemma connect_fresh_coupled resolvable sy w eng ep cb conn peer : UpstreamPool.inv sy → coupled sy w → world_inv ClientRole w → new_names eng conn w →
  let r := async_connect_fresh resolvable eng ep cb (sys_pool sy) in
  ∃ w', realize conn peer (snd r) w = Some w' ∧ rtc (ls_step ClientRole) w w' ∧ coupled (UpstreamPool.perform r (ask cb sy)) w'.
Proof.
  intros Hinv Hc Hw Hn r. assert (coupled (ask cb sy) w) as Hc' by (by eapply coupled_tcp). subst r. unfold async_connect_fresh. case_decide.
  - eapply (outcome_coupled sy w (sys_pool sy)); try done. apply UpstreamPool.quic_connect_fresh_outcome. apply Hinv.
  - unfold UpstreamPool.connect_fresh_to. cbn [snd]. apply plain_coupled; [done| |done]. by destruct (resolvable _).
Qed.

(** A stream is delivered to the request it was opened for. *)
Lemma stream_handed sy w o conn t obj : coupled sy w → o ∈ opening sy → conns w !! conn = Some (Some (o_session o)) →
  ∃ w', new_stream_cb conn (Some t) obj (accept_stream conn t w) = Some w' ∧ sessions w' = sessions w ∧ holders w' = holders w ∧
    calls w' = NewStream (o_session o) (OpenQuic (o_cb o)) (Some obj) :: calls w.
Proof.
  intros Hc Ho Hconn. destruct (cp_opening _ _ Hc o Ho) as (q & Hq & Hcb).
  unfold new_stream_cb, on_new_stream. cbn. rewrite Hconn. cbn. rewrite Hq. cbn. rewrite Hcb. by eexists.
Qed.

Lemma stream_coupled sy w conn s t obj ep fp cb rest : UpstreamPool.inv sy → coupled sy w → world_inv ClientRole w →
  conns w !! conn = Some (Some s) → lstreams w !! t = None → wrappers w !! obj = None → opening sy ≡ₚ Opening s ep fp cb :: rest →
  ∃ w', deliver_stream s conn t obj w = Some w' ∧ rtc (ls_step ClientRole) w w' ∧ s ∉ UpstreamPool.closed sy ∧
    coupled (UpstreamPool.perform (on_stream_opened None s ep fp cb (Some obj) (sys_pool sy)) (set_opening rest sy)) w'.
Proof.
  intros Hinv Hc Hw Hconn Ht Ho Hop. assert (Opening s ep fp cb ∈ opening sy) as Hin by (rewrite Hop; by left).
  destruct (stream_handed sy w _ conn t obj Hc Hin Hconn) as (w1 & E & Es & Eh & _). unfold deliver_stream. rewrite E. cbn [mbind option_bind].
  destruct (session_of_conn w conn s Hw Hconn) as (q & Hq & Hqc). eexists. split; [done|]. split; [|split].
  - eapply rtc_l; [by eapply ls_new_stream|]. eapply rtc_once, app_retain; [done|]. rewrite Es. by exists q.
  - intros Hx. destruct (cp_closed _ _ Hc s Hx) as (q' & Hq' & Hn). congruence.
  - apply (coupled_io _ (set_holders (s :: holders w) w)); [|done|by rewrite <- Eh]. destruct Hc as [H1 H2 H3 H4 H5 H6].
    split; unfold serves; cbn; try done.
    + set (m := quic_conns_ (sys_pool sy)) in *. rewrite UpstreamPool.pooled_insert, <- (app_assoc _ [s]). cbn.
      rewrite <- Permutation_middle, <- (UpstreamPool.pooled_get m (quic_key ep)). by rewrite H1.
    + intros o Hx. apply H3. rewrite Hop. by right.
Qed.

(** Forgetting a session takes its one entry out of the table. *)
Lemma remove_pooled sy s ep : UpstreamPool.inv sy → (s, ep) ∈ watched sy →
  let m := quic_conns_ (sys_pool sy) in let m' := quic_conns_ (remove_quic_conn ep s (sys_pool sy)) in
  (s ∈ pooled m ∧ pooled m ≡ₚ s :: pooled m') ∨ (s ∉ pooled m ∧ pooled m' ≡ₚ pooled m).
Proof.
  intros Hinv Hin m m'. unfold m'. destruct (UpstreamPool.remove_spec ep s (sys_pool sy)) as (m1 & -> & Hm). cbn. fold m in Hm.
  assert (∀ k, UpstreamPool.in_pool m k s → k = quic_key ep) as Hkey.
  { intros k Hk. destruct (UpstreamPool.inv_alive _ _ Hinv k s Hk) as [_ (ep' & Hin' & <-)]. f_equal. by eapply UpstreamPool.watched_unique. }
  destruct Hm as [[-> Hn]|(dq & Hk & ->)].
  - right. split; [|done]. intros [k Hk]%UpstreamPool.elem_of_pooled. pose proof (Hkey k Hk) as ->. destruct Hk as (l & Hl & _). congruence.
  - rewrite UpstreamPool.pooled_put, (UpstreamPool.pooled_split _ _ _ Hk). destruct (UpstreamPool.drop_session_spec s dq) as [[Hni ->]|[Hi Hperm]].
    + right. split; [|done]. rewrite <- (UpstreamPool.pooled_split _ _ _ Hk). intros [k Hx]%UpstreamPool.elem_of_pooled.
      pose proof (Hkey k Hx) as ->. destruct Hx as (l & Hl & Hs). congruence.
    + left. split; [by apply elem_of_app; left|]. by rewrite Hperm at 1.
Qed.

Lemma drop_session_perm s l k k' : l ≡ₚ k → (s ∈ k ∧ k ≡ₚ s :: k') ∨ (s ∉ k ∧ k' ≡ₚ k) → drop_session s l ≡ₚ k'.
Proof.
  intros Hl Hk. destruct (UpstreamPool.drop_session_spec s l) as [[Hni ->]|[Hi Hperm]], Hk as [[Hin Hk]|[Hni' Hk]].
  - by rewrite Hl in Hni.
  - by rewrite Hl, Hk.
  - apply (Permutation_cons_inv (a := s)). by rewrite <- Hperm, Hl.
  - by rewrite Hl in Hi.
Qed.

Lemma closed_coupled sy w conn s ep rest : UpstreamPool.inv sy → coupled sy w → world_inv ClientRole w →
  conns w !! conn = Some (Some s) → no_streams conn w → watched sy ≡ₚ (s, ep) :: rest →
  ∃ w', deliver_close s conn w = Some w' ∧ rtc (ls_step ClientRole) w w' ∧ Closed s (RemoveQuicConn ep) ∈ calls w' ∧
    coupled (UpstreamPool.perform (on_session_closed s ep (sys_pool sy)) (close_session s rest sy)) w'.
Proof.
  intros Hinv [H1 H2 H3 H4 H5 H6] Hw Hconn Hns Hwat. assert ((s, ep) ∈ watched sy) as Hin by (rewrite Hwat; by left).
  destruct (session_of_conn w conn s Hw Hconn) as (q & Hq & Hqc). destruct (H2 s ep Hin) as (q0 & Hq0 & _ & Hcb). assert (q0 = q) as -> by congruence.
  destruct (conn_closed_eq conn s q w Hconn Hq Hqc) as (w1 & E & _ & Ew). unfold deliver_close. rewrite E. cbn [mbind option_bind].
  assert (free_conn conn w1 = closed_world conn s q w) as Ew'.
  { rewrite Ew. apply collect_kept. intros q'. cbn. rewrite lookup_insert_eq. intros [= <-]. exact (H5 s q Hq). }
  assert (∀ q', sessions (free_conn conn w1) !! s = Some q' → captures_itself q' = true) as Hcap.
  { intros q'. rewrite Ew'. cbn. rewrite lookup_insert_eq. intros [= <-]. exact (H5 s q Hq). }
  eexists. split; [done|]. split; [|rewrite (drop_holder_kept _ _ Hcap), Ew'; split].
  - eapply rtc_l; [by eapply ls_conn_closed|]. unfold drop_holder. case_decide as Hh; [|done]. eapply rtc_once, app_drop.
    by destruct (UpstreamPool.drop_session_spec s (holders (free_conn conn w1))) as [[? _]|[_ ?]].
  - cbn. unfold notified. rewrite Hcb. by left.
  - assert (∀ s', s' ≠ s → sessions (closed_world conn s q w) !! s' = sessions w !! s') as Hne by (intros; cbn; by rewrite lookup_insert_ne).
    assert (∀ s' ep', (s', ep') ∈ rest → s' ≠ s) as Hrest.
    { intros s' ep' Hx ->. pose proof (UpstreamPool.inv_watched _ _ Hinv) as Hnd. rewrite Hwat in Hnd. cbn in Hnd. inversion_clear Hnd as [|? ? Hni _].
      apply Hni, elem_of_app. left. apply list_elem_of_fmap. by exists (s, ep'). }
    assert (∀ s', is_Some (sessions (closed_world conn s q w) !! s') → is_Some (sessions w !! s')) as Hback.
    { intros s'. destruct (decide (s' = s)) as [->|Hn]; [by rewrite Hq|by rewrite Hne]. }
    split; unfold serves; cbn -[closed_world].
    + apply (drop_session_perm s _ _ _ H1). by apply remove_pooled.
    + intros s' ep' Hx. cbn [sessions set_holders]. rewrite Hne by (by eapply Hrest). apply H2. rewrite Hwat. by right.
    + intros o Hx. destruct (H3 o Hx) as (q' & Hq' & Hn). destruct (decide (o_session o = s)) as [Eo|Hn'].
      * exists (after_close q). rewrite Eo. cbn. rewrite lookup_insert_eq. split; [done|]. congruence.
      * cbn [sessions set_holders]. rewrite Hne by done. by exists q'.
    + intros s' [->|Hx]%elem_of_cons; [exists (after_close q); cbn; by rewrite lookup_insert_eq|].
      destruct (decide (s' = s)) as [->|Hn]; [exists (after_close q); cbn; by rewrite lookup_insert_eq|].
      cbn [sessions set_holders]. rewrite Hne by done. by apply H4.
    + intros s' q'. cbn. intros [[<- <-]|[_ Hx]]%lookup_insert_Some; [exact (H5 s q Hq)|by eapply H5].
    + intros s' Hx. pose proof (H6 s' (Hback s' Hx)) as Hk. rewrite Hwat in Hk. cbn in Hk. set_solver.
Qed.

Lemma init_coupled : coupled UpstreamPool.init init_world.
Proof. split; cbn; unfold serves; try set_solver. intros s. cbn. by rewrite lookup_empty. Qed.

Lemma ls_reachable_more w w' : ls_reachable ClientRole w → rtc (ls_step ClientRole) w w' → ls_reachable ClientRole w'.
Proof. unfold ls_reachable. apply transitivity. Qed.

(** The invariant of the two together: each runs as it does alone. *)
Definition qp_inv (resolvable : BackendEndpoint → bool) (x : system * world) : Prop :=
  UpstreamPool.reachable resolvable (fst x) ∧ ls_reachable ClientRole (snd x) ∧ coupled (fst x) (snd x).

Lemma qp_step_inv resolvable x y : qp_step resolvable x y → qp_inv resolvable x → qp_inv resolvable y.
Proof.
  intros Hs (Hr & Hl & Hc). unfold qp_inv.
  destruct Hs as [sy w w' eng id cb conn peer Ha Hn r E|sy w w' eng ep cb conn peer Ha Hn r E|sy w w' conn s t o ep fp cb rest Hconn Ht Ho Hop Hf E
    |sy w w' conn s ep rest Hconn Hns Hwat E|sy w b|sy w cb target r rest Hco Hf|sy w ep st rest Hh|sy w st rest Hh|sy w w' Hst E1 E2]; cbn [fst snd] in *;
    pose proof (UpstreamPool.pool_reachable_inv _ _ Hr) as Hinv; pose proof (ls_reachable_inv _ _ Hl) as Hw;
    try (split; [eapply rtc_r; [exact Hr|by econstructor]|]; split; [done|]; by eapply coupled_tcp).
  - destruct (connect_coupled resolvable sy w eng id cb conn peer Hinv Hc Hw Hn) as (w1 & E1 & Hx & Hc1). assert (w1 = w') as <- by (subst r; congruence).
    split; [eapply rtc_r; [exact Hr|apply UpstreamPool.step_connect; [done|by eapply coupled_fresh]]|]. split; [by eapply ls_reachable_more|done].
  - destruct (connect_fresh_coupled resolvable sy w eng ep cb conn peer Hinv Hc Hw Hn) as (w1 & E1 & Hx & Hc1). assert (w1 = w') as <- by (subst r; congruence).
    split; [eapply rtc_r; [exact Hr|apply UpstreamPool.step_connect_fresh; [done|by eapply coupled_fresh]]|]. split; [by eapply ls_reachable_more|done].
  - destruct (stream_coupled sy w conn s t o ep fp cb rest Hinv Hc Hw Hconn Ht Ho Hop) as (w1 & E1 & Hx & Hcl & Hc1). assert (w1 = w') as <- by congruence.
    split; [eapply rtc_r; [exact Hr|eapply UpstreamPool.step_opened; [done|done|by intros st [= <-]]]|]. split; [by eapply ls_reachable_more|done].
  - destruct (closed_coupled sy w conn s ep rest Hinv Hc Hw Hconn Hns Hwat) as (w1 & E1 & Hx & _ & Hc1). assert (w1 = w') as <- by congruence.
    split; [eapply rtc_r; [exact Hr|by eapply UpstreamPool.step_closed]|]. split; [by eapply ls_reachable_more|done].
  - split; [eapply rtc_r; [exact Hr|by apply UpstreamPool.step_tcp_done]|]. split; [done|]. destruct r as [ec|[st|]]; by eapply coupled_tcp.
  - split; [eapply rtc_r; [exact Hr|by eapply UpstreamPool.step_release]|]. split; [done|]. eapply coupled_tcp; try done.
    cbn. unfold UpstreamPool.release. by case_decide.
  - split; [done|]. split; [by eapply rtc_r|by eapply coupled_io].
Qed.

Lemma qp_reachable_inv resolvable x : qp_reachable resolvable x → qp_inv resolvable x.
Proof.
  intros Hr. assert (qp_inv resolvable (UpstreamPool.init, init_world)) as Hi by (split_and!; [apply rtc_refl|apply rtc_refl|apply init_coupled]).
  revert Hi. induction Hr as [x|x y z Hs _ IH]; [done|]. intros Hi. apply IH. by eapply qp_step_inv.
Qed.

(** ** Properties *)

Section properties.
Context (resolvable : BackendEndpoint → bool).

(** C12: The pool and the client engine's objects stay in step, whatever the
    order of connects, streams and closes.  Every session in the reuse table is
    alive on its own connection; no connect uses an object that is gone; a
    stream lsquic delivers goes to the very request it was opened for, whether
    the session was fresh or reused, and a connection that closes is reported to
    the pool under the endpoint it was made for. *)
Theorem pool_and_engine_in_step sy w : qp_reachable resolvable (sy, w) →
  (∀ s, s ∈ pooled (quic_conns_ (sys_pool sy)) → ∃ q c, sessions w !! s = Some q ∧ conn_ q = Some c ∧ conns w !! c = Some (Some s)) ∧
  (∀ eng id cb conn peer, new_names eng conn w → is_Some (realize conn peer (snd (async_connect resolvable eng id cb (sys_pool sy))) w)) ∧
  (∀ o conn t obj, o ∈ opening sy → conns w !! conn = Some (Some (o_session o)) →
     ∃ w', new_stream_cb conn (Some t) obj (accept_stream conn t w) = Some w' ∧
       calls w' = NewStream (o_session o) (OpenQuic (o_cb o)) (Some obj) :: calls w) ∧
  (∀ s conn, conns w !! conn = Some (Some s) → no_streams conn w →
     ∃ ep w', (s, ep) ∈ watched sy ∧ deliver_close s conn w = Some w' ∧ Closed s (RemoveQuicConn ep) ∈ calls w').
Proof using Type.
  intros (Hr & Hl & Hc)%qp_reachable_inv. cbn [fst snd] in *.
  pose proof (UpstreamPool.pool_reachable_inv _ _ Hr) as Hinv. pose proof (ls_reachable_inv _ _ Hl) as Hw. split_and!.
  - intros s [k Hk]%UpstreamPool.elem_of_pooled. destruct (UpstreamPool.inv_alive _ _ Hinv k s Hk) as [_ (ep & Hin & _)].
    destruct (cp_watched _ _ Hc s ep Hin) as (q & Hq & Hne & _). destruct (conn_ q) as [c|] eqn:Ec; [|done]. exists q, c. split_and!; [done..|].
    by apply (so_conn _ _ _ _ _ (wv_sessions _ _ _ _ Hw s q Hq)).
  - intros eng id cb conn peer Hn. destruct (connect_coupled resolvable sy w eng id cb conn peer Hinv Hc Hw Hn) as (w' & -> & _). by exists w'.
  - intros o conn t obj Ho Hconn. destruct (stream_handed sy w o conn t obj Hc Ho Hconn) as (w' & E & _ & _ & Ec). by exists w'.
  - intros s conn Hconn Hns. destruct (session_of_conn w conn s Hw Hconn) as (q & Hq & Hqc).
    assert (s ∈ map fst (watched sy)) as ([s' ep] & -> & Hin)%list_elem_of_fmap.
    { pose proof (cp_known _ _ Hc s ltac:(by exists q)) as [?|Hx]%elem_of_app; [done|]. destruct (cp_closed _ _ Hc s Hx) as (q' & Hq' & Hn). congruence. }
    apply elem_of_Permutation in Hin as Hin'. destruct Hin' as [rest Hwat].
    destruct (closed_coupled sy w conn s' ep rest Hinv Hc Hw Hconn Hns Hwat) as (w' & E & _ & Hcl & _). by exists ep, w'.
Qed.
End properties.

(** A first connect: a fresh session, whose stream then comes up. *)
Definition first_connect : system * world :=
  let r := async_connect_fresh (λ _, true) (Some 5) upstream 3 (UpstreamPool.add_backend upstream UpstreamPool.new_pool) in
  (UpstreamPool.perform r (ask 3 (UpstreamPool.set_pool (UpstreamPool.add_backend upstream UpstreamPool.new_pool) UpstreamPool.init)),
   default init_world (realize 1 (PeerV4 #"10.0.0.2") (snd r) init_world)).

Lemma first_connect_reachable : qp_reachable (λ _, true) first_connect.
Proof.
  eapply rtc_l; [apply (qp_backend _ _ _ upstream)|]. apply rtc_once. unfold first_connect. cbv zeta.
  apply (qp_connect_fresh (λ _, true) (UpstreamPool.set_pool (UpstreamPool.add_backend upstream UpstreamPool.new_pool) UpstreamPool.init) init_world _
    (Some 5) upstream 3 1 (PeerV4 #"10.0.0.2")); [by apply not_elem_of_nil|by split|vm_compute; reflexivity].
Qed.

Lemma pool_and_engine_in_step_witness : opening (fst first_connect) = [Opening 5 upstream false 3] ∧
  ∃ w', new_stream_cb 1 (Some 8) 9 (accept_stream 1 8 (snd first_connect)) = Some w' ∧
    calls w' = NewStream 5 (OpenQuic 3) (Some 9) :: calls (snd first_connect).
Proof.
  split; [reflexivity|].
  destruct (pool_and_engine_in_step (λ _, true) (fst first_connect) (snd first_connect) first_connect_reachable) as (_ & _ & H & _).
  apply (H (Opening 5 upstream false 3) 1 8 9); [by left|vm_compute; reflexivity].
Defined.
