(* ===== verification/Backend.v ===== *)
(** * The backend side of a worker
    (src/src/proxy/relay_session.cpp, src/src/proxy/upstream_pool.cpp and
    src/src/transport/quic_transport.cpp)

    [Worker] runs the relay sessions of a worker against the pool they share,
    [QuicPool] the pool against the session and stream objects of its client
    engine.  Here all three run together: a call a relay makes on the pool is
    carried out on the pool and, what the pool asks of QUIC sessions, on the
    engine's objects; a stream lsquic delivers goes through the pool to the relay
    that asked; and a relay uses and lets go of the stream it holds.

    The streams of TCP and QUIC backends have different names: [quic] says which
    are objects of the engine. *)

From S2P Require Import Prelude CppStd Transport HttpMessage H1Codec Config Router Stats UpstreamPool.
From S2P Require Import RelaySession RelayTheorems RelayTrace Worker.
From S2P Require QuicStream QuicSession QuicPool.
Import QuicSession (world, ClientRole, conns, sessions, lstreams, wrappers, holders, stream_holders, peer_addr, world_inv, ls_step, by_relay, use_stream,
  collect_wrapper, set_stream_holders).
Import QuicPool (realize, carry_out, deliver_stream, deliver_close, new_names, qp_step, qp_reachable, qp_inv).

Record backend := BE {
  be_worker : worker;
  be_world : world;
}.

Definition be_pool (b : backend) : system * world := (w_sys (be_worker b), be_world b).

(** The pointer a relay had to a stream goes away; a TCP stream is none of the
    engine's. *)
Definition let_go (o : nat) (w : world) : world :=
  if decide (o ∈ stream_holders w) then collect_wrapper o (set_stream_holders (drop_session o (stream_holders w)) w) else w.

(** [close_backend]: the stream is shut down and dropped. *)
Definition shut_down (ok : bool) (cb o : nat) (w : world) : option world :=
  if decide (o ∈ stream_holders w) then w1 ← use_stream (QuicStream.OShutdown ok cb) o w; Some (let_go o w1) else Some w.

(** [release]: the pool does not keep a QUIC stream. *)
Definition released (ep : BackendEndpoint) (o : nat) (w : world) : world :=
  if decide (ep_protocol ep = QUIC) then let_go o w else w.

Section backend.
Context (resolvable : BackendEndpoint → bool) (quic : nat → bool) (rt : Router.t) (timeout : Z).

(** One call of session [i], carried out. *)
Inductive bserve (i : nat) : action → backend → backend → Prop :=
  | b_connect k w w' eng id cb conn peer : cb ∉ asked (w_sys k) → new_names eng conn w →
      let r := async_connect resolvable eng id cb (sys_pool (w_sys k)) in
      realize conn peer (snd r) w = Some w' →
      bserve i (Connect id) (BE k w) (BE (set_asks ((cb, i) :: w_asks k) (pool_call r (ask cb (w_sys k)) k)) w')
  | b_connect_fresh k w w' eng ep cb conn peer : cb ∉ asked (w_sys k) → new_names eng conn w →
      let r := async_connect_fresh resolvable eng ep cb (sys_pool (w_sys k)) in
      realize conn peer (snd r) w = Some w' →
      bserve i (ConnectFresh ep) (BE k w) (BE (set_asks ((cb, i) :: w_asks k) (pool_call r (ask cb (w_sys k)) k)) w')
  | b_release k w ep o rest : held (w_sys k) ≡ₚ o :: rest →
      bserve i (Release ep o) (BE k w)
        (BE (set_sys (set_pool (release ep o (sys_pool (w_sys k))) (set_held rest (w_sys k))) k) (released ep o w))
  | b_shutdown k w w' ok cb o rest : held (w_sys k) ≡ₚ o :: rest → shut_down ok cb o w = Some w' →
      bserve i (ShutdownBackend o) (BE k w) (BE (set_sys (set_held rest (w_sys k)) k) w')
  | b_other k w a : is_connect a = false → disposes a = None → bserve i a (BE k w) (BE k w).

Inductive bserves (i : nat) : list action → backend → backend → Prop :=
  | bserves_nil b : bserves i [] b b
  | bserves_cons a acts b b1 b2 : bserve i a b b1 → bserves i acts b1 b2 → bserves i (a :: acts) b b2.

Definition bhandled (i : nat) (r r' : RelaySession) (k : worker) (w : world) (b' : backend) : Prop :=
  bserves i (since (log r) (log r')) (BE (set_relay i r' k) w) b'.

Inductive bstep : backend → backend → Prop :=
  (** the configuration, and events the pool waits for *)
  | b_backend k w be : bstep (BE k w) (BE (set_sys (set_pool (add_backend be (sys_pool (w_sys k))) (w_sys k)) k) w)
  | b_tcp_done k w cb target r rest : connecting (w_sys k) ≡ₚ (cb, target) :: rest →
      (∀ st, r = inr (Some st) → fresh_stream (w_sys k) st ∧ quic st = false) →
      bstep (BE k w) (BE (pool_call (on_tcp_connected target cb r (sys_pool (w_sys k))) (set_connecting rest (w_sys k)) k) w)
  | b_stream k w w' conn s t o ep fp cb rest : conns w !! conn = Some (Some s) → lstreams w !! t = None → wrappers w !! o = None →
      quic o = true → opening (w_sys k) ≡ₚ Opening s ep fp cb :: rest → fresh_stream (w_sys k) o →
      deliver_stream s conn t o w = Some w' →
      bstep (BE k w) (BE (pool_call (on_stream_opened None s ep fp cb (Some o) (sys_pool (w_sys k))) (set_opening rest (w_sys k)) k) w')
  | b_closed k w w' conn s ep rest : conns w !! conn = Some (Some s) → QuicSession.no_streams conn w →
      watched (w_sys k) ≡ₚ (s, ep) :: rest → deliver_close s conn w = Some w' →
      bstep (BE k w) (BE (pool_call (on_session_closed s ep (sys_pool (w_sys k))) (close_session s rest (w_sys k)) k) w')
  | b_io k w w' : ls_step ClientRole w w' → sessions w' = sessions w → holders w' = holders w → stream_holders w' = stream_holders w →
      bstep (BE k w) (BE k w')
  (** sessions *)
  | b_accept k w h1 :
      bstep (BE k w) (BE (Worker (w_sys k) (w_relays k ++ [start (new_relay h1 rt timeout)]) (w_answers k) (w_asks k)) w)
  | b_event k w b' i r r' kt x pre post :
      w_relays k !! i = Some r → crashed r = false → pending r = pre ++ kt :: post → is_wait kt = false →
      resume kt x (set_pending (pre ++ post) r) = Some r' → bhandled i r r' k w b' → bstep (BE k w) b'
  | b_timeout k w b' i r : w_relays k !! i = Some r → crashed r = false → (0 < idle_timeout_ r)%Z →
      bhandled i r (teardown (set_timer_armed false r)) k w b' → bstep (BE k w) b'
  | b_stop k w b' i r : w_relays k !! i = Some r → crashed r = false → bhandled i r (graceful_close r) k w b' → bstep (BE k w) b'
  | b_deliver k w b' i r r' kt x rest asks pre post :
      w_relays k !! i = Some r → crashed r = false → pending r = pre ++ kt :: post → is_wait kt = true →
      w_answers k ≡ₚ x :: rest → w_asks k ≡ₚ (a_cb x, i) :: asks →
      resume kt (Connected (a_res x) (a_ep x) (a_from_pool x)) (set_pending (pre ++ post) r) = Some r' →
      bhandled i r r' (Worker (w_sys k) (w_relays k) rest asks) w b' → bstep (BE k w) b'
  (** a relay reads from or writes to the QUIC stream it holds *)
  | b_use k w w' i r o op : w_relays k !! i = Some r → o ∈ current r → quic o = true → by_relay op → use_stream op o w = Some w' →
      bstep (BE k w) (BE k w').

Definition new_backend : backend := BE new_worker QuicSession.init_world.

Definition backend_reachable : backend → Prop := rtc bstep new_backend.

End backend.

(** ** The coupling *)

(** The streams of a system: held by relays or idle in the pool. *)
Definition streams (sy : system) : list nat := held sy ++ idle_streams (endpoints_ (sys_pool sy)).

(** Every QUIC stream a relay holds is an object some pointer outside lsquic
    keeps. *)
Definition objects_kept (quic : nat → bool) (b : backend) : Prop :=
  ∀ o, o ∈ streams (w_sys (be_worker b)) → quic o = true → o ∈ stream_holders (be_world b).

(** A stream a relay or the pool holds that lsquic has closed: its object is
    there, its handle is null. *)
Definition closed_stream (o : nat) (w : world) : Prop :=
  o ∈ stream_holders w ∧ ∃ x, wrappers w !! o = Some x ∧ QuicStream.stream_ (QuicSession.w_state x) = false.

(** Calls among which is the shutdown of such a stream. *)
Definition shuts_closed (acts : list action) (w : world) : Prop := ∃ o, ShutdownBackend o ∈ acts ∧ closed_stream o w.

(** ** Lemmas: what the operations leave of the held streams *)

Section frames.
Context (resolvable : BackendEndpoint → bool).

(** Worlds with the same stream objects, held by the same pointers. *)
Definition same_streams (w w' : world) : Prop := stream_holders w' = stream_holders w ∧ wrappers w' = wrappers w.

Lemma same_streams_trans w w1 w2 : same_streams w w1 → same_streams w1 w2 → same_streams w w2.
Proof. unfold same_streams. intros [H1 H2] [H3 H4]. by rewrite H3, H4. Qed.

Lemma collect_streams x w : same_streams w (QuicSession.collect x w).
Proof. unfold QuicSession.collect. destruct (sessions w !! x) as [q|]; [|done]. destruct (QuicSession.referenced _ _ _); [done|]. by destruct (QuicSession.conn_ q). Qed.

Lemma drop_holder_streams x w : same_streams w (QuicPool.drop_holder x w).
Proof. unfold QuicPool.drop_holder. case_decide; [|done]. exact (collect_streams x (QuicSession.set_holders _ w)). Qed.

Lemma open_stream_streams x cb w w' : QuicSession.async_open_stream x cb w = Some w' → same_streams w w'.
Proof.
  unfold QuicSession.async_open_stream, QuicSession.set_new_stream_cb, QuicSession.on_session_at. destruct (sessions w !! x) as [q|]; [|done]. cbn.
  rewrite lookup_insert_eq. cbn. intros [= <-]. by destruct (QuicSession.conn_ q).
Qed.

Lemma carry_out_streams conn peer e w w' : carry_out conn peer e w = Some w' → same_streams w w'.
Proof.
  destruct e as [| |x ep fp cb|x ep|]; cbn; try by intros [= <-].
  - destruct (QuicSession.async_open_stream x cb w) as [w1|] eqn:E; [|done]. cbn. apply open_stream_streams in E. intros [= <-].
    destruct fp; [|done]. by eapply same_streams_trans; [|apply drop_holder_streams].
  - destruct (QuicSession.client_new_conn_eq false x conn peer ep None w) as (q & cs & -> & _). cbn.
    unfold QuicSession.set_closed_cb, QuicSession.on_session_at. cbn. rewrite lookup_insert_eq. by intros [= <-].
Qed.

Lemma realize_streams conn peer effs w w' : realize conn peer effs w = Some w' → same_streams w w'.
Proof.
  unfold realize. revert w. induction effs as [|e effs IH]; intros w; cbn [fold_left mbind option_bind]; [by intros [= <-]|].
  destruct (carry_out conn peer e w) as [w1|] eqn:E; [|intros H; exfalso; clear IH E; by induction effs].
  intros H. eapply same_streams_trans; [by eapply carry_out_streams|by apply IH].
Qed.

Lemma use_stream_holders op o w w' : by_relay op → use_stream op o w = Some w' →
  stream_holders w' = stream_holders w ∧ sessions w' = sessions w ∧ holders w' = holders w.
Proof. intros Hop (x & st & outs & _ & _ & _ & ->)%QuicSession.use_stream_eq; done. Qed.

Lemma collect_wrapper_frame o w : stream_holders (collect_wrapper o w) = stream_holders w ∧ sessions (collect_wrapper o w) = sessions w ∧
  holders (collect_wrapper o w) = holders w.
Proof.
  unfold collect_wrapper. destruct (wrappers w !! o) as [x|]; [|done]. destruct (_ || _); [done|]. by destruct (QuicStream.stream_ _).
Qed.

Lemma let_go_keeps o o' w : o' ≠ o → o' ∈ stream_holders w → o' ∈ stream_holders (let_go o w).
Proof.
  intros Hne Hin. unfold let_go. case_decide as Ho; [|done]. rewrite (proj1 (collect_wrapper_frame o _)). cbn.
  destruct (drop_session_spec o (stream_holders w)) as [[? _]|[_ Hp]]; [done|]. rewrite Hp in Hin. by apply elem_of_cons in Hin as [?|?].
Qed.

Lemma let_go_closed o o' w : closed_stream o' (let_go o w) → closed_stream o' w.
Proof.
  unfold let_go. case_decide as Ho; [|done]. unfold closed_stream. rewrite (proj1 (collect_wrapper_frame o _)). cbn. intros [H1 (x & Hx & Hc)].
  split.
  - destruct (drop_session_spec o (stream_holders w)) as [[? _]|[_ Hp]]; [done|]. rewrite Hp. by right.
  - exists x. split; [|done]. unfold collect_wrapper in Hx. cbn in Hx. destruct (wrappers w !! o) as [y|] eqn:Ey; [|done].
    destruct (_ || _); [done|]. destruct (QuicStream.stream_ _); cbn in Hx; by apply lookup_delete_Some in Hx as [_ ?].
Qed.

Lemma use_stream_closed op o o' w w' : by_relay op → use_stream op o w = Some w' → closed_stream o' w' → closed_stream o' w.
Proof.
  intros Hop (x & st & outs & Hx & _ & Hst & ->)%QuicSession.use_stream_eq; [|done]. intros [H1 (y & Hy & Hc)]. split; [done|]. cbn in Hy.
  destruct (decide (o = o')) as [<-|Hne]; [|rewrite lookup_insert_ne in Hy by done; by exists y].
  rewrite lookup_insert_eq in Hy. injection Hy as <-. exists x. cbn in Hc. by rewrite <- Hst.
Qed.

Lemma same_streams_closed o w w' : same_streams w w' → closed_stream o w' → closed_stream o w.
Proof. unfold closed_stream. by intros [-> ->]. Qed.

Lemma let_go_qp o sy w : rtc (qp_step resolvable) (sy, w) (sy, let_go o w).
Proof.
  unfold let_go. case_decide as Ho; [|done]. apply rtc_once. destruct (drop_session_spec o (stream_holders w)) as [[? _]|[_ Hp]]; [done|].
  apply QuicPool.qp_io; [by eapply QuicSession.app_drop_stream|by rewrite (proj1 (proj2 (collect_wrapper_frame o _)))
    |by rewrite (proj2 (proj2 (collect_wrapper_frame o _)))].
Qed.

(** ** Lemmas: the streams of the pool *)

Lemma outcome_streams eng ep cb p r sy : endpoints_ p = endpoints_ (sys_pool sy) → quic_outcome eng ep cb p r →
  streams (perform r (ask cb sy)) = streams sy.
Proof. intros E [e|x Hx|x m Hp]; unfold streams, perform; cbn; by rewrite E. Qed.

Lemma connect_streams eng id cb sy o : UpstreamPool.inv sy →
  o ∈ streams (perform (async_connect resolvable eng id cb (sys_pool sy)) (ask cb sy)) → o ∈ streams sy.
Proof.
  intros Hinv. destruct (decide (candidates id (sys_pool sy) = [])) as [Hc|Hc]; [unfold async_connect; by rewrite Hc|].
  destruct (async_connect_pick resolvable eng id cb _ (UpstreamPool.inv_rr _ _ Hinv) Hc) as (i & e & _ & He & _ & ->). case_decide.
  - erewrite (outcome_streams eng (be e) cb (set_rr (u64 (rr_index_ (sys_pool sy) + 1)) (sys_pool sy)));
      [done|done|]. apply quic_connect_outcome. apply Hinv.
  - destruct (idle e) as [|st rest] eqn:Ei.
    + unfold connect_fresh_to, perform, streams. cbn. by destruct (resolvable (be e)).
    + unfold perform, streams. cbn. destruct (idle_streams_insert _ _ _ (Entry (be e) rest) He) as (others & P1 & P2).
      rewrite P1, Ei. cbn in *. rewrite !elem_of_cons, !elem_of_app, P2, !elem_of_cons, !elem_of_app. cbn. tauto.
Qed.

Lemma connect_fresh_streams eng ep cb sy o : UpstreamPool.inv sy →
  o ∈ streams (perform (async_connect_fresh resolvable eng ep cb (sys_pool sy)) (ask cb sy)) → o ∈ streams sy.
Proof.
  intros Hinv. unfold async_connect_fresh. case_decide.
  - erewrite (outcome_streams eng ep cb (sys_pool sy)); [done|done|]. apply quic_connect_fresh_outcome. apply Hinv.
  - unfold connect_fresh_to, perform, streams. cbn. by destruct (resolvable ep).
Qed.
End frames.

(** A relay gives up a stream: it is held and idle nowhere else. *)
Lemma given_up sy o rest o' : UpstreamPool.inv sy → held sy ≡ₚ o :: rest → o' ∈ rest ++ idle_streams (endpoints_ (sys_pool sy)) → o' ≠ o.
Proof.
  intros Hinv Hh Hin ->. pose proof (UpstreamPool.inv_streams _ _ Hinv) as Hn. rewrite Hh in Hn. cbn in Hn. by apply list.NoDup_cons in Hn as [? _].
Qed.

Lemma still_held sy o rest o' : held sy ≡ₚ o :: rest → o' ∈ rest ++ idle_streams (endpoints_ (sys_pool sy)) → o' ∈ streams sy.
Proof. intros Hh. unfold streams. rewrite Hh. cbn. intros. by right. Qed.

Lemma release_streams ep o sy rest o' : ep_protocol ep ≠ QUIC → held sy ≡ₚ o :: rest →
  o' ∈ streams (set_pool (release ep o (sys_pool sy)) (set_held rest sy)) → o' ∈ streams sy.
Proof.
  intros Hp Hh. unfold streams, release. rewrite decide_False by done. cbn.
  destruct (release_in_spec ep o (endpoints_ (sys_pool sy))) as (l & Hl & P). rewrite !elem_of_app, P, Hh, elem_of_app, elem_of_cons.
  destruct Hl as [-> | ->]; [rewrite elem_of_nil|rewrite list_elem_of_singleton]; tauto.
Qed.

Lemma since_eq new l l' : l' = new ++ l → since l l' = rev new.
Proof. intros ->. apply since_app. Qed.

(** What a teardown and a stop shut down. *)
Lemma teardown_shuts r o : ShutdownBackend o ∈ since (log r) (log (teardown (set_timer_armed false r))) →
  ShutdownBackend o ∈ map ShutdownBackend (current r).
Proof.
  rewrite (since_eq (if done_ r then [] else map ShutdownBackend (current r) ++ [ShutdownClient])).
  - destruct (done_ r); [by intros ?%not_elem_of_nil|]. rewrite rev_app_distr. cbn. intros [?|H]%elem_of_cons; [done|].
    apply list_elem_of_In, in_rev. by apply list_elem_of_In.
  - unfold teardown. cbn. destruct (done_ r); [done|]. rewrite goto_phase_eq, close_backend_eq. cbn. by rewrite <- app_assoc.
Qed.

Lemma stop_shuts_nothing r o : ShutdownBackend o ∉ since (log r) (log (graceful_close r)).
Proof.
  rewrite (since_eq (if done_ r then [] else if decide (phase_ r = kRequest) then [ShutdownClient] else [])).
  - destruct (done_ r); [by apply not_elem_of_nil|]. case_decide; [by intros ?%list_elem_of_singleton|by apply not_elem_of_nil].
  - unfold graceful_close. destruct (done_ r); [done|]. cbn. by case_decide.
Qed.

Section invariant.
Context (resolvable : BackendEndpoint → bool) (quic : nat → bool) (rt : Router.t) (timeout : Z).

(** What holds within a handler, too. *)
Definition engine_ok (b : backend) : Prop := qp_reachable resolvable (be_pool b) ∧ objects_kept quic b.

Lemma engine_ok_pool b : engine_ok b → UpstreamPool.inv (w_sys (be_worker b)) ∧ world_inv ClientRole (be_world b) ∧
  QuicPool.coupled (w_sys (be_worker b)) (be_world b).
Proof.
  intros [(H1 & H2 & H3)%QuicPool.qp_reachable_inv _]. split_and!; [by eapply pool_reachable_inv|by eapply QuicSession.ls_reachable_inv|done].
Qed.

Lemma qp_more x y : qp_reachable resolvable x → rtc (qp_step resolvable) x y → qp_reachable resolvable y.
Proof. unfold qp_reachable. apply transitivity. Qed.

(** A stream a pointer outside lsquic keeps can be shut down and dropped. *)
Lemma shut_down_ok ok cb o sy w w' : shut_down ok cb o w = Some w' → rtc (qp_step resolvable) (sy, w) (sy, w') ∧
  ∀ o', o' ≠ o → o' ∈ stream_holders w → o' ∈ stream_holders w'.
Proof.
  unfold shut_down. case_decide as Ho; [|by intros [= <-]]. destruct (use_stream _ o w) as [w1|] eqn:E; [|done]. cbn. intros [= <-].
  destruct (use_stream_holders (QuicStream.OShutdown ok cb) _ _ _ I E) as (E1 & E2 & E3). split.
  - eapply rtc_l; [|apply let_go_qp]. apply QuicPool.qp_io; [by eapply (QuicSession.app_use _ _ _ o (QuicStream.OShutdown ok cb))|done|done].
  - intros o' Hne Hin. apply let_go_keeps; [done|by rewrite E1].
Qed.

Lemma bserve_ok i a b b' : bserve resolvable i a b b' → engine_ok b → serve resolvable i a (be_worker b) (be_worker b') ∧ engine_ok b'.
Proof.
  intros Hs Hb. pose proof (engine_ok_pool b Hb) as (Hinv & Hw & Hc). destruct Hb as [Hq Hk].
  destruct Hs as [k w w' eng id cb conn peer Hcb Hn r E|k w w' eng ep cb conn peer Hcb Hn r E|k w ep o rest Hh|k w w' ok cb o rest Hh E|k w a Ha Hd];
    cbn [be_worker be_world be_pool] in *.
  - split; [apply serve_connect; [done|by eapply QuicPool.coupled_fresh]|]. split; [eapply rtc_r; [exact Hq|by eapply QuicPool.qp_connect]|].
    intros o Ho Hqo. cbn in *. rewrite (proj1 (realize_streams _ _ _ _ _ E)). apply Hk; [by eapply connect_streams|done].
  - split; [apply serve_connect_fresh; [done|by eapply QuicPool.coupled_fresh]|]. split; [eapply rtc_r; [exact Hq|by eapply QuicPool.qp_connect_fresh]|].
    intros o Ho Hqo. cbn in *. rewrite (proj1 (realize_streams _ _ _ _ _ E)). apply Hk; [by eapply connect_fresh_streams|done].
  - split; [by apply serve_release|]. unfold released. split.
    + eapply qp_more; [exact Hq|]. eapply rtc_l; [by eapply QuicPool.qp_release|]. cbn. case_decide; [apply let_go_qp|done].
    + intros o' Ho Hqo. cbn in *. case_decide as Hp.
      * unfold streams, release in Ho. rewrite decide_True in Ho by done. cbn in Ho.
        apply let_go_keeps; [by eapply given_up|]. apply Hk; [by eapply still_held|done].
      * apply Hk; [by eapply release_streams|done].
  - split; [by apply serve_shutdown|]. destruct (shut_down_ok ok cb o (set_held rest (w_sys k)) w w' E) as [Hr Hkeep]. split.
    + eapply qp_more; [exact Hq|]. eapply rtc_l; [by eapply QuicPool.qp_drop|exact Hr].
    + intros o' Ho Hqo. cbn in *. unfold streams in Ho. cbn in Ho. apply Hkeep; [by eapply given_up|]. apply Hk; [by eapply still_held|done].
  - split; [by apply serve_other|done].
Qed.

(** No call closes a stream under the calls that follow it. *)
Lemma bserve_closed i a b b' o : bserve resolvable i a b b' → closed_stream o (be_world b') → closed_stream o (be_world b).
Proof.
  intros [k w w' eng id cb conn peer Hcb Hn r E|k w w' eng ep cb conn peer Hcb Hn r E|k w ep o' rest Hh|k w w' ok cb o' rest Hh E|k w a' Ha Hd]; cbn.
  - eapply same_streams_closed, realize_streams, E.
  - eapply same_streams_closed, realize_streams, E.
  - unfold released. case_decide; [apply let_go_closed|done].
  - unfold shut_down in E. case_decide; [|by injection E as <-]. destruct (use_stream _ o' w) as [w1|] eqn:E1; [|done]. cbn in E. injection E as <-.
    intros Hc%let_go_closed. by eapply (use_stream_closed (QuicStream.OShutdown ok cb)).
  - done.
Qed.

Lemma bserves_ok i acts b b' : bserves resolvable i acts b b' → engine_ok b →
  serves resolvable i acts (be_worker b) (be_worker b') ∧ engine_ok b'.
Proof.
  induction 1 as [b|a acts b b1 b2 Hs _ IH]; intros Hb; [split; [constructor|done]|].
  destruct (bserve_ok i a b b1 Hs Hb) as [H1 H2]. destruct (IH H2) as [H3 H4]. split; [by econstructor|done].
Qed.

Lemma bhandled_ok i r r' k w b' : bhandled resolvable i r r' k w b' → engine_ok (BE k w) →
  handled resolvable i r r' k (be_worker b') ∧ engine_ok b'.
Proof. intros Hs Hb. apply (bserves_ok i _ _ _ Hs). exact Hb. Qed.

Lemma deliver_stream_holders sy w w' x conn t o : QuicPool.coupled sy w → x ∈ opening sy →
  conns w !! conn = Some (Some (o_session x)) → deliver_stream (o_session x) conn t o w = Some w' → stream_holders w' = o :: stream_holders w.
Proof.
  intros Hc Hx Hconn. destruct (QuicPool.cp_opening _ _ Hc x Hx) as (q & Hq & Hcb).
  unfold deliver_stream, QuicSession.new_stream_cb, QuicSession.on_new_stream. cbn. rewrite Hconn. cbn. rewrite Hq. cbn. rewrite Hcb. by intros [= <-].
Qed.

Lemma deliver_close_holders w w' x conn : world_inv ClientRole w → conns w !! conn = Some (Some x) →
  deliver_close x conn w = Some w' → stream_holders w' = stream_holders w.
Proof.
  intros Hw Hconn. destruct (QuicPool.session_of_conn w conn x Hw Hconn) as (q & Hq & Hqc).
  destruct (QuicSession.conn_closed_eq conn x q w Hconn Hq Hqc) as (w1 & E & _ & Ew). unfold deliver_close. rewrite E. cbn. intros [= <-].
  by rewrite (proj1 (drop_holder_streams _ _)), Ew, (proj1 (collect_streams _ _)).
Qed.

Definition binv (b : backend) : Prop := worker_reachable resolvable rt timeout (be_worker b) ∧ engine_ok b.

Lemma bstep_inv b b' : bstep resolvable quic rt timeout b b' → binv b → binv b'.
Proof.
  intros Hs [Hr He]. pose proof (engine_ok_pool b He) as (Hinv & Hw & Hc).
  assert (∀ k', wstep resolvable rt timeout (be_worker b) k' → worker_reachable resolvable rt timeout k') as Hmore by (intros k' H; by eapply rtc_r).
  destruct Hs as [k w be|k w cb target r rest Hco Hf|k w w' conn s t o ep fp cb rest Hconn Ht Ho Hqo Hop Hf E|k w w' conn s ep rest Hconn Hns Hwat E
    |k w w' Hst E1 E2 E3|k w h1|k w b' i r r' kt x pre post Hi Hcr Hp Hk Hx Hh|k w b' i r Hi Hcr Ht Hh|k w b' i r Hi Hcr Hh
    |k w b' i r r' kt x rest asks pre post Hi Hcr Hp Hk Ha Hb Hx Hh|k w w' i r o op Hi Ho Hqo Hop Hu]; cbn [be_worker be_world] in *.
  - split; [apply Hmore, w_backend|]. destruct He as [Hq Hkp]. split; [eapply rtc_r; [exact Hq|apply QuicPool.qp_backend]|].
    intros o Ho Hqo. cbn in *. apply Hkp; [|done]. unfold streams in *. cbn in *. unfold idle_streams in *.
    by rewrite map_app, concat_app, app_nil_r in Ho.
  - split; [apply Hmore; by apply w_tcp_done; [|intros st Hst; apply Hf]|]. destruct He as [Hq Hkp].
    split; [eapply rtc_r; [exact Hq|apply QuicPool.qp_tcp_done; [done|intros st Hst; by apply Hf]]|].
    intros o Ho Hqo. cbn in *. unfold streams in Ho. destruct r as [ec|[st|]]; cbn in Ho; [by apply Hkp| |by apply Hkp].
    apply elem_of_cons in Ho as [->|Ho]; [|by apply Hkp]. destruct (Hf st eq_refl) as [_ Hn]. congruence.
  - destruct (QuicPool.stream_coupled _ _ conn s t o ep fp cb rest Hinv Hc Hw Hconn Ht Ho Hop) as (_ & _ & _ & Hcl & _).
    split; [apply Hmore; eapply w_opened; [done|done|by intros st [= <-]]|]. destruct He as [Hq Hkp].
    split; [eapply rtc_r; [exact Hq|by eapply QuicPool.qp_stream]|].
    assert (Opening s ep fp cb ∈ opening (w_sys k)) as Hin by (rewrite Hop; by left).
    intros o' Ho' Hqo'. cbn in *. rewrite (deliver_stream_holders _ _ _ _ _ _ _ Hc Hin Hconn E).
    unfold streams in Ho'. cbn in Ho'. apply elem_of_cons in Ho' as [->|Ho']; [by left|right]. by apply Hkp.
  - split; [apply Hmore; by apply w_closed|]. destruct He as [Hq Hkp]. split; [eapply rtc_r; [exact Hq|by eapply QuicPool.qp_closed]|].
    intros o Ho Hqo. cbn in *. rewrite (deliver_close_holders _ _ _ _ Hw Hconn E). apply Hkp; [|done]. unfold streams in *. cbn in *.
    destruct (remove_spec ep s (sys_pool (w_sys k))) as (m & Em & _). by rewrite Em in Ho.
  - split; [done|]. destruct He as [Hq Hkp]. split; [eapply rtc_r; [exact Hq|by apply QuicPool.qp_io]|].
    intros o Ho Hqo. cbn in *. rewrite E3. by apply Hkp.
  - split; [apply Hmore, w_accept|exact He].
  - destruct (bhandled_ok _ _ _ _ _ _ Hh He) as [Hh' He']. split; [apply Hmore; by eapply w_event|done].
  - destruct (bhandled_ok _ _ _ _ _ _ Hh He) as [Hh' He']. split; [apply Hmore; by eapply w_timeout|done].
  - destruct (bhandled_ok _ _ _ _ _ _ Hh He) as [Hh' He']. split; [apply Hmore; by eapply w_stop|done].
  - destruct (bhandled_ok _ _ _ _ _ _ Hh) as [Hh' He']; [exact He|]. split; [apply Hmore; by eapply w_deliver|done].
  - split; [done|]. destruct He as [Hq Hkp]. destruct (use_stream_holders _ _ _ _ Hop Hu) as (E1 & E2 & E3).
    assert (o ∈ streams (w_sys k)) as Hin.
    { unfold streams. rewrite (wi_held _ _ _ _ (worker_inv _ _ _ _ Hr)), !elem_of_app. left. right. apply list_elem_of_In, in_concat.
      exists (current r). split; [|by apply list_elem_of_In]. apply in_map, list_elem_of_In. by eapply list_elem_of_lookup_2. }
    split; [eapply rtc_r; [exact Hq|]|].
    + apply QuicPool.qp_io; [|done|done]. eapply (QuicSession.app_use _ _ _ o op); [by apply (Hkp o)|done|done].
    + intros o' Ho' Hqo'. cbn in *. rewrite E1. by apply Hkp.
Qed.

Lemma backend_inv b : backend_reachable resolvable quic rt timeout b → binv b.
Proof.
  intros Hr. assert (binv new_backend) as Hi.
  { split; [apply rtc_refl|]. split; [apply rtc_refl|]. by intros o ?%not_elem_of_nil. }
  revert Hi. induction Hr as [b|b b1 b2 Hs _ IH]; [done|]. intros Hi. apply IH. by eapply bstep_inv.
Qed.

(** ** Lemmas: every call can be carried out *)

(** A connection and a session not in use. *)
Lemma names_exist w : ∃ conn, new_names None conn w.
Proof. exists (fresh (dom (conns w))). split; [|done]. apply not_elem_of_dom, is_fresh. Qed.

Lemma bserve_exists i a b l l' others : engine_ok b → ¬ shuts_closed [a] (be_world b) → own a l = Some l' →
  held (w_sys (be_worker b)) ≡ₚ answer_streams (w_answers (be_worker b)) ++ attach_of a ++ l ++ others → ∃ b', bserve resolvable i a b b'.
Proof.
  intros Hb Hns Ho Hh. pose proof (engine_ok_pool b Hb) as (Hinv & Hw & Hc). destruct b as [k w]. cbn in *.
  set (cb := fresh (asked (w_sys k))). assert (cb ∉ asked (w_sys k)) as Hcb by apply infinite_is_fresh.
  destruct (names_exist w) as [conn Hn]. destruct (disposes a) as [o|] eqn:Ed.
  - assert (l = [o] ∧ attach_of a = []) as [-> Hat] by (destruct a; simplify_eq/=; by case_decide).
    assert (∃ rest, held (w_sys k) ≡ₚ o :: rest) as [rest Hr].
    { eexists. rewrite Hh, Hat. cbn [app]. by rewrite <- Permutation_middle. }
    destruct a; simplify_eq/=; [by eexists; eapply b_release|].
    assert (∃ w', shut_down true 0 o w = Some w') as [w' E]; [|by eexists; eapply b_shutdown].
    clear Ho. unfold shut_down. case_decide as Hin; [|by eexists].
    destruct (QuicSession.use_stream_ok ClientRole (QuicStream.OShutdown true 0) o w Hw Hin I) as (x & Hx & Hok & _).
    destruct Hok as [w1 ->]; [|by eexists]. cbn. destruct (QuicStream.stream_ _) eqn:Es; [done|]. exfalso. apply Hns.
    exists o. split; [by left|]. split; [done|by exists x].
  - destruct (is_connect a) eqn:Ec; [|eexists; by apply b_other].
    destruct a; try done.
    + destruct (QuicPool.connect_coupled resolvable (w_sys k) w None backend_id cb conn QuicSession.NoPeer Hinv Hc Hw Hn) as (w' & E & _).
      eexists. by eapply b_connect.
    + destruct (QuicPool.connect_fresh_coupled resolvable (w_sys k) w None target cb conn QuicSession.NoPeer Hinv Hc Hw Hn) as (w' & E & _).
      eexists. by eapply b_connect_fresh.
Qed.

Lemma bserves_exist i acts : ∀ l l' others b, engine_ok b → ¬ shuts_closed acts (be_world b) → owns acts l = Some l' →
  held (w_sys (be_worker b)) ≡ₚ answer_streams (w_answers (be_worker b)) ++ attaches acts ++ l ++ others → ∃ b', bserves resolvable i acts b b'.
Proof.
  induction acts as [|a acts IH]; intros l l' others b Hb Hns Ho Hh; [by exists b; constructor|].
  cbn in Ho. destruct (own a l) as [l1|] eqn:E; [|done]. cbn in Ho. change (attaches (a :: acts)) with (attach_of a ++ attaches acts) in Hh.
  assert (held (w_sys (be_worker b)) ≡ₚ answer_streams (w_answers (be_worker b)) ++ attach_of a ++ l ++ attaches acts ++ others) as Hh'.
  { rewrite Hh, <- app_assoc. do 2 f_equiv. by rewrite !app_assoc, (Permutation_app_comm l). }
  assert (¬ shuts_closed [a] (be_world b)) as Hns1.
  { intros (o & Hin%list_elem_of_singleton & Hcl). apply Hns. exists o. split; [rewrite Hin; by left|done]. }
  destruct (bserve_exists i a b l l1 _ Hb Hns1 E Hh') as [b1 Hs].
  destruct (bserve_ok i a b b1 Hs Hb) as [Hserve Hb1].
  pose proof (ss_held _ _ _ _ _ (serve_ok _ _ _ _ _ Hserve) l l1 _ E Hh') as Hh1.
  assert (¬ shuts_closed acts (be_world b1)) as Hns2.
  { intros (o & Hin & Hcl). apply Hns. exists o. split; [by right|by eapply bserve_closed]. }
  destruct (IH l1 l' others b1 Hb1 Hns2 Ho) as [b2 H2]; [|by exists b2; econstructor].
  rewrite Hh1. f_equiv. by rewrite !app_assoc, (Permutation_app_comm l1).
Qed.

Lemma bhandled_exists i r r' wk att k w : engine_ok (BE k w) → w_relays k !! i = Some r → disciplined wk att r r' →
  ¬ shuts_closed (since (log r) (log r')) w →
  held (w_sys k) ≡ₚ answer_streams (w_answers k) ++ att ++ concat (map current (w_relays k)) →
  ∃ b', bhandled resolvable i r r' k w b' ∧ w_relays (be_worker b') !! i = Some r'.
Proof.
  intros Hb Hi (D1 & D2 & _) Hns Hh. destruct (bserves_exist i (since (log r) (log r')) (current r) (current r')
    (concat (map current (delete i (w_relays k)))) (BE (set_relay i r' k) w) Hb Hns D1) as [b' Hs].
  { cbn [be_worker w_sys w_answers set_relay]. rewrite Hh, D2, (currents_split i r) by done. done. }
  exists b'. split; [exact Hs|]. apply bserves_ok in Hs as [Hs _]; [|exact Hb]. apply serves_ok in Hs as (_ & -> & _). cbn.
  apply list_lookup_insert_eq. by eapply lookup_lt_Some.
Qed.
End invariant.

(** ** Properties *)

(** C13: The backend side of a worker works as one.  In every reachable state of the
    relays, the pool and the client engine together, the relays and the pool are
    in a reachable state of their own model, and so are the pool and the engine's
    objects.  The QUIC stream a relay holds as its backend is an object on the
    heap, and a read, a write or a take of headers that the relay calls on it is
    carried out; a shutdown is while lsquic has not closed the stream, and passes
    the null handle to lsquic, undefined behaviour, once it has.  Whatever completes
    for a relay, when its idle timer expires and when the server stops it, all
    its calls are carried out, by the pool and by the engine, unless the shutdown
    of a closed stream is among them. *)
Theorem backend_composed resolvable quic rt timeout b : backend_reachable resolvable quic rt timeout b →
  worker_reachable resolvable rt timeout (be_worker b) ∧ qp_reachable resolvable (be_pool b) ∧
  ∀ i r, w_relays (be_worker b) !! i = Some r →
    (∀ o, o ∈ current r → quic o = true → ∃ x, wrappers (be_world b) !! o = Some x ∧
       ∀ op, by_relay op →
         match op with QuicStream.OShutdown _ _ => QuicStream.stream_ (QuicSession.w_state x) | _ => true end = true ∧
           (∃ w', use_stream op o (be_world b) = Some w' ∧ bstep resolvable quic rt timeout b (BE (be_worker b) w')) ∨
         (∃ ok cb, op = QuicStream.OShutdown ok cb) ∧ QuicStream.stream_ (QuicSession.w_state x) = false ∧
           use_stream op o (be_world b) = None) ∧
    (crashed r = false →
       (∀ k x pre post r', pending r = pre ++ k :: post → is_wait k = false → resume k x (set_pending (pre ++ post) r) = Some r' →
          ¬ shuts_closed (since (log r) (log r')) (be_world b) →
          ∃ b', bstep resolvable quic rt timeout b b' ∧ w_relays (be_worker b') !! i = Some r') ∧
       ((0 < idle_timeout_ r)%Z → ¬ shuts_closed (map ShutdownBackend (current r)) (be_world b) →
          ∃ b', bstep resolvable quic rt timeout b b' ∧ w_relays (be_worker b') !! i = Some (teardown (set_timer_armed false r))) ∧
       (∃ b', bstep resolvable quic rt timeout b b' ∧ w_relays (be_worker b') !! i = Some (graceful_close r))).
Proof.
  intros [Hr He]%backend_inv. pose proof (engine_ok_pool _ _ _ He) as (_ & Hw & _). pose proof (worker_inv _ _ _ _ Hr) as Hwi. destruct b as [k w]. cbn in *.
  split; [done|]. split; [apply He|]. intros i r Hi. split.
  - intros o Ho Hq. assert (o ∈ stream_holders w) as Hin.
    { apply (proj2 He); [|done]. unfold streams. cbn. rewrite (wi_held _ _ _ _ Hwi), !elem_of_app. left. right. apply list_elem_of_In, in_concat.
      exists (current r). split; [|by apply list_elem_of_In]. apply in_map, list_elem_of_In. by eapply list_elem_of_lookup_2. }
    destruct (QuicSession.wv_stream_holders _ _ _ _ Hw o Hin) as [x Hx]. exists x. split; [done|]. intros op Hop.
    destruct (QuicSession.use_stream_ok ClientRole op o w Hw Hin Hop) as (y & Hy & H1 & H2). assert (y = x) as -> by congruence.
    destruct (QuicSession.null_call op (QuicSession.w_state x)) eqn:En.
    + right. destruct op; try done. split; [by eexists _, _|]. cbn in En. apply negb_true_iff in En. split; [done|by apply H2].
    + left. split; [destruct op; try done; cbn in En; by apply negb_false_iff in En|]. destruct (H1 eq_refl) as [w' E]. exists w'.
      split; [done|]. by eapply b_use.
  - intros Hc. destruct (Forall_lookup_1 _ _ _ _ (wi_relays _ _ _ _ Hwi) Hi) as [h1 Hre]. pose proof (wi_held _ _ _ _ Hwi) as H3. split_and!.
    + intros kt x pre post r' Hp Hk Hx Hns. pose proof (resume_disciplined _ _ _ _ _ _ _ _ _ Hre Hc Hp Hx) as Hd. rewrite Hk in Hd.
      assert (delivered x = []) as E by (destruct x; [done..| |done|done]; by destruct kt). rewrite E in Hd.
      destruct (bhandled_exists _ _ i r r' 0 [] k w He Hi Hd Hns H3) as (b' & Hh & Hb). exists b'. split; [by eapply b_event|done].
    + intros Ht Hns. destruct (bhandled_exists _ _ i r _ 0 [] k w He Hi (timeout_disciplined _ _ _ _ Hre)) as (b' & Hh & Hb); [|exact H3|].
      { intros (o & Ho & Hcl). apply Hns. exists o. split; [by apply teardown_shuts|done]. }
      exists b'. split; [by eapply b_timeout|done].
    + destruct (bhandled_exists _ _ i r _ 0 [] k w He Hi (stop_disciplined _ _ _ _ Hre)) as (b' & Hh & Hb); [|exact H3|].
      { intros (o & Ho & _). by eapply stop_shuts_nothing. }
      exists b'. split; [by eapply b_stop|done].
Qed.

(** ** A worker with one HTTP/3 backend and one session

    The session's request makes it ask the pool, which connects; lsquic opens the
    stream, and it becomes the session's backend. *)

Definition h3_ep : BackendEndpoint := Endpoint #"web" #"10.0.0.2" 443 1 QUIC.
Definition is_nine (o : nat) : bool := bool_decide (o = 9).

Definition h3_accepted : worker := Worker (set_pool (add_backend h3_ep (sys_pool init)) init) [at_request] [] [].
Definition h3_connect : UpstreamPool * list effect := async_connect (λ _, true) (Some 5) #"web" 1 (sys_pool (w_sys h3_accepted)).
Definition h3_asking : worker :=
  set_asks [(1, 0)] (pool_call h3_connect (ask 1 (w_sys h3_accepted)) (set_relay 0 at_connect h3_accepted)).
Definition h3_connecting : world :=
  default QuicSession.init_world (realize 1 (QuicSession.PeerV4 #"10.0.0.2") (snd h3_connect) QuicSession.init_world).
Definition h3_answering : worker :=
  pool_call (on_stream_opened None 5 h3_ep false 1 (Some 9) (sys_pool (w_sys h3_asking))) (set_opening [] (w_sys h3_asking)) h3_asking.
Definition h3_opened : world := default QuicSession.init_world (deliver_stream 5 1 8 9 h3_connecting).
Definition at_write_h3 : RelaySession := use_backend (inr 9) h3_ep false get_head NullBody (set_pending [] at_connect).
Definition h3_holding : worker := set_relay 0 at_write_h3 (Worker (w_sys h3_answering) (w_relays h3_answering) [] []).

Lemma h3_holding_reachable : backend_reachable (λ _, true) is_nine default_rt 30 (BE h3_holding h3_opened).
Proof.
  eapply rtc_l; [apply (b_backend _ _ _ _ new_worker QuicSession.init_world h3_ep)|].
  eapply rtc_l; [apply (b_accept _ _ _ _ _ _ true)|].
  eapply rtc_l.
  { eapply (b_event _ _ _ _ h3_accepted QuicSession.init_world (BE h3_asking h3_connecting) 0 at_request at_connect KParseRequest
      (ParsedRequest (ParseOk get_head NullBody true)) [] []); [vm_compute; reflexivity..|].
    unfold bhandled. replace (since _ _) with [Connect #"web"]; [|vm_compute; reflexivity].
    eapply bserves_cons; [|apply bserves_nil].
    apply (b_connect _ 0 (set_relay 0 at_connect h3_accepted) QuicSession.init_world h3_connecting (Some 5) #"web" 1 1 (QuicSession.PeerV4 #"10.0.0.2"));
      [apply not_elem_of_nil|by split|vm_compute; reflexivity]. }
  eapply rtc_l.
  { apply (b_stream _ _ _ _ h3_asking h3_connecting h3_opened 1 5 8 9 h3_ep false 1 []); try (vm_compute; reflexivity). apply not_elem_of_nil. }
  apply rtc_once. eapply (b_deliver _ _ _ _ h3_answering h3_opened (BE h3_holding h3_opened) 0 at_connect at_write_h3 (KUseBackend get_head NullBody)
    (Answer 1 (inr 9) h3_ep false) [] [] [] []); [vm_compute; reflexivity..|].
  unfold bhandled. match goal with |- bserves _ _ ?l _ _ => let v := eval vm_compute in l in replace l with v by (vm_compute; reflexivity) end.
  repeat (eapply bserves_cons; [apply b_other; reflexivity|]). apply bserves_nil.
Qed.

Lemma backend_composed_witness : current at_write_h3 = [9] ∧
  (∃ w', use_stream (QuicStream.ORead 100 3) 9 h3_opened = Some w') ∧
  ∃ b', bstep (λ _, true) is_nine default_rt 30 (BE h3_holding h3_opened) b' ∧ w_relays (be_worker b') !! 0 = Some (graceful_close at_write_h3).
Proof.
  destruct (backend_composed (λ _, true) is_nine default_rt 30 (BE h3_holding h3_opened) h3_holding_reachable) as (_ & _ & H).
  destruct (H 0 at_write_h3) as [H1 H2]; [vm_compute; reflexivity|].
  assert (current at_write_h3 = [9]) as E by (vm_compute; reflexivity). split; [exact E|]. split.
  - destruct (H1 9) as (x & _ & Hu); [rewrite E; by left|vm_compute; reflexivity|].
    destruct (Hu (QuicStream.ORead 100 3) I) as [(_ & w' & Hw & _)|((ok & cb & [=]) & _)]. exists w'. exact Hw.
  - destruct H2 as (_ & _ & H3); [vm_compute; reflexivity|]. exact H3.
Defined.
