(* ===== verification/ProxyCore.v ===== *)
(** * One worker (src/src/proxy/proxy_core.{h,cpp})

    A worker owns a router and a backend pool built from the configuration, an
    optional QUIC server engine, and the relay sessions of its clients.  The
    relays are owned by their own pending callbacks ([shared_from_this]); the
    worker only keeps weak references, so [relays] lists every relay ever made,
    by index, and [alive] says which of them still exist.  [core_stats] is the
    worker's share of the process-wide connection counters; a relay carries its
    own share of the request counters. *)

From S2P Require Import Prelude CppStd Transport HttpMessage Config Router Stats UpstreamPool QuicDemux.
From S2P Require Import RelaySession RelayTheorems.

Record ProxyCore := Core {
  core_router_ : Router.t;
  upstream_pool_ : UpstreamPool;
  core_timeout_ : Z;
  core_stats : ProxyStats;
  core_engine_ : option QuicServerEngine;
  sockets : list nat;             (** descriptors handed over, oldest first *)
  relays : list RelaySession;     (** every relay made, oldest first *)
  live_relays_ : list nat;        (** weak references, by index *)
  goaways : nat;                  (** calls of [quic_engine_->graceful_shutdown] *)
  force_closes : nat;             (** calls of [quic_engine_->force_close_all] *)
  shut_at : option nat;           (** how many relays there were when [graceful_shutdown] ran *)
}.

Definition set_core_stats (x : ProxyStats) (c : ProxyCore) : ProxyCore :=
  Core (core_router_ c) (upstream_pool_ c) (core_timeout_ c) x (core_engine_ c) (sockets c) (relays c)
       (live_relays_ c) (goaways c) (force_closes c) (shut_at c).
Definition set_sockets (x : list nat) (c : ProxyCore) : ProxyCore :=
  Core (core_router_ c) (upstream_pool_ c) (core_timeout_ c) (core_stats c) (core_engine_ c) x (relays c)
       (live_relays_ c) (goaways c) (force_closes c) (shut_at c).
Definition set_engine (x : option QuicServerEngine) (c : ProxyCore) : ProxyCore :=
  Core (core_router_ c) (upstream_pool_ c) (core_timeout_ c) (core_stats c) x (sockets c) (relays c)
       (live_relays_ c) (goaways c) (force_closes c) (shut_at c).
Definition set_relays (rs : list RelaySession) (live : list nat) (c : ProxyCore) : ProxyCore :=
  Core (core_router_ c) (upstream_pool_ c) (core_timeout_ c) (core_stats c) (core_engine_ c) (sockets c) rs
       live (goaways c) (force_closes c) (shut_at c).

(** ** Operations *)

Definition new_core (cfg : ProxyConfig) : ProxyCore :=
  Core (fold_left (λ rt r, Router.add_rule (Router.MkRule (route_host r) (route_backend r)) rt) (routes cfg)
          Router.empty_router)
       (fold_left (λ p b, add_backend b p) (backends cfg) new_pool)
       (idle_timeout_secs cfg) no_stats None [] [] [] 0 0 None.

(** [h1]: whether the codec is the HTTP/1 codec. *)
Definition on_stream (h1 : bool) (c : ProxyCore) : ProxyCore :=
  set_relays (relays c ++ [start (new_relay h1 (core_router_ c) (core_timeout_ c))])
             (live_relays_ c ++ [length (relays c)]) c.

(** The codec the callback of [on_session] captures. *)
Definition session_codec_is_h1 (protocol : TransportProtocol) : bool := bool_decide (protocol ≠ QUIC).

(** A TCP session delivers its only stream while the callback is registered. *)
Definition on_tcp_session {K} (session : Tcp.TcpTransportSession K) (c : ProxyCore) : ProxyCore :=
  fold_left (λ c st, match st with Some _ => on_stream (session_codec_is_h1 (Tcp.protocol session)) c | None => c end)
            (Tcp.set_new_stream_cb session) c.

(** [None]: the session's constructor throws, the peer being gone. *)
Definition new_tcp_socket (remote : option bytes) (fd : nat) (c : ProxyCore) : option ProxyCore :=
  session ← Tcp.new_session fd remote;
  Some (on_tcp_session session (set_sockets (sockets c ++ [fd]) (set_core_stats (bump_tcp_conns (core_stats c)) c))).

(** The worker does not use the peer's address: the core it leaves. *)
Definition on_new_tcp_socket (fd : nat) (c : ProxyCore) : ProxyCore :=
  on_stream (session_codec_is_h1 TCP) (set_sockets (sockets c ++ [fd]) (set_core_stats (bump_tcp_conns (core_stats c)) c)).

Lemma new_tcp_socket_eq remote fd c : new_tcp_socket remote fd c = (λ _, on_new_tcp_socket fd c) <$> remote.
Proof. by destruct remote. Qed.

(** A QUIC session delivers its streams later, each through [on_quic_stream]. *)
Definition on_quic_session (c : ProxyCore) : ProxyCore := set_core_stats (bump_quic_conns (core_stats c)) c.
Definition on_quic_stream (c : ProxyCore) : ProxyCore := on_stream (session_codec_is_h1 QUIC) c.

(** The engine registers with the demultiplexer and learns its index. *)
Definition start_quic (engine : nat) (demux : QuicPacketDemux) (c : ProxyCore) : ProxyCore * QuicPacketDemux :=
  let '(worker_idx, demux') := add_worker engine demux in
  (set_engine (Some (Engine worker_idx)) c, demux').

(** [weak_ptr::lock] succeeds: some callback of the relay still owns it. *)
Definition alive (r : RelaySession) : bool :=
  match pending r with [] => timer_armed r | _ => true end.

(** The loop over [live_relays_]: close what is alive, erase the rest. *)
Fixpoint close_live (rs : list RelaySession) (live : list nat) : list RelaySession * list nat :=
  match live with
  | [] => (rs, [])
  | i :: live' =>
      match rs !! i with
      | Some r =>
          if alive r then
            let '(rs', live'') := close_live (<[i := graceful_close r]> rs) live' in (rs', i :: live'')
          else close_live rs live'
      | None => close_live rs live'
      end
  end.

(** The task [graceful_shutdown] posts to the worker. *)
Definition graceful_shutdown (c : ProxyCore) : ProxyCore :=
  let '(rs, live) := close_live (relays c) (live_relays_ c) in
  Core (core_router_ c) (upstream_pool_ c) (core_timeout_ c) (core_stats c) (core_engine_ c) (sockets c) rs live
       (match core_engine_ c with Some _ => S (goaways c) | None => goaways c end) (force_closes c)
       (Some (length (relays c))).

(** The task [force_close_quic] posts to the worker. *)
Definition force_close_quic (c : ProxyCore) : ProxyCore :=
  Core (core_router_ c) (upstream_pool_ c) (core_timeout_ c) (core_stats c) (core_engine_ c) (sockets c) (relays c)
       (live_relays_ c) (goaways c) (match core_engine_ c with Some _ => S (force_closes c) | None => force_closes c end)
       (shut_at c).

(** ** Events *)

(** What happens to a relay between the worker's own tasks: a completion or
    the idle timer. *)
Inductive relay_event : RelaySession → RelaySession → Prop :=
  | event_resume r r' k x pre post :
      crashed r = false → pending r = pre ++ k :: post →
      resume k x (set_pending (pre ++ post) r) = Some r' → relay_event r r'
  | event_timeout r : crashed r = false → (0 < idle_timeout_ r)%Z → relay_event r (teardown (set_timer_armed false r)).

Lemma relay_event_step r r' : relay_event r r' → step r r'.
Proof. intros []; [by eapply step_resume|by apply step_timeout]. Qed.

Inductive core_event : ProxyCore → ProxyCore → Prop :=
  | core_quic_session c : core_engine_ c ≠ None → core_event c (on_quic_session c)
  | core_quic_stream c : core_engine_ c ≠ None → core_event c (on_quic_stream c)
  | core_relay c i r r' : relays c !! i = Some r → relay_event r r' →
      core_event c (set_relays (<[i := r']> (relays c)) (live_relays_ c) c).

(** ** Lemmas *)

(** Every relay of the worker is a reachable relay session. *)
Definition sound_relays (c : ProxyCore) : Prop :=
  Forall (λ r, ∃ h1, reachable h1 (core_router_ c) (core_timeout_ c) r) (relays c).

Lemma close_live_spec (P : RelaySession → Prop) rs live : (∀ r, P r → P (graceful_close r)) →
  Forall P rs → Forall P (fst (close_live rs live)) ∧ length (fst (close_live rs live)) = length rs.
Proof.
  intros HP. revert rs. induction live as [|i live IH]; intros rs Hrs; cbn; [done|].
  destruct (rs !! i) as [r|] eqn:E; [|by apply IH]. destruct (alive r); [|by apply IH].
  destruct (IH (<[i:=graceful_close r]> rs)) as [H1 H2].
  { apply Forall_insert; [done|]. apply HP. by eapply Forall_lookup_1. }
  destruct (close_live _ live) as [rs' l']. cbn in *. by rewrite H2, length_insert.
Qed.

(** The loop leaves alone what it does not reach, and closes the rest. *)
Lemma close_live_reaches rs live i r : rs !! i = Some r → (i ∈ live ∨ winding_down r = true) →
  (alive r = false → done_ r = true) →
  ∃ r', fst (close_live rs live) !! i = Some r' ∧ winding_down r' = true.
Proof.
  revert rs r. induction live as [|j live IH]; intros rs r Hi Hin Hdone; cbn.
  { destruct Hin as [Hin|Hw]; [by apply not_elem_of_nil in Hin|by exists r]. }
  destruct (decide (j = i)) as [->|Hne].
  - rewrite Hi. destruct (alive r) eqn:Ha.
    + destruct (IH (<[i:=graceful_close r]> rs) (graceful_close r)) as (r' & H1 & H2);
        [apply list_lookup_insert_eq; by eapply lookup_lt_Some|right; apply graceful_close_winds|..].
      { intros Ha'. unfold graceful_close in *. destruct (done_ r) eqn:Ed; [done|]. case_decide; change (alive r = false) in Ha'; congruence. }
      destruct (close_live _ live). by exists r'.
    + specialize (Hdone eq_refl). apply (IH rs r); [done| |done]. right. unfold winding_down. by rewrite Hdone, orb_true_r.
  - assert (i ∈ live ∨ winding_down r = true) as Hin'.
    { destruct Hin as [[->|Hin]%elem_of_cons|Hw]; [done|by left|by right]. }
    destruct (rs !! j) as [rj|] eqn:Ej; [|by apply (IH rs r)]. destruct (alive rj); [|by apply (IH rs r)].
    destruct (IH (<[j:=graceful_close rj]> rs) r) as (r' & H1 & H2); [by rewrite list_lookup_insert_ne|done..|].
    destruct (close_live _ live). by exists r'.
Qed.

(** A relay without callbacks is done: nothing keeps it but nothing is owed. *)
Lemma dead_is_done h1 rt timeout r : reachable h1 rt timeout r → crashed r = false → alive r = false → done_ r = true.
Proof.
  intros Hr%relay_reachable_inv Hc Ha. unfold alive in Ha.
  destruct (inv_pending _ Hr Hc) as [_ Hd|k Hp _|b Hb Hk]; [done|by rewrite Hp in Ha|].
  destruct (done_ r) eqn:E; [done|]. destruct (Hk E) as [Hl _]. by destruct (pending r).
Qed.

Record core_inv (cfg : ProxyConfig) (c : ProxyCore) : Prop := {
  ci_config : core_router_ c = core_router_ (new_core cfg) ∧ core_timeout_ c = idle_timeout_secs cfg;
  ci_sound : sound_relays c;
  ci_tcp : tcp_conns (core_stats c) = u64 (Z.of_nat (length (sockets c)));
  ci_known : ∀ i r, relays c !! i = Some r → i ∈ live_relays_ c ∨ winding_down r = true;
  ci_unpruned : shut_at c = None → live_relays_ c = seq 0 (length (relays c));
  ci_shut : ∀ k i r, shut_at c = Some k → i < k → relays c !! i = Some r → winding_down r = true;
  ci_shut_len : ∀ k, shut_at c = Some k → k ≤ length (relays c);
}.

Lemma new_core_inv cfg : core_inv cfg (new_core cfg).
Proof. by split; try (constructor; fail); try done; cbn; try apply Forall_nil_2. Qed.

Lemma relay_event_winds r r' : relay_event r r' → winding_down r = true → winding_down r' = true.
Proof.
  intros Hs%relay_event_step Hw. assert (wound (asks (log r)) r) as H by done.
  exact (proj1 (wound_step _ _ _ H Hs)).
Qed.

Lemma on_stream_inv cfg h1 c : core_inv cfg c → core_inv cfg (on_stream h1 c).
Proof.
  intros [Hcfg Hs Ht Hk Hu Hsh Hl]. split; try done; cbn.
  - apply Forall_app. split; [exact Hs|]. constructor; [|constructor]. exists h1. apply rtc_refl.
  - intros i r [Hi|(Hge & Hi)]%lookup_app_Some.
    + destruct (Hk i r Hi); [left; apply elem_of_app; by left|by right].
    + left. apply elem_of_app. right. apply list_lookup_singleton_Some in Hi as [Hi _].
      replace i with (length (relays c)) by lia. by left.
  - intros E. rewrite (Hu E), length_app, seq_app. done.
  - intros k i r E Hik [Hi|(Hge & _)]%lookup_app_Some; [by eapply Hsh|]. specialize (Hl k E). lia.
  - intros k E. rewrite length_app. specialize (Hl k E). lia.
Qed.

Lemma core_event_inv cfg c c' : core_event c c' → core_inv cfg c → core_inv cfg c'.
Proof.
  intros [c0 _|c0 _|c0 i r r' Hi Hr] Hinv; [|by apply on_stream_inv|].
  - destruct Hinv as [Hcfg Hs Ht Hk Hu Hsh Hl]. by split.
  - destruct Hinv as [Hcfg Hs Ht Hk Hu Hsh Hl].
    assert (∀ j q, <[i:=r']> (relays c0) !! j = Some q →
      ∃ q0, relays c0 !! j = Some q0 ∧ (winding_down q0 = true → winding_down q = true)) as Hback.
    { intros j q. destruct (decide (i = j)) as [<-|Hne].
      - rewrite list_lookup_insert_eq by (by eapply lookup_lt_Some). intros [= <-]. exists r. split; [done|].
        by apply relay_event_winds.
      - rewrite list_lookup_insert_ne by done. intros Hq. by exists q. }
    split; try done; cbn.
    + apply Forall_insert; [exact Hs|]. destruct (Forall_lookup_1 _ _ _ _ Hs Hi) as [h1 Hreach]. exists h1.
      eapply rtc_r; [exact Hreach|by apply relay_event_step].
    + intros j q (q0 & Hq & Hw)%Hback. destruct (Hk j q0 Hq); [by left|right; by apply Hw].
    + intros E. by rewrite length_insert, (Hu E).
    + intros k j q E Hj (q0 & Hq & Hw)%Hback. apply Hw. by eapply Hsh.
    + intros k E. rewrite length_insert. by apply Hl.
Qed.

Lemma graceful_shutdown_inv cfg c : Forall (λ r, crashed r = false) (relays c) → core_inv cfg c →
  core_inv cfg (graceful_shutdown c).
Proof.
  intros Hc [Hcfg Hs Ht Hk Hu Hsh Hl]. unfold graceful_shutdown.
  assert (∀ i r, fst (close_live (relays c) (live_relays_ c)) !! i = Some r → winding_down r = true) as Hw.
  { intros i r' Hi. assert (i < length (relays c)) as Hlt.
    { apply lookup_lt_Some in Hi. by rewrite (proj2 (close_live_spec (λ _, True) _ _ (λ _ _, I) (Forall_true _ _ (λ _, I)))) in Hi. }
    destruct (lookup_lt_is_Some_2 _ _ Hlt) as [r Hr]. destruct (Forall_lookup_1 _ _ _ _ Hs Hr) as [h1 Hreach].
    destruct (close_live_reaches (relays c) (live_relays_ c) i r Hr (Hk i r Hr)) as (r2 & H1 & H2); [|congruence].
    intros Ha. eapply dead_is_done; [done| |done]. by apply (Forall_lookup_1 _ _ _ _ Hc Hr). }
  assert (∀ r, (∃ h1, reachable h1 (core_router_ c) (core_timeout_ c) r) ∧ crashed r = false →
    (∃ h1, reachable h1 (core_router_ c) (core_timeout_ c) (graceful_close r)) ∧ crashed (graceful_close r) = false) as Hstep.
  { intros r [[h1 Hr] Hcr]. split; [exists h1; eapply rtc_r; [exact Hr|by apply step_stop]|].
    unfold graceful_close. destruct (done_ r); [done|]. by case_decide. }
  destruct (close_live_spec _ (relays c) (live_relays_ c) Hstep) as [H1 H2].
  { apply List.Forall_and; [exact Hs|exact Hc]. }
  destruct (close_live (relays c) (live_relays_ c)) as [rs live]. cbn in *.
  split; try done; cbn.
  - unfold sound_relays. cbn. by apply List.Forall_and_inv in H1 as [H1 _].
  - intros i r Hi. right. by eapply Hw.
  - intros k i r _ _. apply Hw.
  - intros k [= <-]. lia.
Qed.

Lemma on_new_tcp_socket_inv cfg fd c : core_inv cfg c → core_inv cfg (on_new_tcp_socket fd c).
Proof.
  intros [Hcfg Hs Ht Hk Hu Hsh Hl]. apply (on_stream_inv cfg true). split; try done. cbn.
  rewrite Ht, length_app. cbn [length]. unfold u64. rewrite Z.add_mod_idemp_l by lia. f_equal. lia.
Qed.

Lemma force_close_inv cfg c : core_inv cfg c → core_inv cfg (force_close_quic c).
Proof. intros [Hcfg Hs Ht Hk Hu Hsh Hl]. by split. Qed.

(** What the events of a worker leave alone. *)
Lemma core_event_frame c c' : core_event c c' →
  sockets c' = sockets c ∧ shut_at c' = shut_at c ∧ core_engine_ c' = core_engine_ c.
Proof. by intros []. Qed.
