(* ===== verification/QuicWorker.v ===== *)
(** * A worker with its QUIC engine (src/src/proxy/proxy_core.cpp with
    transport/quic_transport.cpp)

    [ProxyCore] models a worker and [QuicEngine] the server engine it owns.
    Here they run together: lsquic's callbacks make sessions and stream objects
    on the engine's heap, the callbacks the worker installed count a session and
    start a relay session per stream, the relays use the stream objects they
    were given and let go of them when they are destroyed, and the shutdown
    tasks reach relays and connections alike.  [qw_clients] says which stream
    object each relay of a QUIC client still holds. *)

From S2P Require Import Prelude CppStd Transport HttpMessage Config Router Stats UpstreamPool QuicDemux.
From S2P Require Import RelaySession RelayTheorems ProxyCore QuicEngine.
From S2P Require QuicStream QuicSession.
Import QuicSession (world, call, NewSession, NewStream, GoingAway, ConnClose, OnStream, ServerRole, world_inv, world_inv_but, calls,
  stream_holders, lstreams, conns, sessions, wrappers, new_stream_cb_, wv_conns, wv_streams, wv_wrappers, wv_stream_holders).

Record quic_worker := QW {
  qw_core : ProxyCore;
  qw_engine : Server.engine;
  qw_clients : list (nat * nat);     (** relay and the stream object it holds *)
  qw_made : list nat;                (** the relays made for QUIC streams *)
}.

Definition qw_world (q : quic_worker) : world := Server.srv_world (qw_engine q).

Definition set_core (c : ProxyCore) (q : quic_worker) : quic_worker := QW c (qw_engine q) (qw_clients q) (qw_made q).
Definition set_world (w : world) (q : quic_worker) : quic_worker :=
  QW (qw_core q) (Server.with_world w (qw_engine q)) (qw_clients q) (qw_made q).
Definition set_clients (cl : list (nat * nat)) (q : quic_worker) : quic_worker := QW (qw_core q) (qw_engine q) cl (qw_made q).

(** ** What the worker's callbacks do

    The handler [start_quic] registers counts the session and installs the
    stream handler; that one starts a relay, which keeps the stream. *)
Definition deliver (x : call) (q : quic_worker) : quic_worker :=
  match x with
  | NewSession _ => set_core (on_quic_session (qw_core q)) q
  | NewStream _ OnStream (Some o) =>
      let i := length (relays (qw_core q)) in
      QW (on_quic_stream (qw_core q)) (qw_engine q) ((i, o) :: qw_clients q) (i :: qw_made q)
  | _ => q
  end.

(** Calls are recorded newest first. *)
Definition deliver_all (xs : list call) (q : quic_worker) : quic_worker := foldr deliver q xs.

(** ** lsquic's events, with the callback the engine has *)

Inductive lsquic_event (cb : bool) : world → world → Prop :=
  | ev_conn w w' c s addr : conns w !! c = None → sessions w !! s = None →
      QuicSession.server_new_conn_cb cb s c addr (QuicSession.accept_conn c w) = Some w' → lsquic_event cb w w'
  | ev_stream w w' c t o : is_Some (conns w !! c) → lstreams w !! t = None → wrappers w !! o = None →
      QuicSession.new_stream_cb c (Some t) o (QuicSession.accept_stream c t w) = Some w' → lsquic_event cb w w'
  | ev_read w w' t hset rd : is_Some (lstreams w !! t) → QuicSession.read_cb hset rd t w = Some w' → lsquic_event cb w w'
  | ev_write w w' t wr : is_Some (lstreams w !! t) → QuicSession.write_cb wr t w = Some w' → lsquic_event cb w w'
  | ev_reset w w' t how : is_Some (lstreams w !! t) → QuicSession.reset_cb how t w = Some w' → lsquic_event cb w w'
  | ev_stream_close w w' t : is_Some (lstreams w !! t) → QuicSession.close_cb t w = Some w' →
      lsquic_event cb w (QuicSession.free_stream t w')
  | ev_conn_closed w w' c : is_Some (conns w !! c) → QuicSession.no_streams c w → QuicSession.conn_closed_cb c w = Some w' →
      lsquic_event cb w (QuicSession.free_conn c w').

(** ** The steps of the worker *)

(** What happens to a worker between the tasks posted to it. *)
Inductive qevent : quic_worker → quic_worker → Prop :=
  | q_lsquic q w new : lsquic_event (Server.srv_session_cb (qw_engine q)) (qw_world q) w → calls w = new ++ calls (qw_world q) →
      qevent q (deliver_all new (set_world w q))
  | q_timer q t : timer_step (Server.srv_timer (qw_engine q)) t →
      qevent q (QW (qw_core q) (Server.with_timer t (qw_engine q)) (qw_clients q) (qw_made q))
  | q_relay q i r r' : relays (qw_core q) !! i = Some r → relay_event r r' →
      qevent q (set_core (set_relays (<[i := r']> (relays (qw_core q))) (live_relays_ (qw_core q)) (qw_core q)) q)
  | q_use q i o op w : (i, o) ∈ qw_clients q → QuicSession.by_relay op → QuicSession.use_stream op o (qw_world q) = Some w →
      qevent q (set_world w q)
  | q_destroyed q i o r rest hs : qw_clients q ≡ₚ (i, o) :: rest → relays (qw_core q) !! i = Some r → alive r = false →
      stream_holders (qw_world q) ≡ₚ o :: hs →
      qevent q (set_clients rest (set_world (QuicSession.collect_wrapper o (QuicSession.set_stream_holders hs (qw_world q))) q)).

(** The events and the posted tasks. *)
Inductive qstep : quic_worker → quic_worker → Prop :=
  | q_event q q' : qevent q q' → qstep q q'
  | q_tcp q fd : qstep q (set_core (on_new_tcp_socket fd (qw_core q)) q)
  | q_drain q e : Forall (λ r, crashed r = false) (relays (qw_core q)) → Server.graceful_shutdown (qw_engine q) = Some e →
      qstep q (QW (graceful_shutdown (qw_core q)) e (qw_clients q) (qw_made q))
  | q_force q e : Server.force_close_all (qw_engine q) = Some e →
      qstep q (QW (force_close_quic (qw_core q)) e (qw_clients q) (qw_made q)).

(** A worker after [start_quic]. *)
Definition new_worker (cfg : ProxyConfig) (idx : Z) (e : Server.engine) : quic_worker :=
  QW (set_engine (Some (Engine idx)) (new_core cfg)) e [] [].

Definition qreachable (cfg : ProxyConfig) (q : quic_worker) : Prop :=
  ∃ idx ssl_ctx a e, Server.started idx ssl_ctx a e ∧ rtc qstep (new_worker cfg idx e) q.

(** ** Lemmas: what an event of lsquic changes *)

Lemma event_step w w' cb : lsquic_event cb w w' → QuicSession.ls_step ServerRole w w'.
Proof.
  intros []; [by eapply QuicSession.ls_server_conn|by eapply QuicSession.ls_new_stream|by eapply QuicSession.ls_read
    |by eapply QuicSession.ls_write|by eapply QuicSession.ls_reset|by eapply QuicSession.ls_stream_close|by eapply QuicSession.ls_conn_closed].
Qed.

(** Every session hands its streams to the worker, and every stream has its
    object. *)
Definition all_served (w : world) : Prop :=
  (∀ s x, sessions w !! s = Some x → new_stream_cb_ x = Some OnStream) ∧
  (∀ t c ctx, lstreams w !! t = Some (c, ctx) → ctx ≠ None).

(** The stream objects among some calls. *)
Definition delivered (xs : list call) : list nat :=
  omap (λ x, match x with NewStream _ OnStream (Some o) => Some o | _ => None end) xs.
Definition opened (xs : list call) : nat := length (omap (λ x, match x with NewSession s => Some s | _ => None end) xs).

Definition quiet (xs : list call) : Prop := delivered xs = [] ∧ opened xs = 0.

(** Events other than a new connection or stream leave sessions' handlers, the
    objects' holders and the streams' contexts alone. *)
Definition mild (w w' : world) : Prop :=
  (∃ xs, calls w' = xs ++ calls w ∧ quiet xs) ∧ stream_holders w' = stream_holders w ∧ (all_served w → all_served w').

Lemma mild_at_stream t f w w' : QuicSession.at_stream t f w = Some w' → mild w w'.
Proof.
  unfold QuicSession.at_stream. destruct (lstreams w !! t) as [[c [o|]]|]; [| |done]; cbn [mbind option_bind snd].
  - destruct (wrappers w !! o) as [x|]; [|done]. cbn. destruct (f _) as [st outs]. intros [= <-].
    split_and!; [by exists [QuicSession.StreamOut o outs]|done|done].
  - intros [= <-]. split_and!; [by exists []|done|done].
Qed.

Lemma collect_wrapper_mild o w : (∀ x, wrappers w !! o = Some x → QuicStream.stream_ (QuicSession.w_state x) = true →
    QuicSession.w_self x = true) → mild w (QuicSession.collect_wrapper o w).
Proof.
  intros Hself. unfold QuicSession.collect_wrapper. destruct (wrappers w !! o) as [x|] eqn:E; [|split_and!; [by exists []|done|done]].
  destruct (QuicSession.w_self x) eqn:Es; [cbn; split_and!; [by exists []|done|done]|]. cbn.
  destruct (bool_decide _); [split_and!; [by exists []|done|done]|].
  destruct (QuicStream.stream_ (QuicSession.w_state x)) eqn:Et; [by rewrite (Hself x) in Es|].
  split_and!; [by exists []|done|done].
Qed.

Lemma mild_trans w1 w2 w3 : mild w1 w2 → mild w2 w3 → mild w1 w3.
Proof.
  intros [(xs & E1 & [Q1 Q1']) [H1 S1]] [(ys & E2 & [Q2 Q2']) [H2 S2]]. split_and!; [|congruence|by auto].
  exists (ys ++ xs). rewrite E2, E1, app_assoc. split; [done|]. unfold quiet, delivered, opened in *. rewrite !omap_app, Q1, Q2, length_app.
  split; [done|lia].
Qed.

Lemma mild_close t w w' : QuicSession.close_cb t w = Some w' → mild w (QuicSession.free_stream t w').
Proof.
  assert (∀ w, mild w (QuicSession.free_stream t w)) as Hfree.
  { intros w0. split_and!; [by exists []|done|]. intros [H1 H2]. split; [done|]. cbn. intros t' c ctx [_ Ht]%lookup_delete_Some. by eapply H2. }
  unfold QuicSession.close_cb. destruct (lstreams w !! t) as [[c [o|]]|]; [| |done]; cbn [mbind option_bind snd].
  - destruct (wrappers w !! o) as [x|]; [|done]. cbn [mbind option_bind]. destruct (QuicStream.on_close _) as [st outs] eqn:E. intros [= <-].
    eapply mild_trans; [|apply Hfree]. eapply mild_trans; [|apply collect_wrapper_mild].
    + split_and!; [by exists [QuicSession.StreamOut o outs]|done|done].
    + cbn. rewrite lookup_insert_eq. intros x' [= <-]. cbn. by injection E as <- <-.
  - intros [= <-]. apply Hfree.
Qed.

Lemma mild_conn_closed c w w' : world_inv ServerRole w → is_Some (conns w !! c) → QuicSession.conn_closed_cb c w = Some w' →
  mild w (QuicSession.free_conn c w').
Proof.
  intros Hinv [ctx Hc] Hx. destruct (wv_conns _ _ _ _ Hinv c ctx Hc) as (s & x & -> & Hs & Hq).
  destruct (QuicSession.conn_closed_eq c s x w Hc Hs Hq) as (w1 & E & _ & Ef). rewrite Hx in E. injection E as <-. rewrite Ef.
  assert (mild w (QuicSession.closed_world c s x w)) as Hm.
  { split_and!; [|done|].
    - exists (QuicSession.notified s x). split; [done|]. unfold QuicSession.notified. by destruct (QuicSession.closed_cb_ x).
    - intros [H1 H2]. split; [|done]. cbn. intros s' x'. destruct (decide (s = s')) as [<-|Hne].
      + rewrite lookup_insert_eq. intros [= <-]. by apply (H1 s x).
      + rewrite lookup_insert_ne by done. apply H1. }
  eapply mild_trans; [exact Hm|]. unfold QuicSession.collect. cbn. rewrite lookup_insert_eq.
  destruct (QuicSession.referenced _ _ _); [split_and!; [by exists []|done|done]|]. cbn. split_and!; [by exists []|done|].
  intros [H1 H2]. split; [|done]. cbn. intros s' x' [_ Hs']%lookup_delete_Some. by eapply H1.
Qed.

(** The three kinds of events. *)
Inductive event_kind (w w' : world) (xs : list call) : Prop :=
  | kind_mild : quiet xs → stream_holders w' = stream_holders w → event_kind w w' xs
  | kind_conn s : xs = [NewSession s] → stream_holders w' = stream_holders w → event_kind w w' xs
  | kind_stream s o : xs = [NewStream s OnStream (Some o)] → wrappers w !! o = None →
      stream_holders w' = o :: stream_holders w → event_kind w w' xs.

Lemma event_effect w w' : world_inv ServerRole w → all_served w → lsquic_event true w w' →
  all_served w' ∧ ∃ xs, calls w' = xs ++ calls w ∧ event_kind w w' xs.
Proof.
  intros Hinv Hall Hev. assert (mild w w' → all_served w' ∧ ∃ xs, calls w' = xs ++ calls w ∧ event_kind w w' xs) as Hmild.
  { intros [(xs & E & Hq) [Hh Hs]]. split; [by apply Hs|]. exists xs. split; [done|]. by apply kind_mild. }
  destruct Hev as [w w' c s addr Hc Hs Hx|w w' c t o Hc Ht Ho Hx|w w' t hset rd Ht Hx|w w' t wr Ht Hx|w w' t how Ht Hx|w w' t Ht Hx|w w' c Hc Hn Hx];
    [| |by eapply Hmild, mild_at_stream..|by eapply Hmild, mild_close|by eapply Hmild, mild_conn_closed].
  - unfold QuicSession.server_new_conn_cb, QuicSession.adopt_self, QuicSession.set_closed_cb, QuicSession.set_new_stream_cb,
      QuicSession.on_session_at, QuicSession.new_session, QuicSession.put in Hx.
    repeat (cbn in Hx; rewrite lookup_insert_eq in Hx). cbn in Hx. injection Hx as <-. destruct Hall as [H1 H2]. split.
    + split; [|done]. cbn. rewrite !insert_insert_eq. intros s' x. destruct (decide (s = s')) as [<-|Hne].
      * rewrite lookup_insert_eq. by intros [= <-].
      * rewrite lookup_insert_ne by done. apply H1.
    + exists [NewSession s]. split; [done|]. by eapply kind_conn.
  - destruct Hc as [ctx Hc]. destruct (wv_conns _ _ _ _ Hinv c ctx Hc) as (s & x & -> & Hs & Hq). destruct Hall as [H1 H2].
    unfold QuicSession.new_stream_cb, QuicSession.on_new_stream in Hx. cbn in Hx. rewrite Hc in Hx. cbn in Hx. rewrite Hs in Hx. cbn in Hx.
    rewrite (H1 s x Hs) in Hx. injection Hx as <-. split.
    + split; [done|]. intros t' c' ctx'. cbn. destruct (decide (t = t')) as [<-|Hne].
      * rewrite lookup_alter_eq, lookup_insert_eq. by intros [= <- <-].
      * rewrite lookup_alter_ne, lookup_insert_ne by done. apply H2.
    + exists [NewStream s OnStream (Some o)]. split; [done|]. by eapply kind_stream.
Qed.

(** ** Lemmas: relays and the engine's shutdown calls *)

(** A relay nothing owns stays so: it is never brought back. *)
Lemma relay_event_alive r r' : relay_event r r' → alive r' = true → alive r = true.
Proof.
  intros [r0 r1 k x pre post _ Hp _|r0 _ _]; unfold alive.
  - intros _. rewrite Hp. by destruct pre.
  - destruct (pending r0) as [|k ks] eqn:E; [|done]. unfold teardown. cbn [done_ set_timer_armed].
    destruct (done_ r0); [cbn; by rewrite E|]. rewrite goto_phase_eq. unfold close_backend. destruct (backend_ _); cbn; by rewrite E.
Qed.

Lemma graceful_close_alive r : alive (graceful_close r) = alive r.
Proof. unfold graceful_close. destruct (done_ r); [done|]. by case_decide. Qed.

Lemma close_live_alive live : ∀ rs i r', fst (close_live rs live) !! i = Some r' → ∃ r, rs !! i = Some r ∧ alive r = alive r'.
Proof.
  induction live as [|j live IH]; intros rs i r'; cbn; [intros H; by exists r'|].
  destruct (rs !! j) as [rj|] eqn:Ej; [|apply IH]. destruct (alive rj); [|apply IH].
  specialize (IH (<[j:=graceful_close rj]> rs) i r'). destruct (close_live _ live) as [rs' l']. cbn in *. intros (r & Hr & Ha)%IH.
  destruct (decide (j = i)) as [->|Hne]; [|rewrite list_lookup_insert_ne in Hr by done; by exists r].
  rewrite list_lookup_insert_eq in Hr by (by eapply lookup_lt_Some). injection Hr as <-. exists rj. by rewrite <- Ha, graceful_close_alive.
Qed.

Lemma call_each_frame f cs w w' : (∀ c, quiet [f c]) → Server.call_each f cs w = Some w' → mild w w' ∧ wrappers w' = wrappers w.
Proof.
  intros Hf. revert w. induction cs as [|[c|] cs IH]; intros w; cbn; [|intros [Hm Hw]%IH|done].
  - intros [= <-]. split; [|done]. split_and!; [by exists []|done|done].
  - split; [|exact Hw]. eapply mild_trans; [|exact Hm]. split_and!; [by exists [f c]|done|done].
Qed.

(** The engine's shutdown calls change nothing but lsquic's connections. *)
Lemma shutdown_mild f e e' : (∀ c, quiet [f c]) →
  (let w := Server.srv_world e in let '(x, live) := Server.collect_conns w (QuicSession.live_sessions_ w) in
   w' ← Server.call_each f x (QuicSession.set_live live w); Some (Server.with_world w' e)) = Some e' →
  mild (Server.srv_world e) (Server.srv_world e') ∧ Server.srv_session_cb e' = Server.srv_session_cb e.
Proof.
  intros Hf. cbv zeta. destruct (Server.collect_conns _ _) as [x live]. destruct (Server.call_each f x _) as [w'|] eqn:E; [|done].
  intros [= <-]. cbn. split; [|done]. eapply mild_trans; [|exact (proj1 (call_each_frame _ _ _ _ Hf E))]. split_and!; [by exists []|done|done].
Qed.

(** ** The invariant *)

Section invariant.
Variable cfg : ProxyConfig.

Record qinv (q : quic_worker) : Prop := {
  qi_core : core_inv cfg (qw_core q);
  qi_cb : Server.srv_session_cb (qw_engine q) = true;
  qi_engine : Server.engine_inv (qw_engine q);
  qi_served : all_served (qw_world q);
  qi_hold : map snd (qw_clients q) ≡ₚ stream_holders (qw_world q);
  qi_objs : NoDup (map snd (qw_clients q));
  qi_ids : NoDup (map fst (qw_clients q));
  qi_made : (∀ i, i ∈ map fst (qw_clients q) → i ∈ qw_made q) ∧ NoDup (qw_made q) ∧
            (∀ i, i ∈ qw_made q → i < length (relays (qw_core q)));
  qi_alive : ∀ i r, i ∈ qw_made q → relays (qw_core q) !! i = Some r → alive r = true → i ∈ map fst (qw_clients q);
  qi_streams : length (qw_made q) = length (delivered (calls (qw_world q)));
  qi_conns : quic_conns (core_stats (qw_core q)) = u64 (Z.of_nat (opened (calls (qw_world q))));
  qi_relays : length (relays (qw_core q)) = length (sockets (qw_core q)) + length (qw_made q);
}.

(** Changes of the engine that deliver nothing to the worker. *)
Lemma qinv_mild q e : qinv q → Server.engine_inv e → Server.srv_session_cb e = true → mild (qw_world q) (Server.srv_world e) →
  qinv (QW (qw_core q) e (qw_clients q) (qw_made q)).
Proof.
  intros [H0 H1 H2 H3 H4 H5 H6 H7 H8 H9 H10 H11] He Hcb [(xs & Ec & [Q1 Q2]) [Hh Hs]]. split; try done.
  - by apply Hs.
  - unfold qw_world. cbn. by rewrite Hh.
  - unfold qw_world. cbn. rewrite Ec. unfold delivered in *. by rewrite omap_app, Q1.
  - unfold qw_world. cbn. rewrite Ec. unfold opened in *. by rewrite omap_app, length_app, Q2.
Qed.

(** Changes of the worker's relays that bring none back. *)
Lemma qinv_relays q c : qinv q → core_inv cfg c → sockets c = sockets (qw_core q) → quic_conns (core_stats c) = quic_conns (core_stats (qw_core q)) →
  length (relays c) = length (relays (qw_core q)) →
  (∀ i r', relays c !! i = Some r' → alive r' = true → ∃ r, relays (qw_core q) !! i = Some r ∧ alive r = true) →
  qinv (set_core c q).
Proof.
  intros [H0 H1 H2 H3 H4 H5 H6 (H7a & H7b & H7c) H8 H9 H10 H11] Hc Es Eq El Hback. split; try done; cbn.
  - split_and!; [done..|]. intros i Hi. rewrite El. by apply H7c.
  - intros i r' Hi Hr Ha. destruct (Hback i r' Hr Ha) as (r & Hr' & Ha'). by eapply H8.
  - by rewrite Eq.
  - by rewrite El, Es.
Qed.

Lemma qinv_lsquic q w xs : qinv q → lsquic_event true (qw_world q) w → calls w = xs ++ calls (qw_world q) →
  qinv (deliver_all xs (set_world w q)).
Proof.
  intros Hq Hev Ec. pose proof Hq as [H0 H1 [H2t H2] H3 H4 H5 H6 (H7a & H7b & H7c) H8 H9 H10 H11].
  assert (world_inv ServerRole w) as Hw by (eapply QuicSession.ls_step_inv, H2; by eapply event_step).
  destruct (event_effect _ _ H2 H3 Hev) as [Hs (ys & Ey & Hk)]. rewrite Ec in Ey. apply app_inv_tail in Ey as <-.
  destruct Hk as [Hquiet Hh|s -> Hh|s o -> Ho Hh].
  - assert (∀ q', deliver_all xs q' = q') as Hd.
    { destruct Hquiet as [Q1 Q2]. intros q'. unfold deliver_all. clear Ec Hs Hw. induction xs as [|x xs IH]; [done|].
      destruct x as [| | |s|s [] [o|]| |]; try done; cbn in *; by apply IH. }
    rewrite Hd. apply (qinv_mild q (Server.with_world w (qw_engine q))); try done. split_and!; [by exists xs|done|done].
  - split; try done; cbn; unfold qw_world in *; cbn in *; rewrite ?Hh, ?Ec; try done.
    { destruct H0. by split. }
    rewrite H10. cbn. unfold u64. rewrite Z.add_mod_idemp_l by lia. f_equal. unfold opened. cbn. lia.
  - assert (o ∉ map snd (qw_clients q)) as Hnew.
    { rewrite H4. intros Hin. destruct (wv_stream_holders _ _ _ _ H2 o Hin) as [x Hx]. unfold qw_world in *. congruence. }
    assert (length (relays (qw_core q)) ∉ qw_made q) as Hni by (intros Hi%H7c; lia).
    split; try done; cbn; unfold qw_world in *; cbn in *; rewrite ?Hh, ?Ec; try done.
    + by apply on_stream_inv.
    + by rewrite H4.
    + by constructor.
    + constructor; [|done]. intros Hi%H7a. done.
    + rewrite length_app. cbn. split_and!; [|by constructor|].
      * intros i [->|Hi]%elem_of_cons; [by left|right; by apply H7a].
      * intros i [->|Hi]%elem_of_cons; [lia|]. specialize (H7c i Hi). lia.
    + intros i r [->|Hi]%elem_of_cons; [intros; by left|]. rewrite lookup_app_l by (by apply H7c). intros Hr Ha. right. by eapply H8.
    + by rewrite H9.
    + rewrite length_app. cbn. lia.
Qed.

Lemma qinv_destroyed q i o r rest hs : qinv q → qw_clients q ≡ₚ (i, o) :: rest → relays (qw_core q) !! i = Some r → alive r = false →
  stream_holders (qw_world q) ≡ₚ o :: hs →
  qinv (set_clients rest (set_world (QuicSession.collect_wrapper o (QuicSession.set_stream_holders hs (qw_world q))) q)).
Proof.
  intros [H0 H1 [H2t H2] H3 H4 H5 H6 (H7a & H7b & H7c) H8 H9 H10 H11] Hcl Hr Ha Hh.
  assert (mild (QuicSession.set_stream_holders hs (qw_world q))
    (QuicSession.collect_wrapper o (QuicSession.set_stream_holders hs (qw_world q)))) as [(xs & Ec & [Q1 Q2]) [Eh Hs]].
  { apply collect_wrapper_mild. intros x Hx Ht. pose proof (wv_wrappers _ _ _ _ H2 o x Hx) as Hok. unfold QuicSession.wrapper_ok in Hok.
    rewrite Ht in Hok. by destruct Hok. }
  pose proof (Permutation_map fst Hcl) as P1. pose proof (Permutation_map snd Hcl) as P2. cbn in P1, P2.
  rewrite P2 in H4, H5. rewrite P1 in H6. apply list.NoDup_cons in H5 as [H5a H5], H6 as [H6a H6].
  split; try done.
  - split; [exact H2t|]. apply QuicSession.inv_collect_wrapper. by apply QuicSession.inv_drop_stream.
  - by apply Hs.
  - unfold qw_world. cbn. fold (qw_world q). rewrite Eh. cbn. apply (Permutation_cons_inv (a := o)). by rewrite H4.
  - split_and!; [|done..]. intros j Hj. apply H7a. rewrite P1. by right.
  - cbn. intros j r' Hj Hr' Ha'. specialize (H8 j r' Hj Hr' Ha'). rewrite P1 in H8.
    apply elem_of_cons in H8 as [->|Hin]; [congruence|done].
  - unfold qw_world. cbn. fold (qw_world q). rewrite Ec. unfold delivered in *. by rewrite omap_app, Q1.
  - unfold qw_world. cbn. fold (qw_world q). rewrite Ec. unfold opened in *. by rewrite omap_app, length_app, Q2.
Qed.

Lemma qevent_inv q q' : qevent q q' → qinv q → qinv q'.
Proof.
  intros Hs Hq. pose proof Hq as [H0 H1 H2 H3 H4 H5 H6 H7 H8 H9 H10 H11].
  destruct Hs as [q w new Hev Ec|q t Ht|q i r r' Hi Hr|q i o op w Hin Hop Hu|q i o r rest hs Hcl Hr Ha Hh].
  - rewrite H1 in Hev. by apply qinv_lsquic.
  - apply qinv_mild; try done; [|split_and!; [by exists []|done|done]].
    destruct H2 as [Ht2 Hw2]. split; [by eapply timer_step_ticking|done].
  - apply qinv_relays; try done; [|cbn; apply length_insert|].
    + eapply core_event_inv; [by eapply core_relay|done].
    + cbn. intros j r2. destruct (decide (i = j)) as [<-|Hne]; [|rewrite list_lookup_insert_ne by done; by eauto].
      rewrite list_lookup_insert_eq by (by eapply lookup_lt_Some). intros [= <-] Ha. exists r. split; [done|]. by eapply relay_event_alive.
  - destruct H2 as [Ht2 Hw2]. assert (o ∈ stream_holders (qw_world q)) as Ho.
    { rewrite <- H4. apply list_elem_of_fmap. by exists (i, o). }
    pose proof (QuicSession.use_stream_inv ServerRole op o _ w Hw2 Hop Hu) as Hi.
    apply (qinv_mild q (Server.with_world w (qw_engine q))); try done.
    apply QuicSession.use_stream_eq in Hu as (x & st & outs & _ & _ & _ & ->); [|done].
    split_and!; [by exists [QuicSession.StreamOut o outs]|done|done].
  - by eapply qinv_destroyed.
Qed.

Lemma qstep_inv q q' : qstep q q' → qinv q → qinv q'.
Proof.
  intros Hs Hq. pose proof Hq as [H0 H1 H2 H3 H4 H5 H6 H7 H8 H9 H10 H11].
  destruct Hs as [q q' Hev|q fd|q e Hc He|q e He].
  - by eapply qevent_inv.
  - destruct H7 as (H7a & H7b & H7c). pose proof (on_new_tcp_socket_inv cfg fd _ H0) as Hcore.
    split; try done; cbn.
    + split_and!; [done..|]. intros i Hi. rewrite length_app. specialize (H7c i Hi). lia.
    + intros i r Hi. rewrite lookup_app_l by (by apply H7c). intros Hr Ha. by eapply H8.
    + rewrite !length_app. cbn. lia.
  - destruct (shutdown_mild GoingAway (qw_engine q) e) as [Hm Hcb]; [done|exact He|].
    assert (qinv (QW (qw_core q) e (qw_clients q) (qw_made q))) as Hq'.
    { apply qinv_mild; try done; [|congruence]. pose proof (Server.server_engine_step (qw_engine q) (Server.with_world (Server.srv_world e) e)) as Hst.
      replace e with (Server.with_world (Server.srv_world e) e) by (by destruct e). apply Hst; [|done]. by eapply Server.step_goaway. }
    change (QW (graceful_shutdown (qw_core q)) e (qw_clients q) (qw_made q)) with
      (set_core (graceful_shutdown (qw_core q)) (QW (qw_core q) e (qw_clients q) (qw_made q))).
    apply qinv_relays; [done|by apply graceful_shutdown_inv|..]; unfold graceful_shutdown; cbn;
      pose proof (close_live_spec (λ _, True) (relays (qw_core q)) (live_relays_ (qw_core q)) (λ _ _, I) (Forall_true _ _ (λ _, I))) as [_ Hl];
      pose proof (close_live_alive (live_relays_ (qw_core q)) (relays (qw_core q))) as Hback;
      destruct (close_live _ _) as [rs live]; cbn in *; try done.
    intros i r' Hr Ha. destruct (Hback i r' Hr) as (r & Hr0 & E). exists r. split; [done|congruence].
  - destruct (shutdown_mild ConnClose (qw_engine q) e) as [Hm Hcb]; [done|exact He|].
    assert (qinv (QW (qw_core q) e (qw_clients q) (qw_made q))) as Hq'.
    { apply qinv_mild; try done; [|congruence]. pose proof (Server.server_engine_step (qw_engine q) (Server.with_world (Server.srv_world e) e)) as Hst.
      replace e with (Server.with_world (Server.srv_world e) e) by (by destruct e). apply Hst; [|done]. by eapply Server.step_force. }
    change (QW (force_close_quic (qw_core q)) e (qw_clients q) (qw_made q)) with
      (set_core (force_close_quic (qw_core q)) (QW (qw_core q) e (qw_clients q) (qw_made q))).
    apply qinv_relays; [done|by apply force_close_inv|done..|]. cbn. by eauto.
Qed.

Lemma qreachable_inv q : qreachable cfg q → qinv q.
Proof.
  intros (idx & ctx & a & e & Hst & Hr). assert (qinv (new_worker cfg idx e)) as Hi.
  { destruct Hst as (e1 & [= <-] & ->). split; [|done| |done|done|constructor|constructor| | |done..].
    - destruct (new_core_inv cfg). by split.
    - split; [apply schedule_tick_range|apply QuicSession.ls_reachable_inv, rtc_refl].
    - split_and!; [by intros ? ?%not_elem_of_nil|constructor|by intros ? ?%not_elem_of_nil].
    - by intros ? ? ?%not_elem_of_nil. }
  revert Hi. induction Hr as [|q0 q1 q2 Hs _ IH]; [done|]. intros Hi. apply IH. by eapply qstep_inv.
Qed.
End invariant.

(** Pairs that agree on a component without duplicates agree. *)
Lemma NoDup_snd_unique {A B} (l : list (A * B)) a a' b : NoDup (map snd l) → (a, b) ∈ l → (a', b) ∈ l → a' = a.
Proof.
  induction l as [|[x y] l IH]; cbn; intros Hn; [by intros ?%not_elem_of_nil|]. apply list.NoDup_cons in Hn as [Hy Hn].
  assert (∀ x', (x', y) ∉ l) as Hno by (intros x' Hin; apply Hy, list_elem_of_fmap; by exists (x', y)).
  intros [E1|H1]%elem_of_cons [E2|H2]%elem_of_cons; simplify_eq; [done|by destruct (Hno a')|by destruct (Hno a)|by apply IH].
Qed.

(** ** Properties *)

(** C11: Every stream a client opens gets its relay, and its object outlives it.
    In every reachable state of a worker with its engine: no stream lsquic has
    open is without its stream object; the relays are one per TCP connection and
    one per stream delivered, and the published connection count is the number
    of sessions made; a relay that still exists holds a stream object that is on
    the heap and that no other relay holds, and the stream objects held outside
    lsquic are exactly those of the relays. *)
Theorem quic_streams_served cfg q : qreachable cfg q →
  (∀ t c ctx, lstreams (qw_world q) !! t = Some (c, ctx) → ∃ o, ctx = Some o ∧ is_Some (wrappers (qw_world q) !! o)) ∧
  length (relays (qw_core q)) = length (sockets (qw_core q)) + length (delivered (calls (qw_world q))) ∧
  quic_conns (core_stats (qw_core q)) = u64 (Z.of_nat (opened (calls (qw_world q)))) ∧
  (∀ i r, i ∈ qw_made q → relays (qw_core q) !! i = Some r → alive r = true →
     ∃ o, (i, o) ∈ qw_clients q ∧ is_Some (wrappers (qw_world q) !! o) ∧ ∀ j, (j, o) ∈ qw_clients q → j = i) ∧
  map snd (qw_clients q) ≡ₚ stream_holders (qw_world q).
Proof.
  intros [H0 H1 [_ H2] [H3a H3b] H4 H5 H6 H7 H8 H9 H10 H11]%qreachable_inv. split_and!.
  - intros t c ctx Ht. destruct ctx as [o|]; [|by destruct (H3b t c None Ht)]. exists o. split; [done|].
    destruct (proj2 (wv_streams _ _ _ _ H2 t c _ Ht) o eq_refl) as (x & Hx & _). by exists x.
  - by rewrite H11, H9.
  - done.
  - intros i r Hi Hr Ha. specialize (H8 i r Hi Hr Ha). apply list_elem_of_fmap in H8 as ([i' o] & -> & Hin). exists o. split; [done|]. split.
    + apply (wv_stream_holders _ _ _ _ H2). rewrite <- H4. apply list_elem_of_fmap. by exists (i', o).
    + intros j Hj. cbn. by eapply NoDup_snd_unique.
  - done.
Qed.

(** The drain task of a worker reaches all its clients.  In every reachable
    state in which no relay has crashed the task runs to its end; afterwards
    every relay, of TCP and QUIC clients alike, is draining or torn down, and
    each live QUIC connection, and no other, was told once to go away. *)
Theorem drain_task_complete cfg q : qreachable cfg q → Forall (λ r, crashed r = false) (relays (qw_core q)) →
  ∃ e cs, qstep q (QW (graceful_shutdown (qw_core q)) e (qw_clients q) (qw_made q)) ∧
    Forall (λ r, winding_down r = true) (relays (graceful_shutdown (qw_core q))) ∧
    length (relays (graceful_shutdown (qw_core q))) = length (relays (qw_core q)) ∧
    cs ≡ₚ map fst (map_to_list (conns (qw_world q))) ∧
    calls (Server.srv_world e) = rev (map GoingAway cs) ++ calls (qw_world q).
Proof.
  intros Hq%qreachable_inv Hc. destruct (Server.shutdown_ok GoingAway (qw_engine q) (qi_engine _ _ Hq)) as (w' & cs & E & _ & Ec & Hcs & _).
  exists (Server.with_world w' (qw_engine q)), cs. pose proof (graceful_shutdown_inv cfg _ Hc (qi_core _ _ Hq)) as Hcore.
  assert (length (relays (graceful_shutdown (qw_core q))) = length (relays (qw_core q)) ∧
    shut_at (graceful_shutdown (qw_core q)) = Some (length (relays (qw_core q)))) as [Hl Hat].
  { unfold graceful_shutdown. pose proof (close_live_spec (λ _, True) (relays (qw_core q)) (live_relays_ (qw_core q)) (λ _ _, I)
      (Forall_true _ _ (λ _, I))) as [_ Hl]. by destruct (close_live _ _). }
  split_and!; [by apply q_drain| |done..]. apply Forall_lookup. intros i r Hi.
  eapply (ci_shut _ _ Hcore _ i r Hat); [|done]. rewrite <- Hl. by eapply lookup_lt_Some.
Qed.

(** ** Witnesses: a worker with one QUIC client, whose first stream has come. *)

Definition engine0 : Server.engine :=
  Server.start (Advice false 0) (Server.set_worker_idx 0 (Server.set_new_session_cb (Server.Srv (Engine (-1)) new_timer QuicSession.init_world false None))).

Definition connected : world :=
  QuicSession.World {[1 := Some 5]} ∅
    {[5 := QuicSession.Session (Some 1) #"10.0.0.1" (Some OnStream) None (Some QuicSession.EraseLive) false true]}
    ∅ [] [] [5] [NewSession 5].

Definition serving : quic_worker :=
  deliver_all [NewStream 5 OnStream (Some 9)] (set_world QuicSession.one_client
    (deliver_all [NewSession 5] (set_world connected (new_worker default_config 0 engine0)))).

Lemma qserving_reachable : qreachable default_config serving.
Proof.
  exists 0%Z, None, (Advice false 0), engine0. split; [by eexists|].
  eapply rtc_l; [apply q_event, (q_lsquic _ connected [NewSession 5]); [|reflexivity]|].
  { eapply (ev_conn _ QuicSession.init_world connected 1 5 (QuicSession.PeerV4 #"10.0.0.1")); [done|done|vm_compute; reflexivity]. }
  eapply rtc_l; [apply q_event, (q_lsquic _ QuicSession.one_client [NewStream 5 OnStream (Some 9)]); [|reflexivity]|apply rtc_refl].
  eapply (ev_stream _ connected QuicSession.one_client 1 8 9); [by eexists|done|done|vm_compute; reflexivity].
Qed.

Lemma quic_streams_served_witness : ∃ o, (0, o) ∈ qw_clients serving ∧ is_Some (wrappers (qw_world serving) !! o) ∧
  ∀ j, (j, o) ∈ qw_clients serving → j = 0.
Proof.
  destruct (quic_streams_served default_config serving qserving_reachable) as (_ & _ & _ & H & _).
  eapply (H 0); [left|reflexivity|reflexivity].
Defined.

Lemma drain_task_complete_witness : ∃ e cs, qstep serving (QW (graceful_shutdown (qw_core serving)) e (qw_clients serving) (qw_made serving)) ∧
  cs ≡ₚ [1] ∧ calls (Server.srv_world e) = rev (map GoingAway cs) ++ calls (qw_world serving).
Proof.
  destruct (drain_task_complete default_config serving qserving_reachable) as (e & cs & H1 & _ & _ & H2 & H3); [by_eval|].
  exists e, cs. split_and!; [exact H1|vm_compute in H2; exact H2|exact H3].
Defined.
