(* ===== verification/Server.v ===== *)
(** * The server (src/src/proxy/reverse_proxy_server.{h,cpp})

    One ingress thread and [n_] workers.  Each thread runs the handlers of its
    [io_context] one at a time; what other threads post to a worker is a FIFO
    queue here, [posted].  [step] interleaves the ingress handlers (accept
    completions, the posted [begin_shutdown], the grace timer), calls of [stop]
    from any thread, the workers' posted tasks and the events of their relays
    and engines.

    An accept that has completed but whose handler has not run yet is a state
    of its own, [Accepted]: cancelling the acceptor does not recall it.
    [remote_endpoint] of the accepted socket throws when the peer has already
    reset the connection ([remote = None]); the exception leaves the handler
    and the ingress thread, and terminates the process. *)

From S2P Require Import Prelude CppStd Transport HttpMessage Config Router Stats UpstreamPool QuicDemux.
From S2P Require Import RelaySession RelayTheorems ProxyCore.

(** What is posted to a worker. *)
Inductive task := NewSocket (fd : nat) (v6 : bool) | GracefulShutdown | ForceCloseQuic.

(** An accepted socket: its descriptor and whether its peer's address is IPv6. *)
Record peer_socket := Peer { peer_fd : nat; remote : option bool }.

Inductive accept_state :=
  | NotAccepting
  | Accepting                                            (** [async_accept] is pending *)
  | Accepted (res : error_code + peer_socket).           (** its handler is queued *)

(** What the grace timer waits for. *)
Inductive grace_wait := ForFinalize | ForHardStop.

(** The steps of the shutdown sequence. *)
Inductive control := StopCalled | BeginShutdown | Finalize | HardStop.

Record ReverseProxyServer := Server {
  started_ : bool;
  stopping_ : bool;
  rr_ : Z;                               (** [std::size_t] *)
  acceptor_ : accept_state;
  cores_ : list ProxyCore;
  posted : list (list task);             (** per worker, oldest first *)
  begin_posted : bool;                   (** [begin_shutdown] is posted to the ingress *)
  grace_timer_ : option grace_wait;
  demux_ : option QuicPacketDemux;
  stopped : bool;                        (** the [io_context]s are stopped *)
  terminated : bool;                     (** an exception left a thread *)
  accepted : list (nat * nat);           (** (worker, descriptor), oldest first *)
  ran : list (list task);                (** tasks run, per worker, oldest first *)
  controls : list control;               (** oldest first *)
}.

Definition new_server : ReverseProxyServer :=
  Server false false 0 NotAccepting [] [] false None None false false [] [] [].

Definition set_acceptor (x : accept_state) (sv : ReverseProxyServer) : ReverseProxyServer :=
  Server (started_ sv) (stopping_ sv) (rr_ sv) x (cores_ sv) (posted sv) (begin_posted sv) (grace_timer_ sv)
         (demux_ sv) (stopped sv) (terminated sv) (accepted sv) (ran sv) (controls sv).
Definition set_cores (x : list ProxyCore) (sv : ReverseProxyServer) : ReverseProxyServer :=
  Server (started_ sv) (stopping_ sv) (rr_ sv) (acceptor_ sv) x (posted sv) (begin_posted sv) (grace_timer_ sv)
         (demux_ sv) (stopped sv) (terminated sv) (accepted sv) (ran sv) (controls sv).
Definition set_posted (x : list (list task)) (sv : ReverseProxyServer) : ReverseProxyServer :=
  Server (started_ sv) (stopping_ sv) (rr_ sv) (acceptor_ sv) (cores_ sv) x (begin_posted sv) (grace_timer_ sv)
         (demux_ sv) (stopped sv) (terminated sv) (accepted sv) (ran sv) (controls sv).

Definition set_ran (x : list (list task)) (sv : ReverseProxyServer) : ReverseProxyServer :=
  Server (started_ sv) (stopping_ sv) (rr_ sv) (acceptor_ sv) (cores_ sv) (posted sv) (begin_posted sv) (grace_timer_ sv)
         (demux_ sv) (stopped sv) (terminated sv) (accepted sv) x (controls sv).
Definition set_demux (x : option QuicPacketDemux) (sv : ReverseProxyServer) : ReverseProxyServer :=
  Server (started_ sv) (stopping_ sv) (rr_ sv) (acceptor_ sv) (cores_ sv) (posted sv) (begin_posted sv) (grace_timer_ sv)
         x (stopped sv) (terminated sv) (accepted sv) (ran sv) (controls sv).

(** ** Start *)

(** The workers and, with QUIC enabled, their engines; the engine of worker [i]
    is [i]. *)
Fixpoint make_cores (cfg : ProxyConfig) (ssl : bool) (k i : nat) (demux : option QuicPacketDemux) :
  list ProxyCore * option QuicPacketDemux :=
  match k with
  | O => ([], demux)
  | S k' =>
      let '(c, demux1) :=
        match demux with
        | Some d => if ssl then let '(c, d') := start_quic i d (new_core cfg) in (c, Some d') else (new_core cfg, demux)
        | None => (new_core cfg, demux)
        end in
      let '(cs, demux2) := make_cores cfg ssl k' (S i) demux1 in
      (c :: cs, demux2)
  end.

(** What the operating system answers for the listening sockets. *)
Record listen_env := ListenEnv {
  address_parses : bool;                    (** [make_address(listen_addr)] *)
  udp6_binds : bool;                        (** the IPv6 socket of the demultiplexer *)
  tcp6_binds : bool;                        (** the dual-stack acceptor *)
  tcp_binds : bool;                         (** the acceptor on [listen_addr] *)
  tcp_listens : bool;                       (** [acceptor_->listen()] *)
}.

(** Where the acceptor listens; [None]: an exception.  The address is parsed
    first, also when it is not used; a dual-stack acceptor that cannot be bound is
    replaced by one on [listen_addr]; the other failures throw. *)
Inductive listening := DualStack | ListenAddr.

Definition tcp_listen (cfg : ProxyConfig) (env : listen_env) : option listening :=
  if negb (address_parses env) then None
  else
    l ← (if dual_stack cfg && tcp6_binds env then Some DualStack
         else if tcp_binds env then Some ListenAddr else None);
    if tcp_listens env then Some l else None.

Definition n_workers (cfg : ProxyConfig) : nat := Z.to_nat (Z.max 1 (num_threads cfg)).

(** [None]: an exception.  [ssl]: a server TLS context could be made. *)
Definition server_start (cfg : ProxyConfig) (ssl : bool) (env : listen_env) (sv : ReverseProxyServer) :
  option ReverseProxyServer :=
  if started_ sv then Some sv
  else
    let d := if (0 <? quic_port cfg)%Z then Some (new_demux (dual_stack cfg && udp6_binds env)) else None in
    let '(cs, d') := make_cores cfg ssl (n_workers cfg) 0 d in
    match tcp_listen cfg env with
    | None => None
    | Some _ => Some (Server true false 0 Accepting cs (replicate (n_workers cfg) []) false None d' false false []
                                (replicate (n_workers cfg) []) [])
    end.

(** ** Ingress handlers *)

Definition post (w : nat) (t : task) (q : list (list task)) : list (list task) := alter (λ l, l ++ [t]) w q.

(** The completion of [async_accept] in [accept_loop]. *)
Definition on_accept (res : error_code + peer_socket) (sv : ReverseProxyServer) : ReverseProxyServer :=
  match res with
  | inl ec => set_acceptor (if decide (ec = operation_aborted) then NotAccepting else Accepting) sv
  | inr peer =>
      let w := Z.to_nat (rr_ sv mod Z.of_nat (length (cores_ sv))) in
      match remote peer with
      | None => Server (started_ sv) (stopping_ sv) (u64 (rr_ sv + 1)) NotAccepting (cores_ sv) (posted sv) (begin_posted sv)
                       (grace_timer_ sv) (demux_ sv) (stopped sv) true (accepted sv) (ran sv) (controls sv)
      | Some v6 =>
          Server (started_ sv) (stopping_ sv) (u64 (rr_ sv + 1)) Accepting (cores_ sv)
                 (post w (NewSocket (peer_fd peer) v6) (posted sv)) (begin_posted sv) (grace_timer_ sv) (demux_ sv)
                 (stopped sv) (terminated sv) (accepted sv ++ [(w, peer_fd peer)]) (ran sv) (controls sv)
      end
  end.

Definition stop (sv : ReverseProxyServer) : ReverseProxyServer :=
  if negb (started_ sv) || stopping_ sv then sv
  else Server (started_ sv) true (rr_ sv) (acceptor_ sv) (cores_ sv) (posted sv) true (grace_timer_ sv) (demux_ sv)
              (stopped sv) (terminated sv) (accepted sv) (ran sv) (controls sv ++ [StopCalled]).

(** The handler of [run]'s signal set. *)
Definition on_signal (ec : option error_code) (sv : ReverseProxyServer) : ReverseProxyServer :=
  match ec with Some _ => sv | None => stop sv end.

(** The destructor, up to [wait]. *)
Definition destroy (sv : ReverseProxyServer) : ReverseProxyServer := if started_ sv then stop sv else sv.

(** [main]: the server that [run] starts, or the exit code for a configuration
    that cannot be loaded ([doc]: the parsed file, if it can be parsed). *)
Definition main (doc : option toml) (ssl : bool) (env : listen_env) : option ReverseProxyServer + Z :=
  match doc ≫= load_config with
  | None => inr 1%Z
  | Some cfg => inl (server_start cfg ssl env new_server)
  end.

(** [acceptor_->cancel()]: only an accept still pending is aborted. *)
Definition cancel_accept (a : accept_state) : accept_state :=
  match a with Accepting => Accepted (inl operation_aborted) | _ => a end.

Definition begin_shutdown (sv : ReverseProxyServer) : ReverseProxyServer :=
  Server (started_ sv) (stopping_ sv) (rr_ sv) (cancel_accept (acceptor_ sv)) (cores_ sv)
         (map (λ l, l ++ [GracefulShutdown]) (posted sv)) false (Some ForFinalize) (demux_ sv) (stopped sv)
         (terminated sv) (accepted sv) (ran sv) (controls sv ++ [BeginShutdown]).

Definition finalize (sv : ReverseProxyServer) : ReverseProxyServer :=
  Server (started_ sv) (stopping_ sv) (rr_ sv) (acceptor_ sv) (cores_ sv)
         (map (λ l, l ++ [ForceCloseQuic]) (posted sv)) (begin_posted sv) (Some ForHardStop) (demux_ sv) (stopped sv)
         (terminated sv) (accepted sv) (ran sv) (controls sv ++ [Finalize]).

Definition hard_stop (sv : ReverseProxyServer) : ReverseProxyServer :=
  Server (started_ sv) (stopping_ sv) (rr_ sv) (acceptor_ sv) (cores_ sv) (posted sv) (begin_posted sv) None (demux_ sv)
         true (terminated sv) (accepted sv) (ran sv) (controls sv ++ [HardStop]).

(** ** Worker tasks *)

Definition run_task (t : task) (c : ProxyCore) : ProxyCore :=
  match t with
  | NewSocket fd _ => on_new_tcp_socket fd c
  | GracefulShutdown => graceful_shutdown c
  | ForceCloseQuic => force_close_quic c
  end.

(** A worker takes the oldest task off its queue. *)
Definition run_posted (w : nat) (t : task) (q : list task) (c : ProxyCore) (sv : ReverseProxyServer) : ReverseProxyServer :=
  set_ran (post w t (ran sv))
    (set_posted (<[w := q]> (posted sv)) (set_cores (<[w := run_task t c]> (cores_ sv)) sv)).

(** An exception leaves a thread: [std::terminate]. *)
Definition terminate (sv : ReverseProxyServer) : ReverseProxyServer :=
  Server (started_ sv) (stopping_ sv) (rr_ sv) (acceptor_ sv) (cores_ sv) (posted sv) (begin_posted sv) (grace_timer_ sv)
         (demux_ sv) (stopped sv) true (accepted sv) (ran sv) (controls sv).

(** ** Executions *)

(** The process runs: started, not stopped, not brought down by an exception or
    a null dereference. *)
Definition running (sv : ReverseProxyServer) : Prop :=
  started_ sv = true ∧ stopped sv = false ∧ terminated sv = false ∧
  Forall (λ c, Forall (λ r, crashed r = false) (relays c)) (cores_ sv).

Inductive sstep : ReverseProxyServer → ReverseProxyServer → Prop :=
  | sstep_completed sv res : running sv → acceptor_ sv = Accepting →
      sstep sv (set_acceptor (Accepted res) sv)
  | sstep_accept sv res : running sv → acceptor_ sv = Accepted res → sstep sv (on_accept res sv)
  | sstep_stop sv : running sv → sstep sv (stop sv)
  | sstep_begin sv : running sv → begin_posted sv = true → sstep sv (begin_shutdown sv)
  | sstep_finalize sv : running sv → grace_timer_ sv = Some ForFinalize → sstep sv (finalize sv)
  | sstep_hard_stop sv : running sv → grace_timer_ sv = Some ForHardStop → sstep sv (hard_stop sv)
  | sstep_task sv w t q c : running sv → posted sv !! w = Some (t :: q) → cores_ sv !! w = Some c →
      sstep sv (run_posted w t q c sv)
  (** the peer of a posted socket is gone when the worker takes it *)
  | sstep_reset sv w fd v6 q c : running sv → posted sv !! w = Some (NewSocket fd v6 :: q) → cores_ sv !! w = Some c →
      new_tcp_socket None fd c = None → sstep sv (terminate sv)
  | sstep_core sv w c c' : running sv → cores_ sv !! w = Some c → core_event c c' →
      sstep sv (set_cores (<[w := c']> (cores_ sv)) sv)
  (** lsquic tells a worker's engine about ids it generated, or that are no
      longer used. *)
  | sstep_new_scids sv w c e d rnds : running sv → cores_ sv !! w = Some c → core_engine_ c = Some e →
      demux_ sv = Some d →
      sstep sv (set_demux (Some (on_new_scids e (map (generate_scid e kServerCidLen) rnds) d)) sv)
  | sstep_old_scids sv cids d : running sv → demux_ sv = Some d →
      sstep sv (set_demux (Some (on_old_scids cids d)) sv)
  (** A blocked send arms the watch for writability; its completion. *)
  | sstep_arm sv d : running sv → demux_ sv = Some d → sstep sv (set_demux (Some (arm_send_retry d)) sv)
  | sstep_writable sv v6 ec d : running sv → demux_ sv = Some d →
      sstep sv (set_demux (Some (fst (on_writable v6 ec d))) sv).

Definition server_reachable (cfg : ProxyConfig) (sv : ReverseProxyServer) : Prop :=
  ∃ ssl env sv0, server_start cfg ssl env new_server = Some sv0 ∧ rtc sstep sv0 sv.

(** ** The invariant *)

Definition task_fd (t : task) : option nat := match t with NewSocket fd _ => Some fd | _ => None end.

Definition is_control (t : task) : bool := match t with NewSocket _ _ => false | _ => true end.

(** The shutdown tasks every worker has been sent. *)
Definition shutdown_tasks (l : list control) : list task :=
  omap (λ k, match k with BeginShutdown => Some GracefulShutdown | Finalize => Some ForceCloseQuic | _ => None end) l.

(** How far the shutdown sequence is. *)
Inductive stage : list control → bool → bool → option grace_wait → bool → Prop :=
  | stage_serving : stage [] false false None false
  | stage_stopping : stage [StopCalled] true true None false
  | stage_draining : stage [StopCalled; BeginShutdown] true false (Some ForFinalize) false
  | stage_closing : stage [StopCalled; BeginShutdown; Finalize] true false (Some ForHardStop) false
  | stage_stopped : stage [StopCalled; BeginShutdown; Finalize; HardStop] true false None true.

(** The descriptors accepted for a worker, in order. *)
Definition fds_of (w : nat) (l : list (nat * nat)) : list nat := map snd (filter (λ p, p.1 = w) l).

(** A worker's history: [done] was run, [q] is queued. *)
Definition worker_ok (w : nat) (l : list (nat * nat)) (ctl : list control) (done q : list task) (c : ProxyCore) : Prop :=
  omap task_fd (done ++ q) = fds_of w l ∧ sockets c = omap task_fd done ∧
  List.filter is_control (done ++ q) = shutdown_tasks ctl ∧ (GracefulShutdown ∈ done ↔ shut_at c ≠ None).

Record server_inv (cfg : ProxyConfig) (sv : ReverseProxyServer) : Prop := {
  sv_cores : Forall (core_inv cfg) (cores_ sv);
  sv_len : length (cores_ sv) = n_workers cfg ∧ length (posted sv) = n_workers cfg ∧ length (ran sv) = n_workers cfg;
  sv_rr : terminated sv = false → rr_ sv = u64 (Z.of_nat (length (accepted sv)));
  sv_turns : map fst (accepted sv) =
    map (λ k, Z.to_nat (u64 (Z.of_nat k) mod Z.of_nat (n_workers cfg))) (seq 0 (length (accepted sv)));
  sv_workers : ∀ w done q c, ran sv !! w = Some done → posted sv !! w = Some q → cores_ sv !! w = Some c →
    worker_ok w (accepted sv) (controls sv) done q c;
  sv_stage : stage (controls sv) (stopping_ sv) (begin_posted sv) (grace_timer_ sv) (stopped sv);
  sv_engines : ∀ d, demux_ sv = Some d → demux_reachable d ∧
    (workers_ d = [] ∨ workers_ d = seq 0 (n_workers cfg)) ∧
    ∀ w c e, cores_ sv !! w = Some c → core_engine_ c = Some e → e = Engine (Z.of_nat w) ∧ workers_ d ≠ [];
}.

Lemma fds_of_snoc w l p : fds_of w (l ++ [p]) = fds_of w l ++ (if decide (p.1 = w) then [snd p] else []).
Proof. unfold fds_of. rewrite list.filter_app, map_app. f_equal. rewrite filter_cons. by case_decide. Qed.

Lemma filter_control_snoc l t : List.filter is_control (l ++ [t]) = List.filter is_control l ++ (if is_control t then [t] else []).
Proof. rewrite List.filter_app. cbn. by destruct (is_control t). Qed.

Lemma shutdown_tasks_snoc l k : shutdown_tasks (l ++ [k]) = shutdown_tasks l ++ shutdown_tasks [k].
Proof. apply omap_app. Qed.

Lemma new_socket_frame fd c : sockets (on_new_tcp_socket fd c) = sockets c ++ [fd] ∧
  shut_at (on_new_tcp_socket fd c) = shut_at c ∧ core_engine_ (on_new_tcp_socket fd c) = core_engine_ c.
Proof. done. Qed.

Lemma graceful_frame c : sockets (graceful_shutdown c) = sockets c ∧ shut_at (graceful_shutdown c) ≠ None ∧
  core_engine_ (graceful_shutdown c) = core_engine_ c.
Proof. unfold graceful_shutdown. by destruct (close_live _ _). Qed.

(** A worker runs its oldest task. *)
Lemma worker_ok_run w l ctl done t q c : worker_ok w l ctl done (t :: q) c → worker_ok w l ctl (done ++ [t]) q (run_task t c).
Proof.
  intros (H1 & H2 & H3 & H4). unfold worker_ok. rewrite <- !app_assoc. cbn [app].
  split_and!; [done| |done|]; rewrite ?omap_app, ?elem_of_app, ?list_elem_of_singleton; destruct t; cbn -[on_new_tcp_socket graceful_shutdown].
  - rewrite (proj1 (new_socket_frame fd c)). by rewrite H2.
  - rewrite (proj1 (graceful_frame c)), app_nil_r. done.
  - by rewrite app_nil_r.
  - rewrite (proj1 (proj2 (new_socket_frame fd c))). rewrite <- H4. split; [by intros [?|?]|by left].
  - split; [intros _; apply (proj1 (proj2 (graceful_frame c)))|by right].
  - rewrite <- H4. split; [by intros [?|?]|by left].
Qed.

Lemma run_task_inv cfg t c : Forall (λ r, crashed r = false) (relays c) → core_inv cfg c → core_inv cfg (run_task t c).
Proof.
  intros Hc Hi. destruct t; [by apply on_new_tcp_socket_inv|by apply graceful_shutdown_inv|by apply force_close_inv].
Qed.

Lemma run_task_engine t c : core_engine_ (run_task t c) = core_engine_ c.
Proof. destruct t; [apply new_socket_frame|apply graceful_frame|done]. Qed.

(** What is queued for [w'] after a post. *)
Lemma post_lookup w t q w' l : post w t q !! w' = Some l →
  ∃ l0, q !! w' = Some l0 ∧ l = (if decide (w = w') then l0 ++ [t] else l0).
Proof.
  unfold post. destruct (decide (w = w')) as [<-|Hne].
  - rewrite list_lookup_alter_eq. intros (l0 & -> & ->)%fmap_Some. by exists l0.
  - rewrite list_lookup_alter_ne by done. intros ->. by exists l.
Qed.

Lemma worker_ok_core w l ctl done q c c' : sockets c' = sockets c → shut_at c' = shut_at c →
  worker_ok w l ctl done q c → worker_ok w l ctl done q c'.
Proof. intros H1 H2. unfold worker_ok. by rewrite H1, H2. Qed.

Lemma worker_ok_post w l ctl k t done q c : is_control t = true → shutdown_tasks [k] = [t] →
  worker_ok w l ctl done q c → worker_ok w l (ctl ++ [k]) done (q ++ [t]) c.
Proof.
  intros Ht Hk (H1 & H2 & H3 & H4). unfold worker_ok.
  rewrite app_assoc, filter_control_snoc, shutdown_tasks_snoc, Ht, Hk, H3, omap_app, H1.
  split_and!; try done. destruct t; [done|by rewrite app_nil_r..].
Qed.

Lemma worker_ok_quiet w l ctl k done q c : shutdown_tasks [k] = [] →
  worker_ok w l ctl done q c → worker_ok w l (ctl ++ [k]) done q c.
Proof. intros Hk. unfold worker_ok. by rewrite shutdown_tasks_snoc, Hk, app_nil_r. Qed.

Lemma worker_ok_accept w w' fd v6 l ctl done q c : worker_ok w' l ctl done q c →
  worker_ok w' (l ++ [(w, fd)]) ctl done (if decide (w = w') then q ++ [NewSocket fd v6] else q) c.
Proof.
  intros (H1 & H2 & H3 & H4). unfold worker_ok. rewrite fds_of_snoc. cbn [fst snd].
  case_decide; [|by rewrite app_nil_r].
  rewrite app_assoc, filter_control_snoc, omap_app, H1, H3. by rewrite app_nil_r.
Qed.

Section steps.
Context (cfg : ProxyConfig).

Lemma n_workers_pos : 0 < n_workers cfg.
Proof. unfold n_workers. lia. Qed.

(** Handlers that change neither the workers nor the queues. *)
Lemma inv_ingress sv sv' : server_inv cfg sv →
  cores_ sv' = cores_ sv → ran sv' = ran sv → demux_ sv' = demux_ sv → accepted sv' = accepted sv →
  (terminated sv' = false → terminated sv = false ∧ rr_ sv' = rr_ sv) →
  length (posted sv') = length (posted sv) →
  (∀ w done q' c, ran sv' !! w = Some done → posted sv' !! w = Some q' → cores_ sv' !! w = Some c →
     worker_ok w (accepted sv') (controls sv') done q' c) →
  stage (controls sv') (stopping_ sv') (begin_posted sv') (grace_timer_ sv') (stopped sv') → server_inv cfg sv'.
Proof.
  intros [Hc (L1 & L2 & L3) Hr Ht Hw Hs He] E1 E2 E3 E4 Hterm Hlen Hw' Hs'. split; rewrite ?E1, ?E2, ?E3, ?E4 in *; try done.
  - by rewrite Hlen.
  - intros H. destruct (Hterm H) as [H1 ->]. by apply Hr.
Qed.

Lemma inv_accept res sv : server_inv cfg sv → terminated sv = false → server_inv cfg (on_accept res sv).
Proof.
  intros Hinv Htm. pose proof Hinv as [Hc (L1 & L2 & L3) Hr Ht Hw Hs He]. destruct res as [ec|peer]; cbn.
  { by apply (inv_ingress sv). }
  destruct (remote peer) as [v6|].
  2:{ apply (inv_ingress sv); try done. }
  rewrite (Hr Htm), L1. set (w := Z.to_nat _). split; try done; cbn.
  - unfold post. by rewrite length_alter.
  - intros _. rewrite length_app. cbn. unfold u64. rewrite Z.add_mod_idemp_l by lia. f_equal. lia.
  - rewrite map_app, length_app, seq_app, map_app, Ht. done.
  - intros w' done q c H1 (q0 & H2 & ->)%post_lookup H3. by apply worker_ok_accept, Hw.
Qed.

Lemma inv_run w t q c sv : running sv → posted sv !! w = Some (t :: q) → cores_ sv !! w = Some c →
  server_inv cfg sv → server_inv cfg (run_posted w t q c sv).
Proof.
  intros (_ & _ & _ & Hcr) Hq Hc [Hcs (L1 & L2 & L3) Hr Ht Hw Hs He]. split; try done; cbn.
  - apply Forall_insert; [done|]. apply run_task_inv; [exact (Forall_lookup_1 _ _ _ _ Hcr Hc)|exact (Forall_lookup_1 _ _ _ _ Hcs Hc)].
  - rewrite !length_insert. unfold post. by rewrite length_alter.
  - intros w' done q' c' (d0 & H1 & ->)%post_lookup H2 H3. destruct (decide (w = w')) as [<-|Hne].
    + rewrite list_lookup_insert_eq in H2 by (by eapply lookup_lt_Some).
      rewrite list_lookup_insert_eq in H3 by (by eapply lookup_lt_Some). simplify_eq.
      by apply worker_ok_run, Hw.
    + rewrite list_lookup_insert_ne in H2 by done. rewrite list_lookup_insert_ne in H3 by done. by apply Hw.
  - intros d Hd. destruct (He d Hd) as (H1 & H2 & H3). split_and!; [done..|]. intros w' c' e.
    destruct (decide (w = w')) as [<-|Hne].
    + rewrite list_lookup_insert_eq by (by eapply lookup_lt_Some). intros [= <-]. rewrite run_task_engine. by apply H3.
    + rewrite list_lookup_insert_ne by done. by apply H3.
Qed.

Lemma inv_event w c c' sv : cores_ sv !! w = Some c → core_event c c' →
  server_inv cfg sv → server_inv cfg (set_cores (<[w := c']> (cores_ sv)) sv).
Proof.
  intros Hc Hev [Hcs (L1 & L2 & L3) Hr Ht Hw Hs He]. destruct (core_event_frame _ _ Hev) as (F1 & F2 & F3).
  split; try done; cbn.
  - apply Forall_insert; [done|]. eapply core_event_inv; [done|]. by eapply Forall_lookup_1.
  - by rewrite length_insert.
  - intros w' done q' c0 H1 H2. destruct (decide (w = w')) as [<-|Hne].
    + rewrite list_lookup_insert_eq by (by eapply lookup_lt_Some). intros [= <-].
      eapply worker_ok_core; [done..|]. by apply Hw.
    + rewrite list_lookup_insert_ne by done. by apply Hw.
  - intros d Hd. destruct (He d Hd) as (H1 & H2 & H3). split_and!; [done..|]. intros w' c0 e.
    destruct (decide (w = w')) as [<-|Hne].
    + rewrite list_lookup_insert_eq by (by eapply lookup_lt_Some). intros [= <-]. rewrite F3. by apply H3.
    + rewrite list_lookup_insert_ne by done. by apply H3.
Qed.
Lemma inv_demux d d' sv : demux_ sv = Some d → (demux_reachable d → demux_reachable d') → workers_ d' = workers_ d →
  server_inv cfg sv → server_inv cfg (set_demux (Some d') sv).
Proof.
  intros Hd Hr Hw [Hcs HL Hrr Ht Hwk Hs He]. destruct (He d Hd) as (H1 & H2 & H3). split; try done; cbn.
  intros d2 [= <-]. rewrite Hw. split_and!; [by apply Hr|done|done].
Qed.

Lemma server_step_inv sv sv' : sstep sv sv' → server_inv cfg sv → server_inv cfg sv'.
Proof.
  intros Hst Hinv. pose proof (sv_stage _ _ Hinv) as Hs. pose proof (sv_workers _ _ Hinv) as Hw.
  destruct Hst as [sv res Hrun Ha|sv res Hrun Ha|sv Hrun|sv Hrun Hb|sv Hrun Hg|sv Hrun Hg|sv w t q c Hrun Hq Hc
                  |sv w fd v6 q c Hrun Hq Hc Hn|sv w c c' Hrun Hc Hev|sv w c e d rnds Hrun Hc Hen Hd|sv cids d Hrun Hd|sv d Hrun Hd|sv v6 ec d Hrun Hd].
  - by apply (inv_ingress sv).
  - apply inv_accept; [done|apply Hrun].
  - unfold stop. destruct (negb _ || stopping_ sv) eqn:E; [done|]. apply orb_false_iff in E as [_ E].
    apply (inv_ingress sv); try done; cbn.
    + intros w done q' c H1 H2 H3. apply worker_ok_quiet; [done|]. by apply Hw.
    + rewrite E in Hs. inversion Hs. constructor.
  - apply (inv_ingress sv); try done; cbn.
    + by rewrite length_map.
    + intros w done q' c H1 H2 H3. apply (list_lookup_fmap_Some_1 _ (posted sv)) in H2 as (q & -> & H2).
      apply worker_ok_post; [done..|]. by apply Hw.
    + rewrite Hb in Hs. inversion Hs. constructor.
  - apply (inv_ingress sv); try done; cbn.
    + by rewrite length_map.
    + intros w done q' c H1 H2 H3. apply (list_lookup_fmap_Some_1 _ (posted sv)) in H2 as (q & -> & H2).
      apply worker_ok_post; [done..|]. by apply Hw.
    + rewrite Hg in Hs. inversion Hs. constructor.
  - apply (inv_ingress sv); try done; cbn.
    + intros w done q' c H1 H2 H3. apply worker_ok_quiet; [done|]. by apply Hw.
    + rewrite Hg in Hs. inversion Hs. constructor.
  - by apply inv_run.
  - by apply (inv_ingress sv).
  - by eapply inv_event.
  - eapply inv_demux; [done| |apply new_scids_lookup|done].
    destruct (sv_engines _ _ Hinv d Hd) as (H1 & H2 & H3). destruct (H3 w c e Hc Hen) as [-> Hne].
    intros _. apply demux_register; [done| |].
    + destruct H2 as [H2|H2]; [done|]. rewrite H2, length_seq. cbn. apply lookup_lt_Some in Hc.
      destruct (sv_len _ _ Hinv) as [L _]. lia.
    + intros x (rnd & <- & _)%list_elem_of_In%in_map_iff. by exists rnd.
  - eapply inv_demux; [done|by apply demux_retire|apply old_scids_lookup|done].
  - eapply inv_demux; [done|by apply demux_arm|done|done].
  - eapply inv_demux; [done|by apply demux_writable|done|done].
Qed.

Lemma make_cores_spec ssl k : ∀ i demux, let '(cs, demux') := make_cores cfg ssl k i demux in
  length cs = k ∧ Forall (λ c, core_inv cfg c ∧ sockets c = [] ∧ shut_at c = None) cs ∧
  ∀ d', demux' = Some d' → ∃ d, demux = Some d ∧
    (demux_reachable d → demux_reachable d') ∧
    (workers_ d = (if ssl then seq 0 i else []) →
       workers_ d' = (if ssl then seq 0 (i + k) else []) ∧
       ∀ w c e, cs !! w = Some c → core_engine_ c = Some e → ssl = true ∧ e = Engine (Z.of_nat (i + w))).
Proof.
  induction k as [|k IH]; intros i demux; cbn -[new_core].
  { split_and!; [done|constructor|]. intros d' ->. exists d'. split_and!; [done..|]. intros ->.
    rewrite Nat.add_0_r. by split. }
  assert (core_inv cfg (new_core cfg) ∧ sockets (new_core cfg) = [] ∧ shut_at (new_core cfg) = None) as Hnew
    by (split_and!; [apply new_core_inv|done..]).
  destruct demux as [d|].
  - destruct ssl; cbn -[new_core].
    + specialize (IH (S i) (Some (snd (add_worker i d)))). cbn [snd add_worker] in IH.
      destruct (make_cores cfg true k (S i) _) as [cs demux']. destruct IH as (H1 & H2 & H3).
      split_and!; [by rewrite <- H1|constructor; [|done]; destruct Hnew as (N1 & N2 & N3); split_and!; [|done..]; destruct N1; by split|].
      intros d' ->. destruct (H3 d' eq_refl) as (d2 & [= <-] & H4 & H5). exists d. split_and!; [done| |].
      * intros Hr. apply H4. by apply (demux_add i).
      * intros Hwk. destruct H5 as [H5 H6]. { cbn [workers_]. by rewrite Hwk, seq_S. }
        split; [rewrite H5; f_equal; lia|]. intros [|w] c e; cbn -[new_core].
        { intros [= <-]. cbn. intros [= <-]. by rewrite Hwk, length_seq, Nat.add_0_r. }
        intros Hc Hen. destruct (H6 w c e Hc Hen) as [_ ->]. split; [done|]. do 2 f_equal. lia.
    + specialize (IH (S i) (Some d)). destruct (make_cores cfg false k (S i) _) as [cs demux']. destruct IH as (H1 & H2 & H3).
      split_and!; [by rewrite <- H1|by constructor|].
      intros d' ->. destruct (H3 d' eq_refl) as (d2 & [= <-] & H4 & H5). exists d. split_and!; [done..|].
      intros Hwk. destruct (H5 Hwk) as [H6 H7]. split; [done|]. intros [|w] c e; cbn -[new_core]; [by intros [= <-]|].
      intros Hc Hen. by destruct (H7 w c e Hc Hen).
  - specialize (IH (S i) None). destruct (make_cores cfg ssl k (S i) None) as [cs demux']. destruct IH as (H1 & H2 & H3).
    split_and!; [by rewrite <- H1|by constructor|]. intros d' ->. by destruct (H3 d' eq_refl) as (d & [=] & _).
Qed.
End steps.

Lemma server_start_inv cfg ssl env sv : server_start cfg ssl env new_server = Some sv →
  server_inv cfg sv.
Proof.
  unfold server_start. cbn [started_ new_server].
  set (d := if (0 <? quic_port cfg)%Z then _ else _).
  pose proof (make_cores_spec cfg ssl (n_workers cfg) 0 d) as Hm.
  destruct (make_cores cfg ssl (n_workers cfg) 0 d) as [cs d']. destruct Hm as (H1 & H2 & H3).
  destruct (tcp_listen cfg env); [|done]. intros [= <-]. split; try done; cbn.
  - eapply List.Forall_impl; [|exact H2]. by intros c (Hc & _).
  - by rewrite !length_replicate.
  - intros w done q c [-> _]%lookup_replicate [-> _]%lookup_replicate Hc.
    destruct (Forall_lookup_1 _ _ _ _ H2 Hc) as (_ & Hs & Ha). unfold worker_ok. rewrite Hs, Ha.
    split_and!; [done..|]. split; [by intros ?%not_elem_of_nil|done].
  - constructor.
  - intros d0 Hd0. destruct (H3 d0 Hd0) as (d1 & Hd1 & Hr & Hw).
    assert (d1 = new_demux (dual_stack cfg && udp6_binds env)) as -> by (subst d; by destruct (0 <? _)%Z; simplify_eq).
    destruct Hw as [Hw1 Hw2]; [by destruct ssl|]. split_and!; [apply Hr, demux_new|destruct ssl; [by right|by left]|].
    intros w c e Hc He. destruct (Hw2 w c e Hc He) as [-> ->]. split; [done|]. rewrite Hw1. cbn [Nat.add].
    pose proof (n_workers_pos cfg). by destruct (n_workers cfg); [lia|].
Qed.

Lemma server_reachable_inv cfg sv : server_reachable cfg sv → server_inv cfg sv.
Proof.
  intros (ssl & env & sv0 & Hs & Hr). apply server_start_inv in Hs. induction Hr as [|s1 s2 s3 Hst _ IH]; [done|].
  apply IH. by eapply server_step_inv.
Qed.

(** The history of a worker. *)
Lemma worker_history cfg sv w c q : server_inv cfg sv → cores_ sv !! w = Some c → posted sv !! w = Some q →
  ∃ done, ran sv !! w = Some done ∧ worker_ok w (accepted sv) (controls sv) done q c.
Proof.
  intros Hinv Hc Hq. destruct (sv_len _ _ Hinv) as (L1 & L2 & L3).
  destruct (lookup_lt_is_Some_2 (ran sv) w) as [done Hd]; [apply lookup_lt_Some in Hc; lia|].
  exists done. split; [done|]. by apply (sv_workers _ _ Hinv).
Qed.

(** ** Properties *)

(** C24: Every accepted socket reaches exactly one worker, in turn and in order:
    what a worker has taken over, followed by what is still posted to it, is
    the sequence of sockets accepted for it; the [k]-th accepted one goes to
    worker [k mod n] (until the 64-bit counter wraps), and each worker's share of the connection
    counter is the number of sockets it has taken over. *)
Theorem accepted_handed_once cfg (sv : ReverseProxyServer) : server_reachable cfg sv →
  length (cores_ sv) = n_workers cfg ∧
  (∀ w c q, cores_ sv !! w = Some c → posted sv !! w = Some q →
     sockets c ++ omap task_fd q = fds_of w (accepted sv) ∧
     tcp_conns (core_stats c) = u64 (Z.of_nat (length (sockets c)))) ∧
  ((Z.of_nat (length (accepted sv)) < 2 ^ 64)%Z →
   map fst (accepted sv) = map (λ k, k mod n_workers cfg) (seq 0 (length (accepted sv)))).
Proof.
  intros Hinv%server_reachable_inv. split_and!; [apply Hinv| |].
  - intros w c q Hc Hq. destruct (worker_history _ _ _ _ _ Hinv Hc Hq) as (done & _ & H1 & H2 & _).
    rewrite H2, <- H1, omap_app. split; [done|]. rewrite <- H2. by apply (Forall_lookup_1 _ _ _ _ (sv_cores _ _ Hinv) Hc).
  - intros Hlt. rewrite (sv_turns _ _ Hinv). apply map_ext_in. intros k [_ Hk]%in_seq. unfold u64.
    rewrite (Z.mod_small (Z.of_nat k)) by lia. rewrite <- Nat2Z.inj_mod. apply Nat2Z.id.
Qed.

(** Two workers with QUIC; a client connects, is handed to worker 0, and the
    server is stopped. *)
Definition two_worker_config : ProxyConfig :=
  Config #"0.0.0.0" 8080 2 0 0 30 false 443 #"cert.pem" #"key.pem" [Endpoint #"web" #"10.0.0.1" 80 1 TCP] [Route #"*" #"web"].

Definition ipv4_only : listen_env := ListenEnv true false false true true.
Definition serving : ReverseProxyServer := default new_server (server_start two_worker_config true ipv4_only new_server).
Definition client_ready : ReverseProxyServer := set_acceptor (Accepted (inr (Peer 5 (Some false)))) serving.
Definition client_posted : ReverseProxyServer := on_accept (inr (Peer 5 (Some false))) client_ready.
Definition client_served : ReverseProxyServer :=
  match cores_ client_posted with
  | c :: _ => run_posted 0 (NewSocket 5 false) [] c client_posted
  | [] => client_posted
  end.
Definition shutting_down : ReverseProxyServer := begin_shutdown (stop client_served).

Ltac solve_running := repeat split; vm_compute; repeat constructor.

Lemma serving_reachable : server_reachable two_worker_config serving.
Proof. exists true, ipv4_only, serving. split; [reflexivity|apply rtc_refl]. Qed.

Lemma server_reachable_r cfg sv sv' : server_reachable cfg sv → sstep sv sv' → server_reachable cfg sv'.
Proof. intros (a & b & sv0 & Hs & Hr) Hst. exists a, b, sv0. split; [done|by eapply rtc_r]. Qed.

Lemma client_ready_reachable : server_reachable two_worker_config client_ready.
Proof. eapply server_reachable_r; [apply serving_reachable|]. apply sstep_completed; [solve_running|reflexivity]. Qed.

Lemma client_posted_reachable : server_reachable two_worker_config client_posted.
Proof. eapply server_reachable_r; [apply client_ready_reachable|]. apply sstep_accept; [solve_running|reflexivity]. Qed.

Lemma client_served_reachable : server_reachable two_worker_config client_served.
Proof.
  eapply server_reachable_r; [apply client_posted_reachable|].
  eapply (sstep_task client_posted 0 (NewSocket 5 false) []); [solve_running|reflexivity|reflexivity].
Qed.

Lemma shutting_down_reachable : server_reachable two_worker_config shutting_down.
Proof.
  eapply server_reachable_r; [|apply (sstep_begin (stop client_served)); [solve_running|reflexivity]].
  eapply server_reachable_r; [apply client_served_reachable|]. apply sstep_stop. solve_running.
Qed.

Lemma accepted_handed_once_witness : map fst (accepted client_posted) = [0] ∧
  ∃ c q, cores_ client_posted !! 0 = Some c ∧ posted client_posted !! 0 = Some q ∧ sockets c ++ omap task_fd q = [5].
Proof.
  destruct (accepted_handed_once two_worker_config client_posted client_posted_reachable) as (_ & H1 & H2).
  split; [rewrite (H2 eq_refl); reflexivity|].
  destruct (cores_ client_posted) as [|c cs] eqn:E; [vm_compute in E; discriminate|].
  exists c, [NewSocket 5 false]. split_and!; [reflexivity|reflexivity|].
  exact (proj1 (H1 0 c [NewSocket 5 false] eq_refl eq_refl)).
Defined.

(** C23: Shutdown happens once, in order, and is not held up: [stop],
    [begin_shutdown], [finalize] and [hard_stop] happen at most once each and in
    this order; every worker is posted the drain task and then the force-close
    task, once each, with the stage that posts it; and from any state in which
    [stop] has been called and the process still runs, the next stage is enabled. *)
Theorem shutdown_sequence cfg (sv : ReverseProxyServer) : server_reachable cfg sv →
  controls sv `prefix_of` [StopCalled; BeginShutdown; Finalize; HardStop] ∧
  (stopped sv = true ↔ HardStop ∈ controls sv) ∧
  (∀ w done q, ran sv !! w = Some done → posted sv !! w = Some q →
     List.filter is_control (done ++ q) = shutdown_tasks (controls sv)) ∧
  (stopping_ sv = true → running sv → ∃ sv' k, sstep sv sv' ∧ controls sv' = controls sv ++ [k]).
Proof.
  intros Hinv%server_reachable_inv. pose proof (sv_stage _ _ Hinv) as Hs. split_and!.
  - inversion Hs; [by eexists..].
  - inversion Hs; (split; [|]); intros H'; try done; try (by right; right; right; left);
      repeat (apply elem_of_cons in H' as [H'|H']; [done|]); by apply not_elem_of_nil in H'.
  - intros w done q H1 H2. destruct (sv_len _ _ Hinv) as (L1 & L2 & L3).
    destruct (lookup_lt_is_Some_2 (cores_ sv) w) as [c Hc]; [apply lookup_lt_Some in H1; lia|].
    by destruct (sv_workers _ _ Hinv w done q c H1 H2 Hc) as (_ & _ & H3 & _).
  - intros Hst Hrun. inversion Hs as [E1 E2 E3 E4 E5|E1 E2 E3 E4 E5|E1 E2 E3 E4 E5|E1 E2 E3 E4 E5|E1 E2 E3 E4 E5].
    + congruence.
    + exists (begin_shutdown sv), BeginShutdown. split; [by apply sstep_begin|]. cbn. by rewrite <- E1.
    + exists (finalize sv), Finalize. split; [by apply sstep_finalize|]. cbn. by rewrite <- E1.
    + exists (hard_stop sv), HardStop. split; [by apply sstep_hard_stop|]. cbn. by rewrite <- E1.
    + destruct Hrun as (_ & Hn & _). congruence.
Qed.

Lemma shutdown_sequence_witness : ∃ sv' k, sstep shutting_down sv' ∧ controls sv' = [StopCalled; BeginShutdown; k].
Proof.
  destruct (shutdown_sequence two_worker_config shutting_down shutting_down_reachable) as (_ & _ & _ & H).
  destruct (H eq_refl ltac:(solve_running)) as (sv' & k & Hs & Hc). exists sv', k. split; [exact Hs|exact Hc].
Defined.

(** C18: The drain task reaches every client of its worker: once it has run, every
    relay that existed then is draining or torn down, in every later state, and
    asks its client for no further request, whatever completes for it (a request
    it had asked for before may still arrive and is served); and the task has run
    exactly when it has been taken off the worker's queue. *)
Theorem shutdown_reaches_relays cfg (sv : ReverseProxyServer) : server_reachable cfg sv →
  ∀ w c done, cores_ sv !! w = Some c → ran sv !! w = Some done →
  (GracefulShutdown ∈ done ↔ ∃ k, shut_at c = Some k ∧ k ≤ length (relays c)) ∧
  (∀ k i r, shut_at c = Some k → i < k → relays c !! i = Some r →
     winding_down r = true ∧ ∀ r', rtc step r r' → asks (log r') = asks (log r)).
Proof.
  intros Hinv%server_reachable_inv w c done Hc Hd. destruct (sv_len _ _ Hinv) as (L1 & L2 & L3).
  destruct (lookup_lt_is_Some_2 (posted sv) w) as [q Hq]; [apply lookup_lt_Some in Hc; lia|].
  pose proof (Forall_lookup_1 _ _ _ _ (sv_cores _ _ Hinv) Hc) as Hci.
  destruct (sv_workers _ _ Hinv w done q c Hd Hq Hc) as (_ & _ & _ & H). split.
  2:{ intros k i r Hk Hi Hr. pose proof (ci_shut _ _ Hci k i r Hk Hi Hr) as Hw. split; [done|]. intros r' Hs. by apply wound_rtc. }
  rewrite H. destruct (shut_at c) as [k|] eqn:E; [|split; [done|by intros (k & ? & _)]].
  split; [intros _; exists k; split; [done|by apply Hci]|done].
Qed.

Definition drained : ReverseProxyServer :=
  match cores_ shutting_down with
  | c :: _ => run_posted 0 GracefulShutdown [] c shutting_down
  | [] => shutting_down
  end.

Lemma drained_reachable : server_reachable two_worker_config drained.
Proof.
  eapply server_reachable_r; [apply shutting_down_reachable|].
  eapply (sstep_task shutting_down 0 GracefulShutdown []); [solve_running|reflexivity|reflexivity].
Qed.

Lemma shutdown_reaches_relays_witness : ∃ c r, cores_ drained !! 0 = Some c ∧ relays c !! 0 = Some r ∧ winding_down r = true.
Proof.
  destruct (cores_ drained !! 0) as [c|] eqn:Ec; [|vm_compute in Ec; discriminate].
  destruct (relays c !! 0) as [r|] eqn:Er; [|vm_compute in Ec; injection Ec as <-; vm_compute in Er; discriminate].
  exists c, r. split_and!; [reflexivity|exact Er|].
  refine (proj1 (proj2 (shutdown_reaches_relays two_worker_config drained drained_reachable 0 c _ Ec eq_refl) 1 0 r _ _ Er));
    [|lia]. vm_compute in Ec. injection Ec as <-. reflexivity.
Defined.

(** All relays of the process, and the total of a quantity over them. *)
Definition all_relays (sv : ReverseProxyServer) : list RelaySession := concat (map relays (cores_ sv)).
Definition total (f : RelaySession → Z) (sv : ReverseProxyServer) : Z := foldr (λ r n, f r + n)%Z 0%Z (all_relays sv).

Lemma total_balance (rs : list RelaySession) : Forall (λ r, owes 0 r) rs →
  ((foldr (λ r n, requests (stats_ r) + n) 0 rs) mod 2 ^ 64 =
   (foldr (λ r n, resp_ok (stats_ r) + n) 0 rs + foldr (λ r n, resp_err (stats_ r) + n) 0 rs +
    foldr (λ r n, tunnels (log r) + n) 0 rs + foldr (λ r n, in_flight (pending r) + n) 0 rs) mod 2 ^ 64)%Z.
Proof.
  induction 1 as [|r rs Hr _ IH]; [done|]. cbn [foldr]. unfold owes, balance in Hr.
  revert Hr IH. generalize (requests (stats_ r)), (resp_ok (stats_ r)), (resp_err (stats_ r)), (tunnels (log r)), (in_flight (pending r)).
  generalize (foldr (λ r n, requests (stats_ r) + n)%Z 0%Z rs), (foldr (λ r n, resp_ok (stats_ r) + n)%Z 0%Z rs),
    (foldr (λ r n, resp_err (stats_ r) + n)%Z 0%Z rs), (foldr (λ r n, tunnels (log r) + n)%Z 0%Z rs),
    (foldr (λ r n, in_flight (pending r) + n)%Z 0%Z rs). intros.
  Z.to_euclidean_division_equations. lia.
Qed.

(** C26: The published counters of the whole process add up: summed over every
    relay of every worker, modulo their 64-bit width, the requests begun are
    the ok and error responses, the tunnels and the exchanges in flight; every
    relay is a session of the model, with the configured timeout and routes. *)
Theorem server_requests_accounted cfg (sv : ReverseProxyServer) : server_reachable cfg sv → running sv →
  Forall (λ r, ∃ h1, reachable h1 (core_router_ (new_core cfg)) (idle_timeout_secs cfg) r) (all_relays sv) ∧
  (total (λ r, requests (stats_ r)) sv mod 2 ^ 64 =
   (total (λ r, resp_ok (stats_ r)) sv + total (λ r, resp_err (stats_ r)) sv +
    total (λ r, tunnels (log r)) sv + total (λ r, in_flight (pending r)) sv) mod 2 ^ 64)%Z.
Proof.
  intros Hinv%server_reachable_inv (_ & _ & _ & Hcr). pose proof (sv_cores _ _ Hinv) as Hc.
  assert (Forall (λ r, (∃ h1, reachable h1 (core_router_ (new_core cfg)) (idle_timeout_secs cfg) r) ∧ crashed r = false)
            (all_relays sv)) as Hall.
  { apply Forall_concat. apply List.Forall_map. rewrite List.Forall_forall in Hc, Hcr |- *. intros c Hin.
    destruct (Hc c Hin) as [[Hr Ht] Hs _ _ _ _ _]. unfold sound_relays in Hs. rewrite Hr, Ht in Hs.
    apply List.Forall_and; [exact Hs|by apply Hcr]. }
  split; [by apply List.Forall_and_inv in Hall as [H _]|]. apply total_balance.
  eapply List.Forall_impl; [|exact Hall]. intros r [[h1 Hr] Hcrash]. by eapply reachable_owes.
Qed.

Lemma server_requests_accounted_witness : length (all_relays client_served) = 1 ∧
  (total (λ r, in_flight (pending r)) client_served = 0)%Z ∧
  (total (λ r, requests (stats_ r)) client_served mod 2 ^ 64 = (0 + 0 + 0 + 0) mod 2 ^ 64)%Z.
Proof.
  split_and!; [reflexivity|reflexivity|].
  exact (proj2 (server_requests_accounted two_worker_config client_served client_served_reachable ltac:(solve_running))).
Defined.

(** [live_relays_] is not pruned while the server serves: until the drain task
    runs, it holds one entry for every relay the worker has ever made, whether
    it still exists or not. *)
Theorem live_relays_grow cfg (sv : ReverseProxyServer) : server_reachable cfg sv →
  ∀ w c, cores_ sv !! w = Some c → shut_at c = None → live_relays_ c = seq 0 (length (relays c)).
Proof. intros Hinv%server_reachable_inv w c Hc. apply (Forall_lookup_1 _ _ _ _ (sv_cores _ _ Hinv) Hc). Qed.

Lemma live_relays_grow_witness : ∃ c, cores_ client_served !! 0 = Some c ∧ live_relays_ c = [0].
Proof.
  destruct (cores_ client_served !! 0) as [c|] eqn:Ec; [|vm_compute in Ec; discriminate].
  exists c. split; [reflexivity|]. rewrite (live_relays_grow _ _ client_served_reachable 0 c Ec);
    vm_compute in Ec; injection Ec as <-; reflexivity.
Defined.

(** Cancelling the acceptor does not stop accepting: when a connection has
    been accepted but its handler has not run yet as [begin_shutdown] runs, the
    handler posts it to a worker behind that worker's drain task and calls
    [accept_loop] again, so the server goes on accepting during the grace
    period. *)
Theorem accept_survives_shutdown cfg (sv : ReverseProxyServer) (fd : nat) (v6 : bool) : server_reachable cfg sv → running sv →
  begin_posted sv = true → acceptor_ sv = Accepted (inr (Peer fd (Some v6))) →
  ∃ sv1 sv2 w q, sstep sv sv1 ∧ sstep sv1 sv2 ∧ BeginShutdown ∈ controls sv2 ∧ acceptor_ sv2 = Accepting ∧
    posted sv2 !! w = Some (q ++ [GracefulShutdown; NewSocket fd v6]).
Proof.
  intros Hinv%server_reachable_inv Hrun Hb Ha. destruct (sv_len _ _ Hinv) as (L1 & L2 & L3).
  exists (begin_shutdown sv), (on_accept (inr (Peer fd (Some v6))) (begin_shutdown sv)).
  set (w := Z.to_nat (rr_ sv mod Z.of_nat (length (cores_ sv)))).
  assert (w < length (posted sv)) as Hw.
  { pose proof (n_workers_pos cfg). pose proof (Z.mod_pos_bound (rr_ sv) (Z.of_nat (length (cores_ sv)))). lia. }
  destruct (lookup_lt_is_Some_2 _ _ Hw) as [q Hq]. exists w, q. split_and!.
  - by apply sstep_begin.
  - apply sstep_accept; [exact Hrun|]. cbn. by rewrite Ha.
  - cbn. apply elem_of_app. right. by left.
  - done.
  - cbn -[Z.modulo]. unfold post. fold w. rewrite list_lookup_alter_eq.
    pose proof (list_lookup_fmap (λ l, l ++ [GracefulShutdown]) (posted sv) w) as E. rewrite Hq in E.
    change (map ?f (posted sv)) with (f <$> posted sv). rewrite E. cbn. by rewrite <- app_assoc.
Qed.

Lemma accept_survives_shutdown_witness : ∃ sv1 sv2 w q, sstep (stop client_ready) sv1 ∧ sstep sv1 sv2 ∧
  BeginShutdown ∈ controls sv2 ∧ acceptor_ sv2 = Accepting ∧
  posted sv2 !! w = Some (q ++ [GracefulShutdown; NewSocket 5 false]).
Proof.
  apply (accept_survives_shutdown two_worker_config (stop client_ready) 5 false); try reflexivity; [|solve_running].
  eapply server_reachable_r; [apply client_ready_reachable|]. apply sstep_stop. solve_running.
Defined.

Lemma running_not_terminated sv : running sv → terminated sv = true → False.
Proof. intros (_ & _ & Hn & _) Ht. congruence. Qed.

(** A client that resets its connection between the accept and its handler
    brings the process down: [remote_endpoint] throws in the handler. *)
Theorem reset_before_accept_terminates (sv : ReverseProxyServer) (fd : nat) :
  running sv → acceptor_ sv = Accepting →
  ∃ sv1 sv2, sstep sv sv1 ∧ sstep sv1 sv2 ∧ terminated sv2 = true ∧ ∀ sv3, ¬ sstep sv2 sv3.
Proof.
  intros Hrun Ha. exists (set_acceptor (Accepted (inr (Peer fd None))) sv).
  exists (on_accept (inr (Peer fd None)) (set_acceptor (Accepted (inr (Peer fd None))) sv)).
  split_and!; [by apply sstep_completed|by apply sstep_accept|done|].
  intros sv3 Hs. inversion Hs; subst; by eapply running_not_terminated.
Qed.

Lemma reset_before_accept_terminates_witness : ∃ sv1 sv2, sstep serving sv1 ∧ sstep sv1 sv2 ∧ terminated sv2 = true.
Proof.
  destruct (reset_before_accept_terminates serving 5 ltac:(solve_running) eq_refl) as (sv1 & sv2 & H1 & H2 & H3 & _).
  exists sv1, sv2. split_and!; [exact H1|exact H2|exact H3].
Defined.

(** A client that resets its connection after it was posted to a worker and
    before the worker takes it over does so too: the constructor of the TCP
    stream asks for the peer's address with the throwing call. *)
Theorem reset_before_task_terminates cfg (sv : ReverseProxyServer) w fd v6 q : server_reachable cfg sv → running sv →
  posted sv !! w = Some (NewSocket fd v6 :: q) → ∃ sv', sstep sv sv' ∧ terminated sv' = true ∧ ∀ sv2, ¬ sstep sv' sv2.
Proof.
  intros Hr Hrun Hq. destruct (sv_len _ _ (server_reachable_inv _ _ Hr)) as (L1 & L2 & _).
  destruct (lookup_lt_is_Some_2 (cores_ sv) w) as [c Hc]; [apply lookup_lt_Some in Hq; lia|].
  exists (terminate sv). split_and!; [by eapply sstep_reset|done|]. intros sv2 Hs. inversion Hs; subst; by eapply running_not_terminated.
Qed.

Lemma reset_before_task_terminates_witness : ∃ sv', sstep client_posted sv' ∧ terminated sv' = true.
Proof.
  destruct (reset_before_task_terminates two_worker_config client_posted 0 5 false [] client_posted_reachable ltac:(solve_running) eq_refl)
    as (sv' & H1 & H2 & _). exists sv'. split; [exact H1|exact H2].
Defined.

(** C25: QUIC packets reach the worker that owns the connection: with at most 256
    workers, in every reachable state a datagram whose connection id was
    generated by the engine of worker [w] is posted to that engine and to no
    other, whether or not the id is registered. *)
Theorem quic_packets_reach_owner cfg (sv : ReverseProxyServer) dcid (d : QuicPacketDemux) w c e rnd buf v6 open :
  server_reachable cfg sv → n_workers cfg ≤ 256 → demux_ sv = Some d →
  cores_ sv !! w = Some c → core_engine_ c = Some e →
  packet_cid dcid buf = Some (generate_scid e kServerCidLen rnd) →
  on_packet dcid (inr buf) v6 open d = [Post w buf; Rearm v6].
Proof.
  intros Hinv%server_reachable_inv Hn Hd Hc He Hp. destruct (sv_engines _ _ Hinv d Hd) as (Hr & Hw & Hen).
  destruct (Hen w c e Hc He) as [-> Hne]. destruct Hw as [Hw|Hw]; [done|].
  destruct (sv_len _ _ Hinv) as (L1 & _). pose proof (lookup_lt_Some _ _ _ Hc) as Hlt. rewrite L1 in Hlt.
  assert (route dcid buf d = Z.of_nat w) as Hroute.
  { apply (route_owner dcid d (Engine (Z.of_nat w)) rnd buf); cbn; rewrite ?Hw, ?length_seq; (done || lia). }
  unfold on_packet. rewrite Hroute. rewrite decide_False by (rewrite Hw, length_seq; lia).
  rewrite Nat2Z.id, Hw. by rewrite lookup_seq_lt.
Qed.

Lemma quic_packets_reach_owner_witness : ∃ d, demux_ serving = Some d ∧
  on_packet short_header (inr (generate_scid (Engine 1) 8 (λ i, Z.of_nat i))) false true d =
    [Post 1 (generate_scid (Engine 1) 8 (λ i, Z.of_nat i)); Rearm false].
Proof.
  destruct (demux_ serving) as [d|] eqn:Ed; [|vm_compute in Ed; discriminate].
  destruct (cores_ serving !! 1) as [c|] eqn:Ec; [|vm_compute in Ec; discriminate].
  exists d. split; [reflexivity|].
  apply (quic_packets_reach_owner two_worker_config serving short_header d 1 c (Engine 1) (λ i, Z.of_nat i)
    (generate_scid (Engine 1) 8 (λ i, Z.of_nat i)) false true serving_reachable); [vm_compute; lia|exact Ed|exact Ec| |reflexivity].
  vm_compute in Ec. injection Ec as <-. reflexivity.
Defined.

(** A signal stops a running server, the destructor too; a server that [main]
    started is one of those the theorems are about. *)
Lemma signal_stops sv : running sv → sstep sv (on_signal None sv) ∧ sstep sv (destroy sv).
Proof. intros Hr. unfold destroy. rewrite (proj1 Hr). by split; apply sstep_stop. Qed.

Lemma main_reachable doc ssl env sv : main (Some doc) ssl env = inl (Some sv) →
  ∃ cfg, load_config doc = Some cfg ∧ server_reachable cfg sv.
Proof.
  unfold main. cbn. destruct (load_config doc) as [cfg|]; [|done]. intros [= Hs]. exists cfg. split; [done|].
  exists ssl, env, sv. split; [done|apply rtc_refl].
Qed.
