(* ===== verification/StatsListener.v ===== *)
(** * The stats listener (src/src/proxy/reverse_proxy_server.cpp,
    [stats_accept_loop])

    One-shot connections on the loopback interface: whatever is read first is
    answered with the counters.  The handlers are functions on the listener's
    state; a connection is a [nat]. *)

From S2P Require Import Prelude CppStd Transport HttpMessage H1Codec Config Stats.

(** The response, as the read handler builds it. *)
Definition stats_response (body : bytes) : bytes :=
  #"HTTP/1.1 200 OK" ++ CRLF ++
  #"Content-Type: text/plain; version=0.0.4" ++ CRLF ++
  #"Connection: close" ++ CRLF ++ #"Content-Length: " ++ to_string (Z.of_nat (length body)) ++ BLANK_LINE ++ body.

Record stats_listener := Listener {
  listening : bool;                     (** [async_accept] is pending *)
  reading : list nat;                   (** connections waiting for their first bytes *)
  writing : list (nat * bytes);         (** connections a response is written to *)
  finished : list nat;                  (** connections whose sending side was shut down *)
}.

(** [start]: the listener is opened when a port is configured; binding may throw. *)
Definition start_stats (stats_port : Z) (bound : bool) : option stats_listener :=
  if (0 <? stats_port)%Z then (if bound then Some (Listener true [] [] []) else None)
  else Some (Listener false [] [] []).

(** The completion of [async_accept]. *)
Definition stats_accept (stopping : bool) (res : error_code + nat) (l : stats_listener) : stats_listener :=
  if stopping then Listener false (reading l) (writing l) (finished l)
  else Listener true (match res with inr conn => conn :: reading l | inl _ => reading l end) (writing l) (finished l).

(** The completion of the read, whatever it read: [page] is [stats_.render()]. *)
Definition stats_read (conn : nat) (page : bytes) (rest : list nat) (l : stats_listener) : stats_listener :=
  Listener (listening l) rest ((conn, stats_response page) :: writing l) (finished l).

(** The completion of the write, with an error or not. *)
Definition stats_written (conn : nat) (rest : list (nat * bytes)) (l : stats_listener) : stats_listener :=
  Listener (listening l) (reading l) rest (conn :: finished l).

(** ** Executions *)

Inductive stats_step : stats_listener → stats_listener → Prop :=
  | stats_step_accept l stopping res : listening l = true →
      (∀ conn, res = inr conn → conn ∉ reading l ++ map fst (writing l) ++ finished l) →
      stats_step l (stats_accept stopping res l)
  | stats_step_read l conn rest up s : reading l ≡ₚ conn :: rest → stats_step l (stats_read conn (render up s) rest l)
  | stats_step_written l conn data rest : writing l ≡ₚ (conn, data) :: rest → stats_step l (stats_written conn rest l).

(** ** Lemmas *)

(** The head of the response. *)
Definition stats_head (body : bytes) : HttpResponseHead :=
  ResponseHead 200 #"OK" #"HTTP/1.1"
    (HeaderMap.Map [(#"Content-Type", #"text/plain; version=0.0.4"); (#"Connection", #"close");
                    (#"Content-Length", to_string (Z.of_nat (length body)))])
    (Some (Z.of_nat (length body))).

Lemma stats_response_shape body : stats_response body = response_header_str (stats_head body) ++ body.
Proof.
  rewrite (response_str_shape (stats_head body)) by done. unfold stats_response, BLANK_LINE, CRLF. cbn -[to_string].
  by norm_app.
Qed.

Lemma to_string_field name n : COLON ∉ name → LF ∉ name → (0 ≤ n)%Z → wf_field (name, to_string n).
Proof.
  intros H1 H2 Hn. split_and!; [done|done|by apply lf_not_in_to_string|].
  destruct (to_string_head n Hn) as (c & v & d & E & Hd). exists c, v. split; [done|].
  intros [->|[->|Hx]%elem_of_cons]%elem_of_cons; [discriminate..|by apply not_elem_of_nil in Hx].
Qed.

Lemma stats_head_wf body : (Z.of_nat (length body) ≤ ULONG_MAX)%Z → wf_response (stats_head body).
Proof.
  intros Hb. split; cbn -[to_string]; try done.
  - split; [by_eval|]. do 2 eexists. split; [reflexivity|by_eval].
  - do 2 (constructor; [split_and!; [by_eval..|do 2 eexists; split; [reflexivity|by_eval]]|]).
    constructor; [apply to_string_field; [by_eval..|lia]|constructor].
  - transitivity (Some (fst (strtoul (to_string (Z.of_nat (length body))) 10))); [by rewrite strtoul_to_string by lia|reflexivity].
Qed.

(** Connections are answered once: each is waiting, being written to or
    finished, and what is written is a page of counters. *)
Definition pages (l : list (nat * bytes)) : Prop := Forall (λ p, ∃ up s, snd p = stats_response (render up s)) l.

Lemma stats_step_ok l l' : stats_step l l' →
  NoDup (reading l ++ map fst (writing l) ++ finished l) ∧ pages (writing l) →
  NoDup (reading l' ++ map fst (writing l') ++ finished l') ∧ pages (writing l').
Proof.
  intros Hs [Hn Hp]. destruct Hs as [l stopping res Hl Hf|l conn rest up s Hr|l conn data rest Hw].
  - unfold stats_accept. destruct stopping; [done|]. destruct res as [ec|conn]; [done|]. cbn. split; [|done].
    apply list.NoDup_cons. split; [by apply Hf|done].
  - split; cbn; [|constructor; [by exists up, s|done]]. rewrite Hr in Hn. cbn in Hn.
    eapply NoDup_Permutation_proper; [|exact Hn]. by rewrite <- Permutation_middle.
  - split; cbn; [|unfold pages in *; rewrite Hw in Hp; by apply Forall_cons_1 in Hp as [_ Hp]].
    rewrite Hw in Hn. cbn in Hn. eapply NoDup_Permutation_proper; [|exact Hn]. by rewrite <- Permutation_middle.
Qed.

(** ** Properties *)

(** Every scrape is answered once, with the counters: over any interleaving of
    connections each one is waiting for its first bytes, being answered or
    finished, never two of these; and what a client is sent is a response that
    HTTP/1 parses to status 200, [Connection: close] and the page's length, the
    page behind its blank line, from which the counters are read back. *)
Theorem stats_scrape_roundtrip l up s : rtc stats_step (Listener true [] [] []) l → LF ∉ up → wf_stats s →
  (Z.of_nat (length (render up s)) ≤ ULONG_MAX)%Z →
  NoDup (reading l ++ map fst (writing l) ++ finished l) ∧
  Forall (λ p, ∃ up s, snd p = stats_response (render up s)) (writing l) ∧
  ∃ pos head, find_sub BLANK_LINE (stats_response (render up s)) = Some pos ∧
    parse_response_block (take (pos + 4) (stats_response (render up s))) = inr (head, #"HTTP/1.1") ∧
    status_code head = 200%Z ∧ resp_content_length head = Some (Z.of_nat (length (render up s))) ∧
    compute_keep_alive (resp_headers head) #"HTTP/1.1" = false ∧
    drop (pos + 4) (stats_response (render up s)) = render up s ∧
    scrape_counter #"proxy_requests_total" (drop (pos + 4) (stats_response (render up s))) = Some (requests s).
Proof.
  intros Hr Hup Hs Hlen. assert (NoDup (reading l ++ map fst (writing l) ++ finished l) ∧ pages (writing l)) as [H1 H2].
  { remember (Listener true [] [] []) as l0 eqn:E. assert (NoDup (reading l0 ++ map fst (writing l0) ++ finished l0) ∧ pages (writing l0)) as Hi
      by (subst; cbn; split; constructor).
    clear E. induction Hr as [|l0 l1 l2 Hst _ IH]; [done|]. apply IH. by eapply stats_step_ok. }
  split_and!; [done..|]. set (page := render up s) in *.
  destruct (response_block_shape (stats_head page) page (stats_head_wf page Hlen)) as (pos & Hpos & Ht & Hp).
  rewrite <- stats_response_shape in Hpos, Ht. exists pos, (stats_head page). rewrite Ht.
  assert (drop (pos + 4) (stats_response page) = page) as Hd.
  { apply (app_inv_head (response_header_str (stats_head page))). rewrite <- Ht at 1. rewrite take_drop. apply stats_response_shape. }
  rewrite Hd. split_and!; try done. apply (stats_page_faithful up s Hup Hs).
Qed.

Lemma stats_scrape_roundtrip_witness :
  let page := render #"12.5" (Stats 1 2 3 4 5 6 7 8) in
  reading (Listener true [4] [] []) = [4] ∧
  ∃ pos, find_sub BLANK_LINE (stats_response page) = Some pos ∧
    scrape_counter #"proxy_requests_total" (drop (pos + 4) (stats_response page)) = Some 3%Z.
Proof.
  split; [reflexivity|].
  destruct (stats_scrape_roundtrip (Listener true [4] [] []) #"12.5" (Stats 1 2 3 4 5 6 7 8)) as (_ & _ & pos & head & H1 & _ & _ & _ & _ & _ & H2).
  - apply rtc_once, (stats_step_accept (Listener true [] [] []) false (inr 4)); [done|]. intros c _. by apply not_elem_of_nil.
  - by_eval.
  - repeat (constructor; [unfold is_u64, ULONG_MAX; cbn; lia|]). constructor.
  - vm_compute. discriminate.
  - exists pos. exact (conj H1 H2).
Defined.
