(* ===== verification/Process.v ===== *)
(** * The process (src/src/proxy/reverse_proxy_server.{h,cpp} with the components it owns)

    The other files model the components one at a time: [Server] the ingress
    handlers and the queues of the workers, [QuicWorker] one worker with its
    engine, [QuicDemux] the receive loop, [StatsListener] the stats port.  Here
    they make one system.  The workers' cores are those of the server; what a
    worker has besides, its engine and the stream objects its relays hold, is its
    [quic_part].  The threads end when their [io_context] was stopped, [wait]
    joins them in the order they were made, and the destructor ends the engines.

    What the operating system, BoringSSL and lsquic answer while the server
    starts is the [environment].  A datagram posted to a worker and a task posted
    to it are taken in any order; the events lsquic raises for a datagram are
    steps of their own. *)

From S2P Require Import Prelude CppStd Transport HttpMessage Config Router Stats UpstreamPool QuicDemux.
From S2P Require Import RelaySession RelayTheorems ProxyCore QuicEngine QuicWorker Server.
From S2P Require QuicStream QuicSession EngineDestroy StatsListener.
Import QuicSession (world, call, GoingAway, ConnClose, NewSession, NewStream, StreamOut, OnStream, ServerRole, world_inv, calls, conns, lstreams,
  sessions).

Abbreviation engine := QuicEngine.Server.engine.

(** What a worker with a QUIC engine has besides its core. *)
Record quic_part := Part {
  part_engine : engine;
  part_clients : list (nat * nat);
  part_made : list nat;
}.

Definition worker_of (c : ProxyCore) (x : quic_part) : quic_worker := QW c (part_engine x) (part_clients x) (part_made x).
Definition part_of (k : quic_worker) : quic_part := Part (qw_engine k) (qw_clients k) (qw_made k).

Inductive thread := Running | Ended | Joined.

#[export] Instance thread_eq_dec : EqDecision thread.
Proof. solve_decision. Defined.

Record process := Proc {
  p_server : ReverseProxyServer;
  p_parts : list (option quic_part);        (** per worker *)
  p_rx : rx;                                (** the receive operations of the UDP sockets *)
  p_rx6 : rx;
  p_packets : list (list (list Z));         (** datagrams posted to each worker, oldest first *)
  p_stats : StatsListener.stats_listener;
  threads_ : list thread;                   (** the ingress thread, then the workers' *)
}.

Definition new_process : process := Proc new_server [] (Rx 0 []) (Rx 0 []) [] (StatsListener.Listener false [] [] []) [].

Definition with_server (sv : ReverseProxyServer) (p : process) : process :=
  Proc sv (p_parts p) (p_rx p) (p_rx6 p) (p_packets p) (p_stats p) (threads_ p).
Definition with_stats (l : StatsListener.stats_listener) (p : process) : process :=
  Proc (p_server p) (p_parts p) (p_rx p) (p_rx6 p) (p_packets p) l (threads_ p).
Definition with_packets (qs : list (list (list Z))) (p : process) : process :=
  Proc (p_server p) (p_parts p) (p_rx p) (p_rx6 p) qs (p_stats p) (threads_ p).
Definition with_threads (ts : list thread) (p : process) : process :=
  Proc (p_server p) (p_parts p) (p_rx p) (p_rx6 p) (p_packets p) (p_stats p) ts.

(** Worker [w] has become [k]. *)
Definition put_worker (w : nat) (k : quic_worker) (p : process) : process :=
  Proc (set_cores (<[w := qw_core k]> (cores_ (p_server p))) (p_server p)) (<[w := Some (part_of k)]> (p_parts p)) (p_rx p) (p_rx6 p)
    (p_packets p) (p_stats p) (threads_ p).

(** ** Start *)

Record environment := Env {
  global_init : bool;               (** the outcome of [lsquic_global_init] *)
  ssl_new : bool;                   (** the outcomes of making a TLS context *)
  cert_loads : bool;
  key_loads : bool;
  ssl_handle : nat;                 (** the server's context *)
  udp_bind : bool;                  (** the outcomes of binding the sockets *)
  listen_on : listen_env;
  stats_bind : bool;
  engine_made : nat → bool;         (** whether lsquic made the engine of a worker *)
  advised : nat → advice;           (** what lsquic advised when the engine was started *)
  client_ssl : nat → option nat;    (** the client's context of a worker *)
  client_socket : nat → option Z;   (** the socket of its client engine, if it could be bound *)
  client_made : nat → bool;         (** whether lsquic made its client engine *)
}.

(** The server's TLS context, made when QUIC is enabled; [None]: an exception. *)
Definition quic_tls (env : environment) (cfg : ProxyConfig) : option (option nat) :=
  if (0 <? quic_port cfg)%Z then
    match Tls.make_server_ssl_ctx false (global_init env) (quic_cert_file cfg) (quic_key_file cfg) (ssl_new env) (cert_loads env) (key_loads env) with
    | None => None
    | Some None => Some None
    | Some (Some _) => Some (Some (ssl_handle env))
    end
  else Some None.

(** The engine [start_quic] makes for a worker; [None]: its constructor throws. *)
Definition make_part (env : environment) (server_ssl : option nat) (w : nat) (c : ProxyCore) : option (option quic_part) :=
  match core_engine_ c with
  | None => Some None
  | Some scids =>
      e ← QuicEngine.Server.new_engine (engine_made env w) server_ssl;
      Some (Some (Part (QuicEngine.Server.start (advised env w)
        (QuicEngine.Server.set_new_session_cb (QuicEngine.Server.set_worker_idx (worker_idx_ scids) e))) [] []))
  end.

Fixpoint make_parts (env : environment) (server_ssl : option nat) (w : nat) (cs : list ProxyCore) : option (list (option quic_part)) :=
  match cs with
  | [] => Some []
  | c :: cs' => x ← make_part env server_ssl w c; xs ← make_parts env server_ssl (S w) cs'; Some (x :: xs)
  end.

(** The upstream pool of a worker, in the worker's constructor: the client TLS
    context, which initialises lsquic unless a context before it has, and with an
    HTTP/3 backend the client engine.  [None]: an exception. *)
Definition make_client (env : environment) (inited : bool) (w : nat) (c : ProxyCore) : option (option QuicEngine.Client.engine) :=
  _ ← Tls.make_client_ssl_ctx inited (global_init env) (bool_decide (is_Some (client_ssl env w)));
  if quic_engine_ (upstream_pool_ c) then
    fd ← client_socket env w;
    e ← QuicEngine.Client.new_engine (client_made env w) fd (client_ssl env w);
    Some (Some (QuicEngine.Client.set_new_session_cb e))
  else Some None.

Fixpoint make_clients (env : environment) (inited : bool) (w : nat) (cs : list ProxyCore) : option (list (option QuicEngine.Client.engine)) :=
  match cs with
  | [] => Some []
  | c :: cs' => x ← make_client env inited w c; xs ← make_clients env true (S w) cs'; Some (x :: xs)
  end.

(** [start]: [None] is an exception, before any thread was made.  Memory and
    threads are there. *)
Definition process_start (env : environment) (cfg : ProxyConfig) (p : process) : option process :=
  if started_ (p_server p) then Some p
  else if (0 <? quic_port cfg)%Z && negb (udp_bind env) then None
  else
    ssl ← quic_tls env cfg;
    sv ← server_start cfg (bool_decide (is_Some ssl)) (listen_on env) (p_server p);
    _ ← make_clients env (0 <? quic_port cfg)%Z 0 (cores_ sv);
    parts ← make_parts env ssl 0 (cores_ sv);
    stats ← StatsListener.start_stats (stats_port cfg) (stats_bind env);
    let '(r, r6) := match demux_ sv with
                    | Some d => (loop_rx (loop_start (new_loop d)), loop_rx6 (loop_start (new_loop d)))
                    | None => (Rx 0 [], Rx 0 [])
                    end in
    Some (Proc sv parts r r6 (replicate (length (cores_ sv)) []) stats (Running :: replicate (length (cores_ sv)) Running)).

(** ** Threads *)

(** [wait] as far as it gets: it joins every thread that has ended, up to the
    first that has not, and says whether it returned. *)
Fixpoint join_all (ts : list thread) : list thread * bool :=
  match ts with
  | [] => ([], true)
  | Running :: _ => (ts, false)
  | _ :: ts' => let '(joined, returned) := join_all ts' in (Joined :: joined, returned)
  end.

Definition wait (p : process) : process * bool :=
  let '(ts, returned) := join_all (threads_ p) in (with_threads ts p, returned).

(** What [run] returns once its [wait] has. *)
Definition run_result (p : process) : option Z := if snd (wait p) then Some 0%Z else None.

(** ** The tasks of a worker with an engine *)

(** [None]: a use of a connection that is gone. *)
Definition quic_task (t : task) (k : quic_worker) : option quic_worker :=
  match t with
  | NewSocket fd _ => Some (set_core (on_new_tcp_socket fd (qw_core k)) k)
  | GracefulShutdown =>
      e ← QuicEngine.Server.graceful_shutdown (qw_engine k);
      Some (QW (graceful_shutdown (qw_core k)) e (qw_clients k) (qw_made k))
  | ForceCloseQuic =>
      e ← QuicEngine.Server.force_close_all (qw_engine k);
      Some (QW (force_close_quic (qw_core k)) e (qw_clients k) (qw_made k))
  end.

(** Worker [w] runs its oldest task, the peer of a new socket being connected;
    [None] when it has none, or it fails. *)
Definition run_next (w : nat) (p : process) : option process :=
  let sv := p_server p in
  match posted sv !! w, cores_ sv !! w, p_parts p !! w with
  | Some (t :: q), Some c, Some None => Some (with_server (run_posted w t q c sv) p)
  | Some (t :: q), Some c, Some (Some x) =>
      k ← quic_task t (worker_of c x);
      Some (put_worker w k (with_server (set_ran (post w t (ran sv)) (set_posted (<[w := q]> (posted sv)) sv)) p))
  | _, _, _ => None
  end.

(** ** The ingress *)

(** [begin_shutdown], with [demux_->stop()]. *)
Definition begin_process_shutdown (p : process) : process :=
  let stop_rx d := loop_stop (Loop d (p_rx p) (p_rx6 p) []) in
  Proc (begin_shutdown (p_server p)) (p_parts p)
    (match demux_ (p_server p) with Some d => loop_rx (stop_rx d) | None => p_rx p end)
    (match demux_ (p_server p) with Some d => loop_rx6 (stop_rx d) | None => p_rx6 p end)
    (p_packets p) (p_stats p) (threads_ p).

(** A step of the receive loop: what it posts goes to the workers' queues. *)
Definition receive (l : ingress_loop) (p : process) : process :=
  Proc (set_demux (Some (loop_demux l)) (p_server p)) (p_parts p) (loop_rx l) (loop_rx6 l)
    (foldr (λ x qs, alter (λ q, q ++ [snd x]) (fst x) qs) (p_packets p) (loop_posted l)) (p_stats p) (threads_ p).

(** Worker [w] takes the oldest datagram: [deliver_packet]. *)
Definition deliver_next (w : nat) (a : advice) (p : process) : option process :=
  match p_packets p !! w, cores_ (p_server p) !! w, p_parts p !! w with
  | Some (_ :: q), Some c, Some (Some x) =>
      let e := part_engine x in
      Some (put_worker w (QW c (QuicEngine.Server.deliver_packet (QuicEngine.Server.srv_world e) a e) (part_clients x) (part_made x))
              (with_packets (<[w := q]> (p_packets p)) p))
  | _, _, _ => None
  end.

Section steps.
Variable dcid : list Z → option (nat * nat).

Inductive pstep : process → process → Prop :=
  (** the ingress thread, and calls of [stop] *)
  | p_completed p res : running (p_server p) → acceptor_ (p_server p) = Accepting →
      pstep p (with_server (set_acceptor (Accepted res) (p_server p)) p)
  | p_accept p res : running (p_server p) → acceptor_ (p_server p) = Accepted res →
      pstep p (with_server (on_accept res (p_server p)) p)
  | p_stop p : running (p_server p) → pstep p (with_server (stop (p_server p)) p)
  | p_begin p : running (p_server p) → begin_posted (p_server p) = true → pstep p (begin_process_shutdown p)
  | p_finalize p : running (p_server p) → grace_timer_ (p_server p) = Some ForFinalize →
      pstep p (with_server (finalize (p_server p)) p)
  | p_hard_stop p : running (p_server p) → grace_timer_ (p_server p) = Some ForHardStop →
      pstep p (with_server (hard_stop (p_server p)) p)
  | p_receive p d l : running (p_server p) → demux_ (p_server p) = Some d → loop_step dcid (Loop d (p_rx p) (p_rx6 p) []) l →
      pstep p (receive l p)
  | p_writable p v6 ec d : running (p_server p) → demux_ (p_server p) = Some d →
      pstep p (with_server (set_demux (Some (fst (on_writable v6 ec d))) (p_server p)) p)
  | p_stats_accept p res : running (p_server p) → StatsListener.listening (p_stats p) = true →
      (∀ conn, res = inr conn → conn ∉ StatsListener.reading (p_stats p) ++ map fst (StatsListener.writing (p_stats p)) ++
                                       StatsListener.finished (p_stats p)) →
      pstep p (with_stats (StatsListener.stats_accept (stopping_ (p_server p)) res (p_stats p)) p)
  | p_stats_read p conn rest up s : running (p_server p) → StatsListener.reading (p_stats p) ≡ₚ conn :: rest →
      pstep p (with_stats (StatsListener.stats_read conn (render up s) rest (p_stats p)) p)
  | p_stats_written p conn data rest : running (p_server p) → StatsListener.writing (p_stats p) ≡ₚ (conn, data) :: rest →
      pstep p (with_stats (StatsListener.stats_written conn rest (p_stats p)) p)
  (** the workers *)
  | p_task p p' w : running (p_server p) → run_next w p = Some p' → pstep p p'
  | p_reset p w fd v6 q c : running (p_server p) → posted (p_server p) !! w = Some (NewSocket fd v6 :: q) →
      cores_ (p_server p) !! w = Some c → new_tcp_socket None fd c = None → pstep p (with_server (terminate (p_server p)) p)
  | p_packet p p' w a : running (p_server p) → deliver_next w a p = Some p' → pstep p p'
  | p_event p w c x k : running (p_server p) → cores_ (p_server p) !! w = Some c → p_parts p !! w = Some (Some x) →
      qevent (worker_of c x) k → pstep p (put_worker w k p)
  | p_core p w c c' : running (p_server p) → cores_ (p_server p) !! w = Some c → p_parts p !! w = Some None → core_event c c' →
      pstep p (with_server (set_cores (<[w := c']> (cores_ (p_server p))) (p_server p)) p)
  | p_new_scids p w c e d rnds : running (p_server p) → cores_ (p_server p) !! w = Some c → core_engine_ c = Some e →
      demux_ (p_server p) = Some d →
      pstep p (with_server (set_demux (Some (on_new_scids e (map (generate_scid e kServerCidLen) rnds) d)) (p_server p)) p)
  | p_old_scids p cids d : running (p_server p) → demux_ (p_server p) = Some d →
      pstep p (with_server (set_demux (Some (on_old_scids cids d)) (p_server p)) p)
  (** a thread's [run] returns; the thread in [wait] goes on *)
  | p_thread_ends p i : stopped (p_server p) = true → threads_ p !! i = Some Running →
      pstep p (with_threads (<[i := Ended]> (threads_ p)) p)
  | p_wait p : pstep p (fst (wait p)).

Definition process_reachable (cfg : ProxyConfig) (p : process) : Prop :=
  ∃ env p0, process_start env cfg new_process = Some p0 ∧ rtc pstep p0 p.
End steps.

(** ** The destructor, after [wait]: the engines are destroyed

    [evs]: per worker, the order in which lsquic ends what is left. *)
Fixpoint destroy_parts (evs : list (list EngineDestroy.ending)) (parts : list (option quic_part)) : option (list world) :=
  match evs, parts with
  | ev :: evs', Some x :: parts' =>
      w ← EngineDestroy.destroy_engine true ev (QuicEngine.Server.srv_world (part_engine x));
      ws ← destroy_parts evs' parts'; Some (w :: ws)
  | _ :: evs', None :: parts' => destroy_parts evs' parts'
  | _, _ => Some []
  end.

(** [None]: blocked in [wait], or a use of an object that is gone. *)
Definition destroy_process (evs : list (list EngineDestroy.ending)) (p : process) : option (list world) :=
  if started_ (p_server p) then
    let p1 := with_server (stop (p_server p)) p in
    if snd (wait p1) then destroy_parts evs (p_parts p1) else None
  else Some [].

(** ** Lemmas: the server's view of a step *)

Lemma set_cores_id w c sv : cores_ sv !! w = Some c → set_cores (<[w := c]> (cores_ sv)) sv = sv.
Proof. intros Hc. rewrite list_insert_id by done. by destruct sv. Qed.

Lemma set_demux_id d sv : demux_ sv = Some d → set_demux (Some d) sv = sv.
Proof. intros <-. by destruct sv. Qed.

(** A task does to the core of a worker what it does to a worker alone, and is a
    step of the worker. *)
Lemma quic_task_core t k k' : quic_task t k = Some k' → qw_core k' = run_task t (qw_core k).
Proof.
  destruct t; cbn -[on_new_tcp_socket graceful_shutdown]; [by intros [= <-]| |];
    (destruct (_ (qw_engine k)) as [e|]; [|done]); by intros [= <-].
Qed.

Lemma quic_task_step t k k' : Forall (λ r, crashed r = false) (relays (qw_core k)) → quic_task t k = Some k' → qstep k k'.
Proof.
  intros Hc. destruct t; cbn -[on_new_tcp_socket graceful_shutdown].
  - intros [= <-]. apply q_tcp.
  - destruct (QuicEngine.Server.graceful_shutdown (qw_engine k)) as [e|] eqn:E; [|done]. intros [= <-]. by apply q_drain.
  - destruct (QuicEngine.Server.force_close_all (qw_engine k)) as [e|] eqn:E; [|done]. intros [= <-]. by apply q_force.
Qed.

Lemma core_engine_deliver xs k : core_engine_ (qw_core (deliver_all xs k)) = core_engine_ (qw_core k).
Proof. induction xs as [|x xs IH]; [done|]. cbn. rewrite <- IH. destruct x as [| | | |s [] [o|]| |]; done. Qed.

(** An event of a worker with its engine is at most one event of its core. *)
Lemma qevent_core cfg k k' : qinv cfg k → core_engine_ (qw_core k) ≠ None → qevent k k' →
  qw_core k' = qw_core k ∨ core_event (qw_core k) (qw_core k').
Proof.
  intros Hq He Hev. destruct Hev as [k w new Hev Ec|k t Ht|k i r r' Hi Hr|k i o op w Hin Hop Hu|k i o r rest hs Hcl Hr Ha Hh]; try by left.
  - rewrite (qi_cb _ _ Hq) in Hev. destruct (event_effect _ _ (proj2 (qi_engine _ _ Hq)) (qi_served _ _ Hq) Hev) as (_ & ys & Ey & Hk).
    rewrite Ec in Ey. apply app_inv_tail in Ey as <-. destruct Hk as [[Q1 Q2] _|s -> _|s o -> _ _].
    + left. change (qw_core k) with (qw_core (set_world w k)). generalize (set_world w k). clear Ec. induction new as [|x xs IH]; [done|].
      intros q. destruct x as [| | |s|s [] [o|]| |]; try done; cbn in *; by apply IH.
    + right. by apply core_quic_session.
    + right. by apply core_quic_stream.
  - right. by eapply core_relay.
Qed.

(** ** The invariant *)

Section invariant.
Variables (dcid : list Z → option (nat * nat)) (cfg : ProxyConfig).

Record pinv (p : process) : Prop := {
  pi_server : server_reachable cfg (p_server p);
  pi_len : length (p_parts p) = n_workers cfg ∧ length (p_packets p) = n_workers cfg ∧ length (threads_ p) = S (n_workers cfg);
  pi_plain : ∀ w c, cores_ (p_server p) !! w = Some c → p_parts p !! w = Some None → core_engine_ c = None;
  pi_quic : ∀ w c x, cores_ (p_server p) !! w = Some c → p_parts p !! w = Some (Some x) →
    core_engine_ c ≠ None ∧ qreachable cfg (worker_of c x);
  pi_routed : ∀ d, demux_ (p_server p) = Some d → workers_ d = [] ∨ Forall (λ x, x ≠ None) (p_parts p);
  pi_packets : ∀ w q, p_packets p !! w = Some q → q ≠ [] → ∃ x, p_parts p !! w = Some (Some x);
  pi_threads : ∀ i t, threads_ p !! i = Some t → t ≠ Running → stopped (p_server p) = true;
  pi_stats : ∃ l0, rtc StatsListener.stats_step l0 (p_stats p) ∧
    (l0 = StatsListener.Listener true [] [] [] ∨ l0 = StatsListener.Listener false [] [] []);
}.

(** Steps of the server that leave the workers alone. *)
Lemma pinv_server p sv : pinv p → sstep (p_server p) sv → cores_ sv = cores_ (p_server p) →
  (stopped (p_server p) = true → stopped sv = true) →
  (∀ d, demux_ sv = Some d → ∃ d0, demux_ (p_server p) = Some d0 ∧ workers_ d = workers_ d0) → pinv (with_server sv p).
Proof.
  intros [H1 H2 H3 H4 H5 H6 H7 H8] Hs Hc Hst Hd. split; try done; cbn; rewrite ?Hc; try done.
  - by eapply server_reachable_r.
  - intros d Hd'. destruct (Hd d Hd') as (d0 & Hd0 & ->). by apply H5.
  - intros i t Hi Ht. by eapply Hst, H7.
Qed.

(** A step of a worker with its engine. *)
Lemma pinv_put p w c x k sv : pinv p → cores_ (p_server p) !! w = Some c → p_parts p !! w = Some (Some x) →
  core_engine_ (qw_core k) ≠ None → rtc qstep (worker_of c x) k → rtc sstep (p_server p) sv →
  cores_ sv = <[w := qw_core k]> (cores_ (p_server p)) → demux_ sv = demux_ (p_server p) → stopped sv = stopped (p_server p) →
  pinv (with_server sv (put_worker w k p)).
Proof.
  intros [H1 H2 H3 H4 H5 H6 H7 H8] Hc Hx He Hq Hs Ec Ed Est. split; cbn; rewrite ?length_insert, ?Ed, ?Est; try done.
  - clear -H1 Hs. induction Hs as [|s1 s2 s3 Hs _ IH]; [done|]. apply IH. by eapply server_reachable_r.
  - intros w' c'. rewrite Ec. intros [(-> & _)|(Hne & Hc')]%list_lookup_insert_Some [(? & ? & _)|(? & Hx')]%list_lookup_insert_Some; try done.
    by eapply H3.
  - intros w' c' x'. rewrite Ec. intros [(-> & <- & _)|(Hne & Hc')]%list_lookup_insert_Some [(? & [= <-] & _)|(? & Hx')]%list_lookup_insert_Some;
      try done; [|by eapply H4]. split; [done|]. destruct (H4 w' c x Hc Hx) as [_ (idx & ctx & a & e & Hst & Hr)].
    exists idx, ctx, a, e. split; [done|]. etrans; [exact Hr|]. by destruct k.
  - intros d Hd. destruct (H5 d Hd) as [|Hall]; [by left|]. right. by apply Forall_insert.
  - intros w' q Hq' Hne. destruct (H6 w' q Hq' Hne) as [x' Hx']. destruct (decide (w = w')) as [<-|Hn].
    + eexists. by rewrite list_lookup_insert_eq by (by eapply lookup_lt_Some).
    + exists x'. by rewrite list_lookup_insert_ne.
Qed.

(** The posted packets go to workers that have an engine. *)
Lemma posted_packets l d r r6 : server_inv cfg l → demux_ l = Some d → ∀ l', loop_step dcid (Loop d r r6 []) l' →
  (loop_demux l' = d ∨ loop_demux l' = arm_send_retry d) ∧ ∀ e pkt, (e, pkt) ∈ loop_posted l' → workers_ d ≠ [].
Proof.
  intros Hinv Hd l' Hs. assert (∀ v6 res a b, loop_demux (handle dcid v6 res (Loop d a b [])) = d ∧
    ∀ e pkt, (e, pkt) ∈ loop_posted (handle dcid v6 res (Loop d a b [])) → workers_ d ≠ []) as Hh.
  { intros v6 res a b. split; [by edestruct (handle_spec dcid v6 res) as [posts ->]|]. unfold handle, on_packet. cbn [loop_demux].
    destruct res as [ec|pkt]; [case_decide; destruct v6; by intros ? ? ?%not_elem_of_nil|].
    case_decide; [by destruct v6; intros ? ? ?%not_elem_of_nil|]. destruct (workers_ d); [by destruct v6; intros ? ? ?%not_elem_of_nil|done]. }
  inversion Hs; subst; cbn; try (split; [by left|by intros ? ? ?%not_elem_of_nil]).
  - destruct (Hh false res (Rx (rx_pending r) q) r6). split; [by left|done].
  - destruct (Hh true res r (Rx (rx_pending r6) q)). split; [by left|done].
  - split; [by right|by intros ? ? ?%not_elem_of_nil].
Qed.

Lemma post_packets_spec l qs : length (foldr (λ x qs, alter (λ q, q ++ [snd x]) (fst x) qs) qs l : list (list (list Z))) = length qs ∧
  ∀ w q, foldr (λ x qs, alter (λ q, q ++ [snd x]) (fst x) qs) qs l !! w = Some q →
    ∃ q0, qs !! w = Some q0 ∧ (q = q0 ∨ ∃ pkt : list Z, (w, pkt) ∈ l).
Proof.
  induction l as [|[e pkt] l [IH1 IH2]]; cbn; [split; [done|]; intros w q Hq; exists q; by eauto|]. rewrite length_alter. split; [done|].
  intros w q. destruct (decide (e = w)) as [->|Hne].
  - rewrite list_lookup_alter_eq. intros (q1 & Hq1 & ->)%fmap_Some. destruct (IH2 w q1 Hq1) as (q0 & Hq0 & _). exists q0. split; [done|]. right.
    exists pkt. by left.
  - rewrite list_lookup_alter_ne by done. intros Hq. destruct (IH2 w q Hq) as (q0 & Hq0 & [->|[pkt' Hin]]); [by eauto|].
    exists q0. split; [done|]. right. exists pkt'. by right.
Qed.

Lemma pinv_receive p d l : pinv p → running (p_server p) → demux_ (p_server p) = Some d →
  loop_step dcid (Loop d (p_rx p) (p_rx6 p) []) l → pinv (receive l p).
Proof.
  intros Hp Hrun Hd Hl. pose proof Hp as [H1 H2 H3 H4 H5 H6 H7 H8]. pose proof (server_reachable_inv _ _ H1) as Hinv.
  destruct (posted_packets _ d _ _ Hinv Hd l Hl) as [Hdl Hposts].
  destruct (post_packets_spec (loop_posted l) (p_packets p)) as [Hlen Hq].
  assert (server_reachable cfg (set_demux (Some (loop_demux l)) (p_server p)) ∧ workers_ (loop_demux l) = workers_ d) as [Hr Hw].
  { destruct Hdl as [->| ->]; [by rewrite set_demux_id|]. split; [|done]. eapply server_reachable_r; [exact H1|]. by apply sstep_arm. }
  split; try done.
  - cbn. by rewrite Hlen.
  - cbn. intros d' [= <-]. rewrite Hw. by apply H5.
  - cbn. intros w q Hwq Hne. destruct (Hq w q Hwq) as (q0 & Hq0 & [->|[pkt Hin]]); [by eapply H6|].
    destruct (H5 d Hd) as [He|Hall]; [by destruct (Hposts w pkt Hin)|].
    destruct (lookup_lt_is_Some_2 (p_parts p) w) as [[x|] Hx]; [apply lookup_lt_Some in Hq0; lia|by exists x|].
    exfalso. by apply (Forall_lookup_1 _ _ _ _ Hall Hx).
Qed.

Lemma event_sim (sv : ReverseProxyServer) w c c' : running sv → cores_ sv !! w = Some c → c' = c ∨ core_event c c' →
  rtc sstep sv (set_cores (<[w := c']> (cores_ sv)) sv).
Proof. intros Hr Hc [->|He]; [by rewrite set_cores_id|]. apply rtc_once. by eapply sstep_core. Qed.

Lemma pinv_task p p' w : pinv p → running (p_server p) → run_next w p = Some p' → pinv p'.
Proof.
  intros Hp Hrun. pose proof Hp as [H1 H2 H3 H4 H5 H6 H7 H8]. unfold run_next.
  destruct (posted (p_server p) !! w) as [[|t q]|] eqn:Eq; [done| |done].
  destruct (cores_ (p_server p) !! w) as [c|] eqn:Ec; [|done]. destruct (p_parts p !! w) as [[x|]|] eqn:Ex; [| |done].
  - destruct (quic_task t (worker_of c x)) as [k|] eqn:Ek; [|done]. cbn [mbind option_bind]. intros [= <-].
    pose proof (quic_task_core _ _ _ Ek) as Hcore. cbn in Hcore. destruct (H4 w c x Ec Ex) as [He _].
    match goal with |- pinv ?p' => replace p' with (with_server (run_posted w t q c (p_server p)) (put_worker w k p))
      by (unfold put_worker, with_server, run_posted; cbn; by rewrite Hcore) end.
    eapply (pinv_put p w c x k (run_posted w t q c (p_server p))); try done; rewrite ?Hcore; try done.
    + by rewrite run_task_engine.
    + apply rtc_once. eapply quic_task_step; [|done]. exact (Forall_lookup_1 _ _ _ _ (proj2 (proj2 (proj2 Hrun))) Ec).
    + apply rtc_once. by apply sstep_task.
  - intros [= <-]. split; try done; cbn.
    + eapply server_reachable_r; [exact H1|]. by apply sstep_task.
    + intros w' c' [(-> & <- & _)|(Hne & Hc')]%list_lookup_insert_Some Hx'; [|by eapply H3]. rewrite run_task_engine. by eapply H3.
    + intros w' c' x' [(-> & <- & _)|(Hne & Hc')]%list_lookup_insert_Some Hx'; [congruence|by eapply H4].
Qed.

Lemma pinv_packet p p' w a : pinv p → running (p_server p) → deliver_next w a p = Some p' → pinv p'.
Proof.
  intros Hp Hrun. pose proof Hp as [H1 H2 H3 H4 H5 H6 H7 H8]. unfold deliver_next.
  destruct (p_packets p !! w) as [[|pkt q]|] eqn:Eq; [done| |done].
  destruct (cores_ (p_server p) !! w) as [c|] eqn:Ec; [|done]. destruct (p_parts p !! w) as [[x|]|] eqn:Ex; [|done|done]. intros [= <-].
  assert (pinv (with_packets (<[w:=q]> (p_packets p)) p)) as Hp'.
  { split; try done; cbn; [by rewrite length_insert|]. intros w' q' [(-> & _ & _)|(Hne & Hq')]%list_lookup_insert_Some Hq; [by exists x|by eapply H6]. }
  destruct (H4 w c x Ec Ex) as [He _].
  eapply (pinv_put _ w c x _ (set_cores (<[w:=c]> (cores_ (p_server p))) (p_server p)) Hp'); try done.
  - apply rtc_once. apply q_event. eapply (q_timer (worker_of c x)). apply timer_driven.
  - by rewrite set_cores_id.
Qed.

Lemma pinv_threads p ts : pinv p → length ts = length (threads_ p) →
  (∀ i t, ts !! i = Some t → t ≠ Running → stopped (p_server p) = true) → pinv (with_threads ts p).
Proof. intros [H1 H2 H3 H4 H5 H6 H7 H8] Hl Ht. split; try done. cbn. by rewrite Hl. Qed.

Lemma pinv_stats p l : pinv p → StatsListener.stats_step (p_stats p) l → pinv (with_stats l p).
Proof. intros [H1 H2 H3 H4 H5 H6 H7 (l0 & Hl & H0)] Hs. split; try done. exists l0. split; [by eapply rtc_r|done]. Qed.

(** [wait] only turns threads that have ended into joined ones. *)
Lemma join_all_spec ts : length (fst (join_all ts)) = length ts ∧
  ∀ i t, fst (join_all ts) !! i = Some t → ∃ t0, ts !! i = Some t0 ∧ (t0 = Running ↔ t = Running).
Proof.
  induction ts as [|[] ts [IH1 IH2]]; cbn; [done|split; [done|]; intros i t Hi; by exists t|..]; destruct (join_all ts) as [js b]; cbn in *;
    (split; [by rewrite IH1|]; intros [|i] t; cbn; [intros [= <-]; eexists; by split|apply IH2]).
Qed.

Lemma pinv_event p w c x k : pinv p → running (p_server p) → cores_ (p_server p) !! w = Some c → p_parts p !! w = Some (Some x) →
  qevent (worker_of c x) k → pinv (put_worker w k p).
Proof.
  intros Hp Hr Hc Hx Hev.
  destruct (pi_quic _ Hp w c x Hc Hx) as [He Hq]. pose proof (qevent_core cfg _ _ (qreachable_inv _ _ Hq) He Hev) as Hcore. cbn in Hcore.
  eapply (pinv_put p w c x k); try done; [|apply rtc_once; by apply q_event|by eapply event_sim].
  destruct Hcore as [->|Hcore]; [done|]. by rewrite (proj2 (proj2 (core_event_frame _ _ Hcore))).
Qed.

Lemma pinv_core p w c c' : pinv p → running (p_server p) → cores_ (p_server p) !! w = Some c → p_parts p !! w = Some None → core_event c c' →
  pinv (with_server (set_cores (<[w := c']> (cores_ (p_server p))) (p_server p)) p).
Proof.
  intros Hp Hr Hc Hx Hev.
  assert (server_reachable cfg (set_cores (<[w:=c']> (cores_ (p_server p))) (p_server p))) as Hsr.
  { eapply server_reachable_r; [apply Hp|]. by eapply sstep_core. }
  destruct Hp as [H1 H2 H3 H4 H5 H6 H7 H8]. split; try done; cbn.
  - intros w' c0 [(-> & <- & _)|(Hne & Hc')]%list_lookup_insert_Some Hx'; [|by eapply H3].
    rewrite (proj2 (proj2 (core_event_frame _ _ Hev))). by eapply H3.
  - intros w' c0 x' [(-> & <- & _)|(Hne & Hc')]%list_lookup_insert_Some Hx'; [congruence|by eapply H4].
Qed.

Lemma pinv_step p p' : pstep dcid p p' → pinv p → pinv p'.
Proof.
  intros Hs Hp. assert (∀ sv, sstep (p_server p) sv → cores_ sv = cores_ (p_server p) → demux_ sv = demux_ (p_server p) →
    (stopped (p_server p) = true → stopped sv = true) → pinv (with_server sv p)) as Hsv.
  { intros sv Hst Hc Hd Hstop. apply pinv_server; try done. rewrite Hd. by eauto. }
  assert (∀ d d', demux_ (p_server p) = Some d → sstep (p_server p) (set_demux (Some d') (p_server p)) → workers_ d' = workers_ d →
    pinv (with_server (set_demux (Some d') (p_server p)) p)) as Hdm.
  { intros d d' Hd Hst Hw. apply pinv_server; try done. cbn. intros ? [= <-]. by eauto. }
  destruct Hs as [p res Hr Ha|p res Hr Ha|p Hr|p Hr Hb|p Hr Hg|p Hr Hg|p d l Hr Hd Hl|p v6 ec d Hr Hd|p res Hr Hl Hn|p conn rest up s Hr Hl
    |p conn data rest Hr Hl|p p' w Hr Hn|p w fd v6 q c Hr Hq Hc Hn|p p' w a Hr Hn|p w c x k Hr Hc Hx Hev|p w c c' Hr Hc Hx Hev|p w c e d rnds Hr Hc He Hd|p cids d Hr Hd
    |p i Hst Hi|p].
  - apply Hsv; try done. by apply sstep_completed.
  - apply Hsv; [by apply sstep_accept|..]; destruct res as [ec|peer]; cbn; try done; by destruct (remote peer).
  - apply Hsv; [by apply sstep_stop|..]; unfold stop; by destruct (negb _ || _).
  - assert (pinv (with_server (begin_shutdown (p_server p)) p)) as [H1 H2 H3 H4 H5 H6 H7 H8] by (apply Hsv; try done; by apply sstep_begin).
    by split.
  - apply Hsv; try done. by apply sstep_finalize.
  - apply Hsv; try done. by apply sstep_hard_stop.
  - by eapply pinv_receive.
  - eapply Hdm; [done|by apply sstep_writable|done].
  - apply pinv_stats; [done|]. by apply StatsListener.stats_step_accept.
  - apply pinv_stats; [done|]. by apply StatsListener.stats_step_read.
  - apply pinv_stats; [done|]. by eapply StatsListener.stats_step_written.
  - by eapply pinv_task.
  - apply Hsv; try done. by eapply sstep_reset.
  - by eapply pinv_packet.
  - by eapply pinv_event.
  - by eapply pinv_core.
  - eapply Hdm; [done|by eapply sstep_new_scids|by apply new_scids_lookup].
  - eapply Hdm; [done|by apply sstep_old_scids|by apply old_scids_lookup].
  - apply pinv_threads; [done|apply length_insert|]. intros j t [_|(Hne & Hj)]%list_lookup_insert_Some Ht; [done|by eapply (pi_threads _ Hp)].
  - unfold wait. destruct (join_all_spec (threads_ p)) as [Hl Hj]. destruct (join_all (threads_ p)) as [ts b]. cbn in *.
    apply pinv_threads; [done..|]. intros i t Hi Ht. destruct (Hj i t Hi) as (t0 & Hi0 & E). eapply (pi_threads _ Hp); [exact Hi0|by rewrite E].
Qed.

(** What [start] makes of each worker. *)
Lemma make_cores_fresh ssl k : ∀ i d0, let '(cs, d') := make_cores cfg ssl k i d0 in
  (d0 = None → d' = None) ∧
  ∀ w c, cs !! w = Some c → (c = new_core cfg ∧ (d0 = None ∨ ssl = false)) ∨
    ∃ idx, c = set_engine (Some (Engine idx)) (new_core cfg) ∧ d0 ≠ None ∧ ssl = true.
Proof.
  induction k as [|k IH]; intros i d0; cbn -[new_core]; [done|]. destruct d0 as [d|].
  - destruct ssl; cbn -[new_core].
    + specialize (IH (S i) (Some (snd (add_worker i d)))). cbn [snd add_worker] in IH. destruct (make_cores cfg true k (S i) _) as [cs d'].
      destruct IH as [_ IH]. split; [done|]. intros [|w] c; cbn -[new_core]; [intros [= <-]; right; by eexists|].
      intros Hw. destruct (IH w c Hw) as [[_ [?|?]]|(idx & ? & _)]; [done|done|right; by exists idx].
    + specialize (IH (S i) (Some d)). destruct (make_cores cfg false k (S i) _) as [cs d']. destruct IH as [_ IH]. split; [done|].
      intros [|w] c; cbn -[new_core]; [intros [= <-]; left; by auto|by apply IH].
  - specialize (IH (S i) None). destruct (make_cores cfg ssl k (S i) None) as [cs d']. destruct IH as [IH1 IH2]. split; [done|].
    intros [|w] c; cbn -[new_core]; [intros [= <-]; left; by auto|by apply IH2].
Qed.

Lemma make_parts_spec env ssl cs : ∀ i parts, make_parts env ssl i cs = Some parts → length parts = length cs ∧
  ∀ w c x, cs !! w = Some c → parts !! w = Some x → make_part env ssl (i + w) c = Some x.
Proof.
  induction cs as [|c cs IH]; intros i parts; cbn; [by intros [= <-]|]. destruct (make_part env ssl i c) as [x|] eqn:Ex; [|done]. cbn.
  destruct (make_parts env ssl (S i) cs) as [xs|] eqn:Exs; [|done]. intros [= <-]. destruct (IH (S i) xs Exs) as [Hl Hw]. split; [cbn; by rewrite Hl|].
  intros [|w] c' x'; cbn; [intros [= <-] [= <-]; by rewrite Nat.add_0_r|]. rewrite <- plus_n_Sm. apply Hw.
Qed.

(** The worker [start_quic] leaves is a new worker. *)
Lemma make_part_new env ssl w idx x : make_part env ssl w (set_engine (Some (Engine idx)) (new_core cfg)) = Some x →
  ∃ y, x = Some y ∧ qreachable cfg (worker_of (set_engine (Some (Engine idx)) (new_core cfg)) y).
Proof.
  unfold make_part. cbn -[new_core]. destruct (engine_made env w); [|done]. intros [= <-]. eexists. split; [done|].
  eexists idx, ssl, (advised env w), _. split; [by eexists|]. apply rtc_refl.
Qed.

Lemma pinv_start env p : process_start env cfg new_process = Some p → pinv p.
Proof.
  unfold process_start. cbn [started_ p_server new_process new_server]. destruct (_ && _); [done|].
  destruct (quic_tls env cfg) as [ctx|]; [|done]. cbn [mbind option_bind].
  destruct (server_start cfg _ _ new_server) as [sv|] eqn:Esv; [|done]. cbn [mbind option_bind].
  destruct (make_clients _ _ _ _) as [clients|]; [|done]. cbn [mbind option_bind].
  assert (server_reachable cfg sv) as Hsv by (do 3 eexists; split; [exact Esv|apply rtc_refl]).
  pose proof (server_reachable_inv _ _ Hsv) as Hinv. destruct (sv_len _ _ Hinv) as (L1 & _ & _).
  destruct (make_parts env ctx 0 (cores_ sv)) as [parts|] eqn:Ep; [|done]. cbn [mbind option_bind].
  destruct (make_parts_spec _ _ _ _ _ Ep) as [Hl Hparts].
  destruct (StatsListener.start_stats _ _) as [st|] eqn:Est; [|done]. cbn [mbind option_bind].
  destruct (match demux_ sv with Some d => _ | None => _ end) as [r r6]. intros [= <-].
  unfold server_start in Esv. cbn [started_ new_server] in Esv. set (d0 := if (0 <? quic_port cfg)%Z then _ else _) in Esv.
  set (ssl := bool_decide _) in Esv. pose proof (make_cores_fresh ssl (n_workers cfg) 0 d0) as Hf.
  pose proof (make_cores_spec cfg ssl (n_workers cfg) 0 d0) as Hm.
  destruct (make_cores cfg ssl (n_workers cfg) 0 d0) as [cs d']. destruct Hf as [Hf1 Hf2], Hm as (_ & _ & Hm).
  destruct (tcp_listen _ _); [|done]. injection Esv as <-. cbn in *.
  assert (∀ w c x, cs !! w = Some c → parts !! w = Some x → (x = None ∧ c = new_core cfg ∧ (d0 = None ∨ ssl = false)) ∨
    ∃ y, x = Some y ∧ core_engine_ c ≠ None ∧ qreachable cfg (worker_of c y)) as Hx.
  { intros w c x Hc Hw. specialize (Hparts w c x Hc Hw). destruct (Hf2 w c Hc) as [[-> Hno]|(idx & -> & _)].
    - left. unfold make_part in Hparts. cbn in Hparts. by injection Hparts as <-.
    - right. destruct (make_part_new _ _ _ _ _ Hparts) as (y & -> & Hq). by exists y. }
  split; cbn; try done.
  - by rewrite Hl, !length_replicate, L1.
  - intros w c Hc Hw. destruct (Hx w c None Hc Hw) as [(_ & -> & _)|(y & ? & _)]; done.
  - intros w c x Hc Hw. destruct (Hx w c (Some x) Hc Hw) as [(? & _)|(y & [= <-] & H)]; done.
  - intros d ->. destruct (Hm d eq_refl) as (d1 & Hd1 & _ & Hw).
    assert (d1 = new_demux (dual_stack cfg && udp6_binds (listen_on env))) as -> by (subst d0; by destruct (0 <? _)%Z; simplify_eq).
    destruct Hw as [Hw1 _]; [by destruct ssl|]. destruct ssl eqn:Essl; [|by left]. right. apply Forall_lookup. intros w x Hw.
    destruct (lookup_lt_is_Some_2 cs w) as [c Hc]; [rewrite <- Hl; by eapply lookup_lt_Some|].
    destruct (Hx w c x Hc Hw) as [(_ & _ & [Hno|?])|(y & -> & _)]; [congruence|done|done].
  - intros w q [-> _]%lookup_replicate. done.
  - intros [|i] t; cbn; [by intros [= <-]|]. by intros [-> _]%lookup_replicate.
  - unfold StatsListener.start_stats in Est. destruct (0 <? stats_port cfg)%Z; [destruct (stats_bind env); [|done]|]; injection Est as <-;
      (eexists; split; [apply rtc_refl|]); by auto.
Qed.

Lemma process_inv p : process_reachable dcid cfg p → pinv p.
Proof.
  intros (env & p0 & Hs & Hr). apply pinv_start in Hs. induction Hr as [|p1 p2 p3 Hst _ IH]; [done|]. apply IH. by eapply pinv_step.
Qed.
End invariant.
