(* ===== verification/ProcessTheorems.v ===== *)
(** * What the process guarantees

    Theorems about the process of [Process]: when it starts, that it refines the
    models of its components, that its workers are never stuck and the shutdown
    tasks reach every client, that it exits after [stop], and what its destructor
    does. *)

From S2P Require Import Prelude CppStd Transport HttpMessage Config Router Stats UpstreamPool QuicDemux.
From S2P Require Import RelaySession RelayTheorems ProxyCore QuicEngine QuicWorker Server Process.
From S2P Require QuicStream QuicSession EngineDestroy StatsListener.
Import QuicSession (world, call, GoingAway, ConnClose, NewSession, NewStream, StreamOut, OnStream, ServerRole, world_inv, calls, conns, lstreams,
  sessions).

(** ** Lemmas: when the server starts *)

(** QUIC is configured and its TLS context can be made. *)
Definition quic_enabled (env : environment) (cfg : ProxyConfig) : bool :=
  (0 <? quic_port cfg)%Z && bool_decide (quic_cert_file cfg ≠ [] ∧ quic_key_file cfg ≠ []) && ssl_new env && cert_loads env && key_loads env.

(** The address is one, and the acceptor can be bound, with IPv6 or to it, and
    listen. *)
Definition can_listen (cfg : ProxyConfig) (env : listen_env) : bool :=
  address_parses env && ((dual_stack cfg && tcp6_binds env) || tcp_binds env) && tcp_listens env.

Definition can_start (env : environment) (cfg : ProxyConfig) : bool :=
  global_init env && ((quic_port cfg <=? 0)%Z || udp_bind env) && can_listen cfg (listen_on env) &&
  (negb (existsb (λ be, bool_decide (ep_protocol be = QUIC)) (backends cfg)) ||
   forallb (λ w, bool_decide (is_Some (client_socket env w)) && client_made env w) (seq 0 (n_workers cfg))) &&
  (negb (quic_enabled env cfg) || forallb (engine_made env) (seq 0 (n_workers cfg))) &&
  ((stats_port cfg <=? 0)%Z || stats_bind env).

Lemma quic_tls_eq env cfg : quic_tls env cfg =
  if (0 <? quic_port cfg)%Z && negb (global_init env) then None else Some (if quic_enabled env cfg then Some (ssl_handle env) else None).
Proof.
  unfold quic_tls, quic_enabled, Tls.make_server_ssl_ctx. destruct (0 <? quic_port cfg)%Z; [|done].
  destruct (global_init env); [|done]. cbn. destruct (quic_cert_file cfg), (quic_key_file cfg), (ssl_new env), (cert_loads env), (key_loads env); done.
Qed.

Lemma make_parts_throws env ssl cs : ∀ i, (∀ w c, cs !! w = Some c → core_engine_ c ≠ None) →
  (is_Some (make_parts env ssl i cs) ↔ forallb (engine_made env) (seq i (length cs)) = true).
Proof.
  induction cs as [|c cs IH]; intros i He; cbn [make_parts length seq forallb]; [split; [done|by eexists]|].
  specialize (He 0 c eq_refl) as Hc. specialize (IH (S i) (λ w, He (S w))). unfold make_part. destruct (core_engine_ c) as [e|]; [|done].
  unfold QuicEngine.Server.new_engine. destruct (engine_made env i); [|by split; [intros [? [=]]|]]. cbn [mbind option_bind andb].
  rewrite <- IH. destruct (make_parts env ssl (S i) cs); cbn; split; (done || by intros [? [=]]).
Qed.

Lemma make_parts_plain env ssl cs : ∀ i, (∀ w c, cs !! w = Some c → core_engine_ c = None) →
  make_parts env ssl i cs = Some (replicate (length cs) None).
Proof.
  induction cs as [|c cs IH]; intros i He; [done|]. cbn. unfold make_part. rewrite (He 0 c eq_refl). cbn. by rewrite (IH (S i) (λ w, He (S w))).
Qed.

Lemma server_start_listens cfg ssl env : bool_decide (is_Some (server_start cfg ssl env new_server)) = can_listen cfg env.
Proof.
  unfold server_start, tcp_listen, can_listen. cbn [started_ new_server]. destruct (make_cores _ _ _ _ _).
  by destruct (address_parses env), (dual_stack cfg && tcp6_binds env), (tcp_binds env), (tcp_listens env).
Qed.

(** The pools of the workers, all made from the configuration. *)
Lemma pool_engine bes p : quic_engine_ (fold_left (λ p b, add_backend b p) bes p) =
  quic_engine_ p || existsb (λ be, bool_decide (ep_protocol be = QUIC)) bes.
Proof. revert p. induction bes as [|b bes IH]; intros p; cbn; [by rewrite orb_false_r|]. rewrite IH. cbn. by rewrite orb_assoc. Qed.

Lemma make_clients_throws env inited cs b : ∀ i, global_init env = true → (∀ w c, cs !! w = Some c → quic_engine_ (upstream_pool_ c) = b) →
  bool_decide (is_Some (make_clients env inited i cs)) =
  negb b || forallb (λ w, bool_decide (is_Some (client_socket env w)) && client_made env w) (seq i (length cs)).
Proof.
  revert inited. induction cs as [|c cs IH]; intros inited i Hg Hc; cbn [make_clients length seq forallb]; [by rewrite orb_true_r|].
  specialize (IH true (S i) Hg (λ w, Hc (S w))). unfold make_client. rewrite Hg, (Hc 0 c eq_refl).
  replace (Tls.make_client_ssl_ctx inited true _) with (Some (if bool_decide (is_Some (client_ssl env i))
    then Some (Tls.SslCtx Tls.TLS1_3_VERSION Tls.TLS1_3_VERSION None None) else None)) by (by destruct inited).
  cbn [mbind option_bind]. unfold QuicEngine.Client.new_engine. destruct b; cbn [negb orb] in *.
  - destruct (client_socket env i), (client_made env i); cbn; try done. rewrite <- IH. by destruct (make_clients env true (S i) cs).
  - cbn [mbind option_bind]. by destruct (make_clients env true (S i) cs).
Qed.

(** The engines of the workers [server_start] makes, and those made for them. *)
Lemma started_parts env cfg sv ctx le : server_start cfg (quic_enabled env cfg) le new_server = Some sv →
  length (cores_ sv) = n_workers cfg ∧ acceptor_ sv = Accepting ∧
  (∀ w c, cores_ sv !! w = Some c → quic_engine_ (upstream_pool_ c) = existsb (λ be, bool_decide (ep_protocol be = QUIC)) (backends cfg)) ∧
  match make_parts env ctx 0 (cores_ sv) with
  | Some parts => negb (quic_enabled env cfg) || forallb (engine_made env) (seq 0 (n_workers cfg)) = true ∧
      length parts = n_workers cfg ∧ ∀ w x, parts !! w = Some x → (x ≠ None ↔ quic_enabled env cfg = true)
  | None => negb (quic_enabled env cfg) || forallb (engine_made env) (seq 0 (n_workers cfg)) = false
  end.
Proof.
  unfold server_start. cbn [started_ new_server]. set (d0 := if (0 <? quic_port cfg)%Z then _ else _).
  pose proof (make_cores_fresh cfg (quic_enabled env cfg) (n_workers cfg) 0 d0) as Hf.
  pose proof (make_cores_spec cfg (quic_enabled env cfg) (n_workers cfg) 0 d0) as Hm.
  destruct (make_cores cfg _ (n_workers cfg) 0 d0) as [cs d']. destruct Hf as [_ Hf], Hm as [Hl _].
  destruct (tcp_listen _ _); [|done]. intros [= <-]. cbn [cores_ acceptor_]. split; [done|]. split; [done|]. split.
  { intros w c Hc. destruct (Hf w c Hc) as [[-> _]|(idx & -> & _)]; exact (pool_engine (backends cfg) new_pool). }
  destruct (quic_enabled env cfg) eqn:Eq.
  - assert (d0 ≠ None) as Hd. { subst d0. unfold quic_enabled in Eq. by destruct (0 <? quic_port cfg)%Z. }
    assert (∀ w c, cs !! w = Some c → ∃ idx, c = set_engine (Some (Engine idx)) (new_core cfg)) as He.
    { intros w c Hc. destruct (Hf w c Hc) as [[_ [?|?]]|(idx & -> & _)]; [done|done|by eexists]. }
    pose proof (make_parts_throws env ctx cs 0) as Ht. rewrite Hl in Ht. cbn [negb orb].
    destruct (make_parts env ctx 0 cs) as [parts|] eqn:Ep.
    + split; [apply Ht; [|done]; intros w c Hc; by destruct (He w c Hc) as [idx ->]|].
      destruct (make_parts_spec _ _ _ _ _ Ep) as [Hlp Hp]. split; [by rewrite Hlp|]. intros w x Hx. split; [done|]. intros _.
      destruct (lookup_lt_is_Some_2 cs w) as [c Hc]; [rewrite <- Hlp; by eapply lookup_lt_Some|]. destruct (He w c Hc) as [idx ->].
      destruct (make_part_new _ _ _ _ _ _ (Hp w _ x Hc Hx)) as (y & -> & _). done.
    + destruct (forallb _ _) eqn:Ef; [|done]. destruct Ht as [_ Ht]; [intros w c Hc; by destruct (He w c Hc) as [idx ->]|].
      by destruct (Ht eq_refl).
  - rewrite make_parts_plain; [|intros w c Hc; destruct (Hf w c Hc) as [[-> _]|(idx & _ & _ & ?)]; done].
    cbn [negb orb]. split; [done|]. rewrite length_replicate. split; [done|]. by intros w x [-> _]%lookup_replicate.
Qed.

(** The first TLS context finds that lsquic cannot be initialised. *)
Lemma start_uninitialised env cfg : global_init env = false → process_start env cfg new_process = None.
Proof.
  intros Hg. unfold process_start. cbn [started_ p_server new_process new_server]. destruct (_ && _); [done|]. rewrite quic_tls_eq, Hg.
  destruct (0 <? quic_port cfg)%Z eqn:Eq; [done|]. cbn [andb mbind option_bind].
  replace (quic_enabled env cfg) with false by (unfold quic_enabled; by rewrite Eq).
  destruct (server_start cfg _ _ new_server) as [sv|] eqn:Es; [|done]. cbn [mbind option_bind].
  destruct (sv_len _ _ (server_start_inv _ _ _ _ Es)) as (Hl & _). pose proof (n_workers_pos cfg).
  destruct (cores_ sv) as [|c cs]; [cbn in Hl; lia|]. cbn [make_clients]. unfold make_client. by rewrite Hg.
Qed.

(** ** Lemmas: tasks keep the process running *)

Lemma close_live_crashed rs live : Forall (λ r, crashed r = false) rs → Forall (λ r, crashed r = false) (fst (close_live rs live)).
Proof.
  intros H. apply (close_live_spec (λ r, crashed r = false) rs live); [|done]. intros r Hr. unfold graceful_close.
  destruct (done_ r); [done|]. by case_decide.
Qed.

Lemma run_task_crashed t c : Forall (λ r, crashed r = false) (relays c) → Forall (λ r, crashed r = false) (relays (run_task t c)).
Proof.
  intros H. destruct t; [|unfold run_task, graceful_shutdown|done].
  - cbn. apply Forall_app. split; [done|]. constructor; [|constructor].
    unfold start, request_phase, kick_idle_timer. cbn. repeat (case_match || case_decide); reflexivity.
  - pose proof (close_live_crashed _ (live_relays_ c) H) as Hc. by destruct (close_live (relays c) (live_relays_ c)).
Qed.

Lemma run_posted_running w t q c sv : running sv → cores_ sv !! w = Some c → running (run_posted w t q c sv).
Proof.
  intros (H1 & H2 & H3 & H4) Hc. split_and!; try done. cbn. apply Forall_insert; [done|]. apply run_task_crashed.
  exact (Forall_lookup_1 _ _ _ _ H4 Hc).
Qed.

(** The calls of lsquic a task makes on the connections [cs]. *)
Definition task_calls (t : task) (cs : list nat) : list call :=
  match t with NewSocket _ _ => [] | GracefulShutdown => map GoingAway cs | ForceCloseQuic => map ConnClose cs end.

Lemma quic_task_ok cfg t k : qinv cfg k → ∃ k' cs, quic_task t k = Some k' ∧ cs ≡ₚ map fst (map_to_list (conns (qw_world k))) ∧
  calls (qw_world k') = rev (task_calls t cs) ++ calls (qw_world k).
Proof.
  intros Hq. destruct t; cbn -[on_new_tcp_socket graceful_shutdown].
  - eexists _, _. by split_and!.
  - destruct (QuicEngine.Server.shutdown_ok GoingAway _ (qi_engine _ _ Hq)) as (w' & cs & E & _ & Ec & Hcs & _).
    unfold QuicEngine.Server.graceful_shutdown. cbn zeta in E. rewrite E. by exists (QW (graceful_shutdown (qw_core k))
      (QuicEngine.Server.with_world w' (qw_engine k)) (qw_clients k) (qw_made k)), cs.
  - destruct (QuicEngine.Server.shutdown_ok ConnClose _ (qi_engine _ _ Hq)) as (w' & cs & E & _ & Ec & Hcs & _).
    unfold QuicEngine.Server.force_close_all. cbn zeta in E. rewrite E. by exists (QW (force_close_quic (qw_core k))
      (QuicEngine.Server.with_world w' (qw_engine k)) (qw_clients k) (qw_made k)), cs.
Qed.

Lemma drained_relays cfg c : core_inv cfg c → Forall (λ r, crashed r = false) (relays c) →
  Forall (λ r, winding_down r = true) (relays (graceful_shutdown c)).
Proof.
  intros Hi Hc. pose proof (graceful_shutdown_inv cfg c Hc Hi) as Hcore. apply Forall_lookup. intros i r Hr.
  assert (shut_at (graceful_shutdown c) = Some (length (relays (graceful_shutdown c)))) as Hat.
  { unfold graceful_shutdown. pose proof (close_live_spec (λ _, True) (relays c) (live_relays_ c) (λ _ _, I) (Forall_true _ _ (λ _, I))) as [_ Hl].
    destruct (close_live _ _). cbn in *. by rewrite Hl. }
  eapply (ci_shut _ _ Hcore _ i r Hat); [by eapply lookup_lt_Some|done].
Qed.

(** ** What is left to do until [wait] returns *)

Definition thread_left (t : thread) : nat := match t with Running => 2 | Ended => 1 | Joined => 0 end.
Fixpoint threads_left (ts : list thread) : nat := match ts with [] => 0 | t :: ts' => thread_left t + threads_left ts' end.
Definition exit_left (p : process) : nat := (4 - length (controls (p_server p))) + threads_left (threads_ p).

Lemma threads_left_insert ts i t t' : ts !! i = Some t → threads_left (<[i := t']> ts) + thread_left t = threads_left ts + thread_left t'.
Proof.
  revert i. induction ts as [|u ts IH]; intros [|i] H; [done|done|..].
  - injection H as ->. change (thread_left t' + threads_left ts + thread_left t = thread_left t + threads_left ts + thread_left t'). lia.
  - specialize (IH i H).
    change (thread_left u + threads_left (<[i:=t']> ts) + thread_left t = thread_left u + threads_left ts + thread_left t'). lia.
Qed.

Lemma join_all_left ts : threads_left (fst (join_all ts)) ≤ threads_left ts.
Proof. induction ts as [|[] ts IH]; cbn; [lia|lia|..]; destruct (join_all ts); cbn in *; lia. Qed.

Lemma join_all_done ts : Running ∉ ts → snd (join_all ts) = true ∧ threads_left (fst (join_all ts)) = 0.
Proof.
  induction ts as [|[] ts IH]; cbn; intros Hn; [done|by destruct Hn; left|..];
    (destruct IH as [IH1 IH2]; [set_solver|]; by destruct (join_all ts)).
Qed.

Lemma join_all_returned ts : snd (join_all ts) = true → Running ∉ ts.
Proof.
  induction ts as [|[] ts IH]; cbn; [by intros _ ?%not_elem_of_nil|done|..]; destruct (join_all ts); cbn in *; intros H; set_solver.
Qed.

Lemma threads_left_0 ts : threads_left ts = 0 → Running ∉ ts.
Proof. induction ts as [|[] ts IH]; cbn; intros H; [by apply not_elem_of_nil|lia|lia|]. set_solver. Qed.

(** The server's part of the measure: the shutdown sequence only goes on. *)
Lemma sstep_controls sv sv' : sstep sv sv' → length (controls sv) ≤ length (controls sv').
Proof.
  intros []; cbn; rewrite ?length_app; try lia.
  - destruct res as [|peer]; [done|]. cbn. by destruct (remote peer).
  - unfold stop. destruct (negb _ || _); [done|]. cbn. rewrite length_app. lia.
Qed.

Lemma pstep_left dcid p p' : pstep dcid p p' → exit_left p' ≤ exit_left p.
Proof.
  intros Hs. assert (∀ sv, sstep (p_server p) sv → exit_left (with_server sv p) ≤ exit_left p) as Hsv.
  { intros sv H%sstep_controls. unfold exit_left. cbn. lia. }
  assert (∀ q : process, controls (p_server q) = controls (p_server p) → threads_ q = threads_ p → exit_left q ≤ exit_left p) as Hsame.
  { intros q E1 E2. unfold exit_left. by rewrite E1, E2. }
  destruct Hs as [p res Hr Ha|p res Hr Ha|p Hr|p Hr Hb|p Hr Hg|p Hr Hg|p d l Hr Hd Hl|p v6 ec d Hr Hd|p res Hr Hl Hn|p conn rest up s Hr Hl
    |p conn data rest Hr Hl|p p' w Hr Hn|p w fd v6 q c Hr Hq Hc Hn|p p' w a Hr Hn|p w c x k Hr Hc Hx Hev|p w c c' Hr Hc Hx Hev|p w c e d rnds Hr Hc He Hd|p cids d Hr Hd
    |p i Hst Hi|p]; try by apply Hsame.
  - by apply Hsv, sstep_accept.
  - by apply Hsv, sstep_stop.
  - unfold exit_left. cbn. rewrite length_app. lia.
  - by apply Hsv, sstep_finalize.
  - by apply Hsv, sstep_hard_stop.
  - unfold run_next in Hn. destruct (posted (p_server p) !! w) as [[|t q]|]; [done| |done]. destruct (cores_ (p_server p) !! w) as [c|]; [|done].
    destruct (p_parts p !! w) as [[x|]|]; [| |done]; [|by injection Hn as <-; apply Hsame].
    destruct (quic_task t (worker_of c x)) as [k|]; [|done]. injection Hn as <-. by apply Hsame.
  - unfold deliver_next in Hn. destruct (p_packets p !! w) as [[|pkt q]|]; [done| |done]. destruct (cores_ (p_server p) !! w) as [c|]; [|done].
    destruct (p_parts p !! w) as [[x|]|]; [|done|done]. injection Hn as <-. by apply Hsame.
  - unfold exit_left. cbn. pose proof (threads_left_insert _ _ _ Ended Hi). cbn in *. lia.
  - unfold exit_left, wait. pose proof (join_all_left (threads_ p)). destruct (join_all (threads_ p)). cbn in *. lia.
Qed.

(** ** Properties *)

(** C19: The process refines its components.  In every reachable state of the whole
    process the server's part is a reachable state of the server model, each
    worker that has an engine is, with the core the server knows, a reachable
    worker of the worker model, the others have no engine, and the stats port is
    in a reachable state of the listener; so what is proved of the components
    holds of the process.  Datagrams are queued only at workers that have an
    engine, and a thread has ended only when the [io_context]s were stopped. *)
Theorem process_refines dcid cfg (p : process) : process_reachable dcid cfg p →
  server_reachable cfg (p_server p) ∧ length (p_parts p) = length (cores_ (p_server p)) ∧
  (∀ w c x, cores_ (p_server p) !! w = Some c → p_parts p !! w = Some (Some x) → qreachable cfg (worker_of c x)) ∧
  (∀ w c, cores_ (p_server p) !! w = Some c → p_parts p !! w = Some None → core_engine_ c = None) ∧
  (∃ on, rtc StatsListener.stats_step (StatsListener.Listener on [] [] []) (p_stats p)) ∧
  (∀ w q, p_packets p !! w = Some q → q ≠ [] → ∃ x, p_parts p !! w = Some (Some x)) ∧
  (∀ i t, threads_ p !! i = Some t → t ≠ Running → stopped (p_server p) = true).
Proof.
  intros [H1 H2 H3 H4 H5 H6 H7 (l0 & Hl & H0)]%process_inv. pose proof (server_reachable_inv _ _ H1) as Hinv.
  destruct (sv_len _ _ Hinv) as (L1 & _ & _). split_and!; try done.
  - rewrite L1. apply H2.
  - intros w c x Hc Hx. by apply (H4 w c x).
  - destruct H0 as [->| ->]; by eexists.
Qed.

(** C22: The server starts with all its threads or with none.  Given memory and
    threads, [start] throws, before it makes a thread, exactly when lsquic cannot
    be initialised; the listen address is not an address (also when it listens on
    IPv6 instead); the acceptor cannot be bound, neither with IPv6, if configured,
    nor to the address, or cannot listen; the UDP or the stats socket, if
    configured, cannot be bound; with an HTTP/3 backend, the client engine of some
    worker has no socket or cannot be made; or, QUIC being usable, the server
    engine of some worker cannot be made.  Otherwise it leaves a thread running for the ingress and for each worker and the acceptor
    accepting; the workers have QUIC engines exactly when QUIC is configured and
    its certificate and key could be loaded, and serve TCP only otherwise. *)
Theorem start_outcome env cfg :
  match process_start env cfg new_process with
  | None => can_start env cfg = false
  | Some p => can_start env cfg = true ∧ threads_ p = replicate (S (n_workers cfg)) Running ∧
      acceptor_ (p_server p) = Accepting ∧ length (p_parts p) = n_workers cfg ∧
      (∀ w x, p_parts p !! w = Some x → (x ≠ None ↔ quic_enabled env cfg = true))
  end.
Proof.
  destruct (global_init env) eqn:Eg; [|rewrite start_uninitialised by done; unfold can_start; by rewrite Eg].
  unfold process_start, can_start. cbn [started_ p_server new_process new_server]. rewrite quic_tls_eq, Eg, !Z.leb_antisym.
  rewrite andb_false_r. destruct (0 <? quic_port cfg)%Z eqn:Eqp, (udp_bind env) eqn:Eu; try done; cbn [andb negb orb mbind option_bind].
  all: replace (bool_decide (is_Some (if quic_enabled env cfg then Some (ssl_handle env) else None))) with (quic_enabled env cfg)
    by (by destruct (quic_enabled env cfg)).
  all: rewrite <- (server_start_listens cfg (quic_enabled env cfg)).
  all: destruct (server_start cfg (quic_enabled env cfg) _ new_server) as [sv|] eqn:Es; cbn [mbind option_bind]; [|done].
  all: pose proof (started_parts env cfg sv (if quic_enabled env cfg then Some (ssl_handle env) else None) _ Es) as (Hl & Ha & Hq & Hp).
  all: pose proof (λ b, make_clients_throws env b (cores_ sv) _ 0 Eg Hq) as Hc; rewrite Hl in Hc; rewrite <- (Hc (0 <? quic_port cfg)%Z); clear Hc.
  all: rewrite Eqp; destruct (make_clients env _ 0 (cores_ sv)) as [clients|]; cbn [mbind option_bind andb]; [|done].
  all: destruct (make_parts env _ 0 (cores_ sv)) as [parts|]; cbn [mbind option_bind andb];
    [destruct Hp as (-> & Hlp & Hp)|by rewrite Hp].
  all: unfold StatsListener.start_stats; destruct (0 <? stats_port cfg)%Z, (stats_bind env); cbn [mbind option_bind negb orb andb]; try done.
  all: destruct (match demux_ sv with Some _ => _ | None => _ end); cbn; rewrite Hl; by split_and!.
Qed.

(** C20: No worker gets stuck, and the shutdown tasks reach every client.  In every
    reachable state of a running process the oldest task of a worker runs to its
    end and leaves the process running (the peer of a new socket being still
    connected): the drain task puts every relay of the
    worker into its drain and tells each live QUIC connection of the worker, and
    no other, once to go away; the force-close task closes each of them once; a
    datagram queued at a worker is delivered to its engine. *)
Theorem process_tasks_run dcid cfg (p : process) w : process_reachable dcid cfg p → running (p_server p) →
  (∀ t q, posted (p_server p) !! w = Some (t :: q) → ∃ p', run_next w p = Some p' ∧ running (p_server p') ∧
     posted (p_server p') !! w = Some q ∧
     (t = GracefulShutdown → ∀ c, cores_ (p_server p') !! w = Some c → Forall (λ r, winding_down r = true) (relays c)) ∧
     (∀ x, p_parts p !! w = Some (Some x) → ∃ x' cs, p_parts p' !! w = Some (Some x') ∧
        cs ≡ₚ map fst (map_to_list (conns (QuicEngine.Server.srv_world (part_engine x)))) ∧
        calls (QuicEngine.Server.srv_world (part_engine x')) =
          rev (task_calls t cs) ++ calls (QuicEngine.Server.srv_world (part_engine x)))) ∧
  (∀ pkt q a, p_packets p !! w = Some (pkt :: q) → ∃ p', deliver_next w a p = Some p' ∧ p_packets p' !! w = Some q).
Proof.
  intros Hr Hrun. pose proof (process_inv _ _ _ Hr) as [H1 (L1 & L2 & L3) H3 H4 H5 H6 H7 _]. pose proof (server_reachable_inv _ _ H1) as Hinv.
  destruct (sv_len _ _ Hinv) as (M1 & M2 & M3). split.
  - intros t q Hq. pose proof (lookup_lt_Some _ _ _ Hq) as Hlt. unfold run_next. rewrite Hq.
    destruct (lookup_lt_is_Some_2 (cores_ (p_server p)) w) as [c Hc]; [lia|]. rewrite Hc.
    pose proof (Forall_lookup_1 _ _ _ _ (sv_cores _ _ Hinv) Hc) as Hci. pose proof (Forall_lookup_1 _ _ _ _ (proj2 (proj2 (proj2 Hrun))) Hc) as Hcr.
    pose proof (run_posted_running w t q c _ Hrun Hc) as Hrun'. assert (t = GracefulShutdown → ∀ c',
      <[w := run_task t c]> (cores_ (p_server p)) !! w = Some c' → Forall (λ r, winding_down r = true) (relays c')) as Hdrain.
    { intros -> c'. rewrite list_lookup_insert_eq by (by eapply lookup_lt_Some). intros [= <-]. by eapply drained_relays. }
    destruct (lookup_lt_is_Some_2 (p_parts p) w) as [[x|] Hx]; [lia| |]; rewrite Hx.
    + destruct (H4 w c x Hc Hx) as [_ Hqr]. destruct (quic_task_ok cfg t _ (qreachable_inv _ _ Hqr)) as (k & cs & E & Hcs & Hcalls).
      rewrite E. cbn [mbind option_bind]. eexists. split; [done|]. pose proof (quic_task_core _ _ _ E) as Hcore. cbn in Hcore. cbn.
      rewrite Hcore. split_and!; [exact Hrun'|by apply list_lookup_insert_eq|done|]. intros x' [= <-]. exists (part_of k), cs.
      rewrite list_lookup_insert_eq by lia. by split_and!.
    + eexists. split; [done|]. split_and!; [exact Hrun'|by apply list_lookup_insert_eq|done|done].
  - intros pkt q a Hq. destruct (H6 w _ Hq) as [x Hx]; [done|]. pose proof (lookup_lt_Some _ _ _ Hq) as Hlt. unfold deliver_next. rewrite Hq, Hx.
    destruct (lookup_lt_is_Some_2 (cores_ (p_server p)) w) as [c Hc]; [lia|]. rewrite Hc. eexists. split; [done|]. cbn.
    by apply list_lookup_insert_eq.
Qed.

(** C21: After [stop] the process exits.  [exit_left] counts the stages of the
    shutdown still to come and the threads not yet joined.  In every reachable
    state no step increases it; after [stop] was called, and unless the process
    was brought down, some step decreases it until it is 0; at 0 [run] returns
    0; and [run] never returns before every [io_context] was stopped. *)
Theorem process_exits dcid cfg (p : process) : process_reachable dcid cfg p →
  (∀ p', pstep dcid p p' → exit_left p' ≤ exit_left p) ∧
  (stopping_ (p_server p) = true → running (p_server p) ∨ stopped (p_server p) = true → exit_left p ≠ 0 →
     ∃ p', pstep dcid p p' ∧ exit_left p' < exit_left p) ∧
  (exit_left p = 0 → run_result p = Some 0%Z) ∧
  (run_result p ≠ None → controls (p_server p) = [StopCalled; BeginShutdown; Finalize; HardStop]).
Proof.
  intros [H1 (L1 & L2 & L3) H3 H4 H5 H6 H7 _]%process_inv. pose proof (sv_stage _ _ (server_reachable_inv _ _ H1)) as Hs. split_and!.
  - apply pstep_left.
  - intros Hstop Hlive Hleft. destruct (stopped (p_server p)) eqn:Est.
    + destruct (decide (Running ∈ threads_ p)) as [(i & Hi)%list_elem_of_lookup|Hn].
      * exists (with_threads (<[i:=Ended]> (threads_ p)) p). split; [by apply p_thread_ends|]. unfold exit_left. cbn.
        pose proof (threads_left_insert _ _ _ Ended Hi). cbn in *. lia.
      * exists (fst (wait p)). split; [apply p_wait|]. destruct (join_all_done _ Hn) as [_ Hj]. unfold exit_left, wait in *.
        destruct (join_all (threads_ p)) as [ts b]. cbn in *. rewrite Hj. inversion Hs as [| | | |E]. rewrite <- E in *. cbn in *. lia.
    + destruct Hlive as [Hrun|?]; [|done]. inversion Hs as [E1 E2|E1 E2 E3|E1 E2 E3 E4|E1 E2 E3 E4|]; [congruence|..].
      * exists (begin_process_shutdown p). split; [by apply p_begin|]. unfold exit_left. cbn. rewrite <- E1. cbn. lia.
      * exists (with_server (finalize (p_server p)) p). split; [by apply p_finalize|]. unfold exit_left. cbn. rewrite <- E1. cbn. lia.
      * exists (with_server (hard_stop (p_server p)) p). split; [by apply p_hard_stop|]. unfold exit_left. cbn. rewrite <- E1. cbn. lia.
  - unfold exit_left, run_result, wait. intros Hl. destruct (join_all_done (threads_ p)) as [Hj _]; [apply threads_left_0; lia|].
    destruct (join_all (threads_ p)) as [ts b]. cbn in *. by rewrite Hj.
  - unfold run_result, wait. destruct (join_all (threads_ p)) as [ts b] eqn:Ej. cbn. destruct b; [|done]. intros _.
    assert (Running ∉ threads_ p) as Hn by (apply join_all_returned; by rewrite Ej).
    destruct (threads_ p) as [|t l] eqn:Et; [cbn in L3; lia|]. assert (stopped (p_server p) = true) as Hst.
    { apply (H7 0 t); [done|]. intros ->. apply Hn. by left. }
    rewrite Hst in Hs. by inversion Hs.
Qed.

Lemma server_started cfg sv : server_reachable cfg sv → started_ sv = true.
Proof.
  intros (ssl & env & sv0 & Hs & Hr). assert (started_ sv0 = true) as H0.
  { unfold server_start in Hs. cbn in Hs. destruct (make_cores _ _ _ _ _). destruct (tcp_listen _ _); [|done]. by injection Hs as <-. }
  clear Hs. induction Hr as [|s1 s2 s3 Hst _ IH]; [done|]. apply IH. destruct Hst; try done.
  - destruct res as [|peer]; [done|]. cbn. by destruct (remote peer).
  - unfold stop. by destruct (negb _ || _).
Qed.

Lemma destroy_parts_ok parts : Forall (λ x, from_option (λ x, world_inv ServerRole (QuicEngine.Server.srv_world (part_engine x))) True x) parts →
  ∀ evs, (∀ w ev x, evs !! w = Some ev → parts !! w = Some (Some x) → EngineDestroy.ends ev (QuicEngine.Server.srv_world (part_engine x))) →
  ∃ ws, destroy_parts evs parts = Some ws ∧ Forall (λ w, conns w = ∅ ∧ lstreams w = ∅ ∧ sessions w = ∅) ws.
Proof.
  induction 1 as [|x parts Hx _ IH]; intros [|ev evs] Hev; try (exists []; split; [by try destruct x|constructor]).
  destruct (IH evs) as (ws & E & Hws). { intros w. exact (Hev (S w)). }
  destruct x as [x|]; cbn; [|by exists ws].
  destruct (EngineDestroy.destroy_ok ServerRole ev _ Hx (Hev 0 ev x eq_refl eq_refl)) as (w' & new & -> & Hi & E1 & E2 & _). cbn. rewrite E. cbn.
  exists (w' :: ws). split; [done|]. constructor; [|done]. split_and!; [done..|]. by apply EngineDestroy.server_left_empty.
Qed.

(** The engines end with the process.  Once [wait] has returned, the
    destructor ends every worker's engine, in whatever order lsquic ends what is
    left, without a callback meeting an object of the engine that is gone, and
    leaves no connection, stream or session in any of them; before that it
    blocks. *)
Theorem process_destroyed dcid cfg (p : process) evs : process_reachable dcid cfg p →
  (∀ w ev x, evs !! w = Some ev → p_parts p !! w = Some (Some x) →
     EngineDestroy.ends ev (QuicEngine.Server.srv_world (part_engine x))) →
  (run_result p = Some 0%Z →
     ∃ ws, destroy_process evs p = Some ws ∧ Forall (λ w, conns w = ∅ ∧ lstreams w = ∅ ∧ sessions w = ∅) ws) ∧
  (run_result p = None → destroy_process evs p = None).
Proof.
  intros Hr Hev. pose proof (process_inv _ _ _ Hr) as [H1 (L1 & L2 & L3) H3 H4 H5 H6 H7 _].
  pose proof (server_started _ _ H1) as Hst.
  unfold destroy_process, run_result. rewrite Hst. unfold wait. cbn. destruct (join_all (threads_ p)) as [ts b]. cbn.
  split; destruct b; intros E; try done. clear E. apply destroy_parts_ok; [|done]. apply Forall_lookup. intros w [x|] Hx; [|done]. cbn.
  destruct (sv_len _ _ (server_reachable_inv _ _ H1)) as (M1 & _).
  destruct (lookup_lt_is_Some_2 (cores_ (p_server p)) w) as [c Hc]; [apply lookup_lt_Some in Hx; lia|].
  destruct (H4 w c x Hc Hx) as [_ Hq%qreachable_inv]. apply (qi_engine _ _ Hq).
Qed.

(** Relays are called back while the engine is destroyed.  [quic_engine_] is the
    first member of the worker after its [io_context], so it is destroyed after
    the pool, the router and the codecs; a stream that is still open then, with a
    read pending, completes the read into its relay. *)
Theorem relay_called_at_destruction dcid cfg (p : process) w x t c o y cap cb evs : process_reachable dcid cfg p →
  p_parts p !! w = Some (Some x) → lstreams (QuicEngine.Server.srv_world (part_engine x)) !! t = Some (c, Some o) →
  QuicSession.wrappers (QuicEngine.Server.srv_world (part_engine x)) !! o = Some y →
  QuicStream.read_cb_ (QuicSession.w_state y) = Some (cap, cb) →
  EngineDestroy.ends (EngineDestroy.EndStream t :: evs) (QuicEngine.Server.srv_world (part_engine x)) →
  ∃ w' outs, EngineDestroy.destroy_engine true (EngineDestroy.EndStream t :: evs) (QuicEngine.Server.srv_world (part_engine x)) = Some w' ∧
    StreamOut o outs ∈ calls w' ∧ QuicStream.CallRead cb (ReadErr eof) ∈ outs.
Proof.
  intros [H1 (L1 & L2 & L3) H3 H4 H5 H6 H7 _]%process_inv Hx Ht Ho Hcb Hev.
  destruct (sv_len _ _ (server_reachable_inv _ _ H1)) as (M1 & _).
  destruct (lookup_lt_is_Some_2 (cores_ (p_server p)) w) as [co Hc]; [apply lookup_lt_Some in Hx; lia|].
  destruct (H4 w co x Hc Hx) as [_ Hq%qreachable_inv]. pose proof (proj2 (qi_engine _ _ Hq)) as Hw. cbn in Hw.
  destruct (EngineDestroy.destroy_ok ServerRole _ _ Hw Hev) as (w' & new & E & _ & _ & _ & Ec & Hnew).
  exists w', (snd (QuicStream.on_close (QuicSession.w_state y))). split_and!; [done| |].
  - rewrite Ec. apply elem_of_app. left. apply Hnew. by exists t, c, y.
  - unfold QuicStream.on_close. rewrite Hcb. by left.
Qed.

(** ** Witnesses: two workers; a QUIC client of worker 0 opens a stream, its
    relay reads from it, and the server is stopped. *)

Definition env0 : environment :=
  Env true true true true 1 true ipv4_only true (λ _, true) (λ _, Advice false 0) (λ _, Some 2) (λ _, Some 7%Z) (λ _, true).

Definition started_process : process := default new_process (process_start env0 two_worker_config new_process).

(** Worker 0 after an event of lsquic. *)
Definition arrive (w : world) (xs : list call) (p : process) : process :=
  match cores_ (p_server p) !! 0, p_parts p !! 0 with
  | Some c, Some (Some x) => put_worker 0 (deliver_all xs (QuicWorker.set_world w (worker_of c x))) p
  | _, _ => p
  end.

Definition one_stream : process :=
  arrive QuicSession.one_client [NewStream 5 OnStream (Some 9)] (arrive connected [NewSession 5] started_process).

(** The world once the relay reads. *)
Definition reading_world : world := default QuicSession.one_client (QuicSession.use_stream (QuicStream.ORead 100 7) 9 QuicSession.one_client).
Definition one_reader : process := arrive reading_world [] one_stream.

Definition stopping_process : process := begin_process_shutdown (with_server (stop (p_server one_reader)) one_reader).
Definition stopped_process : process :=
  with_server (hard_stop (finalize (p_server stopping_process))) stopping_process.
Definition ended_process : process := with_threads [Ended; Ended; Ended] stopped_process.

Lemma reachable_r dcid cfg p p' : process_reachable dcid cfg p → pstep dcid p p' → process_reachable dcid cfg p'.
Proof. intros (env & p0 & Hs & Hr) Hst. exists env, p0. split; [done|by eapply rtc_r]. Qed.

Lemma arrive_reachable cfg p w xs c x : process_reachable short_header cfg p → running (p_server p) →
  cores_ (p_server p) !! 0 = Some c → p_parts p !! 0 = Some (Some x) →
  qevent (worker_of c x) (deliver_all xs (QuicWorker.set_world w (worker_of c x))) → process_reachable short_header cfg (arrive w xs p).
Proof. intros Hp Hr Hc Hx Hev. eapply reachable_r; [exact Hp|]. unfold arrive. rewrite Hc, Hx. by eapply p_event. Qed.

Lemma one_stream_reachable : process_reachable short_header two_worker_config one_stream.
Proof.
  assert (process_reachable short_header two_worker_config started_process) as H0 by (exists env0, started_process; split; [reflexivity|apply rtc_refl]).
  eapply arrive_reachable; [|solve_running|reflexivity|reflexivity|].
  - eapply arrive_reachable; [exact H0|solve_running|reflexivity|reflexivity|]. apply q_lsquic; [|reflexivity].
    eapply (ev_conn _ QuicSession.init_world connected 1 5 (QuicSession.PeerV4 #"10.0.0.1")); [done|done|vm_compute; reflexivity].
  - apply q_lsquic; [|reflexivity]. eapply (ev_stream _ connected QuicSession.one_client 1 8 9); [by eexists|done|done|vm_compute; reflexivity].
Qed.

Lemma one_reader_reachable : process_reachable short_header two_worker_config one_reader.
Proof.
  eapply (arrive_reachable _ _ reading_world []); [apply one_stream_reachable|solve_running|reflexivity|reflexivity|].
  eapply (q_use _ 0 9 (QuicStream.ORead 100 7)); [by left|exact I|reflexivity].
Qed.

Lemma stopping_process_reachable : process_reachable short_header two_worker_config stopping_process.
Proof.
  eapply reachable_r; [|apply p_begin; [solve_running|reflexivity]].
  eapply reachable_r; [apply one_reader_reachable|]. apply p_stop. solve_running.
Qed.

Lemma ended_process_reachable : process_reachable short_header two_worker_config ended_process.
Proof.
  assert (process_reachable short_header two_worker_config stopped_process) as Hst.
  { eapply reachable_r; [|apply (p_hard_stop _ (with_server (finalize (p_server stopping_process)) stopping_process)); [solve_running|reflexivity]].
    eapply reachable_r; [apply stopping_process_reachable|]. apply p_finalize; [solve_running|reflexivity]. }
  eapply reachable_r; [|eapply (p_thread_ends _ (with_threads [Ended; Ended; Running] stopped_process) 2); reflexivity].
  eapply reachable_r; [|eapply (p_thread_ends _ (with_threads [Ended; Running; Running] stopped_process) 1); reflexivity].
  eapply reachable_r; [exact Hst|eapply (p_thread_ends _ stopped_process 0); reflexivity].
Qed.

Lemma process_refines_witness : ∃ c x, cores_ (p_server one_reader) !! 0 = Some c ∧ p_parts one_reader !! 0 = Some (Some x) ∧
  part_clients x = [(0, 9)] ∧ qreachable two_worker_config (worker_of c x).
Proof.
  destruct (process_refines short_header two_worker_config one_reader one_reader_reachable) as (_ & _ & H & _).
  eexists _, _. split; [reflexivity|]. split; [reflexivity|]. split; [reflexivity|]. apply (H 0); reflexivity.
Defined.

Lemma process_tasks_run_witness : ∃ p' x', run_next 0 stopping_process = Some p' ∧ p_parts p' !! 0 = Some (Some x') ∧
  calls (QuicEngine.Server.srv_world (part_engine x')) = GoingAway 1 :: calls reading_world.
Proof.
  destruct (process_tasks_run short_header two_worker_config stopping_process 0 stopping_process_reachable ltac:(solve_running)) as [H _].
  destruct (H GracefulShutdown [] eq_refl) as (p' & H1 & _ & _ & _ & H2). destruct (H2 _ eq_refl) as (x' & cs & H3 & H4 & H5).
  exists p', x'. split; [exact H1|]. split; [exact H3|]. vm_compute in H4. apply Permutation_singleton_r in H4. subst cs. exact H5.
Defined.

Lemma process_exits_witness : (∃ p', pstep short_header stopping_process p' ∧ exit_left p' < exit_left stopping_process) ∧
  controls (p_server ended_process) = [StopCalled; BeginShutdown; Finalize; HardStop].
Proof.
  split.
  - destruct (process_exits short_header two_worker_config stopping_process stopping_process_reachable) as (_ & H & _).
    apply H; [reflexivity|left; solve_running|vm_compute; lia].
  - destruct (process_exits short_header two_worker_config ended_process ended_process_reachable) as (_ & _ & _ & H). apply H. vm_compute. discriminate.
Defined.

Definition ending_order : list (list EngineDestroy.ending) := [[EngineDestroy.EndStream 8; EngineDestroy.EndConn 1]; []].

Lemma ending_order_ends : ∀ w ev x, ending_order !! w = Some ev → p_parts ended_process !! w = Some (Some x) →
  EngineDestroy.ends ev (QuicEngine.Server.srv_world (part_engine x)).
Proof.
  intros [|[|w]] ev x; cbn [ending_order lookup list_lookup]; [intros [= <-] Hx..|done]; vm_compute in Hx; injection Hx as <-; vm_compute.
  - split; [by eexists|]. split; [done|]. split; [by intros t|done].
  - done.
Qed.

Lemma process_destroyed_witness : ∃ ws, destroy_process ending_order ended_process = Some ws ∧
  Forall (λ w, conns w = ∅ ∧ lstreams w = ∅ ∧ sessions w = ∅) ws.
Proof.
  apply (process_destroyed short_header two_worker_config ended_process ending_order ended_process_reachable ending_order_ends). reflexivity.
Defined.

Lemma relay_called_at_destruction_witness : run_result ended_process = Some 0%Z ∧
  ∃ x w' outs, p_parts ended_process !! 0 = Some (Some x) ∧
    EngineDestroy.destroy_engine true [EngineDestroy.EndStream 8; EngineDestroy.EndConn 1] (QuicEngine.Server.srv_world (part_engine x)) = Some w' ∧
    StreamOut 9 outs ∈ calls w' ∧ QuicStream.CallRead 7 (ReadErr eof) ∈ outs.
Proof.
  split; [reflexivity|]. eexists. pose proof (relay_called_at_destruction short_header two_worker_config ended_process 0) as H.
  destruct (H _ 8 1 9 _ 100%Z 7 [EngineDestroy.EndConn 1] ended_process_reachable eq_refl eq_refl eq_refl eq_refl) as (w' & outs & H1 & H2 & H3).
  - exact (ending_order_ends 0 _ _ eq_refl eq_refl).
  - exists w', outs. split; [reflexivity|]. split; [exact H1|]. split; [exact H2|exact H3].
Defined.
