(* ===== verification/UnitTests.v ===== *)
(** * The project's unit tests, run on the definitions (tests/*.cpp)

    Every test case of [test_h1_codec.cpp], [test_h3_codec.cpp] and
    [test_config.cpp] as an evaluation of the definitions that model the code
    under test: what the test requires of the program holds of its model.  A
    configuration file appears as the document the TOML parser makes of it. *)

From S2P Require Import Prelude CppStd Transport HttpMessage.
From S2P Require H1Codec H3Codec Config.
Import H1Codec (ParseOk, NullBody, BufferSrc).

(** The stream of [test_h1_codec.cpp]: it serves a given text and records what
    is written. *)
Record MockStream := Mock { data_ : bytes; written : bytes }.

#[global] Instance mock_stream : TransportStream MockStream := {|
  stream_read cap s := (ReadOk (take (Z.to_nat cap) (data_ s)), Mock (drop (Z.to_nat cap) (data_ s)) (written s));
  stream_write d s := (None, Mock (data_ s) (written s ++ d));
  stream_shutdown s := (None, s);
  stream_take_headers := no_take_headers;
  stream_send_headers := no_send_headers;
|}.

(** The lines of a message, each with its CRLF. *)
Definition lines (l : list bytes) : bytes := concat (map (λ s, s ++ CRLF) l).

Definition parse_request (text : bytes) := fst <$> H1Codec.async_parse_request 3 (Mock text []).
Definition parse_response (text : bytes) := fst <$> H1Codec.async_parse_response 3 (Mock text []).

(** What was written, up to the [n]th byte. *)
Definition written_request (head : HttpRequestHead) (n : nat) : option bytes :=
  '(_, s, _) ← H1Codec.async_write_request (B := BufferBodySource) 3 (Mock [] []) head None; Some (take n (written s)).

Ltac run := vm_compute; repeat eexists; reflexivity.

(** ** test_h1_codec.cpp *)

Example parses_simple_get : ∃ head,
  parse_request (lines [ #"GET /hello HTTP/1.1"; #"Host: example.com"; #"Accept: text/html"; []]) = Some (ParseOk head NullBody true) ∧
  method head = #"GET" ∧ path head = #"/hello" ∧ req_version head = #"HTTP/1.1" ∧
  HeaderMap.get #"host" (req_headers head) = Some #"example.com" ∧ HeaderMap.get #"accept" (req_headers head) = Some #"text/html" ∧
  req_content_length head = None.
Proof. run. Qed.

Example parses_post : ∃ head body ka,
  parse_request (lines [ #"POST /submit HTTP/1.1"; #"Host: api.example.com"; #"Content-Length: 13"; []] ++ #"Hello, World!") =
    Some (ParseOk head body ka) ∧
  method head = #"POST" ∧ path head = #"/submit" ∧ req_content_length head = Some 13%Z ∧ body = BufferSrc #"Hello, World!".
Proof. run. Qed.

Example parses_delete : ∃ head body ka,
  parse_request (lines [ #"DELETE /resource HTTP/1.1"; #"Host: local"; []]) = Some (ParseOk head body ka) ∧
  method head = #"DELETE" ∧ path head = #"/resource".
Proof. run. Qed.

Example header_map_lookup :
  let h := HeaderMap.set #"x-custom" #"bar" (HeaderMap.add #"X-Custom" #"foo" (HeaderMap.add #"Content-Type" #"text/html" HeaderMap.empty_map)) in
  HeaderMap.get #"content-type" h = Some #"text/html" ∧ HeaderMap.get #"CONTENT-TYPE" h = Some #"text/html" ∧
  HeaderMap.get #"X-Custom" h = Some #"bar" ∧ length (HeaderMap.get_all #"x-custom" h) = 1.
Proof. run. Qed.

Example normalizes_absolute_form : ∃ head body ka,
  parse_request (lines [ #"GET http://example.com:9001/path?q=1 HTTP/1.1"; #"Host: example.com:9001"; []]) = Some (ParseOk head body ka) ∧
  scheme head = #"http" ∧ authority head = #"example.com:9001" ∧ path head = #"/path?q=1" ∧ absolute_target head = true.
Proof. run. Qed.

Example absolute_form_without_port : ∃ head body ka,
  parse_request (lines [ #"GET http://example.com/ HTTP/1.1"; []]) = Some (ParseOk head body ka) ∧
  scheme head = #"http" ∧ authority head = #"example.com" ∧ path head = #"/" ∧ absolute_target head = true.
Proof. run. Qed.

Example absolute_form_https : ∃ head body ka,
  parse_request (lines [ #"GET https://secure.example.com/ HTTP/1.1"; #"Host: secure.example.com"; []]) = Some (ParseOk head body ka) ∧
  scheme head = #"https" ∧ authority head = #"secure.example.com" ∧ path head = #"/" ∧ absolute_target head = true.
Proof. run. Qed.

Example origin_form_from_host : ∃ head body ka,
  parse_request (lines [ #"GET /hello HTTP/1.1"; #"Host: example.com"; []]) = Some (ParseOk head body ka) ∧
  absolute_target head = false ∧ scheme head = #"http" ∧ authority head = #"example.com" ∧ path head = #"/hello".
Proof. run. Qed.

Example parses_http10 : ∃ head body,
  parse_request (lines [ #"GET /old HTTP/1.0"; []]) = Some (ParseOk head body false) ∧ req_version head = #"HTTP/1.0".
Proof. run. Qed.

Example parses_response_version : ∃ head body ka,
  parse_response (lines [ #"HTTP/1.0 200 OK"; #"Content-Length: 0"; []]) = Some (ParseOk head body ka) ∧
  status_code head = 200%Z ∧ reason head = #"OK" ∧ resp_version head = #"HTTP/1.0".
Proof. run. Qed.

(** A head with a method, a path, a version and a host. *)
Definition head_to (path version host : bytes) : HttpRequestHead :=
  RequestHead #"GET" version path [] [] false (HeaderMap.set #"host" host HeaderMap.empty_map) None.

Example writes_version : written_request (head_to #"/old" #"HTTP/1.0" #"example.com") 19 = Some (#"GET /old HTTP/1.0" ++ CRLF).
Proof. run. Qed.

Example normalizes_version : written_request (head_to #"/" #"HTTP/3" #"x") 16 = Some (#"GET / HTTP/1.1" ++ CRLF).
Proof. run. Qed.

(** ** test_h3_codec.cpp *)

Import H3Codec (encode_varint, decode_varint, varint_size, Varint, Parsed, f_method, f_path, f_hdrs, f_content_length,
  parse_request_headers, request_head_from_headers, response_head_from_headers).

Example varint_round_trip : Forall (λ v, let b := encode_varint v in
    Z.of_nat (length b) = varint_size v ∧ decode_varint b = Varint v (Z.of_nat (length b)))
  [0; 1; 63; 64; 16383; 16384; 1073741823; 1073741824; 4611686018427387903]%Z.
Proof. repeat constructor. Qed.

Example varint_boundaries :
  map varint_size [0; 63; 64; 16383; 16384; 1073741823; 1073741824]%Z = [1; 1; 2; 2; 4; 4; 8]%Z.
Proof. run. Qed.

Example varint_short_buffer : H3Codec.bytes_read (decode_varint [0x40]%Z) = 0%Z.
Proof. run. Qed.

(** The test's [add]: a literal field behind the payload. *)
Definition field (nv : bytes * bytes) : list Z :=
  let str s := encode_varint (Z.of_nat (length s)) ++ map code s in str (fst nv) ++ str (snd nv).
Definition payload (fields : HeaderList) : list Z := flat_map field fields.

Example parses_literal_headers : ∃ f,
  parse_request_headers (payload [(#":method", #"GET"); (#":path", #"/api"); (#":authority", #"example.com"); (#"content-length", #"42")]) = Parsed f ∧
  f_method f = #"GET" ∧ f_path f = #"/api" ∧ HeaderMap.get #"host" (f_hdrs f) = Some #"example.com" ∧ f_content_length f = Some 42%Z.
Proof. run. Qed.

Example literal_headers_unknown_pseudo : ∃ f,
  parse_request_headers (payload [(#":method", #"POST"); (#":path", #"/submit"); (#":scheme", #"https"); (#"x-custom", #"hello")]) = Parsed f ∧
  f_method f = #"POST" ∧ f_path f = #"/submit" ∧ HeaderMap.get #":scheme" (f_hdrs f) = None ∧ HeaderMap.get #"x-custom" (f_hdrs f) = Some #"hello".
Proof. run. Qed.

Example request_head_pseudo :
  let head := request_head_from_headers [(#":method", #"POST"); (#":scheme", #"https"); (#":authority", #"api.example.com");
    (#":path", #"/submit?q=1"); (#"content-type", #"application/json"); (#"x-custom", #"hello"); (#":unknown", #"ignored")] in
  method head = #"POST" ∧ req_version head = #"HTTP/3" ∧ scheme head = #"https" ∧ authority head = #"api.example.com" ∧
  path head = #"/submit?q=1" ∧ HeaderMap.get #"host" (req_headers head) = Some #"api.example.com" ∧
  HeaderMap.get #"content-type" (req_headers head) = Some #"application/json" ∧
  HeaderMap.get #"x-custom" (req_headers head) = Some #"hello" ∧ HeaderMap.get #":unknown" (req_headers head) = None ∧
  absolute_target head = false.
Proof. run. Qed.

Example request_head_content_length :
  req_content_length (request_head_from_headers [(#":method", #"GET"); (#":path", #"/"); (#"content-length", #"42")]) = Some 42%Z.
Proof. run. Qed.

Example response_head_status :
  let resp := response_head_from_headers [(#":status", #"200"); (#"content-type", #"text/plain"); (#"content-length", #"5")] in
  status_code resp = 200%Z ∧ reason resp = [] ∧ resp_version resp = #"HTTP/3" ∧
  HeaderMap.get #"content-type" (resp_headers resp) = Some #"text/plain" ∧ resp_content_length resp = Some 5%Z.
Proof. run. Qed.

Example response_head_unknown_pseudo :
  let resp := response_head_from_headers [(#":unknown", #"x"); (#"x-a", #"1")] in
  status_code resp = 0%Z ∧ HeaderMap.get #"x-a" (resp_headers resp) = Some #"1" ∧ HeaderMap.get #":unknown" (resp_headers resp) = None.
Proof. run. Qed.

(** ** test_config.cpp *)

Import Config (TTable, TArray, TString, TInteger, TBoolean, load_config, backends, ep_protocol, dual_stack).

Definition listen_section : bytes * Config.toml := (#"listen", TTable [(#"port", TInteger 8080)]).
Definition app1 : Config.toml := TTable [(#"id", TString #"app1"); (#"host", TString #"127.0.0.1"); (#"port", TInteger 9001)].
Definition app_h3 : Config.toml :=
  TTable [(#"id", TString #"app_h3"); (#"host", TString #"127.0.0.1"); (#"port", TInteger 19000); (#"protocol", TString #"h3")].

(** The protocols of the backends of a configuration. *)
Definition protocols (apps : list Config.toml) : option (list TransportProtocol) :=
  cfg ← load_config (TTable [listen_section; (#"backends", TArray apps)]); Some (map ep_protocol (backends cfg)).

Example protocol_defaults_to_h1 : protocols [app1] = Some [TCP].
Proof. run. Qed.

Example protocol_h3 : protocols [app_h3] = Some [QUIC].
Proof. run. Qed.

Example protocols_mixed : protocols [app1; app_h3] = Some [TCP; QUIC].
Proof. run. Qed.

Example dual_stack_default : dual_stack <$> load_config (TTable [listen_section]) = Some false.
Proof. run. Qed.

Example dual_stack_parsed :
  dual_stack <$> load_config (TTable [(#"listen", TTable [(#"port", TInteger 8080); (#"dual_stack", TBoolean true)])]) = Some true.
Proof. run. Qed.
